(* ===== verification/_CoqProject ===== *)
-Q . S2P
Prelude.v
JsString.v
ProtectionPlans.v
RemoveAssociation.v
Callbacks.v
Deferred.v
DeferredOnce.v
BrokerProfile.v
JsDate.v
DateFormat.v
DateFormatSpec.v
DateRoundTrip.v
DateWeeks.v
DatePicker.v
DatePickerSpec.v
DateDraw.v
DateGrid.v
DateManager.v
DateManagerSpec.v
Turbolinks.v
TurbolinksSpec.v
Params.v
Ujs.v
UjsSpec.v
BestInPlace.v
BestInPlaceSpec.v
Dropdown.v
Tab.v
Modal.v
ModalSpec.v
Doubles.v
PersonalProfile.v
AjaxConvert.v
Ajax.v
AjaxRuns.v
AjaxSpec.v
Events.v
EventsSpec.v
EventsOff.v
EventsOrder.v
Effects.v
EffectsRules.v
EffectsSpec.v
EffectsSerial.v
EffectsFindings.v
SizzleTokens.v
SizzleLex.v
Sizzle.v
SizzleDom.v
SizzleRun.v
SizzleMatch.v
SizzleCompile.v
SizzleQuery.v
SizzleSpec.v
SizzleFindings.v
Classes.v
ClassesSpec.v
