(* ===== verification/Prelude.v ===== *)
(** * webfinance: a verification library for its browser-side program

    webfinance is a Rails application; its program in JavaScript is what the pages run.
    The scripts of the application are under app/assets/javascripts, some in
    CoffeeScript, and one bundle holds them all, compiled, with the libraries
    they use: public/assets/application-8c8c95139e6d9e2169ef13452a74b441.js.  The models
    follow the scripts where they are JavaScript and the bundle otherwise.  Line
    numbers in the files are of the bundle.

    ** Parts

    - [ProtectionPlans] (protection_plans.js): the questionnaire on life
      insurance: its scores, its recommendation, and its wizard of questions.
    - [RemoveAssociation] (remove_association.js): nested rows removed and numbered again.
    - [PersonalProfile] (personal_profile.js): the crop of a picture, in the numbers of [Doubles], and
      two dialogs in global variables that outlive the page.
    - [BrokerProfile] (brokers.js.coffee, 32509-32743): panels, dialogs and forms of a
      broker's profile.
    - [Callbacks], [Deferred] (jQuery, 3000-3350): lists of callbacks and deferreds over
      a heap of shared objects; callbacks can call the lists they are in, and throw, which leaves a list firing.
    - [Events] (jQuery, 4254-4709, 4807-4890 and 5135-5270): handlers of elements, delegated and direct, bound, unbound
      and called; functions are scripts that bind, unbind and trigger, with fuel for the depth of calls.  In a browser without focusin
      the document of an element captures focus and blur for it.
    - [Effects] (jQuery, 3959-4088 and 6898-7655): queues of functions, delays, animations with their timers and
      promises, stopped and finished; functions of the page are scripts that call all of it, timeouts and the interval are steps.
    - [AjaxConvert], [Ajax] (jQuery, 8676-9300): requests, the data of their answers and the order of
      what they fire; the callbacks of a request are scripts that make, abort and watch requests.
    - [SizzleTokens], [Sizzle] (jQuery, 586-2555): the engine of selectors: their tokens, what they are compiled to, and the queries of a page one
      after another, with the caches that queries leave to those after them; [SizzleDom] says what a selector means.
    - [Classes] (jQuery, 404-409 and 8281-8428): the classes of elements, in texts that are searched and changed between spaces.
    - [JsDate] (the Date of the language, in one time zone), [DateFormat],
      [DatePicker], [DateDraw], [DateManager] (jQuery UI, 18875-20957): the
      datepicker.  [DateFormat] reads and writes dates, [DatePicker] is the state
      of one instance, [DateDraw] its table of days and its markup, [DateManager] the
      inputs, keys and methods over a heap of instances.
    - [Turbolinks] (12207-12812): pages fetched and swapped in one document, with a
      cache and the history of the browser.
    - [Params] (3634-3665, 9435-9535): data attributes and serialized forms.
    - [Ujs] (10360-10803): jquery_ujs, which makes links and forms confirm, send requests and
      be disabled meanwhile; it calls [Params], and its requests end as those of [Ajax] do.
    - [BestInPlace] (11239-11843): texts edited in place.
    - [Dropdown], [Tab], [Modal] (Bootstrap, 13848-14119 and 14360-14629): menus, panes and dialogs
      that change when their transitions end.

    ** How the models are made

    Handlers are in the monad [st_ex] of a state and exceptions, below, or functions of a
    state.  A callback, a timer, a request or a user is not run by the handler that
    starts it: it is an event of a later step, and the theorems quantify over lists
    of events.  Texts are lists of characters ([JsString]); numbers are integers, with [None]
    for NaN in dates, or doubles ([Doubles]); objects used as maps are lists in the order of their keys.
    What is not JavaScript is a parameter with named laws: [Browser] (addresses and bodies) for
    Turbolinks, [Markup] (HTML and JSON) for best_in_place, [world] (listeners, the user, the
    transport) for jquery_ujs.

    ** Theorems

    - Refinements: sessions of the datepicker are a calendar that holds one day between
      bounds ([DateManagerSpec.session_refines]); the indices of jQuery.Callbacks are a queue
      ([DeferredOnce.evaluators_agree]); an editor in place is a machine of three phases
      ([BestInPlaceSpec.editor_refines]); a modal left its transitions is a boolean
      ([ModalSpec.modal_settles]); the arrays of queues are lists, first in, first out ([EffectsSpec.queues_in_order]);
      texts of classes are the lists that HTML reads in them ([ClassesSpec.classes_refine]).
    - Round trips: dates parsed after they are formatted ([DateRoundTrip]), dates set and
      read, a page left and the button back ([TurbolinksSpec.visit_back]), names and values
      serialized ([Params.param_roundtrip]), a selector and its tokens ([SizzleLex.tokens_cover]).
    - Invariants and safety: the history and the cache of Turbolinks, panels and forms of
      the broker, deferreds and requests settled once ([AjaxSpec]), lists of handlers in order ([EventsSpec]),
      one thing of a queue at a time ([EffectsSerial.one_at_a_time]) and promises of queues that wait ([EffectsSpec.promises_wait]), the cells of a month and their bounds,
      confirmations refused, required fields, no handler of Turbolinks that throws in a browser other than Firefox; one menu
      open ([Dropdown.dropdown_exclusive]), one item and one pane active ([Tab.tab_exclusive]).
    - Liveness: links with requests enabled again ([UjsSpec.links_restored]), callbacks
      of a deferred all called, the picker that opens.
    - Functions against references: queries find what their selectors mean, caches and shortcuts included ([SizzleSpec.session_answers], by
      [SizzleRun], [SizzleMatch], [SizzleCompile] and [SizzleQuery]); handlers removed and called ([EventsOff], [EventsOrder]), ISO weeks by day numbers ([DateWeeks]), the table of
      a month ([DateGrid]), sizes scaled in doubles ([PersonalProfile.PersonalProfile.crop_preview]), moves by days, months and years ([DatePickerSpec]), the table of
      scores of the questionnaire.

    Each Spec file has the theorems of the component it is named after; their
    witnesses apply them to small pages, dates or sessions.  [EffectsFindings] and [SizzleFindings] run sessions in which the
    program does what it does not mean to.  [SizzleSpec.session_answers] asks that the values of [dirruns], made of draws, are distinct, that
    selectors have no pseudo-class that is not modelled, and, as a condition that is computed ([SizzleCompile.stable]), that what the
    shortcuts leave of a selector reads back as the tokens left; no selector without it is known.

    ** Fuel

    Loops that are not structural take fuel, with a theorem that it is enough: [parseDate]
    turns years into days with one turn for each month of the day number
    ([DateFormatSpec.parse_terminates]); [back_to] of [DateDraw] and the removal of
    [noscript], and [Classes.remove_all], have the length of what they shorten.  [Ajax.exec] takes the fuel of
    its scripts, [AjaxRuns.spent], for sessions that end ([AjaxSpec.requests_settle_once]).  [Events.exec] is as
    deep as calls go, and [EventsOrder.trigger_calls] takes two.  [Effects.exec] is as deep as calls go too; its theorems
    hold for any fuel, as a call too deep throws, and a step that throws ends there.  [SizzleTokens.lex], [Sizzle.compile_n] and [Sizzle.sizzle_n] are as deep as
    selectors in selectors go, and the length of a selector is enough ([SizzleLex.tokenize_answers], [SizzleSpec.sizzle_does]).  Evaluations of callbacks
    ([Deferred.run]) take fuel as the program may not stop, and both
    evaluators stop for the same fuel.

    ** Not modelled

    Manipulation of the DOM, styles and native
    events are what the models start from: elements are records that the handlers find.  Of selectors, positional pseudo-classes,
    those that ask the browser (:lang, :focus, :target), escapes, and the browser's own querySelectorAll are not.  Of effects, show, hide and
    the units of sizes ask the browser for styles, and are not.  Of events, the bubbling of submit and change in old browsers and the types that
    Bootstrap adds are not.
    Of $.ajax, headers, addresses and caches are not.  The autosize of text areas, purr, Jcrop, the
    uploads of remotipart, the other widgets of Bootstrap and of
    jQuery UI are not modelled; nor are the scripts of one line.  modalbox.js is not loaded by the pages. *)

From Stdlib Require Import ZArith Lia Ascii Sorting.Permutation.
From stdpp Require Export base list gmap strings sorting.

Declare Scope js_scope.
Delimit Scope js_scope with js.

(** ** Exceptions: a JavaScript call returns a value or throws a message. *)

Inductive jsres (A : Type) : Type :=
| Ok (a : A)
| Throw (msg : string).
Arguments Ok {A} a.
Arguments Throw {A} msg.

Definition jbind {A B} (r : jsres A) (k : A -> jsres B) : jsres B :=
  match r with
  | Ok a => k a
  | Throw m => Throw m
  end.

Notation "'let?' x ':=' e 'in' k" := (jbind e (fun x => k))
  (at level 10, x pattern, e at level 100, k at level 200) : js_scope.

Lemma jbind_ok {A B} (r : jsres A) (k : A -> jsres B) b :
  jbind r k = Ok b <-> exists a, r = Ok a /\ k a = Ok b.
Proof. destruct r; simpl; naive_solver. Qed.

Lemma jbind_assoc {A B C} (r : jsres A) (f : A -> jsres B) (g : B -> jsres C) :
  jbind (jbind r f) g = jbind r (fun a => jbind (f a) g).
Proof. by destruct r. Qed.

(** ** Handlers: a state is changed until the end or until an exception. *)

Definition st_ex (S A : Type) : Type := S -> S * jsres A.

Definition sret {S A} (a : A) : st_ex S A := fun s => (s, Ok a).
Definition sthrow {S A} (msg : string) : st_ex S A := fun s => (s, Throw msg).
Definition sbind {S A B} (e : st_ex S A) (k : A -> st_ex S B) : st_ex S B := fun s =>
  match e s with
  | (s, Ok a) => k a s
  | (s, Throw msg) => (s, Throw msg)
  end.
Definition smodify {S} (f : S -> S) : st_ex S unit := fun s => (f s, Ok tt).
Definition sget {S A} (f : S -> A) : st_ex S A := fun s => (s, Ok (f s)).
Definition swhen {S} (b : bool) (e : st_ex S unit) : st_ex S unit := if b then e else sret tt.

(** [try { e } catch (err) {}] *)
Definition stry {S} (e : st_ex S unit) : st_ex S unit := fun s => ((e s).1, Ok tt).

Notation "'let!' x ':=' e 'in' k" := (sbind e (fun x => k))
  (at level 10, x pattern, e at level 100, k at level 200) : js_scope.
Notation "e ;! k" := (sbind e (fun _ => k)) (at level 100, k at level 200, right associativity) : js_scope.

Lemma sbind_ok {S A B} (e : st_ex S A) (k : A -> st_ex S B) s s' b :
  sbind e k s = (s', Ok b) <-> exists s1 a, e s = (s1, Ok a) /\ k a s1 = (s', Ok b).
Proof. unfold sbind. destruct (e s) as [s1 [a|msg]]; naive_solver. Qed.

Lemma sbind_run {S A B} (e : st_ex S A) (k : A -> st_ex S B) s s' a : e s = (s', Ok a) -> sbind e k s = k a s'.
Proof. unfold sbind. by intros ->. Qed.

(** Total correctness of a handler: from a state in [P] it returns, without an
    exception, in [Q]. *)
Definition hoare {S A} (P : S -> Prop) (e : st_ex S A) (Q : A -> S -> Prop) : Prop :=
  forall s, P s -> exists s' a, e s = (s', Ok a) /\ Q a s'.

Lemma hoare_ret {S A} (P : S -> Prop) (a : A) (Q : A -> S -> Prop) : (forall s, P s -> Q a s) -> hoare P (sret a) Q.
Proof. intros H s Hs. exists s, a. auto. Qed.

Lemma hoare_bind {S A B} P (e : st_ex S A) R (k : A -> st_ex S B) Q :
  hoare P e R -> (forall a, hoare (R a) (k a) Q) -> hoare P (sbind e k) Q.
Proof.
  intros He Hk s Hs. destruct (He s Hs) as (s1 & a & E & Ha). destruct (Hk a s1 Ha) as (s2 & b & E2 & Hb).
  exists s2, b. unfold sbind. by rewrite E.
Qed.

Lemma hoare_modify {S} P (f : S -> S) Q : (forall s, P s -> Q tt (f s)) -> hoare P (smodify f) Q.
Proof. intros H s Hs. exists (f s), tt. auto. Qed.

Lemma hoare_when {S} P (b : bool) (e : st_ex S unit) Q :
  (b = true -> hoare P e (fun _ => Q)) -> (b = false -> forall s, P s -> Q s) -> hoare P (swhen b e) (fun _ => Q).
Proof. intros H1 H2. destruct b; [by apply H1|]. apply hoare_ret. by apply H2. Qed.

Lemma hoare_post {S A} P (e : st_ex S A) (Q R : A -> S -> Prop) :
  hoare P e Q -> (forall a s, Q a s -> R a s) -> hoare P e R.
Proof. intros He H s Hs. destruct (He s Hs) as (s' & a & E & Ha). exists s', a. auto. Qed.

(** Partial correctness: from a state in [P] a handler returns in [Q] or throws in [E]. *)
Definition leaves {S A} (r : S * jsres A) (Q : A -> S -> Prop) (E : S -> Prop) : Prop :=
  match r with (s, Ok a) => Q a s | (s, Throw _) => E s end.

Definition triple {S A} (P : S -> Prop) (e : st_ex S A) (Q : A -> S -> Prop) (E : S -> Prop) : Prop :=
  forall s, P s -> leaves (e s) Q E.

Lemma leaves_impl {S A} (r : S * jsres A) (Q Q' : A -> S -> Prop) (E E' : S -> Prop) :
  leaves r Q E -> (forall a s, Q a s -> Q' a s) -> (forall s, E s -> E' s) -> leaves r Q' E'.
Proof. destruct r as [s [a|m]]; simpl; auto. Qed.

Lemma leaves_bind {S A B} (e : st_ex S A) (k : A -> st_ex S B) s R Q E :
  leaves (e s) R E -> (forall a s', R a s' -> leaves (k a s') Q E) -> leaves (sbind e k s) Q E.
Proof. unfold sbind. destruct (e s) as [s' [a|m]]; simpl; auto. Qed.

Lemma triple_bind {S A B} P (e : st_ex S A) R (k : A -> st_ex S B) Q E :
  triple P e R E -> (forall a, triple (R a) (k a) Q E) -> triple P (sbind e k) Q E.
Proof. intros He Hk s Hs. apply (leaves_bind _ _ _ R); [by apply He|]. intros a s'. apply Hk. Qed.

Lemma triple_ret {S A} (P : S -> Prop) (a : A) (Q : A -> S -> Prop) E : (forall s, P s -> Q a s) -> triple P (sret a) Q E.
Proof. intros H s. apply H. Qed.

Lemma triple_throw {S A} (P : S -> Prop) msg (Q : A -> S -> Prop) E : (forall s, P s -> E s) -> triple P (sthrow msg) Q E.
Proof. intros H s. apply H. Qed.

Lemma triple_modify {S} (P : S -> Prop) (f : S -> S) Q E : (forall s, P s -> Q tt (f s)) -> triple P (smodify f) Q E.
Proof. intros H s. apply H. Qed.

(** A value that is read is known of the state it was read from. *)
Lemma triple_get {S A B} (P : S -> Prop) (f : S -> A) (k : A -> st_ex S B) Q E :
  (forall a, triple (fun s => P s /\ f s = a) (k a) Q E) -> triple P (sbind (sget f) k) Q E.
Proof. intros H s Hs. by apply H. Qed.

Lemma triple_when {S} (P : S -> Prop) (b : bool) (e : st_ex S unit) Q E :
  (b = true -> triple P e (fun _ => Q) E) -> (b = false -> forall s, P s -> Q s) -> triple P (swhen b e) (fun _ => Q) E.
Proof. intros H1 H2. destruct b; [by apply H1|]. apply triple_ret. by apply H2. Qed.

Lemma triple_impl {S A} (P P' : S -> Prop) (e : st_ex S A) (Q Q' : A -> S -> Prop) (E E' : S -> Prop) :
  triple P e Q E -> (forall s, P' s -> P s) -> (forall a s, Q a s -> Q' a s) -> (forall s, E s -> E' s) -> triple P' e Q' E'.
Proof. intros H H1 H2 H3 s Hs. eapply leaves_impl; [by apply H, H1|done|done]. Qed.

(** ** [Array.prototype.sort] with a comparator: the stable order. *)

Section sort.
Context {A : Type} (cmp : A -> A -> Z).

Fixpoint js_insert (x : A) (l : list A) : list A :=
  match l with
  | [] => [x]
  | y :: l' => if Z.leb (cmp x y) 0 then x :: y :: l' else y :: js_insert x l'
  end.

Definition js_sort (l : list A) : list A := foldr js_insert [] l.

Lemma js_insert_perm x l : js_insert x l ≡ₚ x :: l.
Proof.
  induction l as [|y l IH]; simpl; [done|].
  destruct (Z.leb _ _); [done|]. rewrite IH. apply Permutation_swap.
Qed.

Lemma js_sort_perm l : js_sort l ≡ₚ l.
Proof.
  induction l as [|x l IH]; simpl; [done|]. rewrite js_insert_perm. by rewrite IH.
Qed.

Lemma js_sort_length l : length (js_sort l) = length l.
Proof. by rewrite js_sort_perm. Qed.

Lemma js_sort_elem x l : x ∈ js_sort l <-> x ∈ l.
Proof. by rewrite js_sort_perm. Qed.

(** The comparator of a numeric key, ascending: [cmp a b = key a - key b]. *)
Context (key : A -> Z) (cmp_key : forall a b, cmp a b = (key a - key b)%Z).

Lemma js_insert_sorted x l :
  StronglySorted (fun a b => key a <= key b)%Z l ->
  StronglySorted (fun a b => key a <= key b)%Z (js_insert x l).
Proof.
  induction 1 as [|y l Hs IH Hall]; simpl; [repeat constructor|].
  rewrite cmp_key. destruct (Z.leb_spec (key x - key y) 0).
  - repeat constructor; [done|done|lia|]. eapply Forall_impl; [done|]. simpl. lia.
  - constructor; [done|]. rewrite js_insert_perm. constructor; [lia|done].
Qed.

Lemma js_sort_sorted l : StronglySorted (fun a b => key a <= key b)%Z (js_sort l).
Proof. induction l; simpl; [constructor|by apply js_insert_sorted]. Qed.
End sort.

(** ** Lists *)

Lemma filter_all {A} (P : A -> Prop) `{!forall x, Decision (P x)} (l : list A) : Forall P l -> filter P l = l.
Proof. induction 1; [done|]. rewrite filter_cons_True by done. by f_equal. Qed.

Lemma filter_none {A} (P : A -> Prop) `{!forall x, Decision (P x)} (l : list A) :
  Forall (fun x => ~ P x) l -> filter P l = [].
Proof. induction 1; [done|]. by rewrite filter_cons_False by done. Qed.

Lemma filter_same {A} (P Q : A -> Prop) `{!forall x, Decision (P x), !forall x, Decision (Q x)} (l : list A) :
  (forall x, x ∈ l -> P x <-> Q x) -> filter P l = filter Q l.
Proof.
  induction l as [|x l IH]; intros Hl; [done|]. assert (P x <-> Q x) as Hx by (apply Hl; left).
  rewrite !filter_cons, IH by (intros y Hy; apply Hl; by right). destruct (decide (P x)), (decide (Q x)); tauto.
Qed.

Lemma Forall_filtered {A} (P Q : A -> Prop) `{!forall x, Decision (Q x)} (l : list A) : Forall P l -> Forall P (filter Q l).
Proof. intros Hl. apply Forall_forall. intros x [_ Hx]%list_elem_of_filter. by apply (proj1 (Forall_forall _ _) Hl). Qed.

(** Related lists are related at every index. *)
Definition opt_rel {A B} (R : A -> B -> Prop) (x : option A) (y : option B) : Prop :=
  match x, y with Some a, Some b => R a b | None, None => True | _, _ => False end.

Lemma Forall2_opt_rel {A B} (R : A -> B -> Prop) l k n :
  Forall2 R l k -> opt_rel R (l !! n) (k !! n).
Proof. intros H. revert n. induction H; intros [|n]; simpl; auto. Qed.

(** Sums over a list, of numbers that depend on the index. *)

Section total.
Context {A : Type}.
Implicit Types (g : nat -> A -> nat) (f : A -> A).

Fixpoint total_from (g : nat -> A -> nat) (i : nat) (l : list A) : nat :=
  match l with
  | [] => 0
  | q :: l => g i q + total_from g (S i) l
  end.
Definition total (g : nat -> A -> nat) (l : list A) : nat := total_from g 0 l.

Lemma total_from_app g l q : forall i, total_from g i (l ++ [q]) = total_from g i l + g (i + length l) q.
Proof.
  induction l as [|x l IH]; intros i; cbn; [by rewrite !Nat.add_0_r|].
  rewrite IH. replace (S i + length l) with (i + S (length l)) by lia. lia.
Qed.

Lemma total_from_alter g f l q : forall id i, l !! id = Some q ->
  total_from g i (alter f id l) + g (i + id) q = total_from g i l + g (i + id) (f q).
Proof.
  induction l as [|x l IH]; intros [|id] i E; cbn in *; [done|done|injection E as ->; rewrite Nat.add_0_r; lia|].
  specialize (IH id (S i) E). replace (i + S id) with (S i + id) by lia.
  change (list_alter f id l) with (alter f id l). lia.
Qed.

Lemma total_from_ext g g' l : forall n, (forall i q, l !! i = Some q -> g (n + i) q = g' (n + i) q) ->
  total_from g n l = total_from g' n l.
Proof.
  induction l as [|x l IH]; intros n H; cbn; [done|]. specialize (H 0 x eq_refl) as H0.
  rewrite Nat.add_0_r in H0. rewrite H0. f_equal. apply IH. intros i q E. specialize (H (S i) q E).
  by replace (S n + i) with (n + S i) by lia.
Qed.

Lemma total_app g l q : total g (l ++ [q]) = total g l + g (length l) q.
Proof. apply total_from_app. Qed.

Lemma total_alter g f id l q : l !! id = Some q -> total g (alter f id l) + g id q = total g l + g id (f q).
Proof. apply (total_from_alter g f l q id 0). Qed.

Lemma total_ext g g' l : (forall i q, l !! i = Some q -> g i q = g' i q) -> total g l = total g' l.
Proof. apply (total_from_ext g g' l 0). Qed.

Lemma total_from_le g l q : forall id i, l !! id = Some q -> g (i + id) q <= total_from g i l.
Proof.
  induction l as [|x l IH]; intros [|id] i E; cbn in *; [done|done|injection E as ->; rewrite Nat.add_0_r; lia|].
  specialize (IH id (S i) E). replace (i + S id) with (S i + id) by lia. lia.
Qed.

Lemma total_le g l id q : l !! id = Some q -> g id q <= total g l.
Proof. apply (total_from_le g l q id 0). Qed.

(** An element changes, and what the numbers are for it. *)
Lemma total_from_change g g' f l q : forall id n, l !! id = Some q ->
  (forall i x, l !! i = Some x -> i <> id -> g' (n + i) x = g (n + i) x) ->
  total_from g' n (alter f id l) + g (n + id) q = total_from g n l + g' (n + id) (f q).
Proof.
  induction l as [|x l IH]; intros [|id] n E H; [done|done| |].
  - injection E as ->. change (alter f 0 (q :: l)) with (f q :: l). cbn. rewrite !Nat.add_0_r.
    rewrite (total_from_ext g' g l (S n)); [lia|]. intros i y Hi. specialize (H (S i) y Hi ltac:(lia)). by replace (S n + i) with (n + S i) by lia.
  - change (alter f (S id) (x :: l)) with (x :: alter f id l). cbn. specialize (H 0 x eq_refl ltac:(lia)) as H0. rewrite !Nat.add_0_r in H0. rewrite H0.
    specialize (IH id (S n) E). replace (n + S id) with (S n + id) by lia. rewrite <- !Nat.add_assoc. rewrite IH; [done|].
    intros i y Hi Hne. specialize (H (S i) y Hi ltac:(lia)). by replace (S n + i) with (n + S i) by lia.
Qed.

Lemma total_change g g' f id l q : l !! id = Some q -> (forall i x, l !! i = Some x -> i <> id -> g' i x = g i x) ->
  total g' (alter f id l) + g id q = total g l + g' id (f q).
Proof. apply (total_from_change g g' f l q id 0). Qed.

Lemma total_mono g g' l : (forall id q, l !! id = Some q -> g id q <= g' id q) -> total g l <= total g' l.
Proof.
  unfold total. assert (forall n, (forall id q, l !! id = Some q -> g (n + id) q <= g' (n + id) q) -> total_from g n l <= total_from g' n l) as H.
  { induction l as [|x l IH]; intros n H; cbn; [done|]. apply Nat.add_le_mono.
    - specialize (H 0 x eq_refl). by rewrite Nat.add_0_r in H.
    - apply IH. intros id q E. specialize (H (S id) q E). by replace (S n + id) with (n + S id) by lia. }
  apply (H 0).
Qed.

Lemma total_zero g l : (forall id q, l !! id = Some q -> g id q = 0) -> total g l = 0.
Proof.
  intros H. rewrite (total_ext g (fun _ _ => 0) l H). unfold total. generalize 0 at 2. clear H.
  induction l as [|x l IH]; intros n; [done|apply IH].
Qed.
End total.

(** ** Tactics *)

(** Case analysis on every boolean comparison of the goal. *)
Ltac bool_cases :=
  repeat match goal with
  | |- context [Z.eqb ?a ?b] => destruct (Z.eqb_spec a b)
  | |- context [Z.leb ?a ?b] => destruct (Z.leb_spec a b)
  | |- context [Z.ltb ?a ?b] => destruct (Z.ltb_spec a b)
  | |- context [Nat.eqb ?a ?b] => destruct (Nat.eqb_spec a b)
  | |- context [Nat.leb ?a ?b] => destruct (Nat.leb_spec a b)
  | |- context [Nat.ltb ?a ?b] => destruct (Nat.ltb_spec a b)
  end.

(** The first part of a handler, by a specification of it. *)
Ltac hbind tac := eapply hoare_bind; [solve [tac]|intros ?; cbn beta].

(** Decides the [bool_decide] of an arithmetic fact. *)
Ltac bd :=
  repeat first
    [ rewrite bool_decide_true by (done || lia)
    | rewrite bool_decide_false by (done || lia) ];
  try done.
