(* ===== verification/JsString.v ===== *)
(** * JavaScript text: digits, numerals, the string methods the program calls

    A string is the list of its code units, restricted to 8-bit characters. *)

From S2P Require Import Prelude.
From Stdlib Require Import ZArith Lia Ascii.
Local Open Scope Z_scope.

Abbreviation text := (list ascii).

Definition txt (s : string) : text := String.list_ascii_of_string s.
Definition str (t : text) : string := String.string_of_list_ascii t.

Lemma txt_str t : txt (str t) = t.
Proof. apply String.list_ascii_of_string_of_list_ascii. Qed.

Lemma str_txt s : str (txt s) = s.
Proof. apply String.string_of_list_ascii_of_string. Qed.

(** ** Digits *)

Definition code (c : ascii) : Z := Z.of_nat (nat_of_ascii c).
Definition is_digit (c : ascii) : bool := (48 <=? code c) && (code c <=? 57).
Definition digit_val (c : ascii) : Z := code c - 48.
Definition digit_char (d : Z) : ascii := ascii_of_nat (Z.to_nat (48 + d)).

Lemma code_digit_char d : 0 <= d <= 9 -> code (digit_char d) = 48 + d.
Proof. intros H. unfold code, digit_char. rewrite nat_ascii_embedding by lia. lia. Qed.

Lemma digit_char_is_digit d : 0 <= d <= 9 -> is_digit (digit_char d) = true.
Proof. intros H. unfold is_digit. rewrite code_digit_char by done. lia. Qed.

Lemma digit_val_char d : 0 <= d <= 9 -> digit_val (digit_char d) = d.
Proof. intros H. unfold digit_val. rewrite code_digit_char by done. lia. Qed.

(** [parseInt] of a run of decimal digits. *)
Definition parse_digits (l : text) : Z := foldl (fun acc c => 10 * acc + digit_val c) 0 l.

Lemma parse_digits_snoc l c : parse_digits (l ++ [c]) = 10 * parse_digits l + digit_val c.
Proof. unfold parse_digits. by rewrite foldl_snoc. Qed.

Lemma parse_digits_zeros n l : parse_digits (replicate n (digit_char 0) ++ l) = parse_digits l.
Proof. unfold parse_digits. rewrite foldl_app. f_equal. by induction n. Qed.

(** [Number.prototype.toString] of a nonnegative integer. *)
Fixpoint print_digits (fuel : nat) (n : Z) : text :=
  match fuel with
  | O => []
  | S f => if n <? 10 then [digit_char n]
           else print_digits f (n / 10) ++ [digit_char (n mod 10)]
  end.

Definition print_nat (n : Z) : text := print_digits (S (Z.to_nat (Z.log2 n))) n.

Definition print_Z (n : Z) : text :=
  if n <? 0 then "-"%char :: print_nat (- n) else print_nat n.

Lemma log2_div10 n : 10 <= n -> (Z.to_nat (Z.log2 (n / 10)) < Z.to_nat (Z.log2 n))%nat.
Proof.
  intros H. assert (Z.log2 (n / 10) < Z.log2 n); [|pose proof (Z.log2_nonneg (n/10)); lia].
  assert (Z.log2 (n / 2) = Z.log2 n - 1) as H1.
  { pose proof (Z.log2_shiftr n 1 ltac:(lia)) as H1. rewrite Z.shiftr_div_pow2 in H1 by lia.
    change (2 ^ 1) with 2 in H1. assert (1 <= Z.log2 n) by (apply (Z.log2_le_mono 2 n); lia). lia. }
  assert (n / 10 <= n / 2) as H2 by (apply Z.div_le_compat_l; lia).
  apply Z.log2_le_mono in H2. lia.
Qed.

(** The unfolding equation of [print_nat], free of fuel. *)
Lemma print_digits_fuel f1 : forall f2 n, 0 <= n ->
  (Z.to_nat (Z.log2 n) < f1)%nat -> (Z.to_nat (Z.log2 n) < f2)%nat ->
  print_digits f1 n = print_digits f2 n.
Proof.
  induction f1 as [|f1 IH]; intros [|f2] n Hn H1 H2; try lia. simpl.
  destruct (Z.ltb_spec n 10); [done|]. pose proof (log2_div10 n ltac:(lia)).
  rewrite (IH f2) by (try (apply Z.div_pos; lia); lia). done.
Qed.

Lemma print_nat_unfold n : 0 <= n ->
  print_nat n = if n <? 10 then [digit_char n] else print_nat (n / 10) ++ [digit_char (n mod 10)].
Proof.
  intros Hn. unfold print_nat at 1. cbn [print_digits].
  destruct (Z.ltb_spec n 10); [done|]. f_equal. pose proof (log2_div10 n ltac:(lia)).
  apply print_digits_fuel; [apply Z.div_pos; lia|lia|lia].
Qed.

Lemma nat_digits_ind (P : Z -> Prop) :
  (forall n, 0 <= n < 10 -> P n) -> (forall n, 10 <= n -> P (n / 10) -> P n) ->
  forall n, 0 <= n -> P n.
Proof.
  intros H0 HS n Hn. revert n Hn. apply Zlt_0_ind. intros n IH Hn.
  destruct (decide (n < 10)); [apply H0; lia|]. apply HS; [lia|].
  apply IH. split; [apply Z.div_pos; lia|apply Z.div_lt; lia].
Qed.

Lemma parse_print n : 0 <= n -> parse_digits (print_nat n) = n.
Proof.
  revert n; apply nat_digits_ind.
  - intros n H. rewrite print_nat_unfold by lia. destruct (Z.ltb_spec n 10); [|lia].
    unfold parse_digits; simpl. rewrite digit_val_char; lia.
  - intros n H IH. rewrite print_nat_unfold by lia. destruct (Z.ltb_spec n 10); [lia|].
    rewrite parse_digits_snoc, IH, digit_val_char; [pose proof (Z.div_mod n 10 ltac:(lia)); lia|].
    pose proof (Z.mod_pos_bound n 10); lia.
Qed.

Lemma print_nat_digits n : 0 <= n -> Forall (fun c => is_digit c = true) (print_nat n).
Proof.
  revert n; apply nat_digits_ind.
  - intros n H. rewrite print_nat_unfold by lia. destruct (Z.ltb_spec n 10); [|lia].
    repeat constructor. apply digit_char_is_digit; lia.
  - intros n H IH. rewrite print_nat_unfold by lia. destruct (Z.ltb_spec n 10); [lia|].
    apply Forall_app; split; [done|]. repeat constructor. apply digit_char_is_digit.
    pose proof (Z.mod_pos_bound n 10); lia.
Qed.

Lemma print_nat_nonempty n : 0 <= n -> print_nat n <> [].
Proof.
  intros H. rewrite print_nat_unfold by lia. destruct (n <? 10); [done|]. by destruct (print_nat _).
Qed.

Lemma print_nat_length n (k : nat) : 0 <= n -> n < 10 ^ Z.of_nat k -> (1 <= k)%nat ->
  (length (print_nat n) <= k)%nat.
Proof.
  intros Hn. revert k. revert n Hn. apply (nat_digits_ind (fun n => forall k, _ -> _ -> _)).
  - intros n H k ? ?. rewrite print_nat_unfold by lia. destruct (Z.ltb_spec n 10); simpl; lia.
  - intros n H IH k Hk ?. rewrite print_nat_unfold by lia. destruct (Z.ltb_spec n 10); [lia|].
    rewrite length_app; simpl. destruct k as [|[|k]]; [lia|simpl in Hk; lia|].
    assert (length (print_nat (n / 10)) <= S k)%nat; [|lia].
    apply IH; [|lia]. apply Z.div_lt_upper_bound; [lia|].
    rewrite (Nat2Z.inj_succ (S k)), Z.pow_succ_r in Hk by lia. lia.
Qed.

Lemma print_nat_length_ge n (k : nat) : 0 <= n -> 10 ^ Z.of_nat k <= n ->
  (k < length (print_nat n))%nat.
Proof.
  intros Hn. revert k. revert n Hn. apply (nat_digits_ind (fun n => forall k, _ -> _)).
  - intros n H k Hk. rewrite print_nat_unfold by lia. destruct (Z.ltb_spec n 10); [|lia].
    destruct k as [|k]; [simpl; lia|]. rewrite Nat2Z.inj_succ, Z.pow_succ_r in Hk by lia.
    pose proof (Z.pow_pos_nonneg 10 (Z.of_nat k)); lia.
  - intros n H IH k Hk. rewrite print_nat_unfold by lia. destruct (Z.ltb_spec n 10); [lia|].
    rewrite length_app; simpl. destruct k as [|k]; [lia|].
    assert (k < length (print_nat (n / 10)))%nat; [|lia]. apply IH.
    rewrite Nat2Z.inj_succ, Z.pow_succ_r in Hk by lia. apply Z.div_le_lower_bound; lia.
Qed.

Lemma print_nat_inj n m : 0 <= n -> 0 <= m -> print_nat n = print_nat m -> n = m.
Proof. intros ?? E. rewrite <- (parse_print n), <- (parse_print m) by lia. by rewrite E. Qed.

(** ** Runs of digits: [match(/[0-9]+/)] *)

Fixpoint take_while (p : ascii -> bool) (l : text) : text :=
  match l with
  | [] => []
  | c :: l' => if p c then c :: take_while p l' else []
  end.

Fixpoint drop_while (p : ascii -> bool) (l : text) : text :=
  match l with
  | [] => []
  | c :: l' => if p c then drop_while p l' else l
  end.

Lemma take_while_all p s : Forall (fun c => p c = true) (take_while p s).
Proof. induction s as [|c s IH]; cbn; [constructor|]. destruct (p c) eqn:E; by constructor. Qed.

Lemma take_drop_while p s : take_while p s ++ drop_while p s = s.
Proof. induction s as [|c s IH]; cbn; [done|]. destruct (p c); cbn; [by rewrite IH|done]. Qed.

(** [s.match(/[0-9]+/)]: the first maximal run of digits, [null] if none. *)
Definition first_digits (s : text) : option text :=
  match take_while is_digit (drop_while (fun c => negb (is_digit c)) s) with
  | [] => None
  | run => Some run
  end.

Definition no_digits (s : text) : Prop := Forall (fun c => is_digit c = false) s.
Definition starts_nondigit (s : text) : Prop :=
  match s with [] => True | c :: _ => is_digit c = false end.

Lemma drop_nondigits pre s : no_digits pre ->
  drop_while (fun c => negb (is_digit c)) (pre ++ s) =
  drop_while (fun c => negb (is_digit c)) s.
Proof. induction 1 as [|c l Hc _ IH]; simpl; [done|]. by rewrite Hc. Qed.

Lemma take_digits_app ds s : Forall (fun c => is_digit c = true) ds -> starts_nondigit s ->
  take_while is_digit (ds ++ s) = ds.
Proof.
  intros Hd Hs. induction Hd as [|c l Hc _ IH]; simpl.
  - destruct s; simpl in *; [done|]. by rewrite Hs.
  - by rewrite Hc, IH.
Qed.

Lemma first_digits_app pre ds s :
  no_digits pre -> Forall (fun c => is_digit c = true) ds -> ds <> [] -> starts_nondigit s ->
  first_digits (pre ++ ds ++ s) = Some ds.
Proof.
  intros Hp Hd Hne Hs. unfold first_digits. rewrite drop_nondigits by done.
  destruct ds as [|c ds]; [done|]. inversion_clear Hd as [|? ? Hc Hd'].
  cbn [app drop_while]. rewrite Hc. cbn [negb].
  pose proof (take_digits_app (c :: ds) s) as E. cbn [app] in E. rewrite E; [done|by constructor|done].
Qed.


(** ** [s.replace(pat, rep)] for a string pattern: the first occurrence. *)

Fixpoint strip_prefix (p s : text) : option text :=
  match p, s with
  | [], _ => Some s
  | a :: p', b :: s' => if decide (a = b) then strip_prefix p' s' else None
  | _ :: _, [] => None
  end.

Fixpoint replace_first (pat rep s : text) : text :=
  match strip_prefix pat s with
  | Some rest => rep ++ rest
  | None => match s with [] => [] | c :: s' => c :: replace_first pat rep s' end
  end.

Lemma strip_prefix_app p s : strip_prefix p (p ++ s) = Some s.
Proof. induction p as [|a p IH]; simpl; [done|]. by rewrite decide_True, IH by done. Qed.

Lemma strip_prefix_Some p s r : strip_prefix p s = Some r <-> s = p ++ r.
Proof.
  split; [|intros ->; apply strip_prefix_app].
  revert s. induction p as [|a p IH]; intros [|b s]; simpl; try naive_solver.
  case_decide; [|done]. intros ?%IH. naive_solver.
Qed.

Lemma replace_first_digits pre ds rep s :
  no_digits pre -> Forall (fun c => is_digit c = true) ds -> ds <> [] ->
  replace_first ds rep (pre ++ ds ++ s) = pre ++ rep ++ s.
Proof.
  intros Hp Hd Hne. induction Hp as [|c pre Hc Hp IH]; simpl.
  - destruct ds as [|a ds]; [done|]. simpl. by rewrite decide_True, strip_prefix_app by done.
  - destruct ds as [|a ds]; [done|]. simpl. inversion Hd; subst.
    rewrite decide_False by congruence. f_equal. apply IH.
Qed.

(** ** Case folding: [toLowerCase] on 8-bit characters *)

Definition lower (c : ascii) : ascii :=
  if ((65 <=? code c) && (code c <=? 90)) ||
     ((192 <=? code c) && (code c <=? 222) && negb (code c =? 215))
  then ascii_of_nat (nat_of_ascii c + 32) else c.

Definition to_lower (s : text) : text := map lower s.
