(* ===== verification/ProtectionPlans.v ===== *)
(** * The life-insurance questionnaire (app/assets/javascripts/protection_plans.js)

    The page is the state of the elements the script touches: the "check all"
    boxes, the drop-down image, the wizard of question divs and the
    recommendation.  Each handler bound in [ready] is one function on it. *)

From S2P Require Import Prelude.
From Stdlib Require Import ZArith Lia.
Local Open Scope Z_scope.

Module ProtectionPlans.

(** ** Data *)

(** One div of the wizard: its id, whether it has class [question], the name of
    its radio group, the values of the group's inputs, the checked one, and
    whether it is shown.
    A radio input's value is a decimal numeral; the handler only compares it
    with numbers ([==]), so it is kept as the number. *)
Record question := Question {
  q_id : string;
  q_class : bool;
  q_name : string;
  q_values : list Z;
  q_checked : option Z;
  q_visible : bool
}.

Record page := Page {
  check_all_life : bool;            (* #check_all_life *)
  check_life : list bool;           (* .check_life *)
  drop_down_src : string;           (* the img of a .drop-down *)
  questions : list question;        (* the divs of the wizard *)
  question_visible : bool;          (* #question *)
  explanation_visible : bool;       (* #explanation *)
  explanation_html : string;
  start_visible : bool              (* #start *)
}.

Definition chevron_up : string := "/assets/glyphicons-601-chevron-up.png".
Definition chevron_down : string := "/assets/glyphicons-602-chevron-down.png".

(** ** The small handlers *)

(** The browser has already toggled [this.checked] when the handler runs. *)
Definition check_all_click (p : page) : page :=
  let set b := {| check_all_life := check_all_life p;
                  check_life := map (fun _ => b) (check_life p);
                  drop_down_src := drop_down_src p; questions := questions p;
                  question_visible := question_visible p;
                  explanation_visible := explanation_visible p;
                  explanation_html := explanation_html p;
                  start_visible := start_visible p |} in
  if check_all_life p then set true else set false.

Definition drop_down_click (src : string) : string :=
  if decide (src = chevron_up) then chevron_down else chevron_up.

Definition set_visible (b : bool) (q : question) : question :=
  Question (q_id q) (q_class q) (q_name q) (q_values q) (q_checked q) b.

(** [.next]: [i] is the index, among its siblings, of the div the button is in;
    [.next()] of the last sibling is the empty selection. *)
Definition next_click (i : nat) (qs : list question) : list question :=
  alter (set_visible true) (S i) (alter (set_visible false) i qs).

Definition previous_click (i : nat) (qs : list question) : list question :=
  let hidden := alter (set_visible false) i qs in
  match i with
  | O => hidden                       (* .prev() of the first sibling is empty *)
  | S j => alter (set_visible true) j hidden
  end.

Definition start_click (p : page) : page :=
  {| check_all_life := check_all_life p; check_life := check_life p;
     drop_down_src := drop_down_src p; questions := questions p;
     question_visible := true; explanation_visible := false;
     explanation_html := explanation_html p; start_visible := false |}.

(** ** Scoring *)

Record scores := Scores {
  w_life : Z; v_life : Z; vu_life : Z; u_life : Z; ui_life : Z; t_life : Z
}.

Definition zero_scores : scores := Scores 0 0 0 0 0 0.

(** [$("[name=n]:checked").val()]: the checked value of the first checked input
    of the group, [undefined] (here [None]) when none is checked. *)
Definition checked_val (n : string) (qs : list question) : option Z :=
  head (omap (fun q => if decide (q_name q = n) then q_checked q else None) qs).

(** [a == k] for an answer that may be [null] or [undefined]. *)
Definition eq_ans (a : option Z) (k : Z) : bool :=
  match a with Some v => Z.eqb v k | None => false end.

(** The five answers of one iteration: all [null] but the current one. *)
Definition answers_at (i : nat) (qs : list question) :
    option Z * option Z * option Z * option Z * option Z :=
  match i with
  | 0%nat => (checked_val "question_1" qs, None, None, None, None)
  | 1%nat => (None, checked_val "question_2" qs, None, None, None)
  | 2%nat => (None, None, checked_val "question_3" qs, None, None)
  | 3%nat => (None, None, None, checked_val "question_4" qs, None)
  | 4%nat => (None, None, None, None, checked_val "question_5" qs)
  | _ => (None, None, None, None, None)
  end.

Definition incr_if (b : bool) (n : Z) : Z := if b then n + 1 else n.

(** The body of the [for] loop. *)
Definition score_step (qs : list question) (s : scores) (i : nat) : scores :=
  let '(a1, a2, a3, a4, a5) := answers_at i qs in
  let w := eq_ans a1 3 || eq_ans a2 1 || eq_ans a3 1 || eq_ans a4 1 || eq_ans a5 3 in
  let v := eq_ans a1 1 || eq_ans a2 1 || eq_ans a3 2 || eq_ans a4 2 || eq_ans a5 1 in
  let vu := eq_ans a1 1 || eq_ans a2 2 || eq_ans a3 2 || eq_ans a4 2 || eq_ans a5 1 in
  let u := eq_ans a1 3 || eq_ans a2 2 || eq_ans a3 1 || eq_ans a4 3 || eq_ans a5 2 in
  let t := eq_ans a1 2 || eq_ans a2 2 || eq_ans a3 3 || eq_ans a4 4 || eq_ans a5 3 in
  Scores (incr_if w (w_life s)) (incr_if v (v_life s)) (incr_if vu (vu_life s))
         (incr_if u (u_life s)) (incr_if u (ui_life s)) (incr_if t (t_life s)).

Definition score (qs : list question) : scores :=
  foldl (score_step qs) zero_scores [0; 1; 2; 3; 4]%nat.

Record plan := Plan { plan_name : string; plan_value : Z }.

Definition plans (s : scores) : list plan :=
  [Plan "whole life" (w_life s); Plan "variable life" (v_life s);
   Plan "variable universal life" (vu_life s); Plan "universal life" (u_life s);
   Plan "universal index life" (ui_life s); Plan "term life" (t_life s)].

(** [array.sort(function(obj1, obj2){return obj2.value-obj1.value;})] *)
Definition ranked (s : scores) : list plan :=
  js_sort (fun o1 o2 => plan_value o2 - plan_value o1) (plans s).

Definition recommend (s : scores) : string :=
  match ranked s with
  | max1 :: max2 :: _ =>
      if plan_value max1 =? plan_value max2
      then (plan_name max1 +:+ " & " +:+ plan_name max2)%string
      else plan_name max1
  | _ => ""
  end.

(** [find("input[value='1']").prop('checked','checked')]: checking a radio input
    unchecks the others of its group. *)
Definition check_first (q : question) : question :=
  Question (q_id q) (q_class q) (q_name q) (q_values q)
           (if decide (1 ∈ q_values q) then Some 1 else q_checked q) (q_visible q).

(** The body of [$(".question").each]. *)
Definition reset_question (q : question) : question :=
  if q_class q then check_first (set_visible false q) else q.

(** [$("#question1").show(); $("#question1").find(..).prop(..)] *)
Definition show_question1 (q : question) : question :=
  if decide (q_id q = "question1") then check_first (set_visible true q) else q.

(** The whole [#submit] handler. *)
Definition submit_click (p : page) : page :=
  let name := recommend (score (questions p)) in
  {| check_all_life := check_all_life p; check_life := check_life p;
     drop_down_src := drop_down_src p;
     questions := map reset_question (map show_question1 (questions p));
     question_visible := false; explanation_visible := true;
     explanation_html := ("We recommends " +:+ name)%string;
     start_visible := true |}.

(** ** Properties *)

Definition b2z (b : bool) : Z := if b then 1 else 0.

Definition answer (i : nat) (qs : list question) : option Z :=
  match i with
  | 1%nat => checked_val "question_1" qs
  | 2%nat => checked_val "question_2" qs
  | 3%nat => checked_val "question_3" qs
  | 4%nat => checked_val "question_4" qs
  | _ => checked_val "question_5" qs
  end.

(** The points a table gives: one per question whose answer is the listed one. *)
Definition points (qs : list question) (table : list Z) : Z :=
  foldr Z.add 0 (imap (fun i k => b2z (eq_ans (answer (S i) qs) k)) table).

Definition score_table (qs : list question) : scores :=
  Scores (points qs [3; 1; 1; 1; 3]) (points qs [1; 1; 2; 2; 1])
         (points qs [1; 2; 2; 2; 1]) (points qs [3; 2; 1; 3; 2])
         (points qs [3; 2; 1; 3; 2]) (points qs [2; 2; 3; 4; 3]).

Lemma incr_if_b2z b n : incr_if b n = n + b2z b.
Proof. destruct b; simpl; lia. Qed.

(** C30: the scoring loop, which rereads one question per iteration and keeps
    the other four answers null, computes the closed questionnaire table: each
    plan's score is the number of questions answered with its listed option. *)
Theorem score_is_table qs : score qs = score_table qs.
Proof.
  unfold score, score_step, score_table, points; simpl.
  rewrite !orb_false_r, !incr_if_b2z. f_equal; lia.
Qed.

Lemma points_bound qs table : 0 <= points qs table <= Z.of_nat (length table).
Proof.
  unfold points.
  assert (forall f, 0 <= foldr Z.add 0 (imap (fun i (k : Z) => b2z (f i k)) table)
                      <= Z.of_nat (length table)) as H; [|exact (H _)].
  induction table as [|k table IH]; intros f; [simpl; lia|].
  rewrite imap_cons; cbn [foldr length].
  specialize (IH (fun i => f (S i))). unfold compose. destruct (f 0%nat k); simpl; lia.
Qed.

Lemma ranked_perm s : ranked s ≡ₚ plans s.
Proof. apply js_sort_perm. Qed.

Lemma ranked_sorted s :
  StronglySorted (fun a b => - plan_value a <= - plan_value b) (ranked s).
Proof. apply (js_sort_sorted _ (fun p => - plan_value p)). intros; lia. Qed.

Lemma plans_names_nodup s : NoDup (plan_name <$> plans s).
Proof. simpl. apply (bool_decide_unpack _). by vm_compute. Qed.

Lemma plans_nodup s : NoDup (plans s).
Proof. eapply NoDup_fmap_1, plans_names_nodup. Qed.

(** The two leaders of the ranking: the whole list is below them. *)
Lemma ranked_leaders s : exists p1 p2 rest,
  ranked s = p1 :: p2 :: rest /\ p1 <> p2 /\
  (forall q, q ∈ plans s -> plan_value q <= plan_value p1) /\
  (forall q, q ∈ plans s -> q = p1 \/ plan_value q <= plan_value p2).
Proof.
  pose proof (ranked_perm s) as Hp. pose proof (ranked_sorted s) as Hs.
  pose proof (Permutation_length Hp) as Hl. pose proof (plans_nodup s) as Hn.
  destruct (ranked s) as [|p1 [|p2 rest]]; [done|done|].
  rewrite <- Hp in Hn.
  inversion Hs as [|? ? Hs2 H1]; subst. inversion Hs2 as [|? ? _ H2]; subst.
  rewrite Forall_forall in H1, H2.
  exists p1, p2, rest. split_and!; [done| |intros q Hq..].
  - apply NoDup_cons_1_1 in Hn. set_solver.
  - rewrite <- Hp in Hq. apply elem_of_cons in Hq as [->|Hq]; [lia|].
    specialize (H1 q Hq). lia.
  - rewrite <- Hp in Hq. apply elem_of_cons in Hq as [->|Hq]; [by left|right].
    apply elem_of_cons in Hq as [->|Hq]; [lia|]. specialize (H2 q Hq). lia.
Qed.

Lemma recommend_leader s :
  (exists p, p ∈ plans s /\ recommend s = plan_name p /\
     forall q, q ∈ plans s -> q = p \/ plan_value q < plan_value p) \/
  (exists p1 p2, p1 ∈ plans s /\ p2 ∈ plans s /\ p1 <> p2 /\
     recommend s = (plan_name p1 +:+ " & " +:+ plan_name p2)%string /\
     plan_value p1 = plan_value p2 /\
     forall q, q ∈ plans s -> plan_value q <= plan_value p1).
Proof.
  destruct (ranked_leaders s) as (p1 & p2 & rest & E & Hne & H1 & H2).
  pose proof (ranked_perm s) as Hp. rewrite E in Hp.
  assert (p1 ∈ plans s) by (rewrite <- Hp; set_solver).
  assert (p2 ∈ plans s) by (rewrite <- Hp; set_solver).
  pose proof (H1 p2 ltac:(done)).
  unfold recommend; rewrite E. destruct (Z.eqb_spec (plan_value p1) (plan_value p2)).
  - right. exists p1, p2. naive_solver.
  - left. exists p1. split_and!; [done|done|].
    intros q Hq. destruct (H2 q Hq); [by left|right; lia].
Qed.

(** C31: the recommendation names a best-scoring plan: either the single plan
    that beats every other one, or two distinct plans that share the top score;
    no plan scores above a recommended one, and no score exceeds five. *)
Theorem recommend_best qs :
  let ps := plans (score qs) in
  (exists p, p ∈ ps /\ 0 <= plan_value p <= 5 /\ recommend (score qs) = plan_name p /\
     forall q, q ∈ ps -> q = p \/ plan_value q < plan_value p) \/
  (exists p1 p2, p1 ∈ ps /\ p2 ∈ ps /\ p1 <> p2 /\ plan_value p1 = plan_value p2 /\
     0 <= plan_value p1 <= 5 /\
     recommend (score qs) = (plan_name p1 +:+ " & " +:+ plan_name p2)%string /\
     forall q, q ∈ ps -> plan_value q <= plan_value p1).
Proof.
  assert (forall p, p ∈ plans (score qs) -> 0 <= plan_value p <= 5) as Hb.
  { rewrite score_is_table. apply Forall_forall. simpl.
    repeat constructor; simpl; apply points_bound. }
  destruct (recommend_leader (score qs)) as [(p & ? & ? & ?)|(p1 & p2 & ? & ? & ? & ? & ? & ?)];
    [left; exists p|right; exists p1, p2]; naive_solver.
Qed.

Lemma score_u_ui qs : u_life (score qs) = ui_life (score qs).
Proof. by rewrite score_is_table. Qed.

(** "universal life" and "universal index life" are counted by the same
    condition, so neither is ever recommended on its own. *)
Theorem universal_never_alone qs :
  recommend (score qs) <> "universal life"%string /\
  recommend (score qs) <> "universal index life"%string.
Proof.
  pose proof (score_u_ui qs) as Hu.
  assert (Plan "universal life" (u_life (score qs)) ∈ plans (score qs)) as Hpu by set_solver.
  assert (Plan "universal index life" (ui_life (score qs)) ∈ plans (score qs)) as Hpi
    by set_solver.
  destruct (recommend_leader (score qs)) as [(p & Hp & -> & Hbest)|(p1 & p2 & Hp1 & Hp2 & _ & -> & _)].
  - pose proof (Hbest _ Hpu) as [<-|H1]; pose proof (Hbest _ Hpi) as [E2|H2];
      simpl in *; simplify_eq; try lia; (split; [intros E|intros E]);
      simpl in E; try done;
      unfold plans in Hp; repeat (apply elem_of_cons in Hp as [->|Hp]); simpl in *;
      try discriminate; try lia; set_solver.
  - unfold plans in Hp1, Hp2.
    repeat (apply elem_of_cons in Hp1 as [->|Hp1]); [..|set_solver];
      (repeat (apply elem_of_cons in Hp2 as [->|Hp2]); [..|set_solver]; by vm_compute).
Qed.

(** *** The wizard *)

(** Exactly the [i]-th div is shown. *)
Definition wizard_at (i : nat) (qs : list question) : Prop :=
  (i < length qs)%nat /\
  forall j q, qs !! j = Some q -> q_visible q = bool_decide (j = i).

Lemma set_visible_id q : set_visible (q_visible q) q = q.
Proof. by destruct q. Qed.

Lemma next_click_at i qs :
  wizard_at i qs -> (S i < length qs)%nat -> wizard_at (S i) (next_click i qs).
Proof.
  intros [Hi Hv] HSi. split; [unfold next_click; by rewrite !length_alter|].
  intros j q. unfold next_click. rewrite !list_lookup_alter.
  repeat case_decide; subst; intros E; try lia.
  all: try (destruct (qs !! _); simplify_eq/=; bd; fail).
  all: erewrite Hv by done; bd.
Qed.

Lemma previous_click_at i qs :
  wizard_at (S i) qs -> wizard_at i (previous_click (S i) qs).
Proof.
  intros [Hi Hv]. split; [simpl; rewrite !length_alter; lia|].
  intros j q. simpl. rewrite !list_lookup_alter.
  repeat case_decide; subst; intros E; try lia.
  all: try (destruct (qs !! _); simplify_eq/=; bd; fail).
  all: erewrite Hv by done; bd.
Qed.

(** A click on a button of the shown div that has a neighbour to go to. *)
Inductive wizard_step : list question -> list question -> Prop :=
| wizard_next i qs : wizard_at i qs -> (S i < length qs)%nat ->
    wizard_step qs (next_click i qs)
| wizard_previous i qs : wizard_at (S i) qs ->
    wizard_step qs (previous_click (S i) qs).

(** Whatever sequence of next and previous clicks the visitor makes, exactly
    one question is shown, and a next followed by a previous is a no-op. *)
Theorem wizard_one_shown qs qs' :
  wizard_at 0 qs -> rtc wizard_step qs qs' ->
  exists i, wizard_at i qs' /\
    ((S i < length qs')%nat -> previous_click (S i) (next_click i qs') = qs').
Proof.
  intros H0 Hsteps.
  assert (exists i, wizard_at i qs') as [i Hi].
  { revert H0. generalize 0%nat. induction Hsteps as [qs|qs qs1 qs2 Hs _ IH]; intros k Hk; [eauto|].
    destruct Hs; eauto using next_click_at, previous_click_at. }
  exists i; split; [done|]. intros HS. destruct Hi as [Hi Hv].
  apply list_eq; intros j. simpl. unfold next_click. rewrite !list_lookup_alter.
  repeat case_decide; subst; try lia; try done;
    destruct (qs' !! _) as [q|] eqn:E; simpl; try done; f_equal;
    pose proof (Hv _ _ E) as Hq; destruct q; simpl in *; subst; cbv [set_visible]; simpl; f_equal; bd.
Qed.

Definition sample_questions : list question :=
  [Question "question1" true "question_1" [1;2;3] (Some 3) true;
   Question "question2" true "question_2" [1;2] (Some 2) false;
   Question "question3" true "question_3" [1;2;3] (Some 1) false].

Lemma wizard_one_shown_witness :
  wizard_at 0 sample_questions /\
  rtc wizard_step sample_questions (next_click 0 sample_questions) /\
  exists i, wizard_at i (next_click 0 sample_questions) /\
    ((S i < 3)%nat -> previous_click (S i) (next_click i (next_click 0 sample_questions))
       = next_click 0 sample_questions).
Proof.
  assert (wizard_at 0 sample_questions) as H.
  { split; [vm_compute; lia|]. intros [|[|[|j]]] q E; simpl in E; simplify_eq; reflexivity. }
  assert (rtc wizard_step sample_questions (next_click 0 sample_questions)) as Hr.
  { apply rtc_once, wizard_next; [done|vm_compute; lia]. }
  split; [done|split; [done|]]. exact (wizard_one_shown _ _ H Hr).
Defined.

(** Submitting shows the recommendation of the table and rewinds the form:
    every div of class [question] that offers option 1 has it checked and is
    hidden, the start button and the explanation are shown, and the answers of
    the next round start from option 1. *)
Theorem submit_resets p :
  let p' := submit_click p in
  explanation_html p' = ("We recommends " +:+ recommend (score_table (questions p)))%string /\
  explanation_visible p' = true /\ question_visible p' = false /\ start_visible p' = true /\
  length (questions p') = length (questions p) /\
  Forall (fun q => q_class q = true ->
            q_visible q = false /\ (1 ∈ q_values q -> q_checked q = Some 1)) (questions p') /\
  Forall (fun q => q_class q = false -> q_id q = "question1"%string ->
            q_visible q = true /\ (1 ∈ q_values q -> q_checked q = Some 1)) (questions p').
Proof.
  simpl. rewrite score_is_table, !length_map. split_and!; try done.
  - apply Forall_forall. intros q Hq. rewrite map_map in Hq.
    apply list_elem_of_In, in_map_iff in Hq as (q0 & <- & _).
    unfold reset_question. destruct (q_class (show_question1 q0)) eqn:Hc;
      [simpl; intros _; split; [done|intros ?; by rewrite decide_True by done]|congruence].
  - apply Forall_forall. intros q Hq. rewrite map_map in Hq.
    apply list_elem_of_In, in_map_iff in Hq as (q0 & <- & _).
    unfold reset_question, show_question1. destruct (decide (q_id q0 = "question1"%string)); simpl;
      destruct (q_class q0) eqn:Hc; simpl; try congruence.
    intros _ _. split; [done|]. intros ?; by rewrite decide_True by done.
Qed.

(** The drop-down icon alternates between the two chevrons. *)
Lemma drop_down_toggles src :
  drop_down_click (drop_down_click (drop_down_click src)) = drop_down_click src.
Proof. unfold drop_down_click. by repeat case_decide. Qed.

Lemma check_all_uniform p :
  Forall (eq (check_all_life p)) (check_life (check_all_click p)).
Proof.
  unfold check_all_click. destruct (check_all_life p); simpl;
    apply Forall_fmap, Forall_true; done.
Qed.

End ProtectionPlans.
