(* ===== verification/RemoveAssociation.v ===== *)
(** * Removing a row of a nested form (app/assets/javascripts/remove_association.js)

    A nested association is a [tbody] with a numbered title ("Income 2").  The
    remove link hides its tbody, marks its hidden [_destroy] inputs and renumbers
    the later titles of the page. *)

From S2P Require Import Prelude JsString.
From Stdlib Require Import ZArith Lia.
Local Open Scope Z_scope.

Module RemoveAssociation.

Record tbody := TBody {
  tb_titles : list text;     (* the text of its .title elements *)
  tb_hidden : list text;     (* the value attribute of its hidden inputs *)
  tb_shown : bool
}.

(** [$title.text()] *)
Definition title_text (b : tbody) : text := mjoin (tb_titles b).

(** [parseInt(str.match(/[0-9]+/))]; [parseInt(null)] is NaN, here [None]. *)
Definition title_num (b : tbody) : option Z := parse_digits <$> first_digits (title_text b).

(** [a > b] on numbers that may be NaN. *)
Definition num_gt (a b : option Z) : bool :=
  match a, b with Some x, Some y => y <? x | _, _ => false end.

(** [slideUp()] and [find("input[type='hidden']").attr("value",true)] *)
Definition retire (b : tbody) : tbody :=
  TBody (tb_titles b) (map (fun _ => txt "true") (tb_hidden b)) false.

(** The body of [$("tbody").each]. *)
Definition renumber (removed : option Z) (b : tbody) : tbody :=
  if num_gt (title_num b) removed then
    match title_num b with
    | Some n =>
        let s := replace_first (print_Z n) (print_Z (n - 1)) (title_text b) in
        TBody (map (fun _ => s) (tb_titles b)) (tb_hidden b) (tb_shown b)
    | None => b
    end
  else b.

(** The handler; [k] is the index of the tbody that holds the clicked link. *)
Definition remove_click (k : nat) (page : list tbody) : list tbody :=
  let page1 := alter retire k page in
  let removed := page1 !! k ≫= title_num in
  map (renumber removed) page1.

(** ** What the handler promises: an abstract list of numbered rows. *)

Record row := Row { row_shown : bool; row_num : Z }.

Definition dec_above (r n : Z) : Z := if r <? n then n - 1 else n.
Definition hide_row (x : row) : row := Row false (row_num x).
Definition dec_row (r : Z) (x : row) : row := Row (row_shown x) (dec_above r (row_num x)).

Definition remove_row (k : nat) (rows : list row) : list row :=
  match rows !! k with
  | None => rows
  | Some x => dec_row (row_num x) <$> alter hide_row k rows
  end.

Fixpoint shown_nums (rows : list row) : list Z :=
  match rows with
  | [] => []
  | x :: l => if row_shown x then row_num x :: shown_nums l else shown_nums l
  end.

(** The shown rows are numbered 1, 2, ... in document order; the retired ones
    keep some positive number. *)
Definition well_numbered (rows : list row) : Prop :=
  shown_nums rows = seqZ 1 (Z.of_nat (length (shown_nums rows))) /\
  Forall (fun r => 1 <= row_num r) rows.

Lemma shown_nums_app l1 l2 : shown_nums (l1 ++ l2) = shown_nums l1 ++ shown_nums l2.
Proof. induction l1 as [|[[] n] l1 IH]; simpl; by rewrite ?IH. Qed.

Lemma seqZ_split (a b : list Z) (r m n : Z) :
  a ++ r :: b = seqZ m n ->
  r = m + Z.of_nat (length a) /\ a = seqZ m (Z.of_nat (length a)) /\
  b = seqZ (r + 1) (Z.of_nat (length b)).
Proof.
  revert m n. induction a as [|x a IH]; intros m n H; simpl in H.
  - destruct (decide (0 < n)); [|by rewrite seqZ_nil in H by lia].
    rewrite seqZ_cons in H by lia. injection H as -> ->. split; [simpl; lia|split; [done|]].
    rewrite length_seqZ. replace (Z.succ m) with (m + 1) by lia. f_equal; lia.
  - destruct (decide (0 < n)); [|by rewrite seqZ_nil in H by lia].
    rewrite seqZ_cons in H by lia. injection H as -> H.
    apply IH in H as (-> & Ha & Hb). split; [simpl; lia|split].
    + rewrite (seqZ_cons m) by (simpl; lia). f_equal. rewrite Ha at 1. f_equal; simpl; lia.
    + rewrite Hb at 1. f_equal; simpl; lia.
Qed.

Lemma shown_nums_dec r l : shown_nums (dec_row r <$> l) = dec_above r <$> shown_nums l.
Proof. induction l as [|[[] n] l IH]; [done|..]; cbn; by rewrite IH. Qed.

Lemma dec_above_seqZ r m n : r < m -> dec_above r <$> seqZ m n = seqZ (m - 1) n.
Proof.
  intros H. replace (m - 1) with (-1 + m) by lia. rewrite <- fmap_add_seqZ.
  apply list_fmap_ext. intros i x Hx%lookup_seqZ. unfold dec_above.
  destruct (Z.ltb_spec r x); lia.
Qed.

Lemma dec_above_below r m n : m + n <= r + 1 -> dec_above r <$> seqZ m n = seqZ m n.
Proof.
  intros H. rewrite <- list_fmap_id. apply list_fmap_ext. intros i x Hx%lookup_seqZ.
  unfold dec_above. destruct (Z.ltb_spec r x); simpl; lia.
Qed.

(** Removing a shown row keeps the numbering 1, 2, ... of the rows left. *)
Lemma remove_row_numbered k rows r :
  rows !! k = Some (Row true r) -> well_numbered rows -> well_numbered (remove_row k rows).
Proof.
  intros Hk [Hseq Hpos]. unfold remove_row. rewrite Hk; simpl.
  apply list_elem_of_split_length in Hk as (l1 & l2 & -> & ->).
  rewrite alter_app_r_alt, Nat.sub_diag by lia. simpl. split.
  - rewrite shown_nums_app in Hseq. cbn in Hseq.
    assert (shown_nums (dec_row r <$> l1 ++ hide_row (Row true r) :: l2)
      = (dec_above r <$> shown_nums l1) ++ (dec_above r <$> shown_nums l2)) as E.
    { rewrite shown_nums_dec, shown_nums_app, fmap_app. done. }
    rewrite E. apply seqZ_split in Hseq as (Hr & H1 & H2).
    rewrite length_app, !length_fmap. rewrite H1, H2 at 1.
    rewrite dec_above_below, dec_above_seqZ by lia.
    rewrite Nat2Z.inj_add, seqZ_app by lia. f_equal. f_equal; lia.
  - apply Forall_app in Hpos as [Hp1 [Hp Hp2]%Forall_cons]. simpl in Hp.
    rewrite Forall_fmap. rewrite Forall_app, Forall_cons. unfold compose; simpl.
    assert (forall l, Forall (fun x => 1 <= row_num x) l ->
              Forall (fun x => 1 <= dec_above r (row_num x)) l) as Hd.
    { intros l Hl. eapply Forall_impl; [exact Hl|]. intros x Hx; simpl in *. unfold dec_above. destruct (Z.ltb_spec r (row_num x)); lia. }
    split_and!; [by apply Hd| |by apply Hd]. unfold dec_above. destruct (Z.ltb_spec r r); lia.
Qed.

(** ** The page represents the rows *)

(** A tbody whose only title is "prefix number suffix". *)
Definition titled (b : tbody) (x : row) : Prop :=
  exists pre suf, no_digits pre /\ starts_nondigit suf /\
    tb_titles b = [pre ++ print_Z (row_num x) ++ suf] /\ tb_shown b = row_shown x.

Definition represents (page : list tbody) (rows : list row) : Prop := Forall2 titled page rows.

Lemma print_Z_nonneg n : 0 <= n -> print_Z n = print_nat n.
Proof. intros H. unfold print_Z. destruct (Z.ltb_spec n 0); [lia|done]. Qed.

Lemma title_num_titled b x : titled b x -> 0 <= row_num x -> title_num b = Some (row_num x).
Proof.
  intros (pre & suf & Hp & Hs & Ht & _) Hn. unfold title_num, title_text. rewrite Ht; simpl.
  rewrite app_nil_r, print_Z_nonneg by done.
  rewrite first_digits_app by auto using print_nat_digits, print_nat_nonempty.
  simpl. by rewrite parse_print.
Qed.

Lemma renumber_titled r b x : titled b x -> 0 <= r -> 0 <= row_num x ->
  titled (renumber (Some r) b) (dec_row r x).
Proof.
  intros Hb Hr Hn. unfold renumber. rewrite (title_num_titled b x) by done. simpl.
  unfold titled, dec_row, dec_above; simpl. destruct (Z.ltb_spec r (row_num x)); [|done].
  destruct Hb as (pre & suf & Hp & Hs & Ht & Hsh). exists pre, suf. split_and!; [done|done| |done].
  unfold title_text. rewrite Ht; simpl. rewrite app_nil_r. f_equal.
  rewrite !print_Z_nonneg by lia.
  apply replace_first_digits; auto using print_nat_digits, print_nat_nonempty.
Qed.

Lemma remove_click_refines k page rows r :
  rows !! k = Some (Row true r) -> Forall (fun x => 1 <= row_num x) rows ->
  represents page rows -> represents (remove_click k page) (remove_row k rows).
Proof.
  intros Hk Hpos Hrep. unfold remove_click, remove_row. rewrite Hk. simpl.
  assert (represents (alter retire k page) (alter hide_row k rows)) as Hrep1.
  { apply Forall2_alter; [done|]. intros b x _ _ (pre & suf & ? & ? & ? & ?). exists pre, suf. done. }
  assert ((alter retire k page !! k ≫= title_num) = Some r) as ->.
  { pose proof (Forall2_lookup_r _ _ _ _ _ Hrep Hk) as (b & Hb & Ht).
    rewrite list_lookup_alter_eq, Hb; simpl.
    pose proof (title_num_titled b _ Ht) as E. simpl in E. apply E.
    rewrite Forall_lookup in Hpos. specialize (Hpos _ _ Hk). simpl in Hpos. lia. }
  assert (1 <= r) as Hr by (rewrite Forall_lookup in Hpos; apply (Hpos _ _ Hk)).
  assert (Forall (fun x => 1 <= row_num x) (alter hide_row k rows)) as Hpos1
    by (apply Forall_alter; [done|]; intros; simpl; done).
  unfold represents in *. clear Hrep Hpos Hk. revert Hpos1.
  induction Hrep1 as [|b x bs xs Hbx _ IH]; intros [Hx Hxs]%Forall_cons || intros _;
    simpl; constructor; [apply renumber_titled; [done|lia|lia]|by apply IH].
Qed.

(** A sequence of removals of shown rows. *)
Inductive removals : list tbody -> list row -> list tbody -> list row -> Prop :=
| removals_done page rows : removals page rows page rows
| removals_click k r page rows page' rows' :
    rows !! k = Some (Row true r) ->
    removals (remove_click k page) (remove_row k rows) page' rows' ->
    removals page rows page' rows'.

(** C32: however many rows the visitor removes, the page still represents the
    abstract rows: the shown titles carry exactly the numbers 1, 2, ... in
    document order, with their prefixes and suffixes kept. *)
Theorem removals_numbered page rows page' rows' :
  represents page rows -> well_numbered rows -> removals page rows page' rows' ->
  represents page' rows' /\ well_numbered rows'.
Proof.
  intros Hrep Hwn Hr. induction Hr as [|k r page rows page' rows' Hk _ IH]; [done|].
  apply IH; [eapply remove_click_refines; eauto; apply Hwn|by eapply remove_row_numbered].
Qed.

Definition sample_page : list tbody :=
  [TBody [txt "Income 1"] [txt "false"] true; TBody [txt "Income 2:"] [] true;
   TBody [txt "Income 3"] [txt "false"] true].
Definition sample_rows : list row := [Row true 1; Row true 2; Row true 3].

Lemma removals_numbered_witness :
  represents (remove_click 0 sample_page) (remove_row 0 sample_rows) /\
  well_numbered (remove_row 0 sample_rows) /\
  map tb_titles (remove_click 0 sample_page) = [[txt "Income 1"]; [txt "Income 1:"]; [txt "Income 2"]].
Proof.
  assert (represents sample_page sample_rows) as H1.
  { repeat constructor.
    - exists (txt "Income "), []. split_and!; try done. repeat constructor.
    - exists (txt "Income "), (txt ":"). split_and!; try done. repeat constructor.
    - exists (txt "Income "), []. split_and!; try done. repeat constructor. }
  assert (well_numbered sample_rows) as H2 by (split; [done|repeat constructor; simpl; lia]).
  destruct (removals_numbered sample_page sample_rows _ _ H1 H2
    (removals_click 0 1 sample_page sample_rows _ _ eq_refl (removals_done _ _))) as [A B].
  split; [exact A|split; [exact B|by vm_compute]].
Defined.

(** The handler touches the form data of the removed row only: its hidden
    inputs become "true" and it is hidden; every other row keeps its hidden
    inputs and its visibility. *)
Theorem remove_click_marks k page i b :
  page !! i = Some b ->
  exists b', remove_click k page !! i = Some b' /\
    tb_hidden b' = (if decide (i = k) then map (fun _ => txt "true") (tb_hidden b) else tb_hidden b) /\
    tb_shown b' = (if decide (i = k) then false else tb_shown b).
Proof.
  intros Hb. unfold remove_click. rewrite list_lookup_fmap.
  assert (forall r c, tb_hidden (renumber r c) = tb_hidden c /\ tb_shown (renumber r c) = tb_shown c) as H.
  { intros r c. unfold renumber. destruct (num_gt _ _); [|done]. by destruct (title_num c). }
  destruct (decide (i = k)) as [->|Hne].
  - rewrite list_lookup_alter_eq, Hb. cbn [fmap option_fmap option_map]. eexists; split; [done|].
    destruct (H (Some (retire b) ≫= title_num) (retire b)) as [E1 E2].
    rewrite E1, E2. done.
  - rewrite (list_lookup_alter_ne _ page k i), Hb by congruence. cbn [fmap option_fmap option_map]. eexists; split; [done|]. apply H.
Qed.

Lemma remove_click_marks_witness : exists b',
  remove_click 1 sample_page !! 0%nat = Some b' /\ tb_hidden b' = [txt "false"] /\ tb_shown b' = true.
Proof. exact (remove_click_marks 1 sample_page 0 _ eq_refl). Defined.

End RemoveAssociation.
