(* ===== verification/Callbacks.v ===== *)
(** * jQuery.Callbacks: the callback list (application bundle, lines 3050-3253)

    A callback list is an object whose methods share one closure.  [cb] is that
    closure, and each method is a transition on it.  The methods that call user
    code ([fire], and [add] on a list with memory) are split at the call: the
    transition returns the data to fire, and [CallbackEval] runs the loop with
    [cb_next] and [cb_returned].

    [CallbackList] is the interface the evaluator needs.  It has two
    implementations: the array with indices of the source ([Indexed]) and a
    queue of the calls still to make ([Queued]), and [sim] relates them. *)

From S2P Require Import Prelude JsString.
From Stdlib Require Import ZArith Lia Ascii.

(** ** Options: [createOptions] *)

Record options := Options {
  opt_once : bool; opt_memory : bool; opt_unique : bool; opt_stopOnFalse : bool
}.

Definition is_space (c : ascii) : bool :=
  bool_decide (c ∈ map ascii_of_nat [9; 10; 11; 12; 13; 32; 160]%nat).

(** [options.match(/\S+/g)]: the maximal runs of non-space characters. *)
Fixpoint words (cur : text) (s : text) : list text :=
  match s with
  | [] => if decide (cur = []) then [] else [cur]
  | c :: s' => if is_space c
               then (if decide (cur = []) then [] else [cur]) ++ words [] s'
               else words (cur ++ [c]) s'
  end.

Definition set_flag (o : options) (flag : text) : options :=
  if decide (flag = txt "once") then Options true (opt_memory o) (opt_unique o) (opt_stopOnFalse o)
  else if decide (flag = txt "memory") then Options (opt_once o) true (opt_unique o) (opt_stopOnFalse o)
  else if decide (flag = txt "unique") then Options (opt_once o) (opt_memory o) true (opt_stopOnFalse o)
  else if decide (flag = txt "stopOnFalse") then Options (opt_once o) (opt_memory o) (opt_unique o) true
  else o.

Definition createOptions (s : text) : options :=
  foldl set_flag (Options false false false false) (words [] s).

(** What the loop of [fire] finds at [firingIndex]. *)
Inductive next_call (fn : Type) : Type :=
| Exit                       (* the loop condition fails *)
| Call (f : fn)
| Undefined.                 (* an index without element: a TypeError *)
Arguments Exit {fn}.
Arguments Call {fn} f.
Arguments Undefined {fn}.

(** ** The interface *)

Class CallbackList (fn data O : Type) := {
  cb_new : options -> O;
  cb_has : O -> fn -> bool;
  cb_nonempty : O -> bool;
  cb_disabled : O -> bool;
  cb_locked : O -> bool;
  cb_fired : O -> bool;
  cb_add : list fn -> O -> O * option data;
  cb_remove : list fn -> O -> O;
  cb_empty : O -> O;
  cb_disable : O -> O;
  cb_lock : O -> O;
  cb_fireWith : data -> O -> O * option data;
  cb_next : O -> O * next_call fn;
  cb_returned : bool -> O -> O * bool;
  cb_end : O -> O * option data
}.

(** Where an object is in its firing loop: outside it, at the loop test, or
    inside a call.  User code runs in the first and the last mode only. *)
Inductive mode := Idle | Testing | Calling.

(** The refinement law: an implementation [O1] simulates a specification [O2]
    whose mode is observable; every transition keeps the relation, returns the
    same answer and moves the mode as the loop of [fire] expects.  The law of
    [cb_next] excludes [Undefined]. *)
Class CallbackRefinement (fn data O1 O2 : Type)
    `{CallbackList fn data O1} `{CallbackList fn data O2}
    (R : O1 -> O2 -> Prop) (mode_of : O2 -> mode) := {
  cr_new o : R (cb_new o) (cb_new o) /\ mode_of (cb_new o) = Idle /\
    forall fs, (cb_add fs (cb_new o : O2)).2 = None;
  cr_observe s q : R s q ->
    (forall f, cb_has s f = cb_has q f) /\ cb_nonempty s = cb_nonempty q /\
    cb_disabled s = cb_disabled q /\ cb_locked s = cb_locked q /\ cb_fired s = cb_fired q;
  cr_add fs s q : R s q -> mode_of q <> Testing ->
    R (cb_add fs s).1 (cb_add fs q).1 /\ (cb_add fs s).2 = (cb_add fs q).2 /\
    match (cb_add fs q).2 with
    | None => mode_of (cb_add fs q).1 = mode_of q
    | Some _ => mode_of q = Idle /\ mode_of (cb_add fs q).1 = Testing
    end;
  cr_remove fs s q : R s q -> mode_of q <> Testing ->
    R (cb_remove fs s) (cb_remove fs q) /\ mode_of (cb_remove fs q) = mode_of q;
  cr_empty s q : R s q -> mode_of q <> Testing ->
    R (cb_empty s) (cb_empty q) /\ mode_of (cb_empty q) = mode_of q;
  cr_disable s q : R s q -> mode_of q <> Testing ->
    R (cb_disable s) (cb_disable q) /\ mode_of (cb_disable q) = mode_of q;
  cr_lock s q : R s q -> mode_of q <> Testing ->
    R (cb_lock s) (cb_lock q) /\ mode_of (cb_lock q) = mode_of q;
  cr_fireWith d s q : R s q -> mode_of q <> Testing ->
    R (cb_fireWith d s).1 (cb_fireWith d q).1 /\ (cb_fireWith d s).2 = (cb_fireWith d q).2 /\
    match (cb_fireWith d q).2 with
    | None => mode_of (cb_fireWith d q).1 = mode_of q
    | Some _ => mode_of q = Idle /\ mode_of (cb_fireWith d q).1 = Testing
    end;
  cr_next s q : R s q -> mode_of q = Testing ->
    R (cb_next s).1 (cb_next q).1 /\ (cb_next s).2 = (cb_next q).2 /\
    match (cb_next q).2 with
    | Call _ => mode_of (cb_next q).1 = Calling
    | Exit => mode_of (cb_next q).1 = Testing
    | Undefined => False
    end;
  cr_returned b s q : R s q -> mode_of q = Calling ->
    R (cb_returned b s).1 (cb_returned b q).1 /\ (cb_returned b s).2 = (cb_returned b q).2 /\
    mode_of (cb_returned b q).1 = (if (cb_returned b q).2 then Testing else Calling);
  cr_end s q : R s q -> mode_of q <> Idle ->
    R (cb_end s).1 (cb_end q).1 /\ (cb_end s).2 = (cb_end q).2 /\
    mode_of (cb_end q).1 = (if (cb_end q).2 then Testing else Idle)
}.

Section callbacks.
Context {fn data : Type} `{EqDecision fn}.

(** ** The source's representation *)


Record cb := CB {
  options_ : options;
  firing : bool;
  memory : option data;          (* false or undefined is None *)
  fired : bool;
  firingLength : Z;
  firingIndex : Z;
  firingStart : Z;               (* undefined reads as 0 *)
  list_ : option (list fn);      (* undefined once disabled *)
  stack : option (list data)     (* false with "once", undefined once locked *)
}.

Definition Callbacks (o : options) : cb :=
  CB o false None false 0 0 0 (Some []) (if opt_once o then None else Some []).

(** [jQuery.inArray( arg, list, i )] *)
Fixpoint inArray_from (f : fn) (l : list fn) (pos : Z) : Z :=
  match l with
  | [] => -1
  | g :: l' => if decide (g = f) then pos else inArray_from f l' (pos + 1)
  end.

Definition inArray (f : fn) (l : list fn) (i : Z) : Z :=
  inArray_from f (drop (Z.to_nat i) l) i.

Definition set_list (l : option (list fn)) (s : cb) : cb :=
  CB (options_ s) (firing s) (memory s) (fired s) (firingLength s) (firingIndex s)
     (firingStart s) l (stack s).

Definition set_indices (len idx start : Z) (s : cb) : cb :=
  CB (options_ s) (firing s) (memory s) (fired s) len idx start (list_ s) (stack s).

Definition has (s : cb) (f : fn) : bool :=
  match list_ s with Some l => bool_decide (-1 < inArray f l 0)%Z | None => false end.

Definition push (s : cb) (f : fn) : cb :=
  if opt_unique (options_ s) && has s f then s
  else match list_ s with Some l => set_list (Some (l ++ [f])) s | None => s end.

(** [add] on the flattened arguments; the [option data] is the memory to fire. *)
Definition add (fs : list fn) (s : cb) : cb * option data :=
  match list_ s with
  | None => (s, None)
  | Some l =>
      let start := Z.of_nat (length l) in
      let s1 := foldl push s fs in
      if firing s1 then
        (set_indices (Z.of_nat (length (default [] (list_ s1)))) (firingIndex s1) (firingStart s1) s1,
         None)
      else match memory s1 with
           | Some d => (set_indices (firingLength s1) (firingIndex s1) start s1, Some d)
           | None => (s1, None)
           end
  end.

(** One turn of the [while] loop of [remove], at the index found. *)
Definition splice (index : Z) (s : cb) : cb :=
  let s1 := set_list ((fun l => take (Z.to_nat index) l ++ drop (S (Z.to_nat index)) l) <$> list_ s) s in
  if firing s then
    set_indices (if (index <=? firingLength s)%Z then firingLength s - 1 else firingLength s)
                (if (index <=? firingIndex s)%Z then firingIndex s - 1 else firingIndex s)
                (firingStart s) s1
  else s1.

(** The [while] loop; each turn shortens the list, so its length is enough fuel. *)
Fixpoint remove_loop (fuel : nat) (f : fn) (index : Z) (s : cb) : cb :=
  match fuel with
  | O => s
  | S n => let index' := inArray f (default [] (list_ s)) index in
           if (-1 <? index')%Z then remove_loop n f index' (splice index' s) else s
  end.

Definition remove1 (s : cb) (f : fn) : cb :=
  match list_ s with None => s | Some l => remove_loop (S (length l)) f 0 s end.

Definition remove (fs : list fn) (s : cb) : cb :=
  match list_ s with None => s | Some _ => foldl remove1 s fs end.

Definition empty_ (s : cb) : cb :=
  set_indices 0 (firingIndex s) (firingStart s) (set_list (Some []) s).

Definition disable (s : cb) : cb :=
  CB (options_ s) (firing s) None (fired s) (firingLength s) (firingIndex s) (firingStart s) None None.

Definition lock (s : cb) : cb :=
  let s1 := CB (options_ s) (firing s) (memory s) (fired s) (firingLength s) (firingIndex s)
               (firingStart s) (list_ s) None in
  match memory s1 with None => disable s1 | Some _ => s1 end.

(** [fireWith]: queued while firing, ignored when spent or disabled. *)
Definition fireWith (d : data) (s : cb) : cb * option data :=
  match list_ s with
  | None => (s, None)
  | Some _ =>
      if negb (fired s) || bool_decide (is_Some (stack s)) then
        if firing s then
          (CB (options_ s) (firing s) (memory s) (fired s) (firingLength s) (firingIndex s)
              (firingStart s) (list_ s) ((fun q => q ++ [d]) <$> stack s), None)
        else (s, Some d)
      else (s, None)
  end.

(** [fire]: the statements before the loop. *)
Definition fire_begin (d : data) (s : cb) : cb :=
  CB (options_ s) true (if opt_memory (options_ s) then Some d else None) true
     (Z.of_nat (length (default [] (list_ s)))) (firingStart s) 0 (list_ s) (stack s).

(** The loop test and [list[ firingIndex ]]. *)
Definition fire_next (s : cb) : next_call fn :=
  match list_ s with
  | None => Exit
  | Some l =>
      if (firingIndex s <? firingLength s)%Z then
        if (0 <=? firingIndex s)%Z then
          match l !! Z.to_nat (firingIndex s) with Some f => Call f | None => Undefined end
        else Undefined
      else Exit
  end.

(** After the call: the [stopOnFalse] test, then [firingIndex++]. *)
Definition fire_returned (returned_false : bool) (s : cb) : cb * bool :=
  if returned_false && opt_stopOnFalse (options_ s) then
    (CB (options_ s) (firing s) None (fired s) (firingLength s) (firingIndex s) (firingStart s)
        (list_ s) (stack s), false)
  else (set_indices (firingLength s) (firingIndex s + 1) (firingStart s) s, true).

(** The statements after the loop; the [option data] is [stack.shift()]. *)
Definition fire_end (s : cb) : cb * option data :=
  let s1 := CB (options_ s) false (memory s) (fired s) (firingLength s) (firingIndex s)
               (firingStart s) (list_ s) (stack s) in
  match list_ s1 with
  | None => (s1, None)
  | Some _ =>
      match stack s1 with
      | Some (d :: q) =>
          (CB (options_ s) false (memory s) (fired s) (firingLength s) (firingIndex s)
              (firingStart s) (list_ s) (Some q), Some d)
      | Some [] => (s1, None)
      | None => match memory s1 with
                | Some _ => (set_list (Some []) s1, None)
                | None => (disable s1, None)
                end
      end
  end.

(** The calls [fire( memory )], [fire( args )] and [fire( stack.shift() )]. *)
Definition begin_if (r : cb * option data) : cb * option data :=
  match r with
  | (s, Some d) => (fire_begin d s, Some d)
  | (s, None) => (s, None)
  end.

#[global] Instance indexed : CallbackList fn data cb := {
  cb_new := Callbacks;
  cb_has := has;
  cb_nonempty s := match list_ s with Some (_ :: _) => true | _ => false end;
  cb_disabled s := bool_decide (list_ s = None);
  cb_locked s := bool_decide (stack s = None);
  cb_fired := fired;
  cb_add fs s := begin_if (add fs s);
  cb_remove := remove; cb_empty := empty_; cb_disable := disable; cb_lock := lock;
  cb_fireWith d s := begin_if (fireWith d s);
  cb_next s := (s, fire_next s);
  cb_returned := fire_returned;
  cb_end s := begin_if (fire_end s)
}.

(** ** The specification: a queue of the calls still to make *)

(** [q_done] are the functions of the current firing already called (or being
    called), [q_rest] those still to call; outside a firing every function is in
    [q_rest].  [q_debt] counts the positions that [empty] emptied under the
    firing index: that many functions added later in the same firing are
    counted as already called. *)
Record qcb := QCB {
  q_options : options; q_firing : bool; q_memory : option data; q_fired : bool;
  q_alive : bool; q_calling : bool;
  q_done : list fn; q_rest : list fn; q_debt : nat;
  q_stack : option (list data)
}.

Definition q_new (o : options) : qcb :=
  QCB o false None false true false [] [] 0 (if opt_once o then None else Some []).

Definition q_list (q : qcb) : list fn := q_done q ++ q_rest q.

Definition q_set (done rest : list fn) (debt : nat) (q : qcb) : qcb :=
  QCB (q_options q) (q_firing q) (q_memory q) (q_fired q) (q_alive q) (q_calling q)
      done rest debt (q_stack q).

Definition q_push (q : qcb) (f : fn) : qcb :=
  if opt_unique (q_options q) && bool_decide (f ∈ q_list q) then q
  else match q_debt q with
       | O => q_set (q_done q) (q_rest q ++ [f]) 0 q
       | S n => q_set (q_done q ++ [f]) (q_rest q) n q
       end.

Definition q_begin (d : data) (done rest : list fn) (q : qcb) : qcb :=
  QCB (q_options q) true (if opt_memory (q_options q) then Some d else None) true
      true false done rest 0 (q_stack q).

Definition q_add (fs : list fn) (q : qcb) : qcb * option data :=
  if q_alive q then
    let q1 := foldl q_push q fs in
    match q_firing q, q_memory q with
    | false, Some d =>
        let start := length (q_list q) in
        (q_begin d (take start (q_list q1)) (drop start (q_list q1)) q1, Some d)
    | _, _ => (q1, None)
    end
  else (q, None).

Definition q_remove1 (q : qcb) (f : fn) : qcb :=
  q_set (filter (fun g => g <> f) (q_done q)) (filter (fun g => g <> f) (q_rest q)) (q_debt q) q.

Definition q_remove (fs : list fn) (q : qcb) : qcb := foldl q_remove1 q fs.

(** Positions the running loop has passed; none outside a firing. *)
Definition q_passed (q : qcb) : nat :=
  if q_firing q then length (q_done q) + q_debt q else 0.

(** [empty] also revives a disabled list: it assigns [list = []] unconditionally. *)
Definition q_empty (q : qcb) : qcb :=
  QCB (q_options q) (q_firing q) (q_memory q) (q_fired q) true (q_calling q)
      [] [] (q_passed q) (q_stack q).

Definition q_disable (q : qcb) : qcb :=
  QCB (q_options q) (q_firing q) None (q_fired q) false (q_calling q) [] [] (q_passed q) None.

Definition q_lock (q : qcb) : qcb :=
  match q_memory q with
  | None => q_disable q
  | Some _ => QCB (q_options q) (q_firing q) (q_memory q) (q_fired q) (q_alive q) (q_calling q)
                  (q_done q) (q_rest q) (q_debt q) None
  end.

Definition q_fireWith (d : data) (q : qcb) : qcb * option data :=
  if q_alive q && (negb (q_fired q) || bool_decide (is_Some (q_stack q))) then
    if q_firing q then
      (QCB (q_options q) (q_firing q) (q_memory q) (q_fired q) (q_alive q) (q_calling q)
           (q_done q) (q_rest q) (q_debt q) ((fun l => l ++ [d]) <$> q_stack q), None)
    else (q_begin d [] (q_list q) q, Some d)
  else (q, None).

Definition q_mode (calling : bool) (done rest : list fn) (q : qcb) : qcb :=
  QCB (q_options q) (q_firing q) (q_memory q) (q_fired q) (q_alive q) calling
      done rest (q_debt q) (q_stack q).

Definition q_next (q : qcb) : qcb * next_call fn :=
  match q_rest q with
  | f :: rest => (q_mode true (q_done q ++ [f]) rest q, Call f)
  | [] => (q, Exit)
  end.

Definition q_returned (returned_false : bool) (q : qcb) : qcb * bool :=
  if returned_false && opt_stopOnFalse (q_options q) then
    (QCB (q_options q) (q_firing q) None (q_fired q) (q_alive q) (q_calling q)
         (q_done q) (q_rest q) (q_debt q) (q_stack q), false)
  else (q_mode false (q_done q) (q_rest q) q, true).

Definition q_end (q : qcb) : qcb * option data :=
  let idle m rest st alive :=
    QCB (q_options q) false m (q_fired q) alive false [] rest 0 st in
  if q_alive q then
    match q_stack q with
    | Some (d :: l) => (q_begin d [] (q_list q) (idle (q_memory q) (q_list q) (Some l) true), Some d)
    | Some [] => (idle (q_memory q) (q_list q) (Some []) true, None)
    | None => match q_memory q with
              | Some m => (idle (Some m) [] None true, None)
              | None => (idle None [] None false, None)
              end
    end
  else (idle (q_memory q) [] (q_stack q) false, None).

#[global] Instance queued : CallbackList fn data qcb := {
  cb_new := q_new;
  cb_has q f := bool_decide (f ∈ q_list q);
  cb_nonempty q := bool_decide (q_list q <> []);
  cb_disabled q := negb (q_alive q);
  cb_locked q := bool_decide (q_stack q = None);
  cb_fired := q_fired;
  cb_add := q_add; cb_remove := q_remove; cb_empty := q_empty;
  cb_disable := q_disable; cb_lock := q_lock; cb_fireWith := q_fireWith;
  cb_next := q_next; cb_returned := q_returned; cb_end := q_end
}.

(** ** The index representation implements the queue *)

Definition b2z (b : bool) : Z := if b then 1 else 0.

(** The relation but for [firingLength], which [add] updates last. *)
Record sim0 (s : cb) (q : qcb) : Prop := Sim0 {
  sim_options : options_ s = q_options q;
  sim_firing : firing s = q_firing q;
  sim_memory : memory s = q_memory q;
  sim_fired : fired s = q_fired q;
  sim_stack : stack s = q_stack q;
  sim_start : firingStart s = 0%Z;
  sim_list : list_ s = if q_alive q then Some (q_list q) else None;
  sim_dead : q_alive q = false -> q_list q = [];
  sim_debt : q_debt q <> 0 -> q_rest q = [];
  sim_idle : q_firing q = false -> q_done q = [] /\ q_debt q = 0;
  sim_index : q_firing q = true ->
    (firingIndex s = Z.of_nat (length (q_done q) + q_debt q) - b2z (q_calling q))%Z
}.

Record sim (s : cb) (q : qcb) : Prop := Sim {
  sim_sim0 : sim0 s q;
  sim_length : q_firing q = true -> q_alive q = true ->
    firingLength s = Z.of_nat (length (q_list q))
}.

Definition q_mode_of (q : qcb) : mode :=
  if q_firing q then if q_calling q then Calling else Testing else Idle.

(** User code runs only outside the loop, or inside one of its calls. *)
Definition settled (q : qcb) : Prop := q_firing q = true -> q_calling q = true.

Lemma settled_mode q : q_mode_of q <> Testing -> settled q.
Proof. unfold q_mode_of, settled. by destruct (q_firing q), (q_calling q). Qed.

Lemma sim_new o : sim (Callbacks o) (q_new o).
Proof. by split. Qed.

Lemma inArray_from_spec f l pos : (0 <= pos)%Z ->
  (inArray_from f l pos = -1 /\ f ∉ l)%Z \/
  exists l1 l2, l = l1 ++ f :: l2 /\ f ∉ l1 /\
    (inArray_from f l pos = pos + Z.of_nat (length l1))%Z.
Proof.
  revert pos. induction l as [|g l IH]; intros pos Hp; simpl; [left; set_solver|].
  destruct (decide (g = f)) as [->|Hne].
  - right. exists [], l. split_and!; [done|set_solver|simpl; lia].
  - destruct (IH (pos + 1)%Z) as [[-> ?]|(l1 & l2 & -> & ? & ->)]; [lia|left; set_solver|].
    right. exists (g :: l1), l2. split_and!; [done|set_solver|simpl; lia].
Qed.

Lemma has_sim s q f : sim0 s q -> has s f = bool_decide (f ∈ q_list q).
Proof.
  intros H. unfold has. rewrite (sim_list _ _ H). destruct (q_alive q) eqn:Ha.
  - unfold inArray. change (Z.to_nat 0) with 0. rewrite drop_0. apply bool_decide_ext.
    destruct (inArray_from_spec f (q_list q) 0 ltac:(lia)) as [[-> ?]|(l1 & l2 & -> & ? & ->)];
      [split; [lia|done]|split; [set_solver|lia]].
  - rewrite (sim_dead _ _ H Ha). symmetry. apply bool_decide_eq_false. set_solver.
Qed.

Ltac sim_split :=
  split; simpl; unfold q_list in *; simpl in *; rewrite ?length_app in *; simpl in *;
  try done; try congruence; try naive_solver lia.

Lemma push_sim s q f : q_alive q = true -> sim0 s q -> sim0 (push s f) (q_push q f).
Proof.
  intros Ha H. unfold push, q_push. rewrite (has_sim _ _ f H), (sim_options _ _ H).
  destruct (opt_unique (q_options q) && bool_decide (f ∈ q_list q)); [done|].
  rewrite (sim_list _ _ H), Ha. destruct H as [? ? ? ? ? ? ? ? Hdebt Hidle Hidx].
  destruct (q_debt q) as [|n] eqn:Ed.
  - sim_split. by rewrite Ha, app_assoc.
  - sim_split. rewrite Ha, (Hdebt ltac:(done)). by rewrite !app_nil_r.
Qed.

Lemma push_fields s q f : (firing (push s f) = firing s) /\ (memory (push s f) = memory s) /\
  q_alive (q_push q f) = q_alive q /\ q_firing (q_push q f) = q_firing q /\
  q_memory (q_push q f) = q_memory q /\ q_calling (q_push q f) = q_calling q.
Proof.
  unfold push, q_push. destruct (_ && has _ _), (_ && bool_decide _), (list_ s), (q_debt q); done.
Qed.

Lemma push_all_sim fs : forall s q, q_alive q = true -> sim0 s q ->
  sim0 (foldl push s fs) (foldl q_push q fs) /\
  firing (foldl push s fs) = firing s /\ memory (foldl push s fs) = memory s /\
  q_alive (foldl q_push q fs) = true /\ q_firing (foldl q_push q fs) = q_firing q /\
  q_memory (foldl q_push q fs) = q_memory q /\ q_calling (foldl q_push q fs) = q_calling q.
Proof.
  induction fs as [|f fs IH]; intros s q Ha H; [done|]. simpl.
  destruct (push_fields s q f) as (E1 & E2 & E3 & E4 & E5 & E6).
  destruct (IH (push s f) (q_push q f)) as (? & ? & ? & ? & ? & ? & ?);
    [congruence|by apply push_sim|]. split_and!; congruence || done.
Qed.

(** The state after [firingStart = start; fire( d )]. *)
Lemma begin_sim s q d (start : nat) :
  sim0 s q -> q_alive q = true -> start <= length (q_list q) ->
  sim (fire_begin d (set_indices (firingLength s) (firingIndex s) (Z.of_nat start) s))
      (q_begin d (take start (q_list q)) (drop start (q_list q)) q).
Proof.
  intros H Ha Hs. destruct H as [Ho Hf Hm Hfd Hst Hss Hl Hd Hde Hi Hix].
  rewrite Ha in Hl. split; [split|]; unfold fire_begin, q_begin, q_list in *; simpl in *;
    rewrite ?take_drop, ?Hl, ?Ho; simpl; try congruence; try done.
  intros _. rewrite length_take. lia.
Qed.

Lemma add_sim fs s q : sim s q ->
  let r := begin_if (add fs s) in let rq := q_add fs q in
  sim r.1 rq.1 /\ r.2 = rq.2.
Proof.
  intros [H Hlen]. unfold add, q_add. rewrite (sim_list _ _ H).
  destruct (q_alive q) eqn:Ha; [|simpl; split; [split; [done|intros; congruence]|done]].
  destruct (push_all_sim fs s q Ha H) as (H1 & Hf1 & Hm1 & Ha1 & Hqf1 & Hqm1 & _).
  set (s1 := foldl push s fs) in *. set (q1 := foldl q_push q fs) in *.
  rewrite Hf1, (sim_firing _ _ H), Hm1, (sim_memory _ _ H).
  destruct (q_firing q) eqn:Hqf.
  - simpl. split; [|done]. split; [|by rewrite (sim_list _ _ H1), Ha1].
    destruct H1; split; done.
  - destruct (q_memory q) as [d|] eqn:Hqm; simpl; (split; [|done]).
    + apply begin_sim; [done|done|].
      (* pushes only lengthen the list *)
      subst q1. clear. revert q. induction fs as [|f fs IH]; intros q; [done|]. simpl.
      etrans; [|apply IH]. unfold q_push. destruct (_ && _); [done|].
      unfold q_list; destruct (q_debt q); simpl; rewrite !length_app; simpl; lia.
    + split; [done|]. intros; congruence.
Qed.

(** *** [remove]: the splicing loop filters, and keeps the position. *)

Lemma filter_neq_id (f : fn) (l : list fn) : f ∉ l -> filter (fun g => g <> f) l = l.
Proof.
  intros H. induction l as [|g l IH]; [done|].
  rewrite filter_cons_True by set_solver. f_equal. apply IH. set_solver. Qed.

Lemma filter_neq_mid (f : fn) (l1 l2 : list fn) :
  filter (fun g => g <> f) (l1 ++ f :: l2) = filter (fun g => g <> f) (l1 ++ l2).
Proof. by rewrite !filter_app, filter_cons_False by naive_solver. Qed.

Lemma splice_fields i s :
  options_ (splice i s) = options_ s /\ firing (splice i s) = firing s /\
  memory (splice i s) = memory s /\ fired (splice i s) = fired s /\
  stack (splice i s) = stack s /\ firingStart (splice i s) = firingStart s /\
  list_ (splice i s) = (fun l => take (Z.to_nat i) l ++ drop (S (Z.to_nat i)) l) <$> list_ s /\
  (firing s = true ->
     firingIndex (splice i s) = (if i <=? firingIndex s then firingIndex s - 1 else firingIndex s)%Z /\
     firingLength (splice i s) = (if i <=? firingLength s then firingLength s - 1 else firingLength s)%Z).
Proof. unfold splice. destruct (firing s) eqn:E; simpl; split_and!; done. Qed.

(** Splicing one position out of the queue's functions; [passed] tells whether
    the position is before or at the firing index. *)
Lemma splice_sim s q a f c done rest :
  sim s q -> settled q -> q_alive q = true -> q_list q = a ++ f :: c ->
  done ++ rest = a ++ c ->
  (if decide (length a < length (q_done q))
   then S (length done) = length (q_done q) /\ (q_rest q = [] -> rest = [])
   else done = q_done q /\ q_debt q = 0) ->
  sim (splice (Z.of_nat (length a)) s) (q_set done rest (q_debt q) q).
Proof.
  intros [H Hlen] Hset Ha Hl Hdr Hpos.
  destruct (splice_fields (Z.of_nat (length a)) s) as (E1 & E2 & E3 & E4 & E5 & E6 & E7 & E8).
  destruct H. rewrite sim_firing0 in *. assert (length (q_list q) = S (length (done ++ rest))) as Hll.
  { rewrite Hl, Hdr, !length_app. simpl. lia. }
  split; [split|]; simpl; rewrite ?E1, ?E2, ?E3, ?E4, ?E5, ?E6, ?E7; try done.
  - rewrite sim_list0, Ha, Hl. simpl. unfold q_list; simpl. f_equal. rewrite Nat2Z.id.
    rewrite take_app_length, drop_app_ge by lia.
    by replace (S (length a) - length a) with 1 by lia.
  - congruence.
  - intros Hd. case_decide; [apply Hpos; auto|]. lia.
  - intros Hq. specialize (sim_idle0 Hq) as [Hd0 ?]. rewrite Hd0 in Hpos. case_decide; [simpl in *; lia|].
    naive_solver.
  - intros Hq. destruct (E8 Hq) as [-> _]. rewrite (sim_index0 Hq), (Hset Hq). simpl.
    case_decide; destruct Hpos as [Hp1 ?]; destruct (Z.leb_spec (Z.of_nat (length a))
      (Z.of_nat (length (q_done q) + q_debt q) - 1)); subst; try lia.
  - intros Hq _. destruct (E8 Hq) as [_ ->]. rewrite (Hlen Hq Ha), Hll.
    change (q_list (q_set done rest (q_debt q) q)) with (done ++ rest). rewrite Hdr, length_app in *.
    destruct (Z.leb_spec (Z.of_nat (length a)) (Z.of_nat (S (length a + length c)))); lia.
Qed.

(** The queue after removing that position exists, and filters alike. *)
Lemma splice_exists s q a f c :
  sim s q -> settled q -> q_alive q = true -> q_list q = a ++ f :: c ->
  exists done rest,
    sim (splice (Z.of_nat (length a)) s) (q_set done rest (q_debt q) q) /\
    done ++ rest = a ++ c /\
    filter (fun g => g <> f) done = filter (fun g => g <> f) (q_done q) /\
    filter (fun g => g <> f) rest = filter (fun g => g <> f) (q_rest q).
Proof.
  intros Hsim Hset Ha Hl. pose proof Hl as Hl2. unfold q_list in Hl2.
  assert ((exists d, q_done q = a ++ f :: d /\ c = d ++ q_rest q) \/
          (exists r, q_rest q = r ++ f :: c /\ a = q_done q ++ r)) as [(d & Hd & ->)|(r & Hr & ->)].
  { apply app_eq_app in Hl2 as (k & [[E1 E2]|[E1 E2]]); [|right; eauto].
    destruct k as [|g k]; simplify_eq/=; [right; exists []; by rewrite app_nil_r in *|left; eauto]. }
  - exists (a ++ d), (q_rest q). rewrite <- app_assoc, Hd, filter_neq_mid. split_and!; try done.
    apply (splice_sim s q a f (d ++ q_rest q)); try done; [by rewrite app_assoc|].
    rewrite Hd, !length_app; simpl. rewrite decide_True by lia. split; [lia|done].
  - exists (q_done q), (r ++ c). rewrite Hr, filter_neq_mid, app_assoc. split_and!; try done.
    apply (splice_sim s q (q_done q ++ r) f c); try done; [by rewrite app_assoc|].
    rewrite length_app, decide_False by lia. split; [done|].
    destruct (q_debt q) eqn:Ed; [done|]. pose proof (sim_debt _ _ (sim_sim0 _ _ Hsim)) as Hb.
    rewrite Ed, Hr in Hb. by destruct r; specialize (Hb ltac:(done)).
Qed.

Lemma remove_loop_sim fuel : forall f s q a c,
  sim s q -> settled q -> q_alive q = true -> q_list q = a ++ c -> f ∉ a -> length c < fuel ->
  sim (remove_loop fuel f (Z.of_nat (length a)) s) (q_remove1 q f).
Proof.
  induction fuel as [|fuel IH]; intros f s q a c H Hset Ha Hl Hf Hfuel; [lia|]. simpl.
  rewrite (sim_list _ _ (sim_sim0 _ _ H)), Ha, Hl; simpl.
  unfold inArray. rewrite Nat2Z.id, drop_app_length.
  destruct (inArray_from_spec f c (Z.of_nat (length a)) ltac:(lia))
    as [[-> Hc]|(c1 & c2 & -> & Hc1 & ->)].
  - destruct (Z.ltb_spec (-1) (-1)); [lia|].
    assert (f ∉ q_list q) as Hn by (rewrite Hl; set_solver). unfold q_list in Hn.
    unfold q_remove1. rewrite !filter_neq_id by set_solver.
    destruct q; exact H.
  - destruct (Z.ltb_spec (-1) (Z.of_nat (length a) + Z.of_nat (length c1))); [|lia].
    replace (Z.of_nat (length a) + Z.of_nat (length c1))%Z
      with (Z.of_nat (length (a ++ c1))) by (rewrite length_app; lia).
    destruct (splice_exists s q (a ++ c1) f c2 H Hset Ha) as (done & rest & Hs & Hdr & Hf1 & Hf2);
      [by rewrite <- app_assoc|].
    specialize (IH f _ _ (a ++ c1) c2 Hs). unfold q_remove1 in *. simpl in IH.
    rewrite Hf1, Hf2 in IH. apply IH; [done|done|done|set_solver|].
    rewrite length_app in Hfuel; simpl in Hfuel. lia.
Qed.

Lemma remove1_sim f s q : sim s q -> settled q -> sim (remove1 s f) (q_remove1 q f).
Proof.
  intros H Hset. unfold remove1. rewrite (sim_list _ _ (sim_sim0 _ _ H)).
  destruct (q_alive q) eqn:Ha.
  - apply (remove_loop_sim _ f s q [] (q_list q)); try done; [set_solver|lia].
  - pose proof (sim_dead _ _ (sim_sim0 _ _ H) Ha) as Hd. apply app_eq_nil in Hd as [H1 H2].
    unfold q_remove1. rewrite H1, H2. destruct q; simpl in *; subst. exact H.
Qed.

Lemma remove_sim fs : forall s q, sim s q -> settled q ->
  sim (remove fs s) (q_remove fs q) /\ q_mode_of (q_remove fs q) = q_mode_of q.
Proof.
  unfold remove. intros s q H Hset.
  assert (forall s q, sim s q -> settled q ->
    sim (foldl remove1 s fs) (foldl q_remove1 q fs) /\
    q_mode_of (foldl q_remove1 q fs) = q_mode_of q) as Hfold.
  { clear s q H Hset. induction fs as [|f fs IH]; intros s q H Hset; [done|]. simpl.
    destruct (IH (remove1 s f) (q_remove1 q f)) as [? ->];
      [by apply remove1_sim|exact Hset|done]. }
  destruct (Hfold s q H Hset) as [H1 H2]. split; [|exact H2].
  destruct (list_ s) eqn:Hl; [exact H1|].
  assert (foldl remove1 s fs = s) as E; [|by rewrite E in H1].
  clear -Hl. induction fs as [|f fs IH]; [done|]. simpl.
  replace (remove1 s f) with s; [done|]. unfold remove1. by rewrite Hl.
Qed.

Lemma empty_sim s q : sim s q -> settled q -> sim (empty_ s) (q_empty q).
Proof.
  intros [[] Hlen] Hset. unfold empty_, q_empty, q_passed.
  split; [split|]; simpl; try done; intros Hq; rewrite ?Hq; [done|by apply sim_index0].
Qed.

Lemma disable_sim s q : sim s q -> settled q -> sim (disable s) (q_disable q).
Proof.
  intros [[] Hlen] Hset. unfold disable, q_disable, q_passed.
  split; [split|]; simpl; try done; intros Hq; rewrite ?Hq; [done|by apply sim_index0].
Qed.

Lemma lock_sim s q : sim s q -> settled q -> sim (lock s) (q_lock q).
Proof.
  intros H Hset. unfold lock, q_lock. rewrite (sim_memory _ _ (sim_sim0 _ _ H)).
  destruct (q_memory q) eqn:Hm; simpl; [|exact (disable_sim s q H Hset)].
  destruct H as [[] Hlen]. split; [split|]; simpl; try done; congruence.
Qed.

Lemma fireWith_sim d s q : sim s q ->
  sim (begin_if (fireWith d s)).1 (q_fireWith d q).1 /\
  (begin_if (fireWith d s)).2 = (q_fireWith d q).2.
Proof.
  intros H. pose proof H as [H0 Hlen]. unfold fireWith, q_fireWith.
  rewrite (sim_list _ _ H0), (sim_fired _ _ H0), (sim_stack _ _ H0), (sim_firing _ _ H0).
  destruct (q_alive q) eqn:Ha; simpl; [|done].
  destruct (negb (q_fired q) || bool_decide (is_Some (q_stack q))); [|done].
  destruct (q_firing q) eqn:Hf; simpl.
  - split; [|done]. destruct H0. split; [split|]; simpl; rewrite ?sim_stack0; try done.
    intros _. by apply sim_index0.
  - split; [|done]. pose proof (begin_sim s q d 0 H0 Ha ltac:(lia)) as Hb.
    rewrite drop_0 in Hb. unfold set_indices in Hb; simpl in Hb.
    destruct s; simpl in *. pose proof (sim_start _ _ H0) as E; simpl in E. subst. exact Hb.
Qed.

Lemma next_sim s q : sim s q -> q_mode_of q = Testing ->
  sim s (q_next q).1 /\ fire_next s = (q_next q).2.
Proof.
  unfold q_mode_of. intros H Hm. destruct (q_firing q) eqn:Hf; [|done].
  destruct (q_calling q) eqn:Hc; [done|]. pose proof H as [[] Hlen].
  unfold fire_next, q_next. rewrite sim_list0. specialize (sim_index0 Hf). rewrite Hc in sim_index0.
  simpl in sim_index0. destruct (q_alive q) eqn:Ha.
  - specialize (Hlen Hf eq_refl). rewrite sim_index0, Hlen. unfold q_list in *.
    destruct (q_rest q) as [|f rest] eqn:Hr; simpl.
    + split; [exact H|].
      destruct (Z.ltb_spec (Z.of_nat (length (q_done q) + q_debt q) - 0)
                  (Z.of_nat (length (q_done q ++ [])))) as [Hlt|]; [|done].
      rewrite length_app in Hlt; simpl in Hlt; lia.
    + assert (q_debt q = 0) as Hd by (destruct (q_debt q); [done|by specialize (sim_debt0 ltac:(done))]).
      rewrite Hd in *. split.
      { split; [split|]; simpl; unfold q_list; simpl; rewrite ?Ha, <- ?app_assoc, ?Hd; try done; try congruence.
        intros _. rewrite length_app; simpl. lia. }
      rewrite length_app; simpl.
      destruct (Z.ltb_spec (Z.of_nat (length (q_done q) + 0) - 0)
                  (Z.of_nat (length (q_done q) + S (length rest)))); [|lia].
      destruct (Z.leb_spec 0 (Z.of_nat (length (q_done q) + 0) - 0)); [|lia].
      rewrite Z.sub_0_r, Nat2Z.id, Nat.add_0_r, list_lookup_middle; done.
  - specialize (sim_dead0 eq_refl). apply app_eq_nil in sim_dead0 as [Hd0 Hr0]. rewrite Hr0.
    split; [exact H|done].
Qed.

Lemma returned_sim b s q : sim s q -> q_mode_of q = Calling ->
  sim (fire_returned b s).1 (q_returned b q).1 /\ (fire_returned b s).2 = (q_returned b q).2.
Proof.
  unfold q_mode_of. intros [[] Hlen] Hm. destruct (q_firing q) eqn:Hf; [|done].
  destruct (q_calling q) eqn:Hc; [|done].
  unfold fire_returned, q_returned. rewrite sim_options0.
  destruct (b && opt_stopOnFalse (q_options q)); simpl; (split; [|done]).
  - split; [split|]; simpl; rewrite ?Hc; try done; try congruence;
      intros; [by apply sim_index0|by apply Hlen].
  - split; [split|]; simpl; try done; try congruence;
      intros; [rewrite sim_index0 by done; simpl; lia|by apply Hlen].
Qed.

Lemma end_sim s q : sim s q ->
  sim (begin_if (fire_end s)).1 (q_end q).1 /\ (begin_if (fire_end s)).2 = (q_end q).2.
Proof.
  intros [[] Hlen]. unfold fire_end, q_end. simpl. rewrite sim_list0, sim_stack0, sim_memory0.
  destruct (q_alive q) eqn:Ha; simpl.
  - destruct (q_stack q) as [[|d l]|] eqn:Hs; simpl.
    + split; [|done]. split; [split|]; simpl; unfold q_list in *; simpl; try done; congruence.
    + split; [|done]. unfold fire_begin, q_begin; simpl. rewrite sim_options0.
      split; [split|]; simpl; unfold q_list in *; simpl; rewrite ?Ha; try done; congruence.
    + destruct (q_memory q) eqn:Hm; simpl; (split; [|done]);
        split; [split| |split|]; simpl; unfold q_list in *; simpl; try done; congruence.
  - split; [|done]. split; [split|]; simpl; try done; congruence.
Qed.

#[global] Instance indexed_refines_queued :
  CallbackRefinement fn data cb qcb sim q_mode_of.
Proof.
  split; simpl.
  - intros o; split_and!; [apply sim_new|done|]. done.
  - intros s q [H _]. split_and!.
    + intros f. by apply has_sim.
    + rewrite (sim_list _ _ H). destruct (q_alive q) eqn:Ha.
      * destruct (q_list q); [by rewrite bool_decide_false by naive_solver|by rewrite bool_decide_true].
      * symmetry. apply bool_decide_eq_false. rewrite (sim_dead _ _ H Ha). naive_solver.
    + rewrite (sim_list _ _ H). by destruct (q_alive q).
    + by rewrite (sim_stack _ _ H).
    + apply (sim_fired _ _ H).
  - intros fs s q H Hm. pose proof (add_sim fs s q H) as [? E]. split_and!; [done|exact E|].
    clear E. unfold q_add. destruct (q_alive q) eqn:Ha; [|done].
    assert (q_mode_of (foldl q_push q fs) = q_mode_of q) as Hp.
    { destruct (push_all_sim fs s q Ha (sim_sim0 _ _ H)) as (_ & _ & _ & _ & E1 & _ & E2).
      unfold q_mode_of. by rewrite E1, E2. }
    destruct (q_firing q) eqn:Hf; [done|]. destruct (q_memory q); [|done]. simpl.
    unfold q_mode_of. by rewrite Hf.
  - intros fs s q H Hm. apply remove_sim; [done|by apply settled_mode].
  - intros s q H Hm. split; [apply empty_sim; [done|by apply settled_mode]|done].
  - intros s q H Hm. split; [apply disable_sim; [done|by apply settled_mode]|done].
  - intros s q H Hm. split; [apply lock_sim; [done|by apply settled_mode]|].
    unfold q_lock. by destruct (q_memory q).
  - intros d s q H Hm. pose proof (fireWith_sim d s q H) as [? E]. split_and!; [done|exact E|].
    unfold q_fireWith. destruct (q_alive q && _); [|done]. destruct (q_firing q) eqn:Hf; simpl.
    + unfold q_mode_of; simpl. by rewrite Hf.
    + unfold q_mode_of; simpl. by rewrite Hf.
  - intros s q H Hm. pose proof (next_sim s q H Hm) as [? E]. split_and!; [done|exact E|].
    unfold q_next, q_mode_of in *. destruct (q_rest q); simpl; [done|].
    by destruct (q_firing q).
  - intros b s q H Hm. pose proof (returned_sim b s q H Hm) as [? E]. split_and!; [done|exact E|].
    unfold q_returned, q_mode_of in *. destruct (b && _); simpl; destruct (q_firing q); done.
  - intros s q H Hm. pose proof (end_sim s q H) as [? E]. split_and!; [done|exact E|].
    unfold q_end. destruct (q_alive q); [|done].
    destruct (q_stack q) as [[]|]; [done|done|]. by destruct (q_memory q).
Qed.

End callbacks.
