(* ===== verification/Deferred.v ===== *)
(** * jQuery.Deferred over callback lists, with user code as programs

    The heap of callback lists and deferreds of the application bundle (lines
    3108-3138 and 3257-3345), and an evaluator that runs user callbacks.  A user
    function is a program [cmd]: a tree of calls of the public methods that ends in a
    value or an exception, so callbacks may re-enter any list or deferred.  An exception
    leaves the loops of [fire] it passes as they are, with [firing] set, up to the
    program that catches it.  The evaluator is parametric in the [CallbackList]
    implementation. *)

From S2P Require Import Prelude JsString Callbacks.
From Stdlib Require Import ZArith Lia.

(** ** Values *)

Inductive kind := Kdone | Kfail | Kprogress.
Inductive dstate := Pending | Resolved | Rejected.

#[export] Instance kind_eq_dec : EqDecision kind. Proof. solve_decision. Defined.
#[export] Instance dstate_eq_dec : EqDecision dstate. Proof. solve_decision. Defined.

(** A value that callbacks exchange; [VObj] is any other object. *)
Inductive val :=
| VUndef | VBool (b : bool) | VNum (z : Z) | VState (s : dstate) | VObj
| VPromise (d : nat) | VDeferred (d : nat).

#[export] Instance val_eq_dec : EqDecision val. Proof. solve_decision. Defined.

(** [data]: the pair of [this] and the arguments. *)
Record fdata := FData { ctx : val; args : list val }.

(** A standalone callback list, or one of the three lists of a deferred. *)
Inductive oid := OList (n : nat) | ODef (d : nat) (k : kind).

#[export] Instance oid_eq_dec : EqDecision oid. Proof. solve_decision. Defined.

(** Function objects: the user's, [deferred.resolve/reject/notify], the state
    setter and the [disable]/[lock] methods a deferred puts in its lists, and the
    closure [then] adds to list [k] of [src] on behalf of [newd]. *)
Inductive fn :=
| FUser (f : nat)
| FResolve (d : nat) (k : kind)
| FState (d : nat) (s : dstate)
| FDisable (o : oid)
| FLock (o : oid)
| FThen (src newd : nat) (k : kind) (f : option nat).

#[export] Instance fn_eq_dec : EqDecision fn. Proof. solve_decision. Defined.

(** Arguments of [add]: functions, array-likes (inspected recursively), others. *)
Inductive arg :=
| AFn (f : nat)
| AResolve (d : nat) (k : kind)
| AArr (l : list arg)
| AOther.

(** The inner [add( args )] of [Callbacks.add]. *)
Fixpoint flatten (a : arg) : list fn :=
  match a with
  | AFn f => [FUser f]
  | AResolve d k => [FResolve d k]
  | AArr l => (fix go l := match l with [] => [] | x :: l' => flatten x ++ go l' end) l
  | AOther => []
  end.

Definition flatten_all (l : list arg) : list fn := flatten (AArr l).

(** What [remove] can find of its arguments: [jQuery.inArray( arg, list )] looks for
    each as it is, and a list holds functions only. *)
Definition function_of (a : arg) : option fn :=
  match a with AFn f => Some (FUser f) | AResolve d k => Some (FResolve d k) | AArr _ | AOther => None end.

(** ** User programs: the public methods *)

Inductive uop :=
| UCallbacks (o : options)
| UAdd (l : nat) (a : list arg)
| URemove (l : nat) (a : list arg)
| UEmpty (l : nat)
| UDisable (l : nat)
| ULock (l : nat)
| UFireWith (l : nat) (d : fdata)
| UHas (l : nat) (f : nat)
| UFired (l : nat)
| UDeferred
| UOn (d : nat) (k : kind) (a : list arg)          (* done, fail, progress *)
| USettleWith (d : nat) (k : kind) (x : fdata)     (* resolveWith, rejectWith, notifyWith *)
| USettle (d : nat) (k : kind) (x : fdata)         (* resolve, reject, notify *)
| UAlways (d : nat) (a : list arg)
| UThen (d : nat) (f1 f2 f3 : option nat)
| UState (d : nat).

(** [CThrow] is [throw v], and [CTry] a call in a [try] with its [catch]. *)
Inductive cmd :=
| CRet (v : val)
| CThrow (v : val)
| CDo (op : uop) (k : val -> cmd)
| CTry (op : uop) (k : val -> cmd) (catch : val -> cmd).

(** The outcome of a run.  [Threw] is an exception with the heap it leaves; [NoFuel]
    is a run cut short; [BadIndex] the TypeError of calling an undefined array
    element; [NoObject] a method call on an object that does not exist. *)
Inductive out (H A : Type) := Done (a : A) | Threw (e : val) (h : H) | NoFuel | BadIndex | NoObject.
Arguments Done {H A} a.
Arguments Threw {H A} e h.
Arguments NoFuel {H A}.
Arguments BadIndex {H A}.
Arguments NoObject {H A}.

Definition obind {H A B} (r : out H A) (k : A -> out H B) : out H B :=
  match r with
  | Done a => k a | Threw e h => Threw e h | NoFuel => NoFuel | BadIndex => BadIndex | NoObject => NoObject
  end.

Notation "'let!' x ':=' e 'in' k" := (obind e (fun x => k))
  (at level 10, x pattern, e at level 100, k at level 200) : js_scope.
Local Open Scope js_scope.

(** ** The heap *)

Record deferred (O : Type) := DRec {
  d_state : dstate; d_done : O; d_fail : O; d_progress : O
}.
Arguments DRec {O}. Arguments d_state {O}. Arguments d_done {O}.
Arguments d_fail {O}. Arguments d_progress {O}.

(** The objects, and the trace of the calls made by [fire]. *)
Record heap (O : Type) := Heap {
  h_lists : list O;
  h_defs : list (deferred O);
  h_log : list (oid * fn * fdata)
}.
Arguments Heap {O}. Arguments h_lists {O}. Arguments h_defs {O}. Arguments h_log {O}.

Section heap.
Context {O : Type} `{CallbackList fn fdata O}.

Definition empty_heap : heap O := Heap [] [] [].

Definition d_list (k : kind) (r : deferred O) : O :=
  match k with Kdone => d_done r | Kfail => d_fail r | Kprogress => d_progress r end.

Definition set_d_list (k : kind) (s : O) (r : deferred O) : deferred O :=
  match k with
  | Kdone => DRec (d_state r) s (d_fail r) (d_progress r)
  | Kfail => DRec (d_state r) (d_done r) s (d_progress r)
  | Kprogress => DRec (d_state r) (d_done r) (d_fail r) s
  end.

Definition get_obj (o : oid) (h : heap O) : option O :=
  match o with
  | OList n => h_lists h !! n
  | ODef d k => d_list k <$> h_defs h !! d
  end.

Definition set_obj (o : oid) (s : O) (h : heap O) : heap O :=
  match o with
  | OList n => Heap (<[n := s]> (h_lists h)) (h_defs h) (h_log h)
  | ODef d k => Heap (h_lists h) (alter (set_d_list k s) d (h_defs h)) (h_log h)
  end.

Definition log_call (o : oid) (f : fn) (x : fdata) (h : heap O) : heap O :=
  Heap (h_lists h) (h_defs h) (h_log h ++ [(o, f, x)]).

Definition set_state (d : nat) (s : dstate) (h : heap O) : heap O :=
  Heap (h_lists h) (alter (fun r => DRec s (d_done r) (d_fail r) (d_progress r)) d (h_defs h))
       (h_log h).

(** [list.add(function(){ state = stateString }, tuples[ i ^ 1 ][ 2 ].disable,
    tuples[ 2 ][ 2 ].lock)] *)
Definition builtins (d : nat) (k : kind) : list fn :=
  match k with
  | Kdone => [FState d Resolved; FDisable (ODef d Kfail); FLock (ODef d Kprogress)]
  | Kfail => [FState d Rejected; FDisable (ODef d Kdone); FLock (ODef d Kprogress)]
  | Kprogress => []
  end.

Definition once_memory : options := createOptions (txt "once memory").
Definition memory_only : options := createOptions (txt "memory").

(** [jQuery.Deferred()] *)
Definition new_deferred (h : heap O) : nat * heap O :=
  let d := length (h_defs h) in
  let r := DRec Pending (cb_add (builtins d Kdone) (cb_new once_memory)).1
                        (cb_add (builtins d Kfail) (cb_new once_memory)).1
                        (cb_new memory_only) in
  (d, Heap (h_lists h) (h_defs h ++ [r]) (h_log h)).

(** A method that may start the loop of [fire] on its object. *)
Definition start (loop : oid -> fdata -> heap O -> out (heap O) (heap O)) (o : oid)
    (m : O -> O * option fdata) (h : heap O) : out (heap O) (heap O) :=
  match get_obj o h with
  | None => NoObject
  | Some s => let '(s1, go) := m s in
              let h1 := set_obj o s1 h in
              match go with Some x => loop o x h1 | None => Done h1 end
  end.

(** A method that does not. *)
Definition update (o : oid) (m : O -> O) (h : heap O) : out (heap O) (heap O) :=
  match get_obj o h with None => NoObject | Some s => Done (set_obj o (m s) h) end.

Definition observe (o : oid) (m : O -> bool) (h : heap O) : out (heap O) (val * heap O) :=
  match get_obj o h with None => NoObject | Some s => Done (VBool (m s), h) end.

(** [this === deferred ? promise : this] *)
Definition as_promise (d : nat) (x : fdata) : fdata :=
  FData (if decide (ctx x = VDeferred d) then VPromise d else ctx x) (args x).

(** The context and arguments [then] passes on to the new deferred. *)
Definition forward (src newd : nat) (f : option nat) (returned : val) (x : fdata) : fdata :=
  FData (if decide (ctx x = VPromise src) then VPromise newd else ctx x)
        (match f with Some _ => [returned] | None => args x end).

Definition ret_obj (r : out (heap O) (heap O)) : out (heap O) (val * heap O) :=
  let! h := r in Done (VObj, h).

Context (body : nat -> fdata -> cmd).

(** ** The evaluator *)

Fixpoint fire_loop (n : nat) (o : oid) (x : fdata) (h : heap O) {struct n} : out (heap O) (heap O) :=
  match n with
  | 0 => NoFuel
  | S n =>
      match get_obj o h with
      | None => NoObject
      | Some s =>
          let '(s1, c) := cb_next s in
          let h1 := set_obj o s1 h in
          match c with
          | Exit => start (fire_loop n) o cb_end h1
          | Undefined => BadIndex
          | Call f =>
              let! (v, h2) := call n f x (log_call o f x h1) in
              match get_obj o h2 with
              | None => NoObject
              | Some s2 => let '(s3, go) := cb_returned (bool_decide (v = VBool false)) s2 in
                           let h3 := set_obj o s3 h2 in
                           if (go : bool) then fire_loop n o x h3
                           else start (fire_loop n) o cb_end h3
              end
          end
      end
  end
with call (n : nat) (f : fn) (x : fdata) (h : heap O) {struct n} : out (heap O) (val * heap O) :=
  match n with
  | 0 => NoFuel
  | S n =>
      match f with
      | FUser u => run n (body u x) h
      | FResolve d k => ret_obj (start (fire_loop n) (ODef d k) (cb_fireWith (as_promise d x)) h)
      | FState d s => Done (VUndef, set_state d s h)
      | FDisable o => ret_obj (update o cb_disable h)
      | FLock o => ret_obj (update o cb_lock h)
      | FThen src newd k u =>
          let! (returned, h1) := match u with
                                 | Some u' => run n (body u' x) h
                                 | None => Done (VBool false, h)
                                 end in
          match returned with
          | VPromise p | VDeferred p =>
              let! h2 := start (fire_loop n) (ODef p Kdone) (cb_add [FResolve newd Kdone]) h1 in
              let! h3 := start (fire_loop n) (ODef p Kfail) (cb_add [FResolve newd Kfail]) h2 in
              let! h4 := start (fire_loop n) (ODef p Kprogress) (cb_add [FResolve newd Kprogress]) h3 in
              Done (VUndef, h4)
          | _ =>
              let! h2 := start (fire_loop n) (ODef newd k)
                           (cb_fireWith (forward src newd u returned x)) h1 in
              Done (VUndef, h2)
          end
      end
  end
with run (n : nat) (c : cmd) (h : heap O) {struct n} : out (heap O) (val * heap O) :=
  match n with
  | 0 => NoFuel
  | S n =>
      match c with
      | CRet v => Done (v, h)
      | CThrow v => Threw v h
      | CDo op k => let! (v, h1) := do_op n op h in run n (k v) h1
      | CTry op k catch =>
          match do_op n op h with
          | Threw e h1 => run n (catch e) h1
          | r => let! (v, h1) := r in run n (k v) h1
          end
      end
  end
with do_op (n : nat) (op : uop) (h : heap O) {struct n} : out (heap O) (val * heap O) :=
  match n with
  | 0 => NoFuel
  | S n =>
      match op with
      | UCallbacks o => Done (VNum (Z.of_nat (length (h_lists h))),
                              Heap (h_lists h ++ [cb_new o]) (h_defs h) (h_log h))
      | UAdd l a => ret_obj (start (fire_loop n) (OList l) (cb_add (flatten_all a)) h)
      | URemove l a => ret_obj (update (OList l) (cb_remove (omap function_of a)) h)
      | UEmpty l => ret_obj (update (OList l) cb_empty h)
      | UDisable l => ret_obj (update (OList l) cb_disable h)
      | ULock l => ret_obj (update (OList l) cb_lock h)
      | UFireWith l x => ret_obj (start (fire_loop n) (OList l) (cb_fireWith x) h)
      | UHas l f => observe (OList l) (fun s => cb_has s (FUser f)) h
      | UFired l => observe (OList l) cb_fired h
      | UDeferred => let '(d, h1) := new_deferred h in Done (VDeferred d, h1)
      | UOn d k a => ret_obj (start (fire_loop n) (ODef d k) (cb_add (flatten_all a)) h)
      | USettleWith d k x => ret_obj (start (fire_loop n) (ODef d k) (cb_fireWith x) h)
      | USettle d k x => ret_obj (start (fire_loop n) (ODef d k) (cb_fireWith (as_promise d x)) h)
      | UAlways d a =>
          let! h1 := start (fire_loop n) (ODef d Kdone) (cb_add (flatten_all [AArr a])) h in
          ret_obj (start (fire_loop n) (ODef d Kfail) (cb_add (flatten_all [AArr a])) h1)
      | UThen d f1 f2 f3 =>
          match h_defs h !! d with
          | None => NoObject
          | Some _ =>
              let '(e, h0) := new_deferred h in
              let! h1 := start (fire_loop n) (ODef d Kdone) (cb_add [FThen d e Kdone f1]) h0 in
              let! h2 := start (fire_loop n) (ODef d Kfail) (cb_add [FThen d e Kfail f2]) h1 in
              let! h3 := start (fire_loop n) (ODef d Kprogress) (cb_add [FThen d e Kprogress f3]) h2 in
              Done (VPromise e, h3)
          end
      | UState d => match h_defs h !! d with
                    | Some r => Done (VState (d_state r), h) | None => NoObject end
      end
  end.

End heap.

(** ** Heap lemmas *)

Section heap_lemmas.
Context {O : Type}.
Implicit Types h : heap O.

Lemma get_set_eq o s h : is_Some (get_obj o h) -> get_obj o (set_obj o s h) = Some s.
Proof.
  destruct o as [n|d k]; simpl; intros [s' Hs].
  - apply list_lookup_insert_eq. by eapply lookup_lt_Some.
  - rewrite list_lookup_alter_eq. destruct (h_defs h !! d); simplify_eq/=. by destruct k.
Qed.

Lemma get_set_ne o o' s h : o <> o' -> get_obj o' (set_obj o s h) = get_obj o' h.
Proof.
  destruct o as [n|d k], o' as [n'|d' k']; simpl; intros Hne; try done.
  - apply list_lookup_insert_ne. congruence.
  - rewrite list_lookup_alter. case_decide; [|done]. subst.
    destruct (h_defs h !! d'); [|done]. simpl. f_equal. destruct k, k'; try done.
Qed.

Lemma get_log o o' f x h : get_obj o (log_call o' f x h) = get_obj o h.
Proof. by destruct o. Qed.

Lemma get_set_state o d s h : get_obj o (set_state d s h) = get_obj o h.
Proof.
  destruct o as [n|d' k]; [done|]. simpl. rewrite list_lookup_alter. case_decide; [|done].
  subst. destruct (h_defs h !! d'); [|done]. by destruct k.
Qed.
End heap_lemmas.

(** ** Refinement: the two implementations run every program alike *)

Section refinement.
Context {O1 O2 : Type} `{CallbackList fn fdata O1} `{CallbackList fn fdata O2}.
Context (R : O1 -> O2 -> Prop) (mode_of : O2 -> mode).
Context `{!CallbackRefinement fn fdata O1 O2 R mode_of}.

Record rec_sim (r1 : deferred O1) (r2 : deferred O2) : Prop := {
  rs_state : d_state r1 = d_state r2;
  rs_list k : R (d_list k r1) (d_list k r2)
}.

Record hsim (h1 : heap O1) (h2 : heap O2) : Prop := {
  hs_lists : Forall2 R (h_lists h1) (h_lists h2);
  hs_defs : Forall2 rec_sim (h_defs h1) (h_defs h2);
  hs_log : h_log h1 = h_log h2
}.

(** No object but [o] is at its loop test. *)
Definition calm_but (o : option oid) (h : heap O2) : Prop :=
  forall o' s, Some o' <> o -> get_obj o' h = Some s -> mode_of s <> Testing.

(** The objects other than [o] that were in a call still are. *)
Definition keeps_but (o : option oid) (h h' : heap O2) : Prop :=
  forall o' s, Some o' <> o -> get_obj o' h = Some s -> mode_of s = Calling ->
    exists s', get_obj o' h' = Some s' /\ mode_of s' = Calling.

(** What holds of two outcomes: [P] of what they return, [E] of the heaps that
    exceptions leave. *)
Definition osim {A1 A2} (E : heap O1 -> heap O2 -> Prop) (P : A1 -> A2 -> Prop)
    (r1 : out (heap O1) A1) (r2 : out (heap O2) A2) : Prop :=
  match r1, r2 with
  | Done a, Done b => P a b
  | Threw e1 h1, Threw e2 h2 => e1 = e2 /\ E h1 h2
  | NoFuel, NoFuel | NoObject, NoObject => True
  | _, _ => False
  end.

Lemma hsim_get o h1 h2 : hsim h1 h2 -> opt_rel R (get_obj o h1) (get_obj o h2).
Proof.
  intros [Hl Hd _]. destruct o as [n|d k]; simpl; [by apply Forall2_opt_rel|].
  pose proof (Forall2_opt_rel _ _ _ d Hd) as Hr.
  destruct (h_defs h1 !! d), (h_defs h2 !! d); simpl in *; try done. apply Hr.
Qed.

Lemma hsim_set o s q h1 h2 : hsim h1 h2 -> R s q -> hsim (set_obj o s h1) (set_obj o q h2).
Proof.
  intros [Hl Hd Hg] Hr. destruct o as [n|d k]; split; simpl; try done.
  - by apply Forall2_insert.
  - apply Forall2_alter; [done|]. intros r1 r2 _ _ [Hs Hk]. split; [by destruct k|].
    intros k'. pose proof (Hk k'). by destruct k, k'.
Qed.

Lemma hsim_log o f x h1 h2 : hsim h1 h2 -> hsim (log_call o f x h1) (log_call o f x h2).
Proof. intros [? ? E]. split; simpl; [done|done|by rewrite E]. Qed.

Lemma hsim_set_state d st h1 h2 : hsim h1 h2 -> hsim (set_state d st h1) (set_state d st h2).
Proof.
  intros [? Hd ?]. split; simpl; try done. apply Forall2_alter; [done|].
  intros r1 r2 _ _ [Hs Hk]. split; [done|]. intros k. pose proof (Hk k). by destruct k.
Qed.

Lemma calm_set o s h : mode_of s <> Testing -> calm_but (Some o) h ->
  calm_but None (set_obj o s h).
Proof.
  intros Hs Hc o' s' _ Hg. destruct (decide (o' = o)) as [->|Hne].
  - destruct (get_obj o h) eqn:E.
    + rewrite get_set_eq in Hg by eauto. by simplify_eq.
    + exfalso. destruct o as [n|d k]; simpl in *.
      * apply lookup_lt_Some in Hg. rewrite length_insert in Hg. apply lookup_ge_None in E. lia.
      * rewrite list_lookup_alter_eq in Hg. destruct (h_defs h !! d); done.
  - rewrite get_set_ne in Hg by congruence. eapply Hc; [|exact Hg]. congruence.
Qed.

Lemma calm_set_but o s h : calm_but (Some o) h -> calm_but (Some o) (set_obj o s h).
Proof.
  intros Hc o' s' Hne Hg. rewrite get_set_ne in Hg by congruence. by eapply Hc.
Qed.

Lemma calm_weaken o h : calm_but None h -> calm_but (Some o) h.
Proof. intros Hc o' s _ Hg. by eapply Hc. Qed.

Lemma keeps_set o s h : keeps_but (Some o) h (set_obj o s h).
Proof. intros o' s' Hne Hg Hm. exists s'. rewrite get_set_ne by congruence. done. Qed.

Lemma keeps_trans o h1 h2 h3 : keeps_but o h1 h2 -> keeps_but o h2 h3 -> keeps_but o h1 h3.
Proof.
  intros H1 H2 o' s Hne Hg Hm. destruct (H1 o' s Hne Hg Hm) as (s2 & Hg2 & Hm2).
  eapply H2; eauto.
Qed.

Lemma keeps_weaken o h1 h2 : keeps_but None h1 h2 -> keeps_but o h1 h2.
Proof. intros Hk o' s _ Hg Hm. by eapply Hk. Qed.

Lemma osim_bind {A1 A2 B1 B2} E (P : A1 -> A2 -> Prop) (Q : B1 -> B2 -> Prop) r1 r2 k1 k2 :
  osim E P r1 r2 -> (forall a b, P a b -> osim E Q (k1 a) (k2 b)) ->
  osim E Q (obind r1 k1) (obind r2 k2).
Proof. unfold osim. destruct r1, r2; simpl; try done. intros Hp Hk. by apply Hk. Qed.

Definition hpost (o : option oid) (h2 : heap O2) (h1' : heap O1) (h2' : heap O2) : Prop :=
  hsim h1' h2' /\ calm_but None h2' /\ keeps_but o h2 h2'.

Definition vpost (h2 : heap O2) (r1 : val * heap O1) (r2 : val * heap O2) : Prop :=
  r1.1 = r2.1 /\ hpost None h2 r1.2 r2.2.

Lemma osim_mono {A1 A2} (E F : heap O1 -> heap O2 -> Prop) (P Q : A1 -> A2 -> Prop) r1 r2 :
  osim E P r1 r2 -> (forall a b, E a b -> F a b) -> (forall a b, P a b -> Q a b) -> osim F Q r1 r2.
Proof. destruct r1, r2; simpl; naive_solver. Qed.

(** Outcomes with the same condition on both heaps. *)
Lemma osim_both (E F : heap O1 -> heap O2 -> Prop) r1 r2 :
  osim E E r1 r2 -> (forall a b, E a b -> F a b) -> osim F F r1 r2.
Proof. intros Hr Hk. by eapply osim_mono. Qed.

(** What the laws give for a method that may start a loop, or may not. *)
Definition starts (m1 : O1 -> O1 * option fdata) (m2 : O2 -> O2 * option fdata) : Prop :=
  forall s q, R s q -> mode_of q <> Testing ->
    R (m1 s).1 (m2 q).1 /\ (m1 s).2 = (m2 q).2 /\
    match (m2 q).2 with
    | None => mode_of (m2 q).1 = mode_of q
    | Some _ => mode_of q = Idle /\ mode_of (m2 q).1 = Testing
    end.

Definition updates (m1 : O1 -> O1) (m2 : O2 -> O2) : Prop :=
  forall s q, R s q -> mode_of q <> Testing ->
    R (m1 s) (m2 q) /\ mode_of (m2 q) = mode_of q.

Lemma update_keeps o q q' (h : heap O2) :
  get_obj o h = Some q -> mode_of q' = mode_of q -> keeps_but None h (set_obj o q' h).
Proof.
  intros Hg Hm o' s' _ Hg' Hc. destruct (decide (o' = o)) as [->|Hne].
  - exists q'. rewrite get_set_eq by eauto. split; [done|]. simplify_eq. congruence.
  - exists s'. by rewrite get_set_ne by congruence.
Qed.

Lemma update_osim o m1 m2 h1 h2 : updates m1 m2 -> hsim h1 h2 -> calm_but None h2 ->
  osim (hpost None h2) (hpost None h2) (update o m1 h1) (update o m2 h2).
Proof.
  intros Hm Hs Hc. pose proof (hsim_get o h1 h2 Hs) as Hg. unfold update.
  destruct (get_obj o h1) as [s|], (get_obj o h2) as [q|] eqn:Eq; simpl in *; try done.
  destruct (Hm s q Hg) as [HR Hmode]; [by eapply Hc|]. split_and!.
  - by apply hsim_set.
  - apply calm_set; [rewrite Hmode; by eapply Hc|by apply calm_weaken].
  - by eapply update_keeps.
Qed.

Context (body : nat -> fdata -> cmd).

Definition loop_ok (n : nat) : Prop := forall o x h1 h2 q,
  hsim h1 h2 -> calm_but (Some o) h2 -> get_obj o h2 = Some q -> mode_of q = Testing ->
  osim (hpost (Some o) h2) (hpost (Some o) h2) (fire_loop body n o x h1) (fire_loop body n o x h2).

Lemma start_osim n o m1 m2 h1 h2 : loop_ok n -> starts m1 m2 -> hsim h1 h2 -> calm_but None h2 ->
  osim (hpost None h2) (hpost None h2) (start (fire_loop body n) o m1 h1) (start (fire_loop body n) o m2 h2).
Proof.
  intros Hl Hm Hs Hc. pose proof (hsim_get o h1 h2 Hs) as Hg. unfold start.
  destruct (get_obj o h1) as [s|], (get_obj o h2) as [q|] eqn:Eq; simpl in *; try done.
  destruct (Hm s q Hg) as (HR & Hgo & Hmode); [by eapply Hc|].
  destruct (m1 s) as [s1 go1], (m2 q) as [q1 go2]; simpl in *. subst.
  destruct go2 as [x|].
  - destruct Hmode as [Hidle Htest].
    eapply osim_both; [eapply (Hl o x _ (set_obj o q1 h2) q1)|].
    + by apply hsim_set.
    + by apply calm_set_but, calm_weaken.
    + by rewrite get_set_eq by eauto.
    + done.
    + intros a b (? & ? & Hk). split_and!; [done|done|].
      intros o' s' _ Hg' Hc'. destruct (decide (o' = o)) as [->|Hne]; [simplify_eq; congruence|].
      apply (Hk o' s'); [congruence|by rewrite get_set_ne by congruence|done].
  - split_and!; [by apply hsim_set| |by eapply update_keeps].
    apply calm_set; [rewrite Hmode; by eapply Hc|by apply calm_weaken].
Qed.

Lemma ret_osim (h2 : heap O2) r1 r2 :
  osim (hpost None h2) (hpost None h2) r1 r2 -> osim (hpost None h2) (vpost h2) (ret_obj r1) (ret_obj r2).
Proof. unfold ret_obj. intros Hr. eapply osim_bind; [exact Hr|]. intros a b Hp. by split. Qed.

Lemma starts_add fs : starts (cb_add fs) (cb_add fs).
Proof. intros s q. by apply cr_add. Qed.
Lemma starts_fireWith x : starts (cb_fireWith x) (cb_fireWith x).
Proof. intros s q. by apply cr_fireWith. Qed.

Lemma hpost_trans o h2 h2' a b : keeps_but None h2 h2' -> hpost o h2' a b -> hpost o h2 a b.
Proof. intros Hk (? & ? & ?). split_and!; [done|done|]. eapply keeps_trans; [by apply keeps_weaken|done]. Qed.

Lemma new_list_sim fs o :
  R (cb_add fs (cb_new o)).1 (cb_add fs (cb_new o)).1 /\
  mode_of (cb_add fs (cb_new o)).1 = Idle.
Proof.
  destruct (cr_new (CallbackRefinement := CallbackRefinement0) o) as (Hr & Hm & Ha).
  destruct (cr_add fs _ _ Hr) as (? & _ & Hmm); [by rewrite Hm|]. split; [done|].
  rewrite Ha in Hmm. congruence.
Qed.

(** Objects added at the end of the heap, outside any loop. *)
Lemma get_app_ne o (h : heap O2) ls ds s :
  get_obj o (Heap (h_lists h ++ ls) (h_defs h ++ ds) (h_log h)) = Some s ->
  get_obj o h = Some s \/
  (exists l, l ∈ ls /\ s = l) \/ (exists r k, r ∈ ds /\ s = d_list k r).
Proof.
  destruct o as [n|d k]; simpl; intros Hg.
  - apply lookup_app_Some in Hg as [Hg|[_ Hg]]; [by left|]. right; left.
    exists s. split; [by eapply list_elem_of_lookup_2|done].
  - destruct ((h_defs h ++ ds) !! d) as [r|] eqn:E; simplify_eq/=.
    apply lookup_app_Some in E as [E|[_ E]]; [left; by rewrite E|].
    right; right. exists r, k. split; [by eapply list_elem_of_lookup_2|done].
Qed.

Lemma get_app_old o (h : heap O2) ls ds s : get_obj o h = Some s ->
  get_obj o (Heap (h_lists h ++ ls) (h_defs h ++ ds) (h_log h)) = Some s.
Proof.
  destruct o as [n|d k]; simpl; intros Hg; [by apply lookup_app_l_Some|].
  destruct (h_defs h !! d) as [r|] eqn:E; simplify_eq/=.
  by rewrite (lookup_app_l_Some _ _ _ _ E).
Qed.

Lemma app_hpost (h1 : heap O1) (h2 : heap O2) ls1 ls2 ds1 ds2 :
  hsim h1 h2 -> calm_but None h2 -> Forall2 R ls1 ls2 -> Forall2 rec_sim ds1 ds2 ->
  (forall l, l ∈ ls2 -> mode_of l <> Testing) ->
  (forall r k, r ∈ ds2 -> mode_of (d_list k r) <> Testing) ->
  hpost None h2 (Heap (h_lists h1 ++ ls1) (h_defs h1 ++ ds1) (h_log h1))
                (Heap (h_lists h2 ++ ls2) (h_defs h2 ++ ds2) (h_log h2)).
Proof.
  intros [Hl Hd Hg] Hc Hls Hds Hm1 Hm2. split_and!.
  - split; simpl; [by apply Forall2_app|by apply Forall2_app|done].
  - intros o s _ Ho. apply get_app_ne in Ho as [Ho|[(l & Hin & ->)|(r & k & Hin & ->)]];
      [by eapply Hc|by apply Hm1|by apply Hm2].
  - intros o s _ Ho Hm. exists s. split; [by apply get_app_old|done].
Qed.

Lemma new_deferred_sim h1 h2 : hsim h1 h2 -> calm_but None h2 ->
  (new_deferred h1).1 = (new_deferred h2).1 /\
  hpost None h2 (new_deferred h1).2 (new_deferred h2).2.
Proof.
  intros Hs Hc. pose proof Hs as [_ Hd _]. split; [simpl; by eapply Forall2_length|].
  unfold new_deferred; simpl. rewrite (Forall2_length _ _ _ Hd).
  rewrite <- (app_nil_r (h_lists h1)), <- (app_nil_r (h_lists h2)).
  apply app_hpost; try done; [|set_solver|].
  - apply Forall2_cons. split; [|done]. split; [done|].
    intros []; simpl; [apply new_list_sim..|].
    by destruct (cr_new (CallbackRefinement := CallbackRefinement0) memory_only).
  - intros r k ->%list_elem_of_singleton. destruct k; simpl.
    1,2: by rewrite (proj2 (new_list_sim _ _)).
    destruct (cr_new (CallbackRefinement := CallbackRefinement0) memory_only) as (_ & -> & _). done.
Qed.

Lemma starts_end_osim n o h1 h2 q : loop_ok n -> hsim h1 h2 -> calm_but (Some o) h2 ->
  get_obj o h2 = Some q -> mode_of q <> Idle ->
  osim (hpost (Some o) h2) (hpost (Some o) h2) (start (fire_loop body n) o cb_end h1)
                           (start (fire_loop body n) o cb_end h2).
Proof.
  intros Hl Hs Hc Hq Hm. pose proof (hsim_get o h1 h2 Hs) as Hg. unfold start. rewrite Hq in *.
  destruct (get_obj o h1) as [s|]; simpl in *; [|done].
  destruct (cr_end s q Hg Hm) as (HR & Hgo & Hmode).
  destruct (cb_end s) as [s1 go1], (cb_end q) as [q1 go2]; simpl in *. subst.
  assert (hsim (set_obj o s1 h1) (set_obj o q1 h2)) as Hs' by by apply hsim_set.
  destruct go2 as [x|].
  - eapply osim_both; [eapply (Hl o x _ _ q1 Hs'); try done|].
    + by apply calm_set_but.
    + by rewrite get_set_eq by eauto.
    + intros a b (? & ? & Hk). split_and!; [done|done|].
      eapply keeps_trans; [apply keeps_set|exact Hk].
  - split_and!; [done|by apply calm_set; [rewrite Hmode|]|apply keeps_set].
Qed.

(** A transition at the top of the loop of [o], then the rest of the loop. *)
Lemma hpost_set o q1 h2 (a : heap O1) (b : heap O2) :
  hpost (Some o) (set_obj o q1 h2) a b -> hpost (Some o) h2 a b.
Proof.
  intros (? & ? & Hk). split_and!; [done|done|]. eapply keeps_trans; [apply keeps_set|exact Hk].
Qed.

(** One more method call in a sequence that began in the heap [h0]. *)
Lemma start_chain n o m1 m2 h0 h1 h2 : loop_ok n -> starts m1 m2 -> hpost None h0 h1 h2 ->
  osim (hpost None h0) (hpost None h0) (start (fire_loop body n) o m1 h1) (start (fire_loop body n) o m2 h2).
Proof.
  intros Hl Hm (Hs & Hc & Hk). eapply osim_both; [by apply start_osim|].
  intros a b. by apply hpost_trans.
Qed.

Lemma hpost_refl h1 h2 : hsim h1 h2 -> calm_but None h2 -> hpost None h2 h1 h2.
Proof. intros Hs Hc. split_and!; [done|done|]. intros o s _ Hg Hm. by exists s. Qed.

Definition call_ok (n : nat) : Prop := forall f x h1 h2, hsim h1 h2 -> calm_but None h2 ->
  osim (hpost None h2) (vpost h2) (call body n f x h1) (call body n f x h2).
Definition run_ok (n : nat) : Prop := forall c h1 h2, hsim h1 h2 -> calm_but None h2 ->
  osim (hpost None h2) (vpost h2) (run body n c h1) (run body n c h2).
Definition op_ok (n : nat) : Prop := forall op h1 h2, hsim h1 h2 -> calm_but None h2 ->
  osim (hpost None h2) (vpost h2) (do_op body n op h1) (do_op body n op h2).

Lemma vpost_intro (h2 : heap O2) v (a : heap O1) b : hpost None h2 a b -> vpost h2 (v, a) (v, b).
Proof. by split. Qed.

Lemma loop_step n : loop_ok n -> call_ok n -> loop_ok (S n).
Proof.
  intros Hl Hcall o x h1 h2 q Hs Hc Hq Hm. pose proof (hsim_get o h1 h2 Hs) as Hg. simpl.
  rewrite Hq in *. destruct (get_obj o h1) as [s|]; simpl in *; [|done].
  destruct (cr_next s q Hg Hm) as (HR & Hgo & Hmode).
  destruct (cb_next s) as [s1 c1], (cb_next q) as [q1 c2]; simpl in *. subst.
  assert (hsim (set_obj o s1 h1) (set_obj o q1 h2)) as Hs' by by apply hsim_set.
  assert (get_obj o (set_obj o q1 h2) = Some q1) as Hq1 by by rewrite get_set_eq by eauto.
  destruct c2 as [|f|]; [| |done].
  - eapply osim_both; [eapply (starts_end_osim n o _ _ q1); try done|].
    + by apply calm_set_but.
    + by rewrite Hmode.
    + intros a b. apply hpost_set.
  - eapply osim_bind.
    { eapply osim_mono; [apply (Hcall f x (log_call o f x (set_obj o s1 h1)) (log_call o f x (set_obj o q1 h2)))| |].
      - by apply hsim_log.
      - intros o' s' _ Hg'. rewrite get_log in Hg'. revert o' s' Hg'.
        assert (calm_but None (set_obj o q1 h2)) as Hc' by (apply calm_set; [by rewrite Hmode|done]).
        intros o' s' Hg'. by eapply Hc'.
      - intros a b (? & ? & Hk). split_and!; [done|done|]. intros o' s' Hne Hg' Hm'.
        apply (Hk o' s'); [done| |done]. by rewrite get_log, get_set_ne by congruence.
      - intros a b Hab. exact Hab. }
    intros [v1 a] [v2 b] (Hv & Hs2 & Hc2 & Hk2); simpl in *. subst.
    destruct (Hk2 o q1) as (q2 & Hq2 & Hm2); [done|by rewrite get_log|done|].
    pose proof (hsim_get o a b Hs2) as Hg2. rewrite Hq2 in *.
    destruct (get_obj o a) as [s2|]; simpl in *; [|done].
    destruct (cr_returned (bool_decide (v2 = VBool false)) s2 q2 Hg2 Hm2) as (HR3 & Hgo3 & Hmode3).
    destruct (cb_returned _ s2) as [s3 go1], (cb_returned _ q2) as [q3 go]; simpl in *. subst.
    assert (keeps_but (Some o) h2 b) as Hkb.
    { intros o' s' Hne Hg' Hm'. apply (Hk2 o' s'); [done| |done].
      by rewrite get_log, get_set_ne by congruence. }
    assert (forall a' b', hpost (Some o) (set_obj o q3 b) a' b' -> hpost (Some o) h2 a' b') as Hfin.
    { intros a' b' (? & ? & ?). split_and!; [done|done|]. eapply keeps_trans; [exact Hkb|].
      eapply keeps_trans; [apply keeps_set|done]. }
    assert (get_obj o (set_obj o q3 b) = Some q3) as Hq3 by by rewrite get_set_eq by eauto.
    destruct go.
    + eapply osim_both; [eapply (Hl o x _ (set_obj o q3 b) q3); try done|apply Hfin].
      * by apply hsim_set.
      * by apply calm_set_but, calm_weaken.
    + eapply osim_both; [eapply (starts_end_osim n o _ (set_obj o q3 b) q3); try done|apply Hfin].
      * by apply hsim_set.
      * by apply calm_set_but, calm_weaken.
      * by rewrite Hmode3.
Qed.

Lemma call_step n : loop_ok n -> run_ok n -> call_ok (S n).
Proof.
  intros Hl Hrun f x h1 h2 Hs Hc. pose proof (hpost_refl h1 h2 Hs Hc) as Hp.
  destruct f as [u|d k|d st|o|o|src newd k u]; simpl.
  - by apply Hrun.
  - apply ret_osim, start_chain; auto using starts_fireWith.
  - apply vpost_intro. split_and!; [by apply hsim_set_state| |].
    + intros o s _. rewrite get_set_state. by apply Hc.
    + intros o s _ Hg Hm. exists s. by rewrite get_set_state.
  - apply ret_osim, update_osim; try done. intros s q. apply cr_disable.
  - apply ret_osim, update_osim; try done. intros s q. apply cr_lock.
  - eapply (osim_bind (hpost None h2) (vpost h2)).
    { destruct u as [u|]; [by apply Hrun|by apply vpost_intro]. }
    intros [v a] [v' b] [Hv Hab]; simpl in *; subst v'. clear Hs Hc Hp h1.
    destruct v as [| | | | |p|p]; simpl.
    1-5: eapply osim_bind; [apply start_chain; [done|apply starts_fireWith|exact Hab]|];
      intros; by apply vpost_intro.
    all: do 3 (eapply osim_bind; [apply start_chain; [done|apply starts_add|eassumption]|];
      intros; cbv beta); by apply vpost_intro.
Qed.

Lemma run_try {O} `{CallbackList fn fdata O} n op k catch (h : heap O) : run body (S n) (CTry op k catch) h =
  match do_op body n op h with
  | Threw e h1 => run body n (catch e) h1
  | r => let! (v, h1) := r in run body n (k v) h1
  end.
Proof. reflexivity. Qed.

(** The rest of a program, after a call. *)
Lemma run_rest n c h0 h1 h2 : run_ok n -> hpost None h0 h1 h2 ->
  osim (hpost None h0) (vpost h0) (run body n c h1) (run body n c h2).
Proof.
  intros Hrun (Hs & Hc & Hk). eapply osim_mono; [by apply Hrun| |].
  - intros a b. by apply hpost_trans.
  - intros x y [? ?]. split; [done|]. by eapply hpost_trans.
Qed.

Lemma run_step n : run_ok n -> op_ok n -> run_ok (S n).
Proof.
  intros Hrun Hop [v|v|op k|op k catch] h1 h2 Hs Hc; [..|rewrite !run_try]; cbn [run].
  - by apply vpost_intro, hpost_refl.
  - split; [done|by apply hpost_refl].
  - eapply osim_bind; [by apply Hop|]. intros [v a] [v' b] [Hv Hab]; simpl in *; subst v'. by apply run_rest.
  - pose proof (Hop op h1 h2 Hs Hc) as Ho.
    destruct (do_op body n op h1) as [[v a]|e a| | |], (do_op body n op h2) as [[v' b]|e' b| | |]; try done.
    + destruct Ho as [Hv Hab]; cbn [fst snd] in *; subst v'. by apply run_rest.
    + destruct Ho as [<- Hab]. by apply run_rest.
Qed.

Lemma observe_osim o m1 m2 h1 h2 : hsim h1 h2 -> calm_but None h2 ->
  (forall s q, R s q -> m1 s = m2 q) -> osim (hpost None h2) (vpost h2) (observe o m1 h1) (observe o m2 h2).
Proof.
  intros Hs Hc Hm. pose proof (hsim_get o h1 h2 Hs) as Hg. unfold observe.
  destruct (get_obj o h1), (get_obj o h2); simpl in *; try done.
  rewrite (Hm _ _ Hg). by apply vpost_intro, hpost_refl.
Qed.

Lemma def_osim d h1 h2 : hsim h1 h2 -> opt_rel rec_sim (h_defs h1 !! d) (h_defs h2 !! d).
Proof. intros [_ Hd _]. by apply Forall2_opt_rel. Qed.

Lemma op_step n : loop_ok n -> op_ok (S n).
Proof.
  intros Hl op h1 h2 Hs Hc. pose proof (hpost_refl h1 h2 Hs Hc) as Hp.
  destruct op; simpl;
    try (by apply ret_osim, start_chain; auto using starts_add, starts_fireWith);
    try (apply ret_osim, update_osim; [intros s q|done|done];
         solve [apply cr_remove|apply cr_empty|apply cr_disable|apply cr_lock]).
  - rewrite (Forall2_length _ _ _ (hs_lists _ _ Hs)). apply vpost_intro.
    rewrite <- (app_nil_r (h_defs h1)), <- (app_nil_r (h_defs h2)).
    destruct (cr_new (CallbackRefinement := CallbackRefinement0) o) as (? & Hm & _).
    apply app_hpost; try done.
    + by apply Forall2_cons.
    + by intros l ->%list_elem_of_singleton; rewrite Hm.
    + set_solver.
  - apply observe_osim; try done. intros s q Hr. by apply cr_observe.
  - apply observe_osim; try done. intros s q Hr. by apply cr_observe.
  - destruct (new_deferred_sim h1 h2 Hs Hc) as [E Hn]. split; [exact (f_equal VDeferred E)|exact Hn].
  - eapply osim_bind; [apply start_chain; [done|apply starts_add|exact Hp]|].
    intros a1 a2 Hab. apply ret_osim, start_chain; auto using starts_add.
  - pose proof (def_osim d h1 h2 Hs) as Hd.
    destruct (h_defs h1 !! d), (h_defs h2 !! d); simpl in Hd; try done.
    destruct (new_deferred_sim h1 h2 Hs Hc) as [_ Hn]. simpl in Hn.
    rewrite (Forall2_length _ _ _ (hs_defs _ _ Hs)) in *.
    do 3 (eapply osim_bind; [apply start_chain; [done|apply starts_add|eassumption]|];
      intros; cbv beta). by apply vpost_intro.
  - pose proof (def_osim d h1 h2 Hs) as Hd.
    destruct (h_defs h1 !! d), (h_defs h2 !! d); simpl in Hd; try done.
    rewrite (rs_state _ _ Hd). by apply vpost_intro.
Qed.

Lemma all_ok n : loop_ok n /\ call_ok n /\ run_ok n /\ op_ok n.
Proof.
  induction n as [|n (Hl & Hc & Hr & Ho)]; [split_and!; by intros ???|].
  split_and!; [by apply loop_step|by apply call_step|by apply run_step|by apply op_step].
Qed.

Lemma empty_hpost : hsim empty_heap empty_heap /\ calm_but None empty_heap.
Proof.
  split; [by split|]. by intros [[|n]|[|d] k] s _ Hg.
Qed.

Lemma run_refines n c : osim (hpost None empty_heap) (vpost empty_heap) (run body n c empty_heap) (run body n c empty_heap).
Proof. destruct empty_hpost. by apply all_ok. Qed.

End refinement.
