(* ===== verification/DeferredOnce.v ===== *)
(** * A deferred settles at most once

    An invariant of the evaluator of [Deferred], stated on the queue
    implementation of callback lists and transferred to the source's index
    implementation by the refinement: whatever the callbacks do, a deferred goes
    from pending to one settled state, its callbacks of the other kind are never
    called, and all its callbacks receive the same data. *)

From S2P Require Import Prelude JsString Callbacks Deferred.
From Stdlib Require Import ZArith Lia.

Local Open Scope js_scope.

(** ** What both implementations compute *)

Definition outcome {O} (r : out (heap O) (val * heap O)) :
    out (list (oid * fn * fdata)) (val * list (oid * fn * fdata)) :=
  match r with
  | Done (v, h) => Done (v, h_log h)
  | Threw e h => Threw e (h_log h)
  | NoFuel => NoFuel | BadIndex => BadIndex | NoObject => NoObject
  end.

(** The log entries of one callback list. *)
Definition calls_of (o : oid) (lg : list (oid * fn * fdata)) : list (fn * fdata) :=
  omap (fun '(o', f, x) => if decide (o' = o) then Some (f, x) else None) lg.

Lemma elem_of_calls o lg f x : (f, x) ∈ calls_of o lg <-> (o, f, x) ∈ lg.
Proof.
  unfold calls_of. rewrite list_elem_of_omap. split.
  - intros ([[o' f'] x'] & Hin & He). case_decide; by simplify_eq.
  - intros Hin. exists (o, f, x). by rewrite decide_True.
Qed.

Lemma calls_of_app o l1 l2 : calls_of o (l1 ++ l2) = calls_of o l1 ++ calls_of o l2.
Proof. apply omap_app. Qed.

(** ** The invariant *)

Notation heapq := (heap (@qcb fn fdata)).
Notation queue := (@qcb fn fdata).

(** The functions user code can put in a list. *)
Definition plain (f : fn) : Prop :=
  match f with FUser _ | FResolve _ _ | FThen _ _ _ _ => True | _ => False end.

Definition state_of (k : kind) : dstate :=
  match k with Kdone => Resolved | Kfail => Rejected | Kprogress => Pending end.

Definition co (k : kind) : kind :=
  match k with Kdone => Kfail | Kfail => Kdone | Kprogress => Kprogress end.

(** The list of a pending deferred: the built-in functions, then user ones. *)
Definition fresh (d : nat) (k : kind) (q : queue) : Prop :=
  exists l, Forall plain l /\
    q = QCB once_memory false None false true false [] (builtins d k ++ l) 0 None.

(** The list that settled the deferred with data [x]. *)
Record live (x : fdata) (q : queue) : Prop := Live {
  live_options : q_options q = once_memory;
  live_memory : q_memory q = Some x;
  live_fired : q_fired q = true;
  live_alive : q_alive q = true;
  live_stack : q_stack q = None;
  live_debt : q_debt q = 0
}.

Definition dead (q : queue) : Prop := q_alive q = false /\ q_rest q = [].

Definition plain_list (q : queue) : Prop := Forall plain (q_done q) /\ Forall plain (q_rest q).

Inductive phase (d : nat) (lg : list (oid * fn * fdata)) (r : deferred queue) : Prop :=
| PPending :
    d_state r = Pending -> fresh d Kdone (d_done r) -> fresh d Kfail (d_fail r) ->
    calls_of (ODef d Kdone) lg = [] -> calls_of (ODef d Kfail) lg = [] -> phase d lg r
| PSettled k x :
    k <> Kprogress -> d_state r = state_of k -> live x (d_list k r) -> Forall plain (q_rest (d_list k r)) -> dead (d_list (co k) r) ->
    Forall (fun c => c.2 = x) (calls_of (ODef d k) lg) -> calls_of (ODef d (co k)) lg = [] ->
    phase d lg r.

Record Inv (h : heapq) : Prop := {
  inv_lists : Forall plain_list (h_lists h);
  inv_defs d r : h_defs h !! d = Some r -> plain_list (d_progress r) /\ phase d (h_log h) r;
  inv_log d k : length (h_defs h) <= d -> calls_of (ODef d k) (h_log h) = []
}.

Definition settled_with (d : nat) (k : kind) (x : fdata) (h : heapq) : Prop :=
  exists r, h_defs h !! d = Some r /\ d_state r = state_of k /\ q_memory (d_list k r) = Some x.

(** A settled deferred stays settled, with its data. *)
Definition mono (h h' : heapq) : Prop := forall d k x, k <> Kprogress ->
  settled_with d k x h -> settled_with d k x h'.

(** What the loop of [fire] needs of its object and data. *)
Definition ready (o : oid) (x : fdata) (h : heapq) : Prop :=
  match o with ODef d k => k = Kprogress \/ settled_with d k x h | OList _ => True end.

Definition settles (o : oid) : bool :=
  match o with ODef _ Kdone | ODef _ Kfail => true | _ => false end.

Definition obj_ok (o : oid) (x : fdata) (q : queue) : Prop :=
  Forall plain (q_rest q) /\ if settles o then live x q else Forall plain (q_done q).

Lemma mono_refl h : mono h h. Proof. by intros d k x. Qed.
#[local] Hint Resolve mono_refl : core.
Lemma mono_trans h1 h2 h3 : mono h1 h2 -> mono h2 h3 -> mono h1 h3.
Proof. intros H1 H2 d k x Hk Hs. exact (H2 d k x Hk (H1 d k x Hk Hs)). Qed.

Lemma ready_mono o x h h' : mono h h' -> ready o x h -> ready o x h'.
Proof.
  destruct o as [|d k]; [done|]. intros Hm [->|Hs]; [by left|].
  destruct (decide (k = Kprogress)); [by left|right; by apply Hm].
Qed.

Lemma once_memory_eq : once_memory = Options true true false false.
Proof. reflexivity. Qed.

(** *** Transitions of one object *)

(** What pushing does to a list without debt. *)
Lemma pushes_rest fs : forall q : queue, Forall plain fs -> q_debt q = 0 ->
  exists l, Forall plain l /\ foldl q_push q fs = q_set (q_done q) (q_rest q ++ l) 0 q.
Proof.
  induction fs as [|f fs IH]; intros q Hfs Hd; simpl.
  - exists []. rewrite app_nil_r. split; [done|]. destruct q; simpl in *; by subst.
  - apply Forall_cons in Hfs as [Hf Hfs]. unfold q_push at 2.
    destruct (_ && _); [by apply IH|]. rewrite Hd.
    destruct (IH (q_set (q_done q) (q_rest q ++ [f]) 0 q) Hfs eq_refl) as (l & Hl & ->).
    exists (f :: l). split; [by constructor|]. simpl. by rewrite <- app_assoc.
Qed.

Lemma pushes_plain fs : forall q : queue, Forall plain fs -> Forall plain (q_list q) ->
  Forall plain (q_list (foldl q_push q fs)).
Proof.
  induction fs as [|f fs IH]; intros q Hfs Hq; [done|]. apply Forall_cons in Hfs as [? ?].
  apply IH; [done|]. unfold q_push, q_list in *. destruct (_ && _); [done|].
  apply Forall_app in Hq as [? ?]. destruct (q_debt q); simpl; rewrite ?Forall_app; by repeat constructor.
Qed.

Lemma obj_ok_plain o x q : settles o = false -> obj_ok o x q <-> Forall plain (q_list q).
Proof. unfold obj_ok, q_list. intros ->. rewrite Forall_app. tauto. Qed.

Lemma add_ok o x fs q : Forall plain fs -> obj_ok o x q ->
  obj_ok o x (q_add fs q).1 /\
  match (q_add fs q).2 with Some x' => settles o = true -> x' = x | None => True end.
Proof.
  intros Hfs Hq. destruct (settles o) eqn:Es.
  - unfold obj_ok, q_add in *. rewrite Es in *. destruct Hq as [Hr []].
    destruct (pushes_rest fs q Hfs live_debt0) as (l & Hl & ->).
    rewrite live_alive0, live_memory0. destruct (q_firing q); simpl; [|unfold q_list; simpl].
    + split_and!; [by apply Forall_app|by split|done].
    + split_and!; [|by split; simpl; rewrite ?live_options0|done].
      rewrite app_assoc, drop_app_length. done.
  - pose proof (proj1 (obj_ok_plain o x q Es) Hq) as Hl. rewrite !obj_ok_plain by done.
    unfold q_add. destruct (q_alive q); [|done].
    pose proof (pushes_plain fs q Hfs Hl) as Hp.
    destruct (q_firing q); [done|]. destruct (q_memory q) as [y|]; [|done]. simpl.
    unfold q_list at 1; simpl. rewrite take_drop. done.
Qed.

Lemma next_ok o x q : obj_ok o x q ->
  obj_ok o x (q_next q).1 /\ match (q_next q).2 with Call f => plain f | _ => True end.
Proof.
  unfold q_next, obj_ok. intros [Hr Hd]. destruct (q_rest q) as [|f rest] eqn:E; simpl; [by rewrite E|].
  apply Forall_cons in Hr as [Hf Hr]. split_and!; [done| |done].
  destruct (settles o); [by destruct Hd; split|]. apply Forall_app. by repeat constructor.
Qed.

Lemma returned_ok o x b q : obj_ok o x q -> obj_ok o x (q_returned b q).1.
Proof.
  unfold q_returned, obj_ok. intros [Hr Hd]. destruct (settles o) eqn:Es.
  - destruct Hd as [E ? ? ? ? ?]. rewrite E, once_memory_eq. rewrite andb_false_r. by split.
  - by destruct (b && _).
Qed.

Lemma end_ok o x q : obj_ok o x q ->
  obj_ok o x (q_end q).1 /\ match (q_end q).2 with Some _ => settles o = false | None => True end.
Proof.
  unfold q_end, obj_ok. intros [Hr Hd]. destruct (settles o) eqn:Es.
  - destruct Hd as [E1 E2 E3 E4 E5 E6]. rewrite E4, E5, E2. simpl. split_and!; [by constructor|by split|done].
  - destruct (q_alive q); simpl; [|by repeat constructor].
    assert (Forall plain (q_list q)) by (by apply Forall_app).
    destruct (q_stack q) as [[|]|]; [|simpl|destruct (q_memory q)]; repeat constructor; try done.
Qed.

Lemma fireWith_ok o x x' q : settles o = false -> obj_ok o x q -> obj_ok o x (q_fireWith x' q).1.
Proof.
  unfold q_fireWith, obj_ok. intros ->  [Hr Hd]. destruct (_ && _); [|done].
  destruct (q_firing q); simpl; [done|]. split; [by apply Forall_app|constructor].
Qed.

Lemma live_fireWith x x' q : live x q -> q_fireWith x' q = (q, None).
Proof. intros []. unfold q_fireWith. by rewrite live_alive0, live_fired0, live_stack0. Qed.

Lemma dead_fireWith x' q : dead q -> q_fireWith x' q = (q, None).
Proof. intros [E _]. unfold q_fireWith. by rewrite E. Qed.
Lemma dead_add fs q : dead q -> q_add fs q = (q, None).
Proof. intros [E _]. unfold q_add. by rewrite E. Qed.

(** *** Transitions of the heap *)

Lemma calls_of_snoc_ne o o' f x lg : o' <> o -> calls_of o (lg ++ [(o', f, x)]) = calls_of o lg.
Proof. intros Hne. rewrite calls_of_app. simpl. by rewrite decide_False, app_nil_r. Qed.

Lemma calls_of_snoc_eq o f x lg : calls_of o (lg ++ [(o, f, x)]) = calls_of o lg ++ [(f, x)].
Proof. rewrite calls_of_app. simpl. by rewrite decide_True. Qed.

Lemma co_ne k : k <> Kprogress -> co k <> k /\ co k <> Kprogress /\ co (co k) = k.
Proof. by destruct k. Qed.

Lemma settles_kind d k : settles (ODef d k) = true <-> k <> Kprogress.
Proof. by destruct k. Qed.

(** A phase with a settled record knows its kind and data. *)
Lemma phase_settled d lg r k x : k <> Kprogress -> phase d lg r ->
  d_state r = state_of k -> q_memory (d_list k r) = Some x ->
  live x (d_list k r) /\ Forall plain (q_rest (d_list k r)) /\ dead (d_list (co k) r) /\
  Forall (fun c => c.2 = x) (calls_of (ODef d k) lg) /\ calls_of (ODef d (co k)) lg = [].
Proof.
  intros Hk [Hs _ _ _ _|k' x' Hk' Hs Hl Hp Hd Hc Hc'] Hst Hm.
  - rewrite Hs in Hst. by destruct k.
  - assert (k' = k) as -> by (rewrite Hs in Hst; by destruct k, k').
    assert (x' = x) as -> by (destruct Hl; congruence). done.
Qed.

Lemma d_list_set k k' q r :
  d_list k' (set_d_list k q r) = if decide (k = k') then q else d_list k' (r : deferred queue).
Proof. by destruct k, k'. Qed.

Lemma d_state_set k q (r : deferred queue) : d_state (set_d_list k q r) = d_state r.
Proof. by destruct k. Qed.

Lemma phase_set d lg r k x q : phase d lg r ->
  (k = Kprogress \/ d_state r = state_of k /\ q_memory (d_list k r) = Some x) ->
  obj_ok (ODef d k) x q -> phase d lg (set_d_list k q r).
Proof.
  intros Hp Hk [Hr Hq]. destruct (decide (k = Kprogress)) as [->|Hne].
  - destruct Hp as [? ? ? ? ?|k' y Hk' ? ? ? ? ? ?]; [by apply PPending|].
    apply (PSettled _ _ _ k' y); rewrite ?d_list_set, ?d_state_set, ?decide_False; try done.
    by destruct k'.
  - destruct Hk as [|[Hs Hm]]; [done|].
    destruct (phase_settled d lg r k x Hne Hp Hs Hm) as (Hl & Hpl & Hd & Hc & Hc').
    rewrite (proj2 (settles_kind d k) Hne) in Hq.
    by destruct k; [apply (PSettled d lg _ Kdone x)|apply (PSettled d lg _ Kfail x)|].
Qed.


Lemma inv_set o x q h : Inv h -> ready o x h -> obj_ok o x q ->
  Inv (set_obj o q h) /\ mono h (set_obj o q h).
Proof.
  intros [Hl Hd Hg] Hr Hq. destruct o as [n|d k]; simpl.
  - split; [|by intros d k y]. split; simpl; [|done|done].
    apply Forall_insert; [done|]. split; apply Hq.
  - split.
    + split; simpl; [done| |by rewrite length_alter].
      intros d' r' Hlk. rewrite list_lookup_alter in Hlk. case_decide as E; [|by apply Hd]. subst d'.
      destruct (h_defs h !! d) as [r|] eqn:Er; simplify_eq/=. destruct (Hd d r Er) as [Hp Hph]. split.
      * destruct k; try done. split; apply Hq.
      * apply (phase_set _ _ _ _ x); try done. destruct Hr as [|(r' & Hr' & ?)]; [by left|right].
        by simplify_eq.
    + intros d' k' y Hk' (r & Hr' & Hs & Hm). destruct (decide (d = d')) as [<-|Hne].
      * exists (set_d_list k q r). simpl. rewrite list_lookup_alter_eq, Hr'. split; [done|].
        rewrite d_state_set, d_list_set. split; [done|]. case_decide as Ek; [subst k'|done].
        destruct Hr as [|(r' & Hr'' & Hs' & Hm')]; [done|]. simplify_eq.
        destruct Hq as [_ Hq]. rewrite (proj2 (settles_kind d k) Hk') in Hq.
        by destruct Hq.
      * exists r. simpl. by rewrite list_lookup_alter_ne by congruence.
Qed.

Lemma inv_log_call o f x h : Inv h -> ready o x h -> is_Some (get_obj o h) ->
  Inv (log_call o f x h) /\ mono h (log_call o f x h).
Proof.
  intros [Hl Hd Hg] Hr Ho. split; [|by intros d k y]. split; simpl; [done| |].
  - intros d r Hlk. destruct (Hd d r Hlk) as [Hp Hph]. split; [done|].
    destruct Hph as [Hs Hf1 Hf2 Hc1 Hc2|k y Hk Hs Hlv Hpl Hdd Hc Hc'].
    + assert (forall k, k <> Kprogress -> o <> ODef d k) as Hne.
      { intros k Hk ->. destruct Hr as [|(r' & ? & ? & _)]; [done|]. simplify_eq.
        rewrite Hs in *. by destruct k. }
      apply PPending; try done; by rewrite calls_of_snoc_ne by (by apply Hne).
    + pose proof (co_ne k Hk) as (? & ? & ?).
      assert (o <> ODef d (co k)) as Hne.
      { intros ->. destruct Hr as [|(r' & ? & Hs' & _)]; [done|]. simplify_eq.
        rewrite Hs in Hs'. by destruct k. }
      apply (PSettled _ _ _ k y); try done; [|by rewrite calls_of_snoc_ne].
      destruct (decide (o = ODef d k)) as [->|Hn]; [|by rewrite calls_of_snoc_ne].
      rewrite calls_of_snoc_eq, Forall_app. split; [done|]. constructor; [|done]. simpl.
      destruct Hr as [|(r' & ? & _ & Hm)]; [done|]. simplify_eq. destruct Hlv. congruence.
  - intros d k Hlen. rewrite calls_of_snoc_ne; [by apply Hg|]. intros ->. simpl in Ho.
    destruct (h_defs h !! d) eqn:E; [|by destruct Ho]. apply lookup_lt_Some in E. lia.
Qed.

(** The object of a ready loop is in order. *)
Lemma inv_get o x h q : Inv h -> ready o x h -> get_obj o h = Some q -> obj_ok o x q.
Proof.
  intros [Hl Hd Hg] Hr Ho. destruct o as [n|d k]; simpl in *.
  - by eapply (Forall_lookup_1 _ _ _ _ Hl) in Ho as [? ?].
  - destruct (h_defs h !! d) as [r|] eqn:Er; simplify_eq/=. destruct (Hd d r Er) as [Hp Hph].
    destruct (decide (k = Kprogress)) as [->|Hk]; [by destruct Hp; split|].
    destruct Hr as [|(r' & E & Hs & Hm)]; [done|]. assert (r' = r) as -> by congruence.
    destruct (phase_settled d _ r k x Hk Hph Hs Hm) as (? & ? & _).
    split; [done|]. by rewrite (proj2 (settles_kind d k) Hk).
Qed.

(** *** Settling: the three built-in callbacks run before any other *)

Section settle.
Context (body : nat -> fdata -> cmd).

(** The heap with record [d] replaced. *)
Definition put (d : nat) (r : deferred queue) (h : heapq) : heapq :=
  Heap (h_lists h) (<[d := r]> (h_defs h)) (h_log h).

Lemma alter_put {A} (f : A -> A) d r (l : list A) : l !! d = Some r -> alter f d l = <[d := f r]> l.
Proof.
  intros Hl. apply list_eq. intros i. rewrite list_lookup_alter. case_decide as E.
  - subst. rewrite Hl, list_lookup_insert_eq by (by eapply lookup_lt_Some). done.
  - by rewrite list_lookup_insert_ne.
Qed.

Lemma set_obj_put d k q r h : h_defs h !! d = Some r ->
  set_obj (ODef d k) q h = put d (set_d_list k q r) h.
Proof. intros Hl. unfold put; simpl. by rewrite (alter_put _ _ _ _ Hl). Qed.

Lemma put_lookup d r h : d < length (h_defs h) -> h_defs (put d r h) !! d = Some r.
Proof. intros. by apply list_lookup_insert_eq. Qed.

Lemma put_put d r r' h : put d r (put d r' h) = put d r h.
Proof. unfold put; simpl. by rewrite list_insert_insert_eq. Qed.

Lemma set_put d k q r h : d < length (h_defs h) ->
  set_obj (ODef d k) q (put d r h) = put d (set_d_list k q r) h.
Proof. intros. by rewrite (set_obj_put _ _ _ r), put_put by (by apply put_lookup). Qed.

Lemma get_put d k r h : d < length (h_defs h) -> get_obj (ODef d k) (put d r h) = Some (d_list k r).
Proof. intros. simpl. by rewrite list_lookup_insert_eq. Qed.

Lemma state_put d s r h : d < length (h_defs h) ->
  set_state d s (put d r h) = put d (DRec s (d_done r) (d_fail r) (d_progress r)) h.
Proof.
  intros. unfold set_state, put; simpl. f_equal.
  by rewrite (alter_put _ _ r), list_insert_insert_eq by (by apply list_lookup_insert_eq).
Qed.

Lemma log_put o f x d r h : log_call o f x (put d r h) = put d r (log_call o f x h).
Proof. done. Qed.

(** One turn of the loop of [fire] on a list of deferred [d], when the call
    changes nothing but record [d]. *)
Lemma fire_turn n d k x r r' h f v rest :
  d < length (h_defs h) -> let q := d_list k r in
  q_rest q = f :: rest -> opt_stopOnFalse (q_options q) = false ->
  (forall h', d < length (h_defs h') ->
     call body n f x (put d (set_d_list k (q_mode true (q_done q ++ [f]) rest q) r) h') =
     Done (v, put d r' h')) ->
  d_list k r' = q_mode true (q_done q ++ [f]) rest q ->
  fire_loop body (S n) (ODef d k) x (put d r h) =
  fire_loop body n (ODef d k) x
    (put d (set_d_list k (q_mode false (q_done q ++ [f]) rest q) r') (log_call (ODef d k) f x h)).
Proof.
  intros Hd q Hq Hs Hcall Hr'. cbn [fire_loop]. rewrite get_put by done.
  change (d_list k r) with q. cbn [cb_next queued]. unfold q_next. rewrite Hq.
  rewrite set_put, log_put, Hcall by done. cbn [obind].
  rewrite get_put, Hr' by done. cbn [cb_returned queued]. unfold q_returned.
  change (opt_stopOnFalse (q_options (q_mode _ _ _ q))) with (opt_stopOnFalse (q_options q)).
  rewrite Hs, andb_false_r, set_put by done. done.
Qed.

Lemma fire_loop_0 o x (h : heapq) : fire_loop body 0 o x h = NoFuel.
Proof. done. Qed.

Lemma fire_loop_1 o x (h : heapq) q f rest : get_obj o h = Some q -> q_rest q = f :: rest ->
  fire_loop body 1 o x h = NoFuel.
Proof. intros Hg Hq. simpl. rewrite Hg. cbn [cb_next queued]. unfold q_next. by rewrite Hq. Qed.

(** The record of [d] once its list [k] has run its built-in functions. *)
Definition settled_rec (k : kind) (x : fdata) (l : list fn) (d : nat) (r : deferred queue) : deferred queue :=
  set_d_list Kprogress (q_lock (d_progress r))
    (set_d_list (co k) (q_disable (d_list (co k) r))
      (set_d_list k (QCB once_memory true (Some x) true true false (builtins d k) l 0 None)
        (DRec (state_of k) (d_done r) (d_fail r) (d_progress r)))).

Definition builtin_log (d : nat) (k : kind) (x : fdata) : list (oid * fn * fdata) :=
  map (fun f => (ODef d k, f, x)) (builtins d k).

(** Runs one built-in function at the head of the list of [d]. *)
Ltac builtin_turn Hd :=
  etrans; [eapply fire_turn;
    [exact Hd|reflexivity|reflexivity
    |let Hh := fresh in intros ? Hh; cbn [call]; unfold ret_obj, update;
     first [by rewrite state_put by exact Hh
           |rewrite get_put, set_put by exact Hh; reflexivity]
    |reflexivity]|].

Lemma settle_loop m d k x l (r : deferred queue) h : k <> Kprogress -> d < length (h_defs h) ->
  d_list k r = QCB once_memory true (Some x) true true false [] (builtins d k ++ l) 0 None ->
  fire_loop body (4 + m) (ODef d k) x (put d r h) =
  fire_loop body (1 + m) (ODef d k) x
    (put d (settled_rec k x l d r)
      (Heap (h_lists h) (h_defs h) (h_log h ++ builtin_log d k x))).
Proof.
  intros Hk Hd Hq. destruct r as [st qd qf qp].
  destruct k; [| |done]; simpl in Hq; subst.
  - builtin_turn Hd. builtin_turn Hd. builtin_turn Hd.
    unfold settled_rec, log_call; simpl. by rewrite <- !app_assoc.
  - builtin_turn Hd. builtin_turn Hd. builtin_turn Hd.
    unfold settled_rec, log_call; simpl. by rewrite <- !app_assoc.
Qed.

Lemma settle_loop_fuel n d k x l (r : deferred queue) h : k <> Kprogress -> d < length (h_defs h) ->
  d_list k r = QCB once_memory true (Some x) true true false [] (builtins d k ++ l) 0 None ->
  n < 4 -> fire_loop body n (ODef d k) x (put d r h) = NoFuel.
Proof.
  intros Hk Hd Hq Hn. destruct r as [st qd qf qp].
  assert (forall r' h' f rest q, d < length (h_defs h') -> d_list k r' = q -> q_rest q = f :: rest ->
    fire_loop body 1 (ODef d k) x (put d r' h') = NoFuel) as H1.
  { intros r' h' f rest q Hd' <- Hr'. eapply fire_loop_1; [by apply get_put|done]. }
  destruct k; [| |done]; simpl in Hq; subst.
  all: destruct n as [|[|[|[|]]]]; [done| | |
    |lia]; repeat builtin_turn Hd; (eapply H1; [exact Hd|reflexivity|reflexivity]).
Qed.
(** *** The evaluator keeps the invariant *)

Definition post (h : heapq) (r : out heapq heapq) : Prop :=
  match r with Done h' | Threw _ h' => Inv h' /\ mono h h' | _ => True end.

Definition vpost' (h : heapq) (r : out heapq (val * heapq)) : Prop :=
  match r with Done (_, h') | Threw _ h' => Inv h' /\ mono h h' | _ => True end.

Lemma vpost_trans h h1 r : mono h h1 -> vpost' h1 r -> vpost' h r.
Proof. destruct r as [[v h2]|e h2| | |]; simpl; try done; intros ? [? ?]; (split; [done|by eapply mono_trans]). Qed.

Lemma post_trans h h1 r : mono h h1 -> post h1 r -> post h r.
Proof. destruct r; simpl; try done; intros ? [? ?]; (split; [done|by eapply mono_trans]). Qed.

Lemma calls_builtin o d k x : calls_of o (builtin_log d k x) =
  if decide (o = ODef d k) then map (fun f => (f, x)) (builtins d k) else [].
Proof.
  unfold builtin_log. case_decide as E; [subst|].
  - destruct k; simpl; by rewrite ?decide_True.
  - destruct k; simpl; by rewrite ?decide_False.
Qed.

Lemma settled_inv d k x l r h : Inv h -> h_defs h !! d = Some r -> k <> Kprogress ->
  d_state r = Pending -> Forall plain l ->
  (forall k', k' <> Kprogress -> calls_of (ODef d k') (h_log h) = []) ->
  let h' := put d (settled_rec k x l d r)
              (Heap (h_lists h) (h_defs h) (h_log h ++ builtin_log d k x)) in
  Inv h' /\ mono h h' /\ settled_with d k x h'.
Proof.
  intros [Hl Hd Hg] Hr Hk Hs Hpl Hc h'.
  assert (d < length (h_defs h)) as Hlt by by eapply lookup_lt_Some.
  assert (settled_with d k x h') as Hset.
  { exists (settled_rec k x l d r). unfold h'. rewrite put_lookup by done. by destruct k. }
  split_and!; [|intros d' k' y Hk' (r' & Hr' & Hs' & Hm')|done].
  - unfold h', put. split; simpl; [done| |].
    + intros d' r' Hr'. destruct (decide (d = d')) as [<-|Hne].
      * rewrite list_lookup_insert_eq in Hr' by done. simplify_eq. destruct (Hd d r Hr) as [Hp _].
        split.
        { assert (plain_list (q_lock (d_progress r))) as Hp' by (unfold q_lock; by destruct (q_memory _)).
          by destruct k. }
        pose proof (co_ne k Hk) as (Hco & Hco' & _).
        apply (PSettled _ _ _ k x); rewrite ?calls_of_app, ?calls_builtin, ?(Hc k Hk), ?(Hc (co k) Hco').
        -- done.
        -- by destruct k.
        -- by destruct k.
        -- by destruct k.
        -- by destruct k.
        -- rewrite decide_True by done. destruct k; repeat constructor.
        -- rewrite decide_False by congruence. done.
      * rewrite list_lookup_insert_ne in Hr' by done. destruct (Hd d' r' Hr') as [Hp Hph].
        split; [done|]. assert (forall k', calls_of (ODef d' k') (h_log h ++ builtin_log d k x) =
          calls_of (ODef d' k') (h_log h)) as E.
        { intros k'. rewrite calls_of_app, calls_builtin, decide_False, app_nil_r by congruence. done. }
        destruct Hph; [apply PPending|eapply PSettled]; rewrite ?E; done.
    + intros d' k'. rewrite length_insert. intros Hlen.
      rewrite calls_of_app, calls_builtin, Hg, decide_False by (try (intros ?; simplify_eq); lia). done.
  - destruct (decide (d = d')) as [<-|Hne].
    + simplify_eq. rewrite Hs in Hs'. by destruct k'.
    + exists r'. unfold h', put; simpl. by rewrite list_lookup_insert_ne.
Qed.

Definition loop_inv (n : nat) : Prop := forall o x h,
  Inv h -> ready o x h -> post h (fire_loop body n o x h).

(** [fireWith] on the list of a pending deferred. *)
Lemma settle_start n d k x r h : loop_inv (n - 3) -> Inv h -> h_defs h !! d = Some r ->
  k <> Kprogress -> d_state r = Pending -> fresh d k (d_list k r) ->
  (forall k', k' <> Kprogress -> calls_of (ODef d k') (h_log h) = []) ->
  post h (start (fire_loop body n) (ODef d k) (cb_fireWith x) h).
Proof.
  intros Hn Hi Hr Hk Hs (l & Hl & Hq) Hc. unfold start. cbn [get_obj]. rewrite Hr. simpl fmap.
  cbn [cb_fireWith queued]. rewrite Hq. unfold q_fireWith. simpl.
  change (post h (fire_loop body n (ODef d k) x (set_obj (ODef d k)
    (QCB once_memory true (Some x) true true false [] (builtins d k ++ l) 0 None) h))).
  assert (d < length (h_defs h)) as Hlt by by eapply lookup_lt_Some.
  rewrite (set_obj_put _ _ _ r) by done.
  destruct (decide (n < 4)) as [H4|H4].
  - rewrite (settle_loop_fuel n d k x l); try done. rewrite d_list_set. by rewrite decide_True.
  - replace n with (4 + (n - 4)) by lia. rewrite (settle_loop _ d k x l); try done.
    2: by rewrite d_list_set, decide_True.
    destruct (settled_inv d k x l r h Hi Hr Hk Hs Hl Hc) as (Hi' & Hm & Hset).
    replace (n - 3) with (1 + (n - 4)) in Hn by lia.
    assert (settled_rec k x l d (set_d_list k (QCB once_memory true (Some x) true true false []
      (builtins d k ++ l) 0 None) r) = settled_rec k x l d r) as -> by by destruct k.
    eapply post_trans; [exact Hm|]. apply Hn; [done|by right].
Qed.
Lemma set_same o q (h : heapq) : get_obj o h = Some q -> set_obj o q h = h.
Proof.
  destruct h as [ls ds lg], o as [i|d k]; simpl; intros Hg; f_equal; [by apply list_insert_id|].
  destruct (ds !! d) as [r|] eqn:Er; simplify_eq/=.
  rewrite (alter_put _ _ r) by done. apply list_insert_id. rewrite Er. f_equal. by destruct r, k.
Qed.

(** A pending deferred whose list [k] only receives more callbacks. *)
Lemma pending_set d k q r h : Inv h -> h_defs h !! d = Some r -> k <> Kprogress ->
  d_state r = Pending -> fresh d k q ->
  Inv (set_obj (ODef d k) q h) /\ mono h (set_obj (ODef d k) q h).
Proof.
  intros [Hl Hd Hg] Hr Hk Hs Hq. rewrite (set_obj_put _ _ _ r) by done.
  assert (d < length (h_defs h)) as Hlt by by eapply lookup_lt_Some. split.
  - split; simpl; [done| |by rewrite length_insert].
    intros d' r' Hr'. destruct (decide (d = d')) as [<-|Hne].
    + rewrite list_lookup_insert_eq in Hr' by done. simplify_eq. destruct (Hd d r Hr) as [Hp Hph].
      split; [by destruct k|]. destruct Hph as [? ? ? ? ?|k' ? ? Hs' ? ? ? ? ?].
      * apply PPending; by destruct k.
      * rewrite Hs in Hs'. by destruct k'.
    + rewrite list_lookup_insert_ne in Hr' by done. by apply Hd.
  - intros d' k' y Hk' (r' & Hr' & Hs' & Hm'). destruct (decide (d = d')) as [<-|Hne].
    + simplify_eq. rewrite Hs in Hs'. by destruct k'.
    + exists r'. simpl. by rewrite list_lookup_insert_ne.
Qed.

Lemma fresh_add d k fs q : Forall plain fs -> fresh d k q ->
  fresh d k (q_add fs q).1 /\ (q_add fs q).2 = None.
Proof.
  intros Hfs (l & Hl & ->). unfold q_add. simpl.
  destruct (pushes_rest fs (QCB once_memory false None false true false [] (builtins d k ++ l) 0 None)
    Hfs eq_refl) as (l' & Hl' & ->). split; [|done].
  exists (l ++ l'). split; [by apply Forall_app|]. unfold q_set; simpl. by rewrite app_assoc.
Qed.

(** How a settling list stands: pending, settled with that list, or dead. *)
Lemma inv_cases d k h q : Inv h -> k <> Kprogress -> get_obj (ODef d k) h = Some q ->
  (exists r, h_defs h !! d = Some r /\ d_state r = Pending /\ q = d_list k r /\ fresh d k q /\
     forall k', k' <> Kprogress -> calls_of (ODef d k') (h_log h) = []) \/
  (exists x, settled_with d k x h /\ obj_ok (ODef d k) x q) \/ dead q.
Proof.
  intros Hi Hk Hg. pose proof Hi as [_ Hd _]. simpl in Hg.
  destruct (h_defs h !! d) as [r|] eqn:Er; simplify_eq/=. destruct (Hd d r Er) as [_ Hph].
  destruct Hph as [? ? ? ? ?|k' x Hk' Hs Hlv Hpl Hdd ? ?].
  - left. exists r. split_and!; try done; [by destruct k|]. by intros [].
  - right. destruct (decide (k = k')) as [<-|Hne].
    + left. exists x. split; [exists r; by destruct Hlv|]. split; [done|].
      by rewrite (proj2 (settles_kind d k) Hk).
    + right. by destruct k, k'.
Qed.

(** A method on an object in order, whose transition keeps it in order. *)
Lemma start_ok n o m q x h : loop_inv n -> Inv h -> ready o x h -> get_obj o h = Some q ->
  obj_ok o x (m q).1 ->
  match (m q).2 with Some x' => settles o = true -> x' = x | None => True end ->
  post h (start (fire_loop body n) o m h).
Proof.
  intros Hn Hi Hr Hg Hok Hgo. unfold start. rewrite Hg. destruct (m q) as [q' go]; simpl in *.
  destruct (inv_set o x q' h Hi Hr Hok) as [Hi' Hm']. destruct go as [x'|]; [|done].
  eapply post_trans; [exact Hm'|]. apply Hn; [done|].
  apply (ready_mono _ _ h _ Hm'). destruct o as [|d k]; [done|].
  destruct (decide (k = Kprogress)) as [->|Hk]; [by left|].
  rewrite (Hgo (proj2 (settles_kind d k) Hk)). done.
Qed.

(** A method that does nothing. *)
Lemma start_skip n o m q h : Inv h -> get_obj o h = Some q -> m q = (q, None) ->
  post h (start (fire_loop body n) o m h).
Proof. intros Hi Hg Hm. unfold start. rewrite Hg, Hm. cbv beta iota zeta.
  rewrite set_same by done. by split.
Qed.

Lemma settles_cases o : settles o = false \/ exists d k, o = ODef d k /\ k <> Kprogress.
Proof. destruct o as [|d []]; [by left|right..|by left]; eauto. Qed.

Lemma ready_other o x h : settles o = false -> ready o x h.
Proof. destruct o as [|d []]; try done. by left. Qed.

Lemma start_add n o fs h : loop_inv n -> Inv h -> Forall plain fs ->
  post h (start (fire_loop body n) o (cb_add fs) h).
Proof.
  intros Hn Hi Hfs. destruct (get_obj o h) as [q|] eqn:Hg; [|unfold start; by rewrite Hg].
  assert (forall x, ready o x h -> obj_ok o x q -> post h (start (fire_loop body n) o (cb_add fs) h)) as Hok.
  { intros x Hr Hq. destruct (add_ok o x fs q Hfs Hq). by apply (start_ok n o _ q x). }
  destruct (settles_cases o) as [Hs|(d & k & -> & Hk)].
  - pose (x := FData VUndef []). apply (Hok x); [by apply ready_other|].
    eapply inv_get; try done. by apply ready_other.
  - destruct (inv_cases d k h q Hi Hk Hg) as [(r & Hr & Hs & -> & Hf & _)|[(x & Hx & Hq)|Hd]].
    + unfold start. rewrite Hg. destruct (fresh_add d k fs _ Hfs Hf) as [Hf' Hgo].
      cbn [cb_add queued]. destruct (q_add fs _) as [q' go]; simpl in *; subst.
      by apply (pending_set d k q' r).
    + apply (Hok x); [by right|done].
    + by apply (start_skip n _ _ q); [| |apply dead_add].
Qed.

Lemma start_fireWith n o x h : loop_inv n -> loop_inv (n - 3) -> Inv h ->
  post h (start (fire_loop body n) o (cb_fireWith x) h).
Proof.
  intros Hn Hn3 Hi. destruct (get_obj o h) as [q|] eqn:Hg; [|unfold start; by rewrite Hg].
  destruct (settles_cases o) as [Hs|(d & k & -> & Hk)].
  - apply (start_ok n o _ q x); try done; [by apply ready_other| |].
    + apply fireWith_ok; [done|]. eapply inv_get; try done. by apply ready_other.
    + rewrite Hs. by destruct (cb_fireWith x q).2.
  - destruct (inv_cases d k h q Hi Hk Hg) as [(r & Hr & Hs & -> & Hf & Hc)|[(y & Hx & Hq)|Hd]].
    + by apply (settle_start n d k x r).
    + apply (start_skip n _ _ q); [done|done|]. destruct Hq as [_ Hq].
      rewrite (proj2 (settles_kind d k) Hk) in Hq. by eapply live_fireWith.
    + by apply (start_skip n _ _ q); [| |apply dead_fireWith].
Qed.
(** The other methods of a standalone list. *)
Lemma list_update i m h : Inv h -> (forall q, plain_list q -> plain_list (m q)) ->
  vpost' h (ret_obj (update (OList i) m h)).
Proof.
  intros Hi Hm. unfold update, ret_obj. simpl. destruct (h_lists h !! i) as [q|] eqn:E; [|done].
  pose proof Hi as [Hl _ _]. pose proof (Forall_lookup_1 _ _ _ _ Hl E) as Hq.
  apply (inv_set (OList i) (FData VUndef []) _ h Hi I). by destruct (Hm q Hq).
Qed.

Lemma remove_plain fs : forall q : queue, plain_list q -> plain_list (q_remove fs q).
Proof.
  induction fs as [|f fs IH]; intros q [H1 H2]; [done|]. apply IH.
  split; simpl; apply Forall_forall; intros g [_ Hg]%list_elem_of_filter;
    by eapply Forall_forall in Hg.
Qed.

Lemma lock_plain (q : queue) : plain_list q -> plain_list (q_lock q).
Proof. unfold q_lock. by destruct (q_memory q). Qed.

Lemma flatten_plain a : Forall plain (flatten a).
Proof.
  revert a. fix IH 1. intros [f|d k|l|]; simpl; [by repeat constructor..| |constructor].
  induction l as [|a l IHl]; [constructor|]. apply Forall_app. split; [apply IH|exact IHl].
Qed.

Lemma ret_post h r : post h r -> vpost' h (ret_obj r).
Proof. by destruct r. Qed.

Lemma bind_post h r k : post h r -> (forall h1, Inv h1 -> mono h h1 -> vpost' h1 (k h1)) ->
  vpost' h (obind r k).
Proof.
  destruct r as [h1|e h1| | |]; simpl; try done. intros [Hi Hm] Hk. apply (vpost_trans h h1); auto.
Qed.

Lemma bind_vpost h r k : vpost' h r -> (forall v h1, Inv h1 -> mono h h1 -> vpost' h1 (k (v, h1))) ->
  vpost' h (obind r k).
Proof.
  destruct r as [[v h1]|e h1| | |]; simpl; try done. intros [Hi Hm] Hk. apply (vpost_trans h h1); auto.
Qed.

Definition call_inv n := forall f x h, plain f -> Inv h -> vpost' h (call body n f x h).
Definition run_inv n := forall c h, Inv h -> vpost' h (run body n c h).
Definition op_inv n := forall op h, Inv h -> vpost' h (do_op body n op h).

Lemma vret h v : Inv h -> vpost' h (Done (v, h)).
Proof. by split. Qed.

Lemma loop_inv_step n : (forall m, m <= n -> loop_inv m) -> call_inv n -> loop_inv (S n).
Proof.
  intros Hl Hc o x h Hi Hr. simpl. destruct (get_obj o h) as [q|] eqn:Hg; [|done].
  pose proof (inv_get o x h q Hi Hr Hg) as Hq. destruct (next_ok o x q Hq) as [Hq1 Hf].
  destruct (q_next q) as [q1 c]; simpl in *. destruct (inv_set o x q1 h Hi Hr Hq1) as [Hi1 Hm1].
  assert (Hend : forall q2 h2, Inv h2 -> mono h h2 -> get_obj o h2 = Some q2 -> obj_ok o x q2 ->
    post h (start (fire_loop body n) o q_end h2)).
  { intros q2 h2 Hi2 Hm2 Hg2 Hq2. destruct (end_ok o x q2 Hq2) as [Hq3 Hgo].
    eapply post_trans; [exact Hm2|]. apply (start_ok n o q_end q2 x); eauto using ready_mono.
    destruct (q_end q2).2; [|done]. intros Hs. rewrite Hs in Hgo. done. }
  assert (get_obj o (set_obj o q1 h) = Some q1) as Hg1 by (apply get_set_eq; eauto).
  destruct c as [|f|]; [by apply (Hend q1)| |done].
  destruct (inv_log_call o f x (set_obj o q1 h)) as [Hi2 Hm2]; eauto using ready_mono.
  pose proof (Hc f x _ Hf Hi2) as Hcall. destruct (call body n f x _) as [[v h2]|e h2| | |]; try done;
    destruct Hcall as [Hi3 Hm3]; simpl; [|split; [done|eauto using mono_trans]].
  assert (mono h h2) as Hm by eauto using mono_trans.
  destruct (get_obj o h2) as [q2|] eqn:Hg2; [|done].
  pose proof (ready_mono _ _ _ _ Hm Hr) as Hr2.
  pose proof (returned_ok o x (bool_decide (v = VBool false)) q2 (inv_get o x h2 q2 Hi3 Hr2 Hg2)) as Hq3.
  destruct (q_returned _ q2) as [q3 go]; simpl in *.
  destruct (inv_set o x q3 h2 Hi3 Hr2 Hq3) as [Hi4 Hm4].
  assert (mono h (set_obj o q3 h2)) as Hm5 by eauto using mono_trans.
  destruct go.
  - eapply post_trans; [exact Hm5|]. apply Hl; eauto using ready_mono.
  - apply (Hend q3); try done. apply get_set_eq; eauto.
Qed.

Lemma call_inv_step n : (forall m, m <= n -> loop_inv m) -> run_inv n -> call_inv (S n).
Proof.
  intros Hl Hrun f x h Hf Hi.
  assert (forall o x h, Inv h -> post h (start (fire_loop body n) o (cb_fireWith x) h)) as Hfire
    by (intros; apply start_fireWith; auto with lia).
  assert (forall o fs h, Inv h -> Forall plain fs ->
    post h (start (fire_loop body n) o (cb_add fs) h)) as Hadd by (intros; apply start_add; auto).
  destruct f as [u|d k|d st|o|o|src newd k u]; try done; cbn [call].
  - by apply Hrun.
  - by apply ret_post, Hfire.
  - eapply bind_vpost; [destruct u as [u|]; [by apply Hrun|by apply vret]|].
    intros v h1 Hi1 Hm1. destruct v as [| | | | |p|p];
      try (eapply bind_post; [by apply Hfire|]; intros; by apply vret).
    all: do 3 (eapply bind_post; [apply Hadd; [done|by repeat constructor]|];
      intros ? ? ?; cbv beta); by apply vret.
Qed.

Lemma run_inv_step n : run_inv n -> op_inv n -> run_inv (S n).
Proof.
  intros Hrun Hop [v|v|op k|op k catch] h Hi; [..|rewrite run_try]; cbn [run]; [by apply vret|by split| |].
  - eapply bind_vpost; [by apply Hop|]. intros v h1 Hi1 Hm1. by apply Hrun.
  - pose proof (Hop op h Hi) as Ho. destruct (do_op body n op h) as [[v h1]|e h1| | |]; try done;
      destruct Ho as [Hi1 Hm1]; apply (vpost_trans h h1); [done|by apply Hrun|done|by apply Hrun].
Qed.

Lemma plain_new o : plain_list (q_new o).
Proof. by repeat constructor. Qed.

Lemma new_deferred_inv h : Inv h -> Inv (new_deferred h).2 /\ mono h (new_deferred h).2.
Proof.
  intros [Hl Hd Hg]. split.
  - split; simpl; [done| |].
    + intros d r Hr. apply lookup_app_Some in Hr as [Hr|[Hlen Hr]]; [by apply Hd|].
      apply list_lookup_singleton_Some in Hr as [Hlen' <-].
      assert (d = length (h_defs h)) as -> by lia.
      split; [by repeat constructor|]. apply PPending; simpl; try done; try (by apply Hg).
      all: exists []; by split.
    + intros d k Hlen. apply Hg. rewrite length_app in Hlen. lia.
  - intros d k x Hk (r & Hr & ?). exists r. simpl. by rewrite (lookup_app_l_Some _ _ _ _ Hr).
Qed.

Lemma op_inv_step n : (forall m, m <= n -> loop_inv m) -> op_inv (S n).
Proof.
  intros Hl op h Hi.
  assert (forall o x h, Inv h -> post h (start (fire_loop body n) o (cb_fireWith x) h)) as Hfire
    by (intros; apply start_fireWith; auto with lia).
  assert (forall o fs h, Inv h -> Forall plain fs ->
    post h (start (fire_loop body n) o (cb_add fs) h)) as Hadd by (intros; apply start_add; auto).
  assert (forall a, Forall plain (flatten_all a)) as Hfl by (intros; apply flatten_plain).
  destruct op; cbn [do_op];
    try (apply ret_post; auto; fail);
    try (apply list_update; [done|]; intros q Hq;
         first [by apply remove_plain|by apply lock_plain|by repeat constructor]).
  - pose proof Hi as [HL HD HG]. simpl. split; [|by intros d k x].
    split; simpl; [|done|done].
    apply Forall_app. by repeat constructor.
  - unfold observe. destruct (get_obj _ h); [by apply vret|done].
  - unfold observe. destruct (get_obj _ h); [by apply vret|done].
  - destruct (new_deferred h) as [e h1] eqn:E. change h1 with (e, h1).2. rewrite <- E.
    simpl vpost'. by apply new_deferred_inv.
  - eapply bind_post; [by apply Hadd|]. intros. by apply ret_post, Hadd.
  - destruct (h_defs h !! d); [|done]. pose proof (new_deferred_inv h Hi) as [Hi1 Hm1].
    destruct (new_deferred h) as [e h1]; simpl in Hi1, Hm1.
    apply (vpost_trans h h1); [done|]. do 3 (eapply bind_post; [apply Hadd; [done|by repeat constructor]|];
      intros ? ? ?; cbv beta). by apply vret.
  - destruct (h_defs h !! d); [by apply vret|done].
Qed.

Lemma eval_inv n : loop_inv n /\ call_inv n /\ run_inv n /\ op_inv n.
Proof.
  induction n as [n IH] using lt_wf_ind. destruct n as [|n]; [split_and!; by intros ???|].
  assert (forall m, m <= n -> loop_inv m) as Hl by (intros m ?; apply IH; lia).
  destruct (IH n ltac:(lia)) as (_ & ? & ? & ?).
  split_and!; [by apply loop_inv_step|by apply call_inv_step|by apply run_inv_step|by apply op_inv_step].
Qed.

(** *** Callbacks that return at once *)

Context (g : nat -> fdata -> val) (Hbody : forall u x, body u x = CRet (g u x)).

Definition user_log (d : nat) (k : kind) (x : fdata) (us : list nat) : list (oid * fn * fdata) :=
  map (fun u => (ODef d k, FUser u, x)) us.

Definition idle_list (x : fdata) : queue :=
  QCB once_memory false (Some x) true true false [] [] 0 None.

Lemma user_loop us : forall n d k x done (r : deferred queue) h,
  d < length (h_defs h) -> length us + 3 <= n ->
  d_list k r = QCB once_memory true (Some x) true true false done (map FUser us) 0 None ->
  fire_loop body n (ODef d k) x (put d r h) =
  Done (put d (set_d_list k (idle_list x) r)
         (Heap (h_lists h) (h_defs h) (h_log h ++ user_log d k x us))).
Proof.
  induction us as [|u us IH]; intros n d k x dn r h Hd Hn Hq;
    (destruct n as [|[|[|n]]]; [simpl in Hn; lia..|]).
  - cbn [fire_loop]. rewrite get_put, Hq by done. cbn [cb_next queued]. unfold q_next.
    cbn [q_rest map]. unfold start. rewrite set_put by done. rewrite get_put by done. rewrite d_list_set, decide_True by done.
    cbn [cb_end queued]. unfold q_end. cbn [q_alive q_stack q_memory].
    change (@Done heapq _ (set_obj (ODef d k) (idle_list x)
      (put d (set_d_list k (QCB once_memory true (Some x) true true false dn [] 0 None) r) h)) =
      Done (put d (set_d_list k (idle_list x) r)
         (Heap (h_lists h) (h_defs h) (h_log h ++ [])))).
    rewrite set_put, app_nil_r by done. f_equal. destruct h; simpl. f_equal. by destruct k.
  - simpl in Hn. etrans; [eapply (fire_turn (S (S n)) d k x r _ h (FUser u));
      [done|by rewrite Hq|by rewrite Hq| |]|].
    + intros h' Hh'. cbn [call run]. rewrite Hbody. reflexivity.
    + by rewrite d_list_set, decide_True.
    + rewrite Hq. simpl q_mode. etrans; [apply (IH (S (S n)) d k x (dn ++ [FUser u]));
        [done|lia|by rewrite d_list_set, decide_True]|].
      f_equal. simpl. rewrite <- app_assoc. f_equal. by destruct k.
Qed.

Lemma settle_users us n d k x (r : deferred queue) h : k <> Kprogress ->
  h_defs h !! d = Some r -> length us + 6 <= n ->
  d_list k r = QCB once_memory false None false true false [] (builtins d k ++ map FUser us) 0 None ->
  exists h', start (fire_loop body n) (ODef d k) (cb_fireWith x) h = Done h' /\
    h_log h' = h_log h ++ builtin_log d k x ++ user_log d k x us /\
    exists r', h_defs h' !! d = Some r' /\ d_state r' = state_of k.
Proof.
  intros Hk Hr Hn Hq. assert (d < length (h_defs h)) as Hlt by by eapply lookup_lt_Some.
  unfold start. cbn [get_obj]. rewrite Hr. simpl fmap.
  cbn [cb_fireWith queued]. rewrite Hq. unfold q_fireWith. cbn [q_alive q_fired negb orb andb q_firing].
  change (q_begin x [] (q_list _) _)
    with (QCB once_memory true (Some x) true true false [] (builtins d k ++ map FUser us) 0 None).
  rewrite (set_obj_put _ _ _ r) by done. replace n with (4 + (n - 4)) by lia.
  rewrite (settle_loop _ d k x (map FUser us)); try done.
  2: by rewrite d_list_set, decide_True.
  rewrite (user_loop us _ d k x (builtins d k)); [|done|lia|by destruct k].
  eexists. split; [done|]. split; [by rewrite app_assoc|]. eexists.
  split; [by apply put_lookup|]. by destruct k.
Qed.

Lemma add_users us n d k x (r : deferred queue) h :
  k <> Kprogress -> h_defs h !! d = Some r -> length us + 3 <= n ->
  live x (d_list k r) -> q_firing (d_list k r) = false ->
  exists h', start (fire_loop body n) (ODef d k) (cb_add (map FUser us)) h = Done h' /\
    h_log h' = h_log h ++ user_log d k x us.
Proof.
  intros Hk Hr Hn [E1 E2 E3 E4 E5 E6] Hf. assert (d < length (h_defs h)) as Hlt by by eapply lookup_lt_Some.
  unfold start. cbn [get_obj]. rewrite Hr. simpl fmap.
  cbn [cb_add queued]. set (q := d_list k r) in *.
  assert (foldl q_push q (map FUser us) = q_set (q_done q) (q_rest q ++ map FUser us) 0 q) as Hp.
  { clear -E1 E6. assert (forall fs l, foldl q_push (q_set (q_done q) l 0 q) fs =
      q_set (q_done q) (l ++ fs) 0 q) as H.
    { intros fs. induction fs as [|f fs IH]; intros l; simpl; [by rewrite app_nil_r|].
      unfold q_push at 2. simpl. rewrite E1. simpl. etrans; [apply IH|]. by rewrite <- app_assoc. }
    rewrite <- H. f_equal. destruct q; simpl in *; by subst. }
  unfold q_add. rewrite E4, Hf, E2, Hp.
  assert (drop (length (q_list q)) (q_list (q_set (q_done q) (q_rest q ++ map FUser us) 0 q)) =
    map FUser us) as ->.
  { unfold q_list; simpl. rewrite app_assoc. apply drop_app_length. }
  unfold q_begin; simpl q_options; simpl q_stack. rewrite E1, E5.
  change (if opt_memory once_memory then Some x else None) with (Some x).
  erewrite set_obj_put by done. erewrite (user_loop us); [|done|done|by rewrite d_list_set, decide_True].
  by eexists.
Qed.

End settle.

(** ** The theorems, on the source's representation *)

Notation heapc := (heap (@cb fn fdata)).

Lemma inv_empty : Inv empty_heap.
Proof. split; simpl; [done| |done]. by intros [|d] r Hr. Qed.

(** A heap that some program reaches, by its end or by an exception. *)
Definition reaches (body : nat -> fdata -> cmd) (n : nat) (c : cmd) (h : heapc) : Prop :=
  match run body n c empty_heap with Done (_, h') | Threw _ h' => h' = h | _ => False end.

Lemma reaches_done body n c v (h : heapc) : run body n c empty_heap = Done (v, h) -> reaches body n c h.
Proof. unfold reaches. by intros ->. Qed.

(** Its queue counterpart. *)
Lemma reach_queue body n c (h : heapc) : reaches body n c h ->
  exists hq : heapq, hsim sim h hq /\ calm_but q_mode_of None hq /\ Inv hq.
Proof.
  unfold reaches. intros Hrun. pose proof (run_refines (O2 := queue) sim q_mode_of body n c) as Hs.
  pose proof (proj1 (proj2 (proj2 (eval_inv body n))) c _ inv_empty) as Hq.
  destruct (run body n c empty_heap) as [[v h1]|e h1| | |]; try done; subst h1;
    destruct (run (O := queue) body n c empty_heap) as [[v2 hq]|e2 hq| | |]; simpl in Hs; try done;
    exists hq; [destruct Hs as (_ & ? & ? & _)|destruct Hs as (_ & ? & ? & _)]; by destruct Hq.
Qed.

Lemma hsim_def (h : heapc) (hq : heapq) d r : hsim sim h hq -> h_defs h !! d = Some r ->
  exists rq, h_defs hq !! d = Some rq /\ rec_sim sim r rq.
Proof.
  intros Hs Hr. pose proof (def_osim sim d h hq Hs) as Ho. rewrite Hr in Ho.
  destruct (h_defs hq !! d) as [rq|]; [by exists rq|done].
Qed.

Lemma hsim_def_back (h : heapc) (hq : heapq) d rq : hsim sim h hq -> h_defs hq !! d = Some rq ->
  exists r, h_defs h !! d = Some r /\ rec_sim sim r rq.
Proof.
  intros Hs Hr. pose proof (def_osim sim d h hq Hs) as Ho. rewrite Hr in Ho.
  destruct (h_defs h !! d) as [r|]; [by exists r|done].
Qed.

(** C2: the indices of [jQuery.Callbacks] ([firingIndex],
    [firingLength], [firingStart], adjusted by [add] and [remove] while a firing
    runs) implement a queue of the calls still to make: for every program and
    all callback bodies, including ones that add, remove, empty, disable, lock
    or fire re-entrantly, and ones that throw out of the loops of [fire], caught or not, both
    make the same calls in the same order with the same data, return the same
    value or throw the same exception, and never apply an undefined element. *)
Theorem evaluators_agree (body : nat -> fdata -> cmd) (n : nat) (c : cmd) :
  outcome (run (O := @cb fn fdata) body n c empty_heap) =
  outcome (run (O := @qcb fn fdata) body n c empty_heap) /\
  run (O := @cb fn fdata) body n c empty_heap <> BadIndex.
Proof.
  pose proof (run_refines (O2 := queue) sim q_mode_of body n c) as Hs.
  destruct (run body n c empty_heap) as [[v1 h1]|e1 h1| | |],
    (run (O := queue) body n c empty_heap) as [[v2 h2]|e2 h2| | |]; simpl in *; try done.
  - destruct Hs as (Hv & Hh & _). simpl in *. by rewrite Hv, (hs_log _ _ _ Hh).
  - destruct Hs as (-> & Hh & _). by rewrite (hs_log _ _ _ Hh).
Qed.

(** C27: in every heap a program can reach, by its end or by an exception, a
    deferred's log agrees with its state: a pending deferred has called none of
    its [done] or [fail] callbacks; a resolved one has called no [fail]
    callback, and all its [done] callbacks with the same context and arguments;
    a rejected one symmetrically. *)
Theorem deferred_settles_once (body : nat -> fdata -> cmd) (n : nat) (c : cmd)
    (h : heap (@cb fn fdata)) (d : nat) (r : deferred (@cb fn fdata)) :
  reaches body n c h -> h_defs h !! d = Some r ->
  match d_state r with
  | Pending => calls_of (ODef d Kdone) (h_log h) = [] /\ calls_of (ODef d Kfail) (h_log h) = []
  | Resolved => calls_of (ODef d Kfail) (h_log h) = [] /\
                exists x, Forall (fun c => c.2 = x) (calls_of (ODef d Kdone) (h_log h))
  | Rejected => calls_of (ODef d Kdone) (h_log h) = [] /\
                exists x, Forall (fun c => c.2 = x) (calls_of (ODef d Kfail) (h_log h))
  end.
Proof.
  intros Hrun Hr. destruct (reach_queue body n c h Hrun) as (hq & Hs & _ & Hi).
  destruct (hsim_def h hq d r Hs Hr) as (rq & Hrq & [Hst _]).
  rewrite Hst, (hs_log _ _ _ Hs). destruct (inv_defs _ Hi d rq Hrq) as [_ Hph].
  destruct Hph as [-> _ _ ? ?|k x Hk -> _ _ _ Hc Hc']; [done|]. destruct k; simpl in *; eauto. done.
Qed.

(** A program that resolves a deferred, then tries to reject it. *)
Definition resolve_then_reject : cmd :=
  CDo UDeferred (fun _ =>
  CDo (UOn 0 Kdone [AFn 0]) (fun _ =>
  CDo (UOn 0 Kfail [AFn 1]) (fun _ =>
  CDo (USettle 0 Kdone (FData (VDeferred 0) [VNum 7])) (fun _ =>
  CDo (USettle 0 Kfail (FData (VDeferred 0) [VNum 8])) (fun _ => CRet VObj))))).

Lemma deferred_settles_once_witness :
  exists v (h : heapc) r, run (fun _ _ => CRet VUndef) 30 resolve_then_reject empty_heap = Done (v, h) /\
    h_defs h !! 0 = Some r /\ d_state r = Resolved /\ calls_of (ODef 0 Kfail) (h_log h) = [].
Proof.
  assert (exists v (h : heapc), run (fun _ _ => CRet VUndef) 30 resolve_then_reject empty_heap = Done (v, h) /\
    exists r, h_defs h !! 0 = Some r /\ d_state r = Resolved) as (v & h & E & r & Er & Es).
  { eexists _, _. split; [vm_compute; reflexivity|]. eexists. by repeat split. }
  pose proof (deferred_settles_once (fun _ _ => CRet VUndef) 30 resolve_then_reject h 0 r
    (reaches_done _ _ _ v h E) Er) as Ht.
  rewrite Es in Ht. exists v, h, r. split_and!; [exact E|exact Er|exact Es|apply Ht].
Defined.

(** [promise.state()], read without running anything. *)
Definition state_at {O} (d : nat) (h : heap O) : option dstate := d_state <$> h_defs h !! d.

(** Once a deferred has left the pending state, no further program changes
    its state. *)
Theorem settled_forever (body : nat -> fdata -> cmd) (n m : nat) (c1 c2 : cmd) (v1 v2 : val)
    (h1 h2 : heap (@cb fn fdata)) (d : nat) (s : dstate) :
  run body n c1 empty_heap = Done (v1, h1) -> state_at d h1 = Some s -> s <> Pending ->
  run body m c2 h1 = Done (v2, h2) -> state_at d h2 = Some s.
Proof.
  unfold state_at. intros Hrun1 Hs Hst Hrun2.
  destruct (h_defs h1 !! d) as [r|] eqn:Hr; simplify_eq/=.
  destruct (reach_queue body n c1 h1 (reaches_done _ _ _ _ _ Hrun1)) as (hq1 & Hs1 & Hc1 & Hi1).
  destruct (hsim_def h1 hq1 d r Hs1 Hr) as (rq & Hrq & [Est _]).
  destruct (inv_defs _ Hi1 d rq Hrq) as [_ Hph]. rewrite Est in Hst |- *.
  destruct Hph as [Ep _ _ _ _|k x Hk Ek Hlv _ _ _ _]; [done|].
  pose proof (proj1 (proj2 (proj2 (all_ok sim q_mode_of body m))) c2 h1 hq1 Hs1 Hc1) as Hs2.
  pose proof (proj1 (proj2 (proj2 (eval_inv body m))) c2 hq1 Hi1) as Hq2.
  rewrite Hrun2 in Hs2.
  destruct (run (O := queue) body m c2 hq1) as [[v3 hq2]|e hq2| | |]; simpl in Hs2; try done.
  destruct Hs2 as (_ & Hs2 & _), Hq2 as [_ Hm].
  destruct (Hm d k x Hk) as (rq' & Hrq' & Est' & _); [exists rq; by destruct Hlv|].
  destruct (hsim_def_back h2 hq2 d rq' Hs2 Hrq') as (r' & Hr' & [Er' _]).
  simpl in Hr'. rewrite Hr'. simpl. congruence.
Qed.

Lemma settled_forever_witness :
  exists v1 (h1 : heapc) v2 h2,
    run (fun _ _ => CRet VUndef) 30 resolve_then_reject empty_heap = Done (v1, h1) /\
    run (fun _ _ => CRet VUndef) 30 (CDo (USettle 0 Kfail (FData VUndef [])) CRet) h1 = Done (v2, h2) /\
    state_at 0 h2 = Some Resolved.
Proof.
  assert (exists v1 (h1 : heapc), run (fun _ _ => CRet VUndef) 30 resolve_then_reject empty_heap = Done (v1, h1) /\
    state_at 0 h1 = Some Resolved /\
    exists v2 h2, run (fun _ _ => CRet VUndef) 30 (CDo (USettle 0 Kfail (FData VUndef [])) CRet) h1 = Done (v2, h2))
    as (v1 & h1 & E1 & Es & v2 & h2 & E2).
  { eexists _, _. split; [vm_compute; reflexivity|]. split; [reflexivity|].
    eexists _, _. vm_compute; reflexivity. }
  exists v1, h1, v2, h2. split; [exact E1|]. split; [exact E2|].
  apply (settled_forever (fun _ _ => CRet VUndef) 30 30 resolve_then_reject
    (CDo (USettle 0 Kfail (FData VUndef [])) CRet) v1 v2 h1 h2 0 Resolved E1 Es); [discriminate|exact E2].
Defined.

(** Settling a pending deferred terminates and
    calls its callbacks, when they return at once: first the three built-in ones
    (the state setter, [disable] of the opposite list, [lock] of the progress
    list), then the user's in the order they were added, all with the data
    given; the state is then settled. *)
Theorem settle_calls_in_order (g : nat -> fdata -> val) (n m : nat) (c : cmd) (v : val)
    (h : heap (@cb fn fdata)) (d : nat) (k : kind) (us : list nat) (x : fdata)
    (r : deferred (@cb fn fdata)) :
  let body := fun u y => CRet (g u y) in
  run body n c empty_heap = Done (v, h) -> h_defs h !! d = Some r ->
  k <> Kprogress -> d_state r = Pending ->
  list_ (d_list k r) = Some (builtins d k ++ map FUser us) -> length us + 7 <= m ->
  exists h', do_op body m (USettleWith d k x) h = Done (VObj, h') /\
    h_log h' = h_log h ++ builtin_log d k x ++ user_log d k x us /\
    exists r', h_defs h' !! d = Some r' /\ d_state r' = state_of k.
Proof.
  intros body Hrun Hr Hk Hst Hl Hm. destruct (reach_queue body n c h (reaches_done _ _ _ _ _ Hrun)) as (hq & Hs & Hc & Hi).
  destruct (hsim_def h hq d r Hs Hr) as (rq & Hrq & [Est Hrl]).
  assert (d_list k rq = QCB once_memory false None false true false [] (builtins d k ++ map FUser us) 0 None)
    as Hq.
  { destruct (inv_defs _ Hi d rq Hrq) as [_ [_ Hf1 Hf2 _ _|k' y Hk' Es _ _ _ _ _]];
      [|rewrite <- Est, Hst in Es; by destruct k'].
    assert (fresh d k (d_list k rq)) as (l & _ & El) by by destruct k.
    pose proof (sim_list _ _ (sim_sim0 _ _ (Hrl k))) as E. rewrite Hl, El in E.
    unfold q_list in E; simpl in E. rewrite El. by simplify_eq. }
  destruct m as [|m]; [lia|].
  destruct (settle_users body g (fun _ _ => eq_refl) us m d k x rq hq Hk Hrq ltac:(lia) Hq)
    as (hq' & Hstart & Hlog & rq' & Hrq' & Est').
  pose proof (proj2 (proj2 (proj2 (all_ok sim q_mode_of body (S m)))) (USettleWith d k x) h hq Hs Hc) as Hop.
  assert (do_op body (S m) (USettleWith d k x) hq = Done (VObj, hq')) as Eq.
  { cbn [do_op]. etrans; [exact (f_equal ret_obj Hstart)|done]. }
  rewrite Eq in Hop. destruct (do_op body (S m) _ h) as [[v' h']|e h'| | |] eqn:E; try done.
  destruct Hop as (Hv & Hs' & _). cbn [fst snd] in Hv, Hs'. subst v'. exists h'. split; [first [exact E|reflexivity]|].
  rewrite (hs_log _ _ _ Hs'), (hs_log _ _ _ Hs). split; [done|].
  destruct (hsim_def_back h' hq' d rq' Hs' Hrq') as (r' & Hr' & [Er' _]).
  exists r'. split; [exact Hr'|]. by rewrite Er'.
Qed.

(** A deferred with three [done] callbacks and one [fail] callback. *)
Definition three_callbacks : cmd :=
  CDo UDeferred (fun _ =>
  CDo (UOn 0 Kdone [AFn 4; AArr [AFn 2; AOther]]) (fun _ =>
  CDo (UAlways 0 [AFn 9]) (fun _ => CRet VObj))).

Lemma settle_calls_in_order_witness :
  exists v (h : heapc) r h', run (fun _ _ => CRet VUndef) 30 three_callbacks empty_heap = Done (v, h) /\
    h_defs h !! 0 = Some r /\ list_ (d_list Kdone r) = Some (builtins 0 Kdone ++ map FUser [4; 2; 9]) /\
    do_op (fun _ _ => CRet VUndef) 10 (USettleWith 0 Kdone (FData VUndef [VNum 1])) h = Done (VObj, h').
Proof.
  assert (exists v (h : heapc), run (fun _ _ => CRet VUndef) 30 three_callbacks empty_heap = Done (v, h) /\
    exists r, h_defs h !! 0 = Some r /\ d_state r = Pending /\
      list_ (d_list Kdone r) = Some (builtins 0 Kdone ++ map FUser [4; 2; 9])) as (v & h & E & r & Er & Es & El).
  { eexists _, _. split; [vm_compute; reflexivity|]. eexists. by repeat split. }
  destruct (settle_calls_in_order (fun _ _ => VUndef) 30 10 three_callbacks v h 0 Kdone [4; 2; 9]
    (FData VUndef [VNum 1]) r E Er ltac:(done) Es El ltac:(simpl; lia)) as (h' & Hop & _).
  exists v, h, r, h'. split; [exact E|]. split; [exact Er|]. split; [exact El|exact Hop].
Defined.

(** A callback added to a settled deferred
    (outside its own firing) is called at once with the data that settled it. *)
Theorem add_to_settled_calls_at_once (g : nat -> fdata -> val) (n m : nat) (c : cmd) (v : val)
    (h : heap (@cb fn fdata)) (d : nat) (k : kind) (us : list nat) (r : deferred (@cb fn fdata)) :
  let body := fun u y => CRet (g u y) in
  run body n c empty_heap = Done (v, h) -> h_defs h !! d = Some r ->
  k <> Kprogress -> d_state r = state_of k -> firing (d_list k r) = false -> length us + 4 <= m ->
  exists h' x, do_op body m (UOn d k (map AFn us)) h = Done (VObj, h') /\
    Forall (fun c => c.2 = x) (calls_of (ODef d k) (h_log h)) /\
    memory (d_list k r) = Some x /\ h_log h' = h_log h ++ user_log d k x us.
Proof.
  intros body Hrun Hr Hk Hst Hf Hm. destruct (reach_queue body n c h (reaches_done _ _ _ _ _ Hrun)) as (hq & Hs & Hc & Hi).
  destruct (hsim_def h hq d r Hs Hr) as (rq & Hrq & [Est Hrl]).
  destruct (inv_defs _ Hi d rq Hrq) as [_ Hph].
  destruct Hph as [Ep _ _ _ _|k' x Hk' Es Hlv _ _ Hcs _]; [rewrite <- Est, Hst in Ep; by destruct k|].
  assert (k' = k) as -> by (rewrite <- Est, Hst in Es; by destruct k, k').
  pose proof (sim_sim0 _ _ (Hrl k)) as H0. destruct m as [|m]; [lia|].
  assert (flatten_all (map AFn us) = map FUser us) as Hfl.
  { clear. unfold flatten_all; simpl. induction us as [|u us IH]; [done|]. simpl. by f_equal. }
  destruct (add_users body g (fun _ _ => eq_refl) us m d k x rq hq Hk Hrq ltac:(lia) Hlv)
    as (hq' & Hstart & Hlog); [by rewrite <- (sim_firing _ _ H0)|].
  pose proof (proj2 (proj2 (proj2 (all_ok sim q_mode_of body (S m)))) (UOn d k (map AFn us)) h hq Hs Hc) as Hop.
  assert (do_op body (S m) (UOn d k (map AFn us)) hq = Done (VObj, hq')) as Eq.
  { cbn [do_op]. rewrite Hfl. etrans; [exact (f_equal ret_obj Hstart)|done]. }
  rewrite Eq in Hop. destruct (do_op body (S m) _ h) as [[v' h']|e h'| | |] eqn:E; try done.
  destruct Hop as (Hv & Hs' & _). cbn [fst snd] in Hv, Hs'. subst v'. exists h', x. split; [first [exact E|reflexivity]|].
  rewrite (hs_log _ _ _ Hs'), (hs_log _ _ _ Hs). split; [done|]. split; [|done].
  rewrite (sim_memory _ _ H0). by destruct Hlv.
Qed.

Lemma add_to_settled_calls_at_once_witness :
  exists v (h : heapc) r h', run (fun _ _ => CRet VUndef) 30 resolve_then_reject empty_heap = Done (v, h) /\
    h_defs h !! 0 = Some r /\
    do_op (fun _ _ => CRet VUndef) 10 (UOn 0 Kdone (map AFn [5; 6])) h = Done (VObj, h').
Proof.
  assert (exists v (h : heapc), run (fun _ _ => CRet VUndef) 30 resolve_then_reject empty_heap = Done (v, h) /\
    exists r, h_defs h !! 0 = Some r /\ d_state r = Resolved /\ firing (d_list Kdone r) = false)
    as (v & h & E & r & Er & Es & Ef).
  { eexists _, _. split; [vm_compute; reflexivity|]. eexists. by repeat split. }
  destruct (add_to_settled_calls_at_once (fun _ _ => VUndef) 30 10 resolve_then_reject v h 0 Kdone [5; 6] r
    E Er ltac:(done) Es Ef ltac:(simpl; lia)) as (h' & x & Hop & _).
  exists v, h, r, h'. split; [exact E|]. split; [exact Er|exact Hop].
Defined.
