(* ===== verification/BrokerProfile.v ===== *)
(** * The broker profile page (bundle lines 32509-32743, compiled from
    [app/assets/javascripts/brokers.js.coffee])

    The page's state is what its handlers read and write: the visibility of the
    three in-place panels, which dialogs are open, the forms the server's scripts
    have put in the edit dialogs, the handlers bound to them, and the requests
    sent.  The elements are named by the selectors of the source. *)

From S2P Require Import Prelude.
From Stdlib Require Import Lia.

Module BrokerProfile.

Local Open Scope string_scope.

(** ** Data *)

Record request := Request {
  r_url : string; r_type : string; r_dataType : string; r_data : string
}.

(** A form element: its identity, class selector, [action] and [serialize()]. *)
Record form := Form {
  f_id : nat; f_sel : string; f_action : string; f_data : string; f_in : string
}.

(** The elements of [.X_form] and of [.X_display], by visibility. *)
Record panel := Panel { pn_form : list bool; pn_display : list bool }.

Record dialog := Dialog { dg_modal : bool; dg_open : bool; dg_width : Z; dg_height : option Z }.

Record page := Page {
  pg_panels : gmap string panel;
  pg_dialogs : gmap string dialog;
  pg_forms : list form;
  pg_submit : list nat;              (* forms by submit handler bound, one entry per handler *)
  pg_delete : list nat;              (* forms by delete-click handler bound *)
  pg_pending : list string;          (* objects of the edit requests in flight *)
  pg_sent : list request;
  pg_fresh : nat
}.

Definition set_panels ps p := Page ps (pg_dialogs p) (pg_forms p) (pg_submit p) (pg_delete p)
  (pg_pending p) (pg_sent p) (pg_fresh p).
Definition set_dialogs ds p := Page (pg_panels p) ds (pg_forms p) (pg_submit p) (pg_delete p)
  (pg_pending p) (pg_sent p) (pg_fresh p).
Definition set_pending l p := Page (pg_panels p) (pg_dialogs p) (pg_forms p) (pg_submit p)
  (pg_delete p) l (pg_sent p) (pg_fresh p).
Definition send r p := Page (pg_panels p) (pg_dialogs p) (pg_forms p) (pg_submit p)
  (pg_delete p) (pg_pending p) (pg_sent p ++ [r]) (pg_fresh p).

(** ** The functions of the source *)

(** [update_profile( form )] *)
Definition update_profile (f : form) (p : page) : page :=
  send (Request (f_action f) "POST" "script" (f_data f)) p.

(** The selectors [edit_profile] chooses.  Its last test is the assignment
    [object = "financial_story"], which is truthy for every object. *)
Definition edit_selectors (object : string) : string * string :=
  if decide (object = "fin_product") then ("form.fin_product_edit_form", "form.delete_fin_product_form")
  else if decide (object = "education") then ("form.education_edit_form", "form.delete_education_form")
  else if decide (object = "experience") then ("form.experience_edit_form", "form.delete_experience_form")
  else ("form.fin_story_edit_form", "form.delete_fin_story_form").

(** [edit_profile( edit_url, object )]: the request; its [success] is [edit_success]. *)
Definition edit_profile (edit_url object : string) (p : page) : page :=
  set_pending (pg_pending p ++ [object]) (send (Request edit_url "GET" "script" "") p).

(** [$(sel)]: the forms it selects. *)
Definition select (sel : string) (p : page) : list nat :=
  f_id <$> filter (fun f => f_sel f = sel) (pg_forms p).

(** The [success] callback of [edit_profile]. *)
Definition edit_success (object : string) (p : page) : page :=
  let '(edit_form, delete_form) := edit_selectors object in
  Page (pg_panels p) (pg_dialogs p) (pg_forms p) (pg_submit p ++ select edit_form p)
       (pg_delete p ++ select delete_form p) (pg_pending p) (pg_sent p) (pg_fresh p).

(** [confirm("Are you sure?")], then the request. *)
Definition delete_click (f : form) (ans : bool) (p : page) : page :=
  if ans then send (Request (f_action f) "POST" "script" "_method=delete") p else p.

(** The three panel handlers. *)
Definition is_visible (l : list bool) : bool := existsb (fun b => b) l.

Definition panel_click (n : panel) : panel :=
  if is_visible (pn_form n)
  then Panel ((fun _ => false) <$> pn_form n) ((fun _ => true) <$> pn_display n)
  else Panel ((fun _ => true) <$> pn_form n) ((fun _ => false) <$> pn_display n).

Definition dialog_open (d : dialog) : dialog := Dialog (dg_modal d) true (dg_width d) (dg_height d).
Definition dialog_close (d : dialog) : dialog := Dialog (dg_modal d) false (dg_width d) (dg_height d).

(** ** The handler tables: container, selector, action *)

Definition panel_links : list (string * string * string) :=
  [("#profile_infos", "a.profile_info_edit", "profile_info");
   ("#abouts", "a.about_edit", "about");
   ("#skills", "a.skills_edit", "skills")].

Definition dialog_links : list (string * string * string) :=
  [("#licenses", "a.licenses_edit", "#license_dialog_form");
   ("#financial_vehicles", "a.financial_vehicle_edit", "#financial_vehicle_dialog_form");
   ("#financial_vehicles", "a.fin_product_add", "#fin_product_add_dialog_form");
   ("#educations", "a.education_add", "#education_add_dialog_form");
   ("#experiences", "a.experience_add", "#experience_add_dialog_form");
   ("#financial_stories", "a.financial_story_add", "#fin_story_add_dialog_form")].

Definition edit_links : list (string * string * (string * string)) :=
  [("#financial_vehicles", "a.fin_product_edit", ("/financial_products/", "fin_product"));
   ("#educations", "a.education_edit", ("/educations/", "education"));
   ("#experiences", "a.experience_edit", ("/experiences/", "experience"));
   ("#financial_stories", "a.fin_story_edit", ("/financial_stories/", "financial_story"))].

Definition submit_forms : list (string * string) :=
  [("#profile_infos", "form#profile_info_form"); ("#abouts", "form#about_form");
   ("#skills", "form#skills_form"); ("#financial_vehicle_dialog_form", "form#vehicle_form");
   ("#fin_product_add_dialog_form", "form#fin_product_add_form");
   ("#education_add_dialog_form", "form#education_add_form");
   ("#experience_add_dialog_form", "form#experience_add_form");
   ("#fin_story_add_dialog_form", "form#fin_story_add_form")].

Definition init_dialogs : gmap string dialog :=
  list_to_map
    [("#license_dialog_form", Dialog true false 700 None);
     ("#financial_vehicle_dialog_form", Dialog true false 600 (Some 600%Z));
     ("#fin_product_add_dialog_form", Dialog true false 400 None);
     ("#fin_product_edit_dialog_form", Dialog true false 400 None);
     ("#education_add_dialog_form", Dialog true false 500 None);
     ("#education_edit_dialog_form", Dialog true false 400 None);
     ("#experience_add_dialog_form", Dialog true false 500 None);
     ("#experience_edit_dialog_form", Dialog true false 400 None);
     ("#fin_story_add_dialog_form", Dialog true false 700 None);
     ("#fin_story_edit_dialog_form", Dialog true false 700 None)].

Fixpoint find_link {A} (c s : string) (l : list (string * string * A)) : option A :=
  match l with
  | [] => None
  | (c', s', a) :: l' => if decide (c = c' /\ s = s') then Some a else find_link c s l'
  end.

(** ** Events *)

(** A click on an element [s] (with attribute [id]) inside container [c]. *)
Definition click (c s id : string) (p : page) : page :=
  match find_link c s panel_links with
  | Some n => set_panels (alter panel_click n (pg_panels p)) p
  | None =>
  match find_link c s dialog_links with
  | Some d => set_dialogs (alter dialog_open d (pg_dialogs p)) p
  | None =>
  match find_link c s edit_links with
  | Some (prefix, object) => edit_profile (prefix ++ id ++ "/edit") object p
  | None => p
  end end end.

(** The submission of a form [f] that [s] selects inside container [c]: the
    delegated handler, then those bound to the element. *)
Definition delegated_submit (c s : string) (f : form) (p : page) : page :=
  if decide ((c, s) ∈ submit_forms) then update_profile f p else p.

Definition get_form (n : nat) (p : page) : option form :=
  find (fun f => bool_decide (f_id f = n)) (pg_forms p).

(** The handlers bound to form [n], in the order they were bound. *)
Definition bound (n : nat) (l : list nat) : list nat := filter (fun m => m = n) l.

Definition submit_form (n : nat) (p : page) : page :=
  match get_form n p with
  | Some f => foldl (fun p _ => update_profile f p) p (bound n (pg_submit p))
  | None => p
  end.

(** A click in form [n]: each bound handler asks for a confirmation. *)
Definition click_form (n : nat) (answers : nat -> bool) (p : page) : page :=
  match get_form n p with
  | Some f => (foldl (fun '(i, p) _ => (S i, delete_click f (answers i) p)) (0, p)
                 (bound n (pg_delete p))).2
  | None => p
  end.

(** The answer to the [i]-th pending edit request: the script it carries fills
    the dialog [target] with [new] forms and opens it, then [success] runs. *)
Definition replace_forms (target : string) (new : list (string * string * string)) (p : page) : page :=
  Page (pg_panels p) (alter dialog_open target (pg_dialogs p))
       (filter (fun f => f_in f <> target) (pg_forms p) ++
        imap (fun i '(s, a, d) => Form (pg_fresh p + i) s a d target) new)
       (pg_submit p) (pg_delete p) (pg_pending p) (pg_sent p) (pg_fresh p + length new).

Definition edit_response (i : nat) (target : string) (new : list (string * string * string))
    (p : page) : page :=
  match pg_pending p !! i with
  | Some object => set_pending (delete i (pg_pending p)) (edit_success object (replace_forms target new p))
  | None => p
  end.

Inductive event :=
| EClick (c s id : string)
| EDelegated (c s : string) (f : form)
| ESubmit (n : nat)
| EDelete (n : nat) (answers : nat -> bool)
| EResponse (i : nat) (target : string) (new : list (string * string * string))
| EError (i : nat)
| EClose (d : string).

Definition step (e : event) (p : page) : page :=
  match e with
  | EClick c s id => click c s id p
  | EDelegated c s f => delegated_submit c s f p
  | ESubmit n => submit_form n p
  | EDelete n ans => click_form n ans p
  | EResponse i target new => edit_response i target new p
  | EError i => set_pending (delete i (pg_pending p)) p
  | EClose d => set_dialogs (alter dialog_close d (pg_dialogs p)) p
  end.

Definition init_page (panels : gmap string panel) : page :=
  Page panels init_dialogs [] [] [] [] [] 0.

(** The answers the server gives: the script for [object] fills the dialog that
    holds every form [object]'s selectors select. *)
Definition answers_in_place (e : event) (p : page) : Prop :=
  match e with
  | EResponse i target new => forall object f, pg_pending p !! i = Some object -> f ∈ pg_forms p ->
      f_sel f = (edit_selectors object).1 \/ f_sel f = (edit_selectors object).2 -> f_in f = target
  | _ => True
  end.

Inductive reachable (panels : gmap string panel) : page -> Prop :=
| reach_init : reachable panels (init_page panels)
| reach_step p e : reachable panels p -> answers_in_place e p -> reachable panels (step e p).

Local Open Scope list_scope.

(** ** Panels *)

(** The form elements and the display elements of a panel are shown in turn. *)
Definition exclusive (n : panel) : Prop :=
  exists b, Forall (eq b) (pn_form n) /\ Forall (eq (negb b)) (pn_display n).

Lemma panel_click_exclusive n : exclusive (panel_click n).
Proof.
  unfold panel_click. destruct (is_visible _); [exists false|exists true]; simpl;
    split; apply Forall_fmap, Forall_true; done.
Qed.

Lemma panels_of_step e p : pg_panels (step e p) = pg_panels p \/
  exists n, pg_panels (step e p) = alter panel_click n (pg_panels p).
Proof.
  destruct e as [c s id|c s f|n|n ans|i target new|i|d]; simpl; try by left.
  - unfold click. destruct (find_link c s panel_links) as [n|]; [right; by exists n|left].
    destruct (find_link c s dialog_links); [done|]. by destruct (find_link c s edit_links) as [[]|].
  - left. unfold delegated_submit. by case_decide.
  - left. unfold submit_form. destruct (get_form n p); [|done].
    generalize (bound n (pg_submit p)) as l. intros l. revert p.
    induction l as [|m l IH]; intros p; [done|]. simpl. by rewrite IH.
  - left. unfold click_form. destruct (get_form n p) as [f|]; [|done].
    generalize (bound n (pg_delete p)) as l. intros l. generalize 0 as k. revert p.
    induction l as [|m l IH]; intros p k; [done|]. simpl. rewrite IH. unfold delete_click.
    by destruct (ans k).
  - left. unfold edit_response. destruct (pg_pending p !! i) as [object|]; [|done].
    unfold edit_success. by destruct (edit_selectors object).
Qed.

(** On every page the visitor can reach, each panel the page was served
    with in a consistent state shows either all its forms and no display, or
    all its displays and no form. *)
Theorem panels_exclusive (panels : gmap string panel) (p : page) (name : string) (n : panel) :
  map_Forall (fun _ => exclusive) panels -> reachable panels p ->
  pg_panels p !! name = Some n -> exclusive n.
Proof.
  intros H0 Hr. revert name n. change (map_Forall (fun _ => exclusive) (pg_panels p)).
  induction Hr as [|p e Hr IH _]; [done|].
  destruct (panels_of_step e p) as [->|[m ->]]; [done|]. intros k x Hk.
  rewrite lookup_alter in Hk. case_decide; [|by eapply IH]. subst.
  destruct (pg_panels p !! k); simplify_eq/=. apply panel_click_exclusive.
Qed.

Lemma panels_exclusive_witness :
  exclusive (Panel [true] [false; false]).
Proof.
  apply (panels_exclusive {["about" := Panel [false] [true; true]]}
    (step (EClick "#abouts" "a.about_edit" "") (init_page {["about" := Panel [false] [true; true]]})) "about").
  - apply map_Forall_singleton. exists false. split; repeat constructor.
  - apply reach_step; [apply reach_init|exact I].
  - vm_compute. reflexivity.
Defined.

(** ** Handlers of the edit forms *)

Record handlers_inv (p : page) : Prop := {
  hi_forms : NoDup (f_id <$> pg_forms p);
  hi_fresh : Forall (fun f => f_id f < pg_fresh p) (pg_forms p);
  hi_submit : NoDup (pg_submit p) /\ Forall (fun m => m < pg_fresh p) (pg_submit p);
  hi_delete : NoDup (pg_delete p) /\ Forall (fun m => m < pg_fresh p) (pg_delete p)
}.

(** What the invariant reads. *)
Definition same_forms (p p' : page) : Prop :=
  pg_forms p' = pg_forms p /\ pg_fresh p' = pg_fresh p /\
  pg_submit p' = pg_submit p /\ pg_delete p' = pg_delete p.

Lemma same_forms_inv p p' : same_forms p p' -> handlers_inv p -> handlers_inv p'.
Proof. intros (E1 & E2 & E3 & E4) []. split; by rewrite ?E1, ?E2, ?E3, ?E4. Qed.

Lemma submit_loop f l : forall p, let p' := foldl (fun p _ => update_profile f p) p l in
  same_forms p p' /\
  pg_sent p' = pg_sent p ++ map (fun _ : nat => Request (f_action f) "POST" "script" (f_data f)) l.
Proof.
  induction l as [|m l IH]; intros p; simpl; [by rewrite app_nil_r|].
  destruct (IH (update_profile f p)) as [(E1 & E2 & E3 & E4) E5].
  split; [done|]. rewrite E5. simpl. by rewrite <- app_assoc.
Qed.

Lemma same_forms_delete f b p : same_forms p (delete_click f b p).
Proof. unfold delete_click. by destruct b. Qed.

Lemma delete_loop f ans l : forall k p,
  same_forms p (foldl (fun '(i, p) (_ : nat) => (S i, delete_click f (ans i) p)) (k, p) l).2.
Proof.
  induction l as [|m l IH]; intros k p; simpl; [done|].
  destruct (IH (S k) (delete_click f (ans k) p)) as (E1 & E2 & E3 & E4).
  destruct (same_forms_delete f (ans k) p) as (F1 & F2 & F3 & F4). split_and!; congruence.
Qed.

Lemma replace_inv target new p : handlers_inv p -> handlers_inv (replace_forms target new p).
Proof.
  intros [Hf Hfr [Hs1 Hs2] [Hd1 Hd2]]. unfold replace_forms.
  set (old := filter (fun f => f_in f <> target) (pg_forms p)).
  assert (forall k (l : list (string * string * string)), f_id <$>
    imap (fun i '(s, a, d) => Form (k + i) s a d target) l = seq k (length l)) as Hids.
  { intros k l. revert k. induction l as [|[[s a] d] l IH]; intros k; [done|]. simpl.
    f_equal; [lia|]. rewrite <- IH. f_equal. apply imap_ext. intros i [[? ?] ?] _. simpl.
    f_equal. lia. }
  assert (Forall (fun f => f_id f < pg_fresh p) old) as Hold.
  { apply Forall_forall. intros f [_ Hin]%list_elem_of_filter. by eapply Forall_forall in Hfr. }
  assert (forall l, Forall (fun m => m < pg_fresh p) l -> Forall (fun m => m < pg_fresh p + length new) l)
    as Hlt by (intros l Hl; eapply Forall_impl; [exact Hl|intros; simpl in *; lia]).
  split; simpl; [| |by auto|by auto].
  - rewrite fmap_app, Hids. apply NoDup_app. split_and!.
    + unfold old. clear -Hf. induction (pg_forms p) as [|f l IH]; [constructor|].
      apply NoDup_cons in Hf as [Hf1 Hf2]. rewrite filter_cons. case_decide; [|by apply IH].
      simpl. apply NoDup_cons. split; [|by apply IH]. intros Hin. apply Hf1.
      apply list_elem_of_fmap in Hin as (g & -> & [_ Hg]%list_elem_of_filter).
      by apply list_elem_of_fmap_2.
    + intros x Hx Hin. apply list_elem_of_fmap in Hx as (g & -> & Hg).
      eapply Forall_forall in Hold; [|exact Hg]. apply elem_of_seq in Hin. simpl in *; lia.
    + apply NoDup_ListNoDup, List.seq_NoDup.
  - apply Forall_app. split.
    + eapply Forall_impl; [exact Hold|]. intros; simpl in *; lia.
    + apply Forall_forall. intros f Hf'. apply (list_elem_of_fmap_2 f_id) in Hf'.
      rewrite Hids in Hf'. apply elem_of_seq in Hf'. lia.
Qed.

(** The forms an object's selectors select after the script ran are new. *)
Lemma select_new object sel target new p : handlers_inv p ->
  (forall f, f ∈ pg_forms p -> f_sel f = sel -> f_in f = target) ->
  sel = (edit_selectors object).1 \/ sel = (edit_selectors object).2 ->
  let p' := replace_forms target new p in
  NoDup (select sel p') /\ Forall (fun m => pg_fresh p <= m < pg_fresh p') (select sel p').
Proof.
  intros Hi Hin _ p'. pose proof (replace_inv target new p Hi) as [Hf Hfr _ _]. fold p' in Hf, Hfr.
  split.
  - unfold select. clear -Hf. induction (pg_forms p') as [|f l IH]; [constructor|].
    apply NoDup_cons in Hf as [Hf1 Hf2]. rewrite filter_cons. case_decide; [|by apply IH].
    simpl. apply NoDup_cons. split; [|by apply IH]. intros Hx. apply Hf1.
    apply list_elem_of_fmap in Hx as (g & -> & [_ Hg]%list_elem_of_filter).
    by apply list_elem_of_fmap_2.
  - apply Forall_forall. intros m Hm. apply list_elem_of_fmap in Hm as (f & -> & [Hs Hf']%list_elem_of_filter).
    split; [|by eapply Forall_forall in Hfr].
    unfold p', replace_forms in Hf'. simpl in Hf'. apply elem_of_app in Hf' as [Hf'|Hf'].
    + apply list_elem_of_filter in Hf' as [Hne Hf']. by destruct (Hne (Hin f Hf' Hs)).
    + apply elem_of_lookup_imap in Hf' as (i & [[s a] d] & -> & _). simpl. lia.
Qed.

Lemma bind_new n m (l l' : list nat) : NoDup l /\ Forall (fun x => x < n) l ->
  NoDup l' /\ Forall (fun x => n <= x < m) l' -> n <= m -> NoDup (l ++ l') /\ Forall (fun x => x < m) (l ++ l').
Proof.
  intros [H1 H2] [H3 H4] Hnm. split.
  - apply NoDup_app. split_and!; try done. intros x Hx Hx'.
    eapply Forall_forall in H2; [|exact Hx]. eapply Forall_forall in H4; [|exact Hx']. simpl in *; lia.
  - apply Forall_app. split; (eapply Forall_impl; [eassumption|]); intros; simpl in *; lia.
Qed.

Lemma response_inv i target new p : answers_in_place (EResponse i target new) p ->
  handlers_inv p -> handlers_inv (edit_response i target new p).
Proof.
  intros Ha Hi. unfold edit_response. destruct (pg_pending p !! i) as [object|] eqn:E; [|done].
  pose proof (replace_inv target new p Hi) as [Hf Hfr _ _].
  pose proof (fun sel H => select_new object sel target new p Hi
    (fun f Hin Hs => Ha object f E Hin ltac:(subst; exact H)) H) as Hsel.
  unfold edit_success. destruct (edit_selectors object) as [s1 s2] eqn:Es. simpl in Hsel.
  destruct Hi as [_ _ Hs Hd]. split; simpl; [done|done| |].
  - apply (bind_new (pg_fresh p)); [done|apply Hsel; by left|lia].
  - apply (bind_new (pg_fresh p)); [done|apply Hsel; by right|lia].
Qed.

Lemma reachable_inv panels p : reachable panels p -> handlers_inv p.
Proof.
  induction 1 as [|p e Hr IH Ha]; [by repeat constructor|].
  destruct e as [c s id|c s f|n|n ans|i target new|i|d]; simpl;
    try by apply (same_forms_inv p).
  - unfold click. destruct (find_link c s panel_links); [by apply (same_forms_inv p)|].
    destruct (find_link c s dialog_links); [by apply (same_forms_inv p)|].
    by destruct (find_link c s edit_links) as [[]|]; [apply (same_forms_inv p)|].
  - unfold delegated_submit. by case_decide; [apply (same_forms_inv p)|].
  - unfold submit_form. destruct (get_form n p) as [f|]; [|done].
    apply (same_forms_inv p); [apply submit_loop|done].
  - unfold click_form. destruct (get_form n p) as [f|]; [|done].
    apply (same_forms_inv p); [apply delete_loop|done].
  - by apply response_inv.
Qed.

Lemma bound_nodup n l : NoDup l -> bound n l = if decide (n ∈ l) then [n] else [].
Proof.
  unfold bound. induction 1 as [|m l Hm Hl IH]; [by rewrite decide_False by set_solver|].
  rewrite filter_cons. destruct (decide (m = n)) as [->|Hne].
  - rewrite IH, decide_False, decide_True by set_solver. done.
  - rewrite IH. destruct (decide (n ∈ l)); [by rewrite decide_True by set_solver|].
    by rewrite decide_False by set_solver.
Qed.

(** C33: however often the visitor opens the edit dialogs, submitting an edit
    form sends its data once, if its handler is bound, and a click in a delete
    form asks once and sends the deletion only when the visitor confirms. *)
Theorem edit_requests_once (panels : gmap string panel) (p : page) (n : nat) (f : form)
    (answers : nat -> bool) :
  reachable panels p -> get_form n p = Some f ->
  pg_sent (step (ESubmit n) p) = pg_sent p ++
    (if decide (n ∈ pg_submit p) then [Request (f_action f) "POST" "script" (f_data f)] else []) /\
  pg_sent (step (EDelete n answers) p) = pg_sent p ++
    (if decide (n ∈ pg_delete p /\ answers 0 = true)
     then [Request (f_action f) "POST" "script" "_method=delete"] else []).
Proof.
  intros Hr Hf. destruct (reachable_inv panels p Hr) as [_ _ [Hs _] [Hd _]]. simpl.
  unfold submit_form, click_form. rewrite Hf. split.
  - rewrite (proj2 (submit_loop f _ p)), bound_nodup by done. by case_decide.
  - rewrite bound_nodup by done. destruct (decide (n ∈ pg_delete p)); simpl.
    + unfold delete_click. destruct (answers 0) eqn:E.
      * by rewrite decide_True.
      * by rewrite decide_False by naive_solver; rewrite app_nil_r.
    + by rewrite decide_False by naive_solver; rewrite app_nil_r.
Qed.

(** A visitor who opens the education dialog twice. *)
Definition edit_twice : page :=
  let click := EClick "#educations" "a.education_edit" "7" in
  let answer := EResponse 0 "#education_edit_dialog_form"
    [("form.education_edit_form", "/educations/7", "school=a");
     ("form.delete_education_form", "/educations/7", "")] in
  foldl (fun p e => step e p) (init_page ∅) [click; answer; click; answer].

Lemma edit_requests_once_witness :
  pg_sent (step (ESubmit 2) edit_twice) =
    pg_sent edit_twice ++ [Request "/educations/7" "POST" "script" "school=a"] /\
  pg_sent (step (EDelete 3 (fun _ => true)) edit_twice) =
    pg_sent edit_twice ++ [Request "/educations/7" "POST" "script" "_method=delete"].
Proof.
  assert (reachable ∅ edit_twice) as Hr.
  { unfold edit_twice; cbn [foldl].
    apply reach_step; [apply reach_step; [apply reach_step; [apply reach_step; [apply reach_init|exact I]|]
      |exact I]|]; intros object f _ Hf _; revert f Hf; apply Forall_forall; vm_compute;
      repeat constructor. }
  split.
  - exact (proj1 (edit_requests_once ∅ edit_twice 2 _ (fun _ => true) Hr eq_refl)).
  - exact (proj2 (edit_requests_once ∅ edit_twice 3 _ (fun _ => true) Hr eq_refl)).
Defined.

(** An object [edit_profile] does not know is treated as a financial story. *)
Lemma unknown_object_is_story (object : string) :
  object ∉ ["fin_product"; "education"; "experience"] ->
  edit_selectors object = edit_selectors "financial_story".
Proof. intros H. unfold edit_selectors. rewrite !decide_False by set_solver. done. Qed.

End BrokerProfile.
