(* ===== verification/JsDate.v ===== *)
(** * ECMAScript dates, for the date picker

    Numbers are [option Z] where the source can produce NaN ([None]); a [Date] is
    its time value, [None] for an invalid date.  Days and years follow the
    abstract operations of ECMA-262 (Day, DayFromYear, MakeDay, TimeClip); the
    local time zone is a parameter, [TimeZone], because the source takes care of
    daylight saving. *)

From S2P Require Import Prelude.
From Stdlib Require Import ZArith Lia Zify.

Local Open Scope Z_scope.

Ltac divlia := Z.to_euclidean_division_equations; lia.

(** ** The calendar *)

Definition leap (y : Z) : bool :=
  (y mod 4 =? 0) && (negb (y mod 100 =? 0) || (y mod 400 =? 0)).

(** DayFromYear *)
Definition day_from_year (y : Z) : Z :=
  365 * (y - 1970) + (y - 1969) / 4 - (y - 1901) / 100 + (y - 1601) / 400.

(** The days of a year before month [m] (0 to 11; 12 for the whole year). *)
Definition days_before (y m : Z) : Z :=
  let base := nth (Z.to_nat m) [0; 31; 59; 90; 120; 151; 181; 212; 243; 273; 304; 334; 365] 0 in
  if (2 <=? m) && leap y then base + 1 else base.

Definition month_length (y m : Z) : Z := days_before y (m + 1) - days_before y m.

(** MakeDay: months and days outside their range carry over. *)
Definition make_day (y m d : Z) : Z :=
  let y' := y + m / 12 in
  day_from_year y' + days_before y' (m mod 12) + d - 1.

(** YearFromTime: an estimate from the mean length of a year, then corrected. *)
Definition year_from_day (n : Z) : Z :=
  let y := 1970 + n * 400 / 146097 in
  if n <? day_from_year y then y - 1
  else if day_from_year (y + 1) <=? n then y + 1 else y.

(** MonthFromTime: the first month that ends after day [k] of the year. *)
Fixpoint month_search (n : nat) (y k m : Z) : Z :=
  match n with
  | O => m
  | S n => if k <? days_before y (m + 1) then m else month_search n y k (m + 1)
  end.

Definition month_from_yday (y k : Z) : Z := month_search 11 y k 0.

(** The civil date of day [n]: year, month (from 0) and day of the month. *)
Definition civil (n : Z) : Z * Z * Z :=
  let y := year_from_day n in
  let k := n - day_from_year y in
  let m := month_from_yday y k in
  (y, m, k - days_before y m + 1).

(** WeekDay: day 0 is a Thursday. *)
Definition week_day (n : Z) : Z := (n + 4) mod 7.

Definition valid_civil (y m d : Z) : Prop := 0 <= m <= 11 /\ 1 <= d <= month_length y m.

(** *** Correctness of the calendar *)

Lemma leap_days y : day_from_year (y + 1) - day_from_year y = if leap y then 366 else 365.
Proof.
  unfold day_from_year, leap.
  destruct (Z.eqb_spec (y mod 4) 0), (Z.eqb_spec (y mod 100) 0), (Z.eqb_spec (y mod 400) 0); simpl;
    divlia.
Qed.

Lemma day_from_year_mono y y' : y <= y' -> 365 * (y' - y) <= day_from_year y' - day_from_year y.
Proof. unfold day_from_year. intros H. divlia. Qed.

Lemma year_from_day_spec n :
  day_from_year (year_from_day n) <= n < day_from_year (year_from_day n + 1).
Proof.
  unfold year_from_day. set (y := 1970 + n * 400 / 146097).
  assert (day_from_year (y - 1) <= n /\ n < day_from_year (y + 2)) as [H1 H2].
  { unfold day_from_year, y. divlia. }
  destruct (Z.ltb_spec n (day_from_year y)); [replace (y - 1 + 1) with y by lia; lia|].
  destruct (Z.leb_spec (day_from_year (y + 1)) n); [replace (y + 1 + 1) with (y + 2) by lia; lia|lia].
Qed.

Lemma year_unique y n : day_from_year y <= n < day_from_year (y + 1) -> year_from_day n = y.
Proof.
  intros [H1 H2]. pose proof (year_from_day_spec n) as [H3 H4].
  destruct (Z.lt_trichotomy (year_from_day n) y) as [H|[H|H]]; [|done|].
  - pose proof (day_from_year_mono (year_from_day n + 1) y ltac:(lia)). lia.
  - pose proof (day_from_year_mono (y + 1) (year_from_day n) ltac:(lia)). lia.
Qed.

(** Case analysis on a month number. *)
Lemma month_cases m : 0 <= m <= 11 ->
  m = 0 \/ m = 1 \/ m = 2 \/ m = 3 \/ m = 4 \/ m = 5 \/ m = 6 \/ m = 7 \/ m = 8 \/ m = 9 \/ m = 10 \/ m = 11.
Proof. lia. Qed.

Ltac months H := apply month_cases in H;
  destruct H as [->|[->|[->|[->|[->|[->|[->|[->|[->|[->|[->| ->]]]]]]]]]]].

Lemma days_before_12 y : days_before y 12 = if leap y then 366 else 365.
Proof. unfold days_before. simpl. by destruct (leap y). Qed.

Lemma month_search_spec y k n : forall m, 0 <= m -> m + Z.of_nat n = 11 ->
  days_before y m <= k < days_before y 12 ->
  let m' := month_search n y k m in 0 <= m' <= 11 /\ days_before y m' <= k < days_before y (m' + 1).
Proof.
  induction n as [|n IH]; intros m Hm Hn Hk; simpl.
  - assert (m = 11) as -> by lia. split; [lia|exact Hk].
  - destruct (Z.ltb_spec k (days_before y (m + 1))); [split; lia|]. apply IH; lia.
Qed.

Lemma month_from_yday_spec y k : 0 <= k < days_before y 12 ->
  let m := month_from_yday y k in 0 <= m <= 11 /\ days_before y m <= k < days_before y (m + 1).
Proof. intros Hk. apply month_search_spec; try lia. exact Hk. Qed.

Lemma days_before_mono y m m' : 0 <= m -> m <= m' -> m' <= 12 -> days_before y m <= days_before y m'.
Proof.
  intros H0 H1 H2.
  assert (forall m, 0 <= m <= 11 -> days_before y m <= days_before y (m + 1)) as Hs.
  { intros k Hk. months Hk; unfold days_before; simpl; destruct (leap y); lia. }
  assert (forall n : nat, m + Z.of_nat n <= 12 -> days_before y m <= days_before y (m + Z.of_nat n)) as Hn.
  { induction n as [|n IH]; intros Hle; [by rewrite Z.add_0_r|].
    specialize (Hs (m + Z.of_nat n) ltac:(lia)). specialize (IH ltac:(lia)).
    replace (m + Z.of_nat (S n)) with (m + Z.of_nat n + 1) by lia. lia. }
  specialize (Hn (Z.to_nat (m' - m)) ltac:(lia)). replace (m + Z.of_nat (Z.to_nat (m' - m))) with m' in Hn by lia.
  done.
Qed.

Lemma month_unique y m k : 0 <= m <= 11 -> days_before y m <= k < days_before y (m + 1) ->
  0 <= k < days_before y 12 -> month_from_yday y k = m.
Proof.
  intros Hm [H1 H2] Hk. destruct (month_from_yday_spec y k Hk) as [Hr [H3 H4]].
  set (m' := month_from_yday y k) in *. destruct (Z.lt_trichotomy m' m) as [H|[H|H]]; [|done|].
  - pose proof (days_before_mono y (m' + 1) m ltac:(lia) ltac:(lia) ltac:(lia)). lia.
  - pose proof (days_before_mono y (m + 1) m' ltac:(lia) ltac:(lia) ltac:(lia)). lia.
Qed.

Lemma make_day_in y m d : 0 <= m <= 11 -> make_day y m d = day_from_year y + days_before y m + d - 1.
Proof. intros Hm. unfold make_day. rewrite Z.div_small, Z.mod_small, Z.add_0_r by lia. done. Qed.

(** [civil] and [make_day] are inverse on valid dates. *)
Lemma civil_make_day y m d : valid_civil y m d -> civil (make_day y m d) = (y, m, d).
Proof.
  intros [Hm Hd]. unfold month_length in Hd. rewrite make_day_in by done.
  pose proof (days_before_mono y 0 m ltac:(lia) ltac:(lia) ltac:(lia)) as H0.
  pose proof (days_before_mono y (m + 1) 12 ltac:(lia) ltac:(lia) ltac:(lia)) as H12.
  change (days_before y 0) with 0 in H0.
  pose proof (leap_days y) as Hl. rewrite <- days_before_12 in Hl.
  set (n := day_from_year y + days_before y m + d - 1).
  assert (year_from_day n = y) as Ey by (apply year_unique; unfold n; lia).
  unfold civil. rewrite Ey.
  assert (month_from_yday y (n - day_from_year y) = m) as -> by (apply month_unique; unfold n; lia).
  f_equal. unfold n. lia.
Qed.

Lemma civil_valid n : let '(y, m, d) := civil n in
  valid_civil y m d /\ make_day y m d = n /\ y = year_from_day n.
Proof.
  unfold civil. set (y := year_from_day n). pose proof (year_from_day_spec n) as Hy. fold y in Hy.
  pose proof (leap_days y) as Hl. rewrite <- days_before_12 in Hl.
  destruct (month_from_yday_spec y (n - day_from_year y) ltac:(lia)) as [Hm Hk].
  set (m := month_from_yday y (n - day_from_year y)) in *.
  split; [|split; [|done]].
  - split; [done|]. unfold month_length. lia.
  - rewrite make_day_in by done. lia.
Qed.

Lemma month_length_bounds y m : 0 <= m <= 11 -> 28 <= month_length y m <= 31.
Proof. intros Hm. unfold month_length. months Hm; unfold days_before; simpl; destruct (leap y); lia. Qed.

Arguments civil : simpl never.
Arguments make_day : simpl never.
Arguments days_before : simpl never.
Arguments day_from_year : simpl never.

(** ** Local time *)

Notation ms_hour := 3600000.
Notation ms_day := 86400000.

(** LocalTZA of ECMA-262: the offset in force at a UTC time, and the offset used
    to read a local time (the one before the transition, for a skipped time). *)
Class TimeZone := {
  offset_at : Z -> Z;
  offset_local : Z -> Z
}.

Definition to_local `{TimeZone} (u : Z) : Z := u + offset_at u.
Definition to_utc `{TimeZone} (t : Z) : Z := t - offset_local t.

(** What the date picker relies on: offsets are below 16 hours and vary by at
    most 2, and a skipped local time is moved forward by one or two hours. *)
Class TimeZoneLaws `{TimeZone} := {
  tz_bound t : Z.abs (offset_local t) <= 16 * ms_hour;
  tz_bound_at u : Z.abs (offset_at u) <= 16 * ms_hour;
  tz_range t t' : Z.abs (offset_local t - offset_local t') <= 2 * ms_hour;
  tz_gap t : exists s, 0 <= s <= 2 /\ to_local (to_utc t) = t + s * ms_hour
}.

(** A zone without daylight saving. *)
Definition fixed_zone (c : Z) : TimeZone := {| offset_at _ := c; offset_local _ := c |}.

Lemma fixed_zone_laws c : Z.abs c <= 16 * ms_hour -> @TimeZoneLaws (fixed_zone c).
Proof.
  intros Hc. split; [done|done|intros; simpl; lia|].
  intros t. exists 0. split; [lia|]. unfold to_local, to_utc; simpl. lia.
Qed.

(** A zone with offset [c] that moves its clocks one hour forward at UTC time
    [at_]; the hour that follows on the local clock does not exist. *)
Definition summer_zone (c at_ : Z) : TimeZone := {|
  offset_at u := if u <? at_ then c else c + ms_hour;
  offset_local t := if t <? at_ + c + ms_hour then c else c + ms_hour
|}.

Lemma summer_zone_laws c at_ : Z.abs c <= 15 * ms_hour -> @TimeZoneLaws (summer_zone c at_).
Proof.
  intros Hc. split; intros t.
  - simpl. destruct (t <? _); lia.
  - simpl. destruct (t <? _); lia.
  - intros t'. simpl. destruct (t <? _), (t' <? _); lia.
  - unfold to_local, to_utc; simpl. destruct (Z.ltb_spec t (at_ + c + ms_hour)).
    + destruct (Z.ltb_spec (t - c) at_); [exists 0|exists 1]; lia.
    + destruct (Z.ltb_spec (t - (c + ms_hour)) at_); [lia|]. exists 0. lia.
Qed.

(** ** The [Date] object *)

Definition num : Type := option Z.
Definition date : Type := option Z.

Definition time_clip (t : Z) : date := if Z.abs t <=? 8640000000000000 then Some t else None.

Section date.
Context `{TimeZone}.

Definition of_local (t : Z) : date := time_clip (to_utc t).
Definition local (d : date) : num := to_local <$> d.

(** Years 0 to 99 of the constructor are in the twentieth century. *)
Definition full_year (y : Z) : Z := if (0 <=? y) && (y <=? 99) then 1900 + y else y.

(** [new Date(year, month, day)] *)
Definition new_date (year month day : num) : date :=
  y ← year; m ← month; d ← day; of_local (make_day (full_year y) m d * ms_day).

Definition getTime (d : date) : num := d.
Definition getFullYear (d : date) : num := (fun t => (civil (t / ms_day)).1.1) <$> local d.
Definition getMonth (d : date) : num := (fun t => (civil (t / ms_day)).1.2) <$> local d.
Definition getDate (d : date) : num := (fun t => (civil (t / ms_day)).2) <$> local d.
Definition getDay (d : date) : num := (fun t => week_day (t / ms_day)) <$> local d.
Definition getHours (d : date) : num := (fun t => (t mod ms_day) / ms_hour) <$> local d.

Definition setDate (day : num) (d : date) : date :=
  t ← local d; n ← day;
  let '(y, m, _) := civil (t / ms_day) in
  of_local (make_day y m n * ms_day + t mod ms_day).

Definition setMonth (month : Z) (d : date) : date :=
  t ← local d;
  let '(y, _, n) := civil (t / ms_day) in
  of_local (make_day y month n * ms_day + t mod ms_day).

Definition setHours (h : Z) (d : date) : date :=
  t ← local d; of_local (t / ms_day * ms_day + h * ms_hour + t mod ms_hour).

(** [setHours(0); setMinutes(0); setSeconds(0); setMilliseconds(0)] *)
Definition setMinutes (n : Z) (d : date) : date :=
  t ← local d; of_local (t / ms_hour * ms_hour + n * 60000 + t mod 60000).
Definition setSeconds (n : Z) (d : date) : date :=
  t ← local d; of_local (t / 60000 * 60000 + n * 1000 + t mod 1000).
Definition setMilliseconds (n : Z) (d : date) : date :=
  t ← local d; of_local (t / 1000 * 1000 + n).

(** [_daylightSavingAdjust] on a date object. *)
Definition daylightSavingAdjust (d : date) : date :=
  match getHours d with
  | Some h => setHours (if 12 <? h then h + 2 else 0) d
  | None => None
  end.

(** ** Whole days *)

(** The date object of local day [n]: its midnight, or the first hour that
    exists. *)
Definition date_at (n : Z) : date := Some (to_utc (n * ms_day)).

(** Days within the range of [Date]: about 270,000 years around 1970. *)
Definition in_range (n : Z) : Prop := Z.abs n <= 99000000.

Context `{!TimeZoneLaws}.

Lemma of_local_hours n k : in_range n -> 0 <= k <= 24 ->
  of_local (n * ms_day + k * ms_hour) = Some (to_utc (n * ms_day + k * ms_hour)).
Proof.
  intros Hn Hk. unfold of_local, time_clip, to_utc, in_range in *.
  pose proof (tz_bound (n * ms_day + k * ms_hour)).
  by destruct (Z.leb_spec (Z.abs (n * ms_day + k * ms_hour - offset_local (n * ms_day + k * ms_hour)))
    8640000000000000); [|lia].
Qed.

Lemma of_local_day n : in_range n -> of_local (n * ms_day) = date_at n.
Proof.
  intros Hn. pose proof (of_local_hours n 0 Hn ltac:(lia)) as E.
  by rewrite Z.mul_0_l, Z.add_0_r in E.
Qed.

(** The clock at the start of day [n] shows 0, 1 or 2 o'clock. *)
Lemma local_hours n k : exists s, 0 <= s <= 2 /\
  local (Some (to_utc (n * ms_day + k * ms_hour))) = Some (n * ms_day + (k + s) * ms_hour).
Proof.
  destruct (tz_gap (n * ms_day + k * ms_hour)) as (s & Hs & E). exists s. split; [done|].
  unfold local; simpl. rewrite E. f_equal. lia.
Qed.

Lemma local_date_at n : exists s, 0 <= s <= 2 /\ local (date_at n) = Some (n * ms_day + s * ms_hour).
Proof.
  destruct (local_hours n 0) as (s & Hs & E). exists s. split; [done|].
  unfold date_at. rewrite Z.mul_0_l, Z.add_0_r in E. by rewrite E, Z.add_0_l.
Qed.

Lemma hours_div n k : 0 <= k < 24 -> (n * ms_day + k * ms_hour) / ms_day = n.
Proof. intros Hk. divlia. Qed.
Lemma hours_mod n k : 0 <= k < 24 -> ((n * ms_day + k * ms_hour) mod ms_day) = k * ms_hour.
Proof. intros Hk. divlia. Qed.
Lemma hours_mod_hour n k : (n * ms_day + k * ms_hour) mod ms_hour = 0.
Proof. divlia. Qed.

Lemma fields_date_at n :
  getFullYear (date_at n) = Some (civil n).1.1 /\ getMonth (date_at n) = Some (civil n).1.2 /\
  getDate (date_at n) = Some (civil n).2 /\ getDay (date_at n) = Some (week_day n).
Proof.
  destruct (local_date_at n) as (s & Hs & E).
  unfold getFullYear, getMonth, getDate, getDay. rewrite E. simpl. rewrite hours_div by lia. done.
Qed.

(** Resetting the hours of a date in the small hours of day [n] gives [n]. *)
Lemma adjust_hours n k : in_range n -> 0 <= k <= 10 ->
  daylightSavingAdjust (Some (to_utc (n * ms_day + k * ms_hour))) = date_at n.
Proof.
  intros Hn Hk. destruct (local_hours n k) as (s & Hs & E).
  unfold daylightSavingAdjust, getHours. rewrite E. cbn [fmap option_fmap option_map].
  rewrite hours_mod by lia. rewrite Z.div_mul by lia.
  destruct (Z.ltb_spec 12 (k + s)); [lia|]. unfold setHours. rewrite E. simpl.
  rewrite hours_div, hours_mod_hour, !Z.add_0_r by lia. by apply of_local_day.
Qed.

Lemma adjust_date_at n : in_range n -> daylightSavingAdjust (date_at n) = date_at n.
Proof.
  intros Hn. pose proof (adjust_hours n 0 Hn ltac:(lia)) as E.
  by rewrite Z.mul_0_l, Z.add_0_r in E.
Qed.

Lemma new_date_at y m d : in_range (make_day (full_year y) m d) ->
  new_date (Some y) (Some m) (Some d) = date_at (make_day (full_year y) m d).
Proof. intros Hn. unfold new_date; simpl. by apply of_local_day. Qed.

(** [date.setDate(k)], then the adjustment, as the month grid does. *)
Lemma setDate_adjust n k y m d : civil n = (y, m, d) -> in_range (make_day y m k) ->
  daylightSavingAdjust (setDate (Some k) (date_at n)) = date_at (make_day y m k).
Proof.
  intros Ec Hk.
  destruct (local_date_at n) as (s & Hs & E). unfold setDate. rewrite E.
  cbn [mbind option_bind]. rewrite hours_div, hours_mod, Ec by lia. rewrite of_local_hours by (done || lia).
  apply adjust_hours; [done|lia].
Qed.

Lemma date_at_lt n n' : n < n' -> to_utc (n * ms_day) < to_utc (n' * ms_day).
Proof. intros Hn. unfold to_utc. pose proof (tz_range (n * ms_day) (n' * ms_day)). lia. Qed.

Lemma date_at_ltb n n' : (to_utc (n * ms_day) <? to_utc (n' * ms_day)) = (n <? n').
Proof.
  destruct (Z.ltb_spec n n') as [H1|H1].
  - apply Z.ltb_lt. by apply date_at_lt.
  - apply Z.ltb_ge. destruct (decide (n = n')) as [->|]; [lia|].
    pose proof (date_at_lt n' n ltac:(lia)). lia.
Qed.

Lemma date_at_inj n n' : date_at n = date_at n' -> n = n'.
Proof.
  unfold date_at. intros E. injection E as E. destruct (Z.lt_trichotomy n n') as [Hl|[?|Hl]]; [|done|];
    apply date_at_lt in Hl; lia.
Qed.

End date.
