(* ===== verification/DateFormat.v ===== *)
(** * Date formats: [$.datepicker.parseDate], [formatDate], [_possibleChars] and
    [iso8601Week] (application bundle, lines 19955-20319)

    The loops of the source walk the format with an index [iFormat]; here they
    recurse on the rest of the format, and [lookAhead] consumes a doubled
    character.  The value is kept as the rest to parse with its position. *)

From S2P Require Import Prelude JsString JsDate.
From Stdlib Require Import ZArith Lia Ascii Floats.SpecFloat.

Local Open Scope Z_scope.
Local Open Scope js_scope.

(** ** Numbers of the formats *)

Definition char (s : string) : ascii := hd zero (txt s).
Definition quote : ascii := ascii_of_nat 39.

(** [parseInt(s, 10)] *)
Definition js_space (c : ascii) : bool :=
  ((9 <=? code c) && (code c <=? 13)) || (code c =? 32) || (code c =? 160).

Definition parse_int (s : text) : num :=
  let s := drop_while js_space s in
  let '(neg, s) := match s with
                   | c :: s' => if decide (c = char "-") then (true, s')
                                else if decide (c = char "+") then (false, s') else (false, s)
                   | [] => (false, [])
                   end in
  match take_while is_digit s with
  | [] => None
  | ds => Some (if (neg : bool) then - parse_digits ds else parse_digits ds)
  end.

(** ["" + n] *)
Definition print_num (n : num) : text :=
  match n with Some z => print_Z z | None => txt "NaN" end.

(** Doubles, where the ticks format leaves the integers below 2^53. *)
Definition dbl (z : Z) : spec_float := binary_normalize 53 1024 z 0 false.

Definition trunc (f : spec_float) : num :=
  match f with
  | S754_zero _ => Some 0
  | S754_finite s m e =>
      let a := if 0 <=? e then Z.pos m * 2 ^ e else Z.pos m / 2 ^ (- e) in
      Some (if s then - a else a)
  | _ => None
  end.

(** [_ticksTo1970] *)
Definition ticksTo1970 : Z := ((1970 - 1) * 365 + 1970 / 4 - 1970 / 100 + 1970 / 400) * 24 * 60 * 60 * 10000000.

(** [(n - this._ticksTo1970) / 10000], as the [Date] constructor reads it. *)
Definition ticks_to_ms (n : Z) : num :=
  trunc (SFdiv 53 1024 (SFsub 53 1024 (dbl n) (dbl ticksTo1970)) (dbl 10000)).

Definition ms_to_ticks (t : Z) : num :=
  trunc (SFadd 53 1024 (SFmul 53 1024 (dbl t) (dbl 10000)) (dbl ticksTo1970)).

(** Number::toString of an integral double below 10^21: the shortest digits
    that read back as the same double, padded with zeros. *)
Fixpoint shortest (fuel : nat) (p v : Z) : Z :=
  match fuel with
  | O => v
  | S n => let c := (v + p / 2) / p * p in
           if SFeqb (dbl c) (dbl v) then c else shortest n (p / 10) v
  end.

Definition print_double (n : num) : text :=
  match n with
  | Some z => let a := shortest 21 (10 ^ 20) (Z.abs z) in print_Z (if z <? 0 then - a else a)
  | None => txt "NaN"
  end.

(** ** Settings *)

Inductive cutoff := CutNum (n : num) | CutStr (s : text).

Record format_settings := FormatSettings {
  fs_cutoff : cutoff;
  fs_dayNamesShort : list text; fs_dayNames : list text;
  fs_monthNamesShort : list text; fs_monthNames : list text
}.

(** The argument [settings]: an object whose fields may be missing. *)
Record settings_arg := SettingsArg {
  sa_cutoff : option cutoff;
  sa_dayNamesShort : option (list text); sa_dayNames : option (list text);
  sa_monthNamesShort : option (list text); sa_monthNames : option (list text)
}.

Definition falsy_cutoff (c : cutoff) : bool :=
  match c with
  | CutNum None => true | CutNum (Some z) => z =? 0
  | CutStr s => bool_decide (s = [])
  end.

(** [(settings ? settings.x : null) || this._defaults.x] *)
Definition resolve (settings : option settings_arg) (defaults : format_settings) : format_settings :=
  match settings with
  | None => defaults
  | Some s => FormatSettings
      (match sa_cutoff s with
       | Some c => if falsy_cutoff c then fs_cutoff defaults else c
       | None => fs_cutoff defaults end)
      (default (fs_dayNamesShort defaults) (sa_dayNamesShort s))
      (default (fs_dayNames defaults) (sa_dayNames s))
      (default (fs_monthNamesShort defaults) (sa_monthNamesShort s))
      (default (fs_monthNames defaults) (sa_monthNames s))
  end.

Definition english : format_settings := FormatSettings (CutStr (txt "+10"))
  (txt <$> ["Sun"; "Mon"; "Tue"; "Wed"; "Thu"; "Fri"; "Sat"]%string)
  (txt <$> ["Sunday"; "Monday"; "Tuesday"; "Wednesday"; "Thursday"; "Friday"; "Saturday"]%string)
  (txt <$> ["Jan"; "Feb"; "Mar"; "Apr"; "May"; "Jun"; "Jul"; "Aug"; "Sep"; "Oct"; "Nov"; "Dec"]%string)
  (txt <$> ["January"; "February"; "March"; "April"; "May"; "June"; "July"; "August"; "September";
            "October"; "November"; "December"]%string).

(** [lookAhead(match)]: whether the rest begins with [m], and the rest after it. *)
Definition lookAhead {A} (m : ascii) (rest : text) (k : bool -> text -> A) : A :=
  match rest with
  | c :: rest' => if decide (c = m) then k true rest' else k false rest
  | [] => k false rest
  end.

(** ** [parseDate] *)

Record pstate := PState {
  p_year : num; p_month : num; p_day : num; p_doy : Z;
  p_rest : text; p_pos : nat
}.

Definition set_rest (rest : text) (n : nat) (s : pstate) : pstate :=
  PState (p_year s) (p_month s) (p_day s) (p_doy s) rest (p_pos s + n).

Definition at_position (msg : string) (s : pstate) : string :=
  String.append msg (str (print_nat (Z.of_nat (p_pos s)))).

(** [getNumber(match)] *)
Definition number_size (m : ascii) (doubled : bool) : nat :=
  if decide (m = char "@") then 14 else if decide (m = char "!") then 20
  else if decide (m = char "y") then (if doubled then 4 else 2)
  else if decide (m = char "o") then 3 else 2.

Definition getNumber (m : ascii) (doubled : bool) (s : pstate) : jsres (Z * pstate) :=
  let size := number_size m doubled in
  let minSize := if decide (m = char "y") then size else 1%nat in
  let ds := take_while is_digit (take size (p_rest s)) in
  if (minSize <=? length ds)%nat
  then Ok (parse_digits ds, set_rest (drop (length ds) (p_rest s)) (length ds) s)
  else Throw (at_position "Missing number at position " s).

(** The first of the sorted [names] that the value continues with. *)
Fixpoint match_name (names : list (Z * text)) (v : text) : option (Z * nat) :=
  match names with
  | [] => None
  | (k, name) :: names' =>
      if decide (to_lower (take (length name) v) = to_lower name)
      then Some (k, length name) else match_name names' v
  end.

Definition name_cmp (a b : Z * text) : Z := - (Z.of_nat (length a.2) - Z.of_nat (length b.2)).

Definition getName (names : list text) (s : pstate) : jsres (Z * pstate) :=
  match match_name (js_sort name_cmp (imap (fun k v => (Z.of_nat k, v)) names)) (p_rest s) with
  | Some (k, n) => Ok (k + 1, set_rest (drop n (p_rest s)) n s)
  | None => Throw (at_position "Unknown name at position " s)
  end.

Definition checkLiteral (c : ascii) (s : pstate) : jsres pstate :=
  match p_rest s with
  | c' :: rest => if decide (c' = c) then Ok (set_rest rest 1 s)
                  else Throw (at_position "Unexpected literal at position " s)
  | [] => Throw (at_position "Unexpected literal at position " s)
  end.

Definition set_day n (s : pstate) := PState (p_year s) (p_month s) n (p_doy s) (p_rest s) (p_pos s).
Definition set_month n (s : pstate) := PState (p_year s) n (p_day s) (p_doy s) (p_rest s) (p_pos s).
Definition set_year n (s : pstate) := PState n (p_month s) (p_day s) (p_doy s) (p_rest s) (p_pos s).
Definition set_doy n (s : pstate) := PState (p_year s) (p_month s) (p_day s) n (p_rest s) (p_pos s).

Section format.
Context `{TimeZone} (fs : format_settings).

(** [year = date.getFullYear(); month = date.getMonth() + 1; day = date.getDate()] *)
Definition set_date (d : date) (s : pstate) : pstate :=
  PState (getFullYear d) (Z.succ <$> getMonth d) (getDate d) (p_doy s) (p_rest s) (p_pos s).

(** The cases of the [switch] that read a number or a name. *)
Definition parse_field (m : ascii) (doubled : bool) (s : pstate) : jsres pstate :=
  if decide (m = char "D") then
    let? (_, s) := getName (if doubled then fs_dayNames fs else fs_dayNamesShort fs) s in Ok s
  else if decide (m = char "M") then
    let? (n, s) := getName (if doubled then fs_monthNames fs else fs_monthNamesShort fs) s in
    Ok (set_month (Some n) s)
  else
    let? (n, s) := getNumber m doubled s in
    Ok (if decide (m = char "d") then set_day (Some n) s
        else if decide (m = char "o") then set_doy n s
        else if decide (m = char "m") then set_month (Some n) s
        else if decide (m = char "y") then set_year (Some n) s
        else if decide (m = char "@") then set_date (time_clip n) s
        else set_date (t ← ticks_to_ms n; time_clip t) s).

Definition is_field (c : ascii) : bool := bool_decide (c ∈ char <$> ["d"; "D"; "o"; "m"; "M"; "y"; "@"; "!"]%string).

(** The loop over the format. *)
Fixpoint parse_loop (fmt : text) (literal : bool) (s : pstate) : jsres pstate :=
  match fmt with
  | [] => Ok s
  | c :: rest =>
      if literal then
        if decide (c = quote) then
          lookAhead quote rest (fun doubled rest' =>
            if doubled then let? s' := checkLiteral quote s in parse_loop rest' true s'
            else parse_loop rest' false s)
        else let? s' := checkLiteral c s in parse_loop rest true s'
      else if is_field c then
        lookAhead c rest (fun doubled rest' =>
          let? s' := parse_field c doubled s in parse_loop rest' false s')
      else if decide (c = quote) then
        lookAhead quote rest (fun doubled rest' =>
          if doubled then let? s' := checkLiteral quote s in parse_loop rest' false s'
          else parse_loop rest' true s)
      else let? s' := checkLiteral c s in parse_loop rest false s'
  end.

(** [_getDaysInMonth(year, month)] *)
Definition getDaysInMonth (year month : num) : num :=
  Z.sub 32 <$> getDate (daylightSavingAdjust (new_date year month (Some 32))).

(** The [do] loop on the day of the year; [None] when [fuel] runs out. *)
Fixpoint doy_loop (fuel : nat) (year month day : num) : option (num * num) :=
  match fuel with
  | O => None
  | S n =>
      let dim := getDaysInMonth year (Z.pred <$> month) in
      match day, dim with
      | Some k, Some l => if k <=? l then Some (month, day)
                          else doy_loop n year (Z.succ <$> month) (Some (k - l))
      | _, _ => doy_loop n year (Z.succ <$> month) None
      end
  end.

(** The cutoff as [parseDate] uses it; [now] is [new Date()]. *)
Definition cutoff_num (now : date) : num :=
  match fs_cutoff fs with
  | CutNum n => n
  | CutStr s => y ← getFullYear now; c ← parse_int s; Some (Z.rem y 100 + c)
  end.

(** [year <= shortYearCutoff], false on NaN. *)
Definition within_cutoff (y : Z) (now : date) : bool :=
  match cutoff_num now with Some c => y <=? c | None => false end.

Definition resolve_year (year : num) (now : date) : num :=
  match year with
  | None => None
  | Some y =>
      if y =? -1 then getFullYear now
      else if y <? 100 then
        c ← getFullYear now; Some (y + (c - Z.rem c 100) + (if within_cutoff y now then 0 else -100))
      else Some y
  end.

(** [===] on numbers: NaN differs from everything. *)
Definition num_eqb (a b : num) : bool :=
  match a, b with Some x, Some y => x =? y | _, _ => false end.

Definition check_date (year month day : num) : jsres (option date) :=
  let d := daylightSavingAdjust (new_date year (Z.pred <$> month) day) in
  if num_eqb (getFullYear d) year && num_eqb (Z.succ <$> getMonth d) month && num_eqb (getDate d) day
  then Ok (Some d) else Throw "Invalid date".

(** The statements after the loop. *)
Definition parse_finish (fuel : nat) (now : date) (s : pstate) : option (jsres (option date)) :=
  let extra := p_rest s in
  if match extra with [] => false | c :: _ => negb (js_space c) end
  then Some (Throw (String.append "Extra/unparsed characters found in date: " (str extra)))
  else
    let year := resolve_year (p_year s) now in
    if -1 <? p_doy s then
      '(month, day) ← doy_loop fuel year (Some 1) (Some (p_doy s));
      Some (check_date year month day)
    else Some (check_date year (p_month s) (p_day s)).

Definition init_pstate (value : text) : pstate := PState (Some (-1)) (Some (-1)) (Some (-1)) (-1) value 0.

(** [parseDate(format, value, settings)]: [Ok None] is [null], [None] a run
    longer than [fuel] turns of the day-of-year loop. *)
Definition parseDate (fuel : nat) (now : date) (format value : option text) : option (jsres (option date)) :=
  match format, value with
  | Some format, Some value =>
      match value with
      | [] => Some (Ok None)
      | _ => match parse_loop format false (init_pstate value) with
             | Ok s => parse_finish fuel now s
             | Throw e => Some (Throw e)
             end
      end
  | _, _ => Some (Throw "Invalid arguments")
  end.

(** ** [formatDate] *)

(** [formatNumber(match, value, len)] *)
Definition formatNumber (doubled : bool) (value : num) (len : nat) : text :=
  let s := print_num value in
  if doubled then replicate (len - length s) (char "0") ++ s else s.

(** [names[ value ]], read as a string. *)
Definition formatName (value : num) (names : list text) : text :=
  match value with
  | Some k => if 0 <=? k then default (txt "undefined") (names !! Z.to_nat k) else txt "undefined"
  | None => txt "undefined"
  end.

(** [Math.round((new Date(y, m, d).getTime() - new Date(y, 0, 0).getTime()) / 86400000)] *)
Definition day_of_year (d : date) : num :=
  a ← getTime (new_date (getFullYear d) (getMonth d) (getDate d));
  b ← getTime (new_date (getFullYear d) (Some 0) (Some 0));
  Some ((2 * (a - b) + ms_day) / (2 * ms_day)).

(** [(date.getYear() % 100 < 10 ? "0" : "") + date.getYear() % 100] *)
Definition short_year (d : date) : text :=
  let y := (fun y => Z.rem (y - 1900) 100) <$> getFullYear d in
  match y with Some r => if r <? 10 then char "0" :: print_num y else print_num y | None => print_num y end.

Definition format_field (m : ascii) (doubled : bool) (d : date) : text :=
  if decide (m = char "d") then formatNumber doubled (getDate d) 2
  else if decide (m = char "D") then
    formatName (getDay d) (if doubled then fs_dayNames fs else fs_dayNamesShort fs)
  else if decide (m = char "o") then formatNumber doubled (day_of_year d) 3
  else if decide (m = char "m") then formatNumber doubled (Z.succ <$> getMonth d) 2
  else if decide (m = char "M") then
    formatName (getMonth d) (if doubled then fs_monthNames fs else fs_monthNamesShort fs)
  else if decide (m = char "y") then (if doubled then print_num (getFullYear d) else short_year d)
  else if decide (m = char "@") then print_num (getTime d)
  else print_double (t ← getTime d; ms_to_ticks t).

(** Whether the source tests [lookAhead] for a field: all but "@" and "!". *)
Definition looks_ahead (c : ascii) : bool := bool_decide (c ∈ char <$> ["d"; "D"; "o"; "m"; "M"; "y"]%string).

Fixpoint format_loop (fmt : text) (literal : bool) (d : date) : text :=
  match fmt with
  | [] => []
  | c :: rest =>
      if literal then
        if decide (c = quote) then
          lookAhead quote rest (fun doubled rest' =>
            if doubled then quote :: format_loop rest' true d else format_loop rest' false d)
        else c :: format_loop rest true d
      else if looks_ahead c then
        lookAhead c rest (fun doubled rest' => format_field c doubled d ++ format_loop rest' false d)
      else if is_field c then format_field c false d ++ format_loop rest false d
      else if decide (c = quote) then
        lookAhead quote rest (fun doubled rest' =>
          if doubled then quote :: format_loop rest' false d else format_loop rest' true d)
      else c :: format_loop rest false d
  end.

(** [formatDate(format, date, settings)]; no date gives the empty string. *)
Definition formatDate (format : text) (d : option date) : text :=
  match d with None => [] | Some d => format_loop format false d end.

(** ** [_possibleChars] *)

(** [None] is [null]: accept anything. *)
Fixpoint possibleChars (fmt : text) (literal : bool) : option text :=
  match fmt with
  | [] => Some []
  | c :: rest =>
      if literal then
        if decide (c = quote) then
          lookAhead quote rest (fun doubled rest' =>
            if doubled then cons quote <$> possibleChars rest' true else possibleChars rest' false)
        else cons c <$> possibleChars rest true
      else if bool_decide (c ∈ char <$> ["d"; "m"; "y"; "@"]%string) then
        app (txt "0123456789") <$> possibleChars rest false
      else if bool_decide (c ∈ char <$> ["D"; "M"]%string) then None
      else if decide (c = quote) then
        lookAhead quote rest (fun doubled rest' =>
          if doubled then cons quote <$> possibleChars rest' false else possibleChars rest' true)
      else cons c <$> possibleChars rest false
  end.

(** ** [iso8601Week] and [noWeekends] *)

(** [new Date(date.getTime())] is the same time value.  The week is
    [Math.floor(Math.round((time - checkDate) / 86400000) / 7) + 1]. *)
Definition iso8601Week (d : date) : num :=
  day ← getDay d; day_of_month ← getDate d;
  let checkDate := setDate (Some (day_of_month + 4 - (if day =? 0 then 7 else day))) d in
  time ← getTime checkDate;
  jan1 ← getTime (setDate (Some 1) (setMonth 0 checkDate));
  Some ((2 * (time - jan1) + ms_day) / (2 * ms_day) / 7 + 1).

(** [[day > 0 && day < 6, ""]] *)
Definition noWeekends (d : date) : bool :=
  match getDay d with Some k => (0 <? k) && (k <? 6) | None => false end.

End format.
