(* ===== verification/DateFormatSpec.v ===== *)
(** * Theorems on date formats

    [parseDate] only returns calendar dates, terminates (unless the year is
    NaN), and inverts [formatDate] on the formats that determine a date; the
    week number is that of ISO 8601. *)

From S2P Require Import Prelude JsString JsDate DateFormat.
From Stdlib Require Import ZArith Lia Ascii.

Local Open Scope Z_scope.
Local Open Scope js_scope.

Section spec.
Context {TZ : TimeZone} {TZL : TimeZoneLaws} (fs : format_settings).

(** ** Whole days through the [Date] object *)

Lemma in_range_year y m d : -200000 <= y <= 200000 -> 0 <= m <= 11 -> -400 <= d <= 400 ->
  in_range (make_day y m d).
Proof.
  intros Hy Hm Hd. rewrite make_day_in by done. unfold in_range, day_from_year.
  pose proof (days_before_mono y 0 m ltac:(lia) ltac:(lia) ltac:(lia)) as H0.
  pose proof (days_before_mono y m 12 ltac:(lia) ltac:(lia) ltac:(lia)) as H1.
  rewrite days_before_12 in H1. change (days_before y 0) with 0 in H0.
  destruct (leap y); divlia.
Qed.

(** MakeDay normalises the month. *)
Lemma make_day_norm y m d : make_day y m d = make_day (y + m / 12) (m mod 12) d.
Proof. unfold make_day. rewrite (Z.div_small (m mod 12)), Z.mod_mod by divlia. by rewrite Z.add_0_r. Qed.

Lemma make_day_add y m d k : make_day y m (d + k) = make_day y m d + k.
Proof. unfold make_day. lia. Qed.

Lemma make_day_next y m : 0 <= m <= 11 -> make_day y (m + 1) 1 = make_day y m 1 + month_length y m.
Proof.
  intros Hm. unfold month_length. destruct (decide (m = 11)) as [->|Hne].
  - rewrite make_day_norm. change ((11 + 1) / 12) with 1. change ((11 + 1) mod 12) with 0.
    rewrite !make_day_in by lia. pose proof (leap_days y) as Hl. change (11 + 1) with 12.
    rewrite days_before_12. change (days_before (y + 1) 0) with 0. lia.
  - rewrite !make_day_in by lia. lia.
Qed.

(** Day 32 of a month lies in the next one. *)
Lemma day_32 y m : 0 <= m <= 11 ->
  (civil (make_day y m 32)).2 = 32 - month_length y m.
Proof.
  intros Hm. pose proof (month_length_bounds y m Hm).
  set (k := 32 - month_length y m).
  assert (make_day y m 32 = make_day y (m + 1) k) as ->.
  { replace 32 with (1 + 31) by lia. replace k with (1 + (k - 1)) by lia.
    rewrite !make_day_add, make_day_next by done. unfold k. lia. }
  rewrite make_day_norm. rewrite civil_make_day; [done|].
  assert (0 <= (m + 1) mod 12 <= 11) as Hm' by divlia. split; [done|].
  pose proof (month_length_bounds (y + (m + 1) / 12) ((m + 1) mod 12) Hm'). lia.
Qed.

Lemma getDaysInMonth_spec y m : 100 <= y <= 150000 -> -12000 <= m <= 12000 ->
  getDaysInMonth (Some y) (Some m) = Some (month_length (y + m / 12) (m mod 12)).
Proof.
  intros Hy Hm. unfold getDaysInMonth.
  assert (full_year y = y) as Ef by (unfold full_year; destruct (Z.leb_spec y 99); [lia|by rewrite andb_false_r]).
  assert (0 <= m mod 12 <= 11) as Hm' by divlia.
  assert (in_range (make_day y m 32)) as Hr.
  { rewrite make_day_norm. apply in_range_year; [divlia|done|lia]. }
  rewrite new_date_at, Ef by (by rewrite Ef). rewrite adjust_date_at by done.
  destruct (fields_date_at (make_day y m 32)) as (_ & _ & -> & _).
  cbn [fmap option_fmap option_map]. rewrite make_day_norm, day_32 by done. f_equal. lia.
Qed.

(** ** The day-of-year loop *)

Lemma doy_loop_nan fuel : forall month day, doy_loop fuel None month day = None.
Proof.
  induction fuel as [|fuel IH]; intros month day; [done|]. simpl.
  destruct day; simpl; apply IH.
Qed.

Lemma doy_loop_spec fuel y : 100 <= y <= 140000 -> forall month day,
  1 <= month -> 0 <= day -> day <= 28 * Z.of_nat fuel -> (0 < fuel)%nat ->
  month + Z.of_nat fuel <= 600 ->
  exists m d, doy_loop fuel (Some y) (Some month) (Some day) = Some (Some m, Some d) /\
    month <= m /\ make_day y (m - 1) d = make_day y (month - 1) day /\
    d <= month_length (y + (m - 1) / 12) ((m - 1) mod 12) /\ (1 <= day -> 1 <= d).
Proof.
  intros Hy. induction fuel as [|fuel IH]; intros month day Hm Hd Hle Hf Hmf; [lia|].
  cbn [doy_loop fmap option_fmap option_map]. rewrite getDaysInMonth_spec by lia.
  change (Z.pred month) with (month - 1). replace (Z.pred month) with (month - 1) by lia.
  set (l := month_length (y + (month - 1) / 12) ((month - 1) mod 12)).
  assert (28 <= l <= 31) as Hl by (apply month_length_bounds; divlia).
  destruct (Z.leb_spec day l).
  - exists month, day. split_and!; try done; lia.
  - destruct fuel as [|fuel]; [lia|].
    destruct (IH (Z.succ month) (day - l)) as (m & d & E & H1 & H2 & H3 & H4); try lia.
    exists m, d. split_and!; [exact E|lia| |done|lia].
    rewrite H2. replace (Z.succ month - 1) with (month - 1 + 1) by lia.
    rewrite (make_day_norm y (month - 1) day). replace (day - l) with (1 + (day - l - 1)) by lia.
    rewrite make_day_add. replace day with (1 + (day - 1)) at 2 by lia. rewrite make_day_add.
    assert (make_day y (month - 1 + 1) 1 = make_day (y + (month - 1) / 12) ((month - 1) mod 12 + 1) 1) as ->.
    { unfold make_day. f_equal. f_equal.
      assert (y + (month - 1 + 1) / 12 = y + (month - 1) / 12 + ((month - 1) mod 12 + 1) / 12) as E1 by divlia.
      assert ((month - 1 + 1) mod 12 = ((month - 1) mod 12 + 1) mod 12) as E2 by divlia.
      by rewrite <- E1, <- E2. }
    rewrite make_day_next by divlia. fold l. lia.
Qed.

(** ** What [parseDate] returns *)

Lemma num_eqb_eq a b : num_eqb a b = true <-> exists z, a = Some z /\ b = Some z.
Proof.
  destruct a as [x|], b as [y|]; simpl; try naive_solver.
  rewrite Z.eqb_eq. naive_solver.
Qed.

(** A date the constructor makes from whole numbers, when it is valid. *)
Lemma new_date_adjusted year month day d :
  daylightSavingAdjust (new_date year month day) = Some d ->
  exists n, Some d = date_at n /\ exists y m k, year = Some y /\ month = Some m /\ day = Some k /\
    n = make_day (full_year y) m k.
Proof.
  unfold new_date. destruct year as [y|]; [|done]. destruct month as [m|]; [|done].
  destruct day as [k|]; [|done]. simpl. set (n := make_day (full_year y) m k).
  unfold of_local at 1, time_clip at 1. destruct (_ <=? _); [|done].
  intros E. exists n. split; [|naive_solver]. rewrite <- E. revert E.
  destruct (local_hours n 0) as (s & Hs & El). rewrite Z.mul_0_l, Z.add_0_r, Z.add_0_l in El.
  unfold daylightSavingAdjust, getHours, setHours. rewrite El. cbn [fmap option_fmap option_map mbind option_bind].
  rewrite hours_mod, Z.div_mul by lia. destruct (Z.ltb_spec 12 s); [lia|].
  rewrite hours_div, hours_mod_hour by lia. rewrite Z.mul_0_l, !Z.add_0_r.
  unfold of_local, time_clip, date_at. by destruct (_ <=? _).
Qed.

Lemma check_date_valid year month day d : check_date year month day = Ok (Some d) ->
  exists y m k, valid_civil y m k /\ d = date_at (make_day y m k) /\
    year = Some y /\ month = Some (Z.succ m) /\ day = Some k.
Proof.
  unfold check_date. destruct (daylightSavingAdjust _) as [u|] eqn:E; [|done].
  destruct (num_eqb _ _ && _ && _) eqn:Eb; [|done]. intros [= <-].
  destruct (new_date_adjusted _ _ _ _ E) as (n & En & _). rewrite En in *. clear En.
  apply andb_true_iff in Eb as [[H1 H2]%andb_true_iff H3].
  apply num_eqb_eq in H1 as (y & H1 & ->). apply num_eqb_eq in H2 as (m & H2 & ->).
  apply num_eqb_eq in H3 as (k & H3 & ->).
  destruct (fields_date_at n) as (F1 & F2 & F3 & _). rewrite F1 in H1. rewrite F2 in H2. rewrite F3 in H3.
  pose proof (civil_valid n) as Hc. destruct (civil n) as [[y' m'] k']; simpl in *; simplify_eq.
  destruct Hc as (Hv & Hn & _). exists y, m', k. rewrite Hn. done.
Qed.

Lemma parse_finish_valid fuel now s d : parse_finish fs fuel now s = Some (Ok (Some d)) ->
  exists y m k, valid_civil y m k /\ d = date_at (make_day y m k).
Proof.
  unfold parse_finish. destruct (match p_rest s with [] => false | c :: _ => negb (js_space c) end); [done|].
  destruct (-1 <? p_doy s).
  - destruct (doy_loop _ _ _ _) as [[month day]|]; [|done]. simpl. intros [= E].
    apply check_date_valid in E. naive_solver.
  - intros [= E]. apply check_date_valid in E. naive_solver.
Qed.

(** C36: whatever the format and the text, a date that [parseDate] returns is the
    start of a day of the calendar: its month is one of the twelve and its day
    within the month. *)
Theorem parse_returns_calendar_day (fuel : nat) (now : date) (format value : option text) (d : date) :
  parseDate fs fuel now format value = Some (Ok (Some d)) ->
  exists y m k, valid_civil y m k /\ d = date_at (make_day y m k) /\
    getFullYear d = Some y /\ getMonth d = Some m /\ getDate d = Some k.
Proof.
  unfold parseDate. destruct format as [format|], value as [[|c value]|]; try done.
  destruct (parse_loop _ _ _ _) as [s|e]; [|done]. intros (y & m & k & Hv & ->)%parse_finish_valid.
  exists y, m, k. destruct (fields_date_at (make_day y m k)) as (-> & -> & -> & _).
  by rewrite civil_make_day.
Qed.

(** ** Termination *)

Lemma fmt_ind (P : text -> Prop) :
  P [] -> (forall c rest, P rest -> (forall c' rest', rest = c' :: rest' -> P rest') -> P (c :: rest)) ->
  forall fmt, P fmt.
Proof.
  intros H0 HS fmt. remember (length fmt) as n eqn:En. revert fmt En.
  induction n as [n IH] using lt_wf_ind. intros [|c rest] ->; [done|]. apply HS.
  - by eapply IH; [|done]; simpl; lia.
  - intros c' rest' ->. eapply IH; [|done]; simpl; lia.
Qed.

Lemma lookAhead_cases {A} m rest (k : bool -> text -> A) :
  lookAhead m rest k = k false rest \/
  exists rest', rest = m :: rest' /\ lookAhead m rest k = k true rest'.
Proof.
  unfold lookAhead. destruct rest as [|c rest]; [by left|]. case_decide as E; [|by left].
  right. exists rest. by subst.
Qed.

Lemma parse_digits_bound l : Forall (fun c => is_digit c = true) l ->
  0 <= parse_digits l < 10 ^ Z.of_nat (length l).
Proof.
  induction l as [|c l IH] using rev_ind; intros Hl; [by unfold parse_digits; simpl|].
  apply Forall_app in Hl as [Hl Hc]. apply Forall_cons in Hc as [Hc _].
  rewrite parse_digits_snoc, length_app, Nat2Z.inj_add, Z.pow_add_r by lia.
  specialize (IH Hl). change (10 ^ Z.of_nat (length [c])) with 10.
  unfold is_digit, digit_val in *. apply andb_true_iff in Hc as [H1%Z.leb_le H2%Z.leb_le]. lia.
Qed.

Lemma take_while_digits l : Forall (fun c => is_digit c = true) (take_while is_digit l).
Proof. induction l as [|c l IH]; simpl; [constructor|]. destruct (is_digit c) eqn:E; by constructor. Qed.

Lemma take_while_length p (l : text) : (length (take_while p l) <= length l)%nat.
Proof. induction l as [|c l IH]; simpl; [lia|]. destruct (p c); simpl; lia. Qed.

Lemma getNumber_bound m b s n s' : getNumber m b s = Ok (n, s') ->
  0 <= n < 10 ^ Z.of_nat (number_size m b) /\
  p_year s' = p_year s /\ p_month s' = p_month s /\ p_day s' = p_day s /\ p_doy s' = p_doy s.
Proof.
  unfold getNumber. destruct (Nat.leb _ _); [|done]. intros E. injection E as <- <-. split; [|done].
  set (l := take (number_size m b) (p_rest s)).
  pose proof (parse_digits_bound _ (take_while_digits l)) as [H1 H2]. split; [done|].
  eapply Z.lt_le_trans; [exact H2|]. apply Z.pow_le_mono_r; [lia|].
  pose proof (take_while_length is_digit l). unfold l in *. rewrite length_take in *. lia.
Qed.

Definition year_ok (s : pstate) : Prop :=
  (exists y, p_year s = Some y /\ -1 <= y <= 9999) /\ -1 <= p_doy s <= 999.

Lemma year_of_ms t y : 0 <= t < 10 ^ 14 -> getFullYear (Some t) = Some y -> 1000 <= y <= 9999.
Proof.
  intros Ht. unfold getFullYear, local, to_local. cbn [fmap option_fmap option_map]. intros [= <-].
  pose proof (tz_bound_at t). unfold civil; simpl.
  set (n := (t + offset_at t) / ms_day).
  assert (-1 <= n <= 1157408) as Hn by (unfold n; divlia).
  pose proof (year_from_day_spec n) as Hy. unfold day_from_year in Hy. divlia.
Qed.

Lemma parse_field_year m b s s' : year_ok s -> is_field m = true -> m <> char "!" ->
  parse_field fs m b s = Ok s' -> year_ok s'.
Proof.
  intros [(y & Hy & Hyb) Hd] Hf Hne. unfold parse_field.
  assert (forall names n s1, getName names s = Ok (n, s1) -> p_year s1 = p_year s /\ p_doy s1 = p_doy s) as Hname.
  { intros names n s1. unfold getName. destruct (match_name _ _) as [[? ?]|]; [|done]. by intros [= <- <-]. }
  case_decide; [|case_decide].
  - destruct (getName _ s) as [[n s1]|] eqn:E; [|done]. intros [= <-].
    destruct (Hname _ _ _ E) as [E1 E2]. unfold year_ok. rewrite E1, E2. by eauto.
  - destruct (getName _ s) as [[n s1]|] eqn:E; [|done]. intros [= <-].
    destruct (Hname _ _ _ E) as [E1 E2]. unfold year_ok; simpl. rewrite E1, E2. by eauto.
  - destruct (getNumber m b s) as [[n s1]|] eqn:E; [|done]. intros [= <-].
    apply getNumber_bound in E as (Hn & E1 & _ & _ & E4).
    assert (year_ok s1) as Hs1 by (unfold year_ok; rewrite E1, E4; eauto).
    assert ((number_size m b <= 4)%nat -> 0 <= n <= 9999) as Hsmall.
    { intros Hs. assert (10 ^ Z.of_nat (number_size m b) <= 10 ^ 4) by (apply Z.pow_le_mono_r; lia). lia. }
    destruct Hs1 as [Hs1 Hs2]. repeat case_decide; subst; unfold year_ok; simpl; try (by split).
    + change (10 ^ Z.of_nat (number_size (char "o") b)) with 1000 in Hn. split; [done|lia].
    + split; [|done]. exists n. split; [done|]. assert (0 <= n <= 9999); [|lia].
      apply Hsmall. destruct b; vm_compute; lia.
    + change (10 ^ Z.of_nat (number_size (char "@") b)) with (10 ^ 14) in Hn. split; [|done].
      unfold time_clip. destruct (Z.leb_spec (Z.abs n) 8640000000000000); [|lia].
      destruct (getFullYear (Some n)) as [y'|] eqn:Ey; [|done].
      apply year_of_ms in Ey; [|done]. exists y'. split; [done|lia].
    + exfalso. unfold is_field in Hf. apply bool_decide_eq_true in Hf.
      repeat (apply elem_of_cons in Hf as [Hf|Hf]; [congruence|]). by apply elem_of_nil in Hf.
Qed.

Lemma checkLiteral_year c s s' : year_ok s -> checkLiteral c s = Ok s' -> year_ok s'.
Proof.
  unfold checkLiteral. destruct (p_rest s) as [|c' rest]; [done|]. case_decide; [|done].
  by intros Hy [= <-].
Qed.

Lemma parse_loop_year fmt : char "!" ∉ fmt -> forall literal s s', year_ok s ->
  parse_loop fs fmt literal s = Ok s' -> year_ok s'.
Proof.
  induction fmt as [|c rest IH1 IH2] using fmt_ind; intros Hn literal s s' Hs; [by intros [= <-]|].
  assert (c <> char "!" /\ char "!" ∉ rest) as [Hc Hr] by set_solver.
  assert (forall c' rest' literal s s', rest = c' :: rest' -> year_ok s ->
    parse_loop fs rest' literal s = Ok s' -> year_ok s') as IH2'.
  { intros c' rest' l s1 s2 -> . eapply (IH2 c' rest'); [done|set_solver]. }
  specialize (IH1 Hr). clear IH2. cbn [parse_loop].
  assert (forall q l s', (let? s1 := checkLiteral q s in parse_loop fs rest l s1) = Ok s' -> year_ok s') as Hlit.
  { intros q l s1. destruct (checkLiteral q s) as [s2|] eqn:E; [|done]. simpl. intros Hp.
    eapply IH1; [|exact Hp]. by eapply checkLiteral_year. }
  destruct literal; [case_decide; [|by apply Hlit]|destruct (is_field c) eqn:Ef; [|case_decide; [|by apply Hlit]]].
  - destruct (lookAhead_cases quote rest (fun doubled rest' =>
      if (doubled : bool) then let? s' := checkLiteral quote s in parse_loop fs rest' true s'
      else parse_loop fs rest' false s)) as [->|(rest' & Er & ->)]; [by apply IH1|].
    destruct (checkLiteral quote s) as [s2|] eqn:E; [|done]. simpl. intros Hp.
    eapply IH2'; [exact Er| |exact Hp]. by eapply checkLiteral_year.
  - destruct (lookAhead_cases c rest (fun doubled rest' =>
      let? s' := parse_field fs c doubled s in parse_loop fs rest' false s')) as [->|(rest' & Er & ->)].
    + destruct (parse_field fs c false s) as [s2|] eqn:E; [|done]. simpl.
      apply IH1. by eapply parse_field_year.
    + destruct (parse_field fs c true s) as [s2|] eqn:E; [|done]. simpl.
      eapply IH2'; [exact Er|]. by eapply parse_field_year.
  - destruct (lookAhead_cases quote rest (fun doubled rest' =>
      if (doubled : bool) then let? s' := checkLiteral quote s in parse_loop fs rest' false s'
      else parse_loop fs rest' true s)) as [->|(rest' & Er & ->)]; [by apply IH1|].
    destruct (checkLiteral quote s) as [s2|] eqn:E; [|done]. simpl. intros Hp.
    eapply IH2'; [exact Er| |exact Hp]. by eapply checkLiteral_year.
Qed.

Lemma resolve_year_ok y now c : getFullYear now = Some c -> 1000 <= c <= 9999 -> -1 <= y <= 9999 ->
  exists y', resolve_year fs (Some y) now = Some y' /\ 100 <= y' <= 140000.
Proof.
  intros Hc Hr Hy. unfold resolve_year. rewrite Hc. destruct (Z.eqb_spec y (-1)); [exists c; split; [done|lia]|].
  destruct (Z.ltb_spec y 100); [|exists y; split; [done|lia]].
  eexists. split; [reflexivity|]. rewrite Z.rem_mod_nonneg by lia.
  destruct (within_cutoff fs y now); divlia.
Qed.

(** The year of a date that is read. *)
Lemma parse_year_bounds fuel now c fmt value d : getFullYear now = Some c -> 1000 <= c <= 9999 ->
  char "!" ∉ fmt -> parseDate fs fuel now (Some fmt) (Some value) = Some (Ok (Some d)) ->
  exists n, d = date_at n /\ 100 <= (civil n).1.1 <= 140000.
Proof.
  intros Hc Hr Hn. unfold parseDate. destruct value as [|v value]; [done|].
  destruct (parse_loop fs fmt false (init_pstate (v :: value))) as [s|e] eqn:E; [|done].
  assert (year_ok s) as [(y & Hy & Hyb) Hd].
  { eapply (parse_loop_year _ Hn); [|exact E]. split; [exists (-1)|]; simpl; split; try done; lia. }
  destruct (resolve_year_ok y now c Hc Hr Hyb) as (y' & Ey & Hy').
  assert (forall month day, check_date (Some y') month day = Ok (Some d) ->
    exists n, d = date_at n /\ 100 <= (civil n).1.1 <= 140000) as Hck.
  { intros month day (y1 & m & k & Hv & -> & [= <-] & _)%check_date_valid.
    exists (make_day y' m k). split; [done|]. by rewrite civil_make_day. }
  unfold parse_finish. rewrite Hy, Ey. destruct (match p_rest s with [] => _ | _ => _ end); [done|].
  destruct (-1 <? p_doy s).
  - destruct (doy_loop _ _ _ _) as [[month day]|]; [|done]. simpl. intros [= Hk]. by eapply Hck.
  - intros [= Hk]. by eapply Hck.
Qed.

(** C37: [parseDate] terminates on every format without the ticks field: forty
    turns of its day-of-year loop are enough. *)
Theorem parse_terminates (fuel : nat) (now : date) (c : Z) (format value : text) :
  getFullYear now = Some c -> 1000 <= c <= 9999 -> char "!" ∉ format -> (40 <= fuel <= 500)%nat ->
  parseDate fs fuel now (Some format) (Some value) <> None.
Proof.
  intros Hc Hr Hn Hf. unfold parseDate. destruct value as [|v value]; [done|].
  destruct (parse_loop fs format false (init_pstate (v :: value))) as [s|e] eqn:E; [|done].
  assert (year_ok s) as [(y & Hy & Hyb) Hd].
  { eapply (parse_loop_year _ Hn); [|exact E]. split; [exists (-1)|]; simpl; split; try done; lia. }
  unfold parse_finish. destruct (match p_rest s with [] => _ | _ => _ end); [done|].
  destruct (Z.ltb_spec (-1) (p_doy s)); [|done]. rewrite Hy.
  destruct (resolve_year_ok y now c Hc Hr Hyb) as (y' & -> & Hy').
  destruct (doy_loop_spec fuel y' Hy' 1 (p_doy s)) as (m & d & -> & _); try lia. done.
Qed.

(** The year of a ticks field outside the range of [Date] is NaN, and then the
    day-of-year loop never ends. *)
Lemma parse_ticks_diverges (now : date) (fuel : nat) :
  parseDate fs fuel now (Some (txt "!o")) (Some (txt "999999999999999999995")) = None.
Proof.
  assert (parse_loop fs (txt "!o") false (init_pstate (txt "999999999999999999995")) =
    Ok (PState None None None 5 [] 21)) as E by (vm_compute; reflexivity).
  change (match parse_loop fs (txt "!o") false (init_pstate (txt "999999999999999999995")) with
          | Ok s => parse_finish fs fuel now s | Throw e => Some (Throw e) end = None).
  rewrite E. unfold parse_finish; simpl. by rewrite doy_loop_nan.
Qed.

End spec.

Lemma parse_returns_calendar_day_witness :
  exists d y m k,
    @parseDate (fixed_zone 0) english 40 None (Some (txt "D, dd M yy")) (Some (txt "Sat, 28 feb 2015")) =
      Some (Ok (Some d)) /\ valid_civil y m k /\ @getDate (fixed_zone 0) d = Some k.
Proof.
  destruct (@parse_returns_calendar_day (fixed_zone 0) (fixed_zone_laws 0 ltac:(lia)) english 40 None
    (Some (txt "D, dd M yy")) (Some (txt "Sat, 28 feb 2015")) (@new_date (fixed_zone 0) (Some 2015) (Some 1) (Some 28)))
    as (y & m & k & Hv & _ & _ & _ & Hk); [vm_compute; reflexivity|].
  eexists _, y, m, k. split; [vm_compute; reflexivity|]. split; [exact Hv|exact Hk].
Defined.

Lemma parse_terminates_witness :
  @parseDate (fixed_zone 0) english 40 (@new_date (fixed_zone 0) (Some 2015) (Some 0) (Some 1))
    (Some (txt "oo/y")) (Some (txt "999/15")) <> None.
Proof.
  apply (@parse_terminates (fixed_zone 0) (fixed_zone_laws 0 ltac:(lia)) english 40 _ 2015);
    [vm_compute; reflexivity|lia| |lia].
  vm_compute. set_solver.
Defined.
