(* ===== verification/DateRoundTrip.v ===== *)
(** * [parseDate] inverts [formatDate]

    A format is read as a list of tokens; the formats whose tokens can be told
    apart in the text and determine a day round-trip, with any prefix-free
    month and day names. *)

From S2P Require Import Prelude JsString JsDate DateFormat DateFormatSpec.
From Stdlib Require Import ZArith Lia Ascii.

Local Open Scope Z_scope.
Local Open Scope js_scope.

(** ** Tokens of a format *)

Inductive tok := TLit (c : ascii) | TFld (m : ascii) (doubled : bool).

Fixpoint toks (fmt : text) (literal : bool) : list tok :=
  match fmt with
  | [] => []
  | c :: rest =>
      if literal then
        if decide (c = quote) then
          lookAhead quote rest (fun doubled rest' =>
            if doubled then TLit quote :: toks rest' true else toks rest' false)
        else TLit c :: toks rest true
      else if is_field c then lookAhead c rest (fun doubled rest' => TFld c doubled :: toks rest' false)
      else if decide (c = quote) then
        lookAhead quote rest (fun doubled rest' =>
          if doubled then TLit quote :: toks rest' false else toks rest' true)
      else TLit c :: toks rest false
  end.

Definition is_name (m : ascii) : bool := bool_decide (m = char "D" \/ m = char "M").

(** The fields that are read back: not "y" alone (two digits), "@" or "!". *)
Definition field_ok (m : ascii) (doubled : bool) : bool :=
  bool_decide (m ∈ char <$> ["d"; "D"; "o"; "m"; "M"]%string) || (bool_decide (m = char "y") && doubled).

Definition starts_digit (l : list tok) : bool :=
  match l with
  | [] => false
  | TLit c :: _ => is_digit c
  | TFld m _ :: _ => negb (is_name m)
  end.

(** No number of variable width is followed by a digit. *)
Fixpoint readable (l : list tok) : bool :=
  match l with
  | [] => true
  | TLit _ :: l => readable l
  | TFld m b :: l => field_ok m b && (b || is_name m || negb (starts_digit l)) && readable l
  end.

Definition has (m : string) (l : list tok) : bool :=
  existsb (fun t => match t with TFld c _ => bool_decide (c = char m) | TLit _ => false end) l.

Definition determines (l : list tok) : bool :=
  has "y" l && (has "o" l || (has "d" l && (has "m" l || has "M" l))).

(** Names of which none begins another (cases folded) and none starts with a digit. *)
Definition names_ok (n : nat) (names : list text) : bool :=
  bool_decide (length names = n) &&
  forallb (fun a => match a with [] => false | c :: _ => negb (is_digit c) end) names &&
  forallb (fun '(i, a) => forallb (fun '(j, b) =>
    bool_decide (i = j) || bool_decide (strip_prefix (to_lower a) (to_lower b) = None))
    (imap pair names)) (imap pair names).

Definition settings_ok (fs : format_settings) : bool :=
  names_ok 7 (fs_dayNamesShort fs) && names_ok 7 (fs_dayNames fs) &&
  names_ok 12 (fs_monthNamesShort fs) && names_ok 12 (fs_monthNames fs).

(** Evaluates the tests on a known field character. *)
Ltac pick_field := repeat first [rewrite decide_True by done | rewrite decide_False by done].
Ltac pick_field_in Hr := repeat first [rewrite decide_True in Hr by done | rewrite decide_False in Hr by done].

Section roundtrip.
Context {TZ : TimeZone} {TZL : TimeZoneLaws} (fs : format_settings).

Definition parse_tok (t : tok) (s : pstate) : jsres pstate :=
  match t with TLit c => checkLiteral c s | TFld m b => parse_field fs m b s end.

Fixpoint parse_toks (l : list tok) (s : pstate) : jsres pstate :=
  match l with [] => Ok s | t :: l => let? s := parse_tok t s in parse_toks l s end.

Definition format_tok (d : date) (t : tok) : text :=
  match t with TLit c => [c] | TFld m b => format_field fs m b d end.

Definition format_toks (l : list tok) (d : date) : text := mjoin (format_tok d <$> l).

(** *** The loops are folds over the tokens *)

Lemma parse_loop_toks fmt : forall literal s,
  parse_loop fs fmt literal s = parse_toks (toks fmt literal) s.
Proof.
  induction fmt as [|c rest IH1 IH2] using fmt_ind; intros literal s; [done|].
  cbn [parse_loop toks]. destruct literal; [case_decide|destruct (is_field c); [|case_decide]].
  - unfold lookAhead. destruct rest as [|c' rest']; [by apply IH1|].
    case_decide; [|by apply IH1]. cbn [parse_toks parse_tok].
    destruct (checkLiteral quote s); [|done]. cbn [jbind]. by eapply IH2.
  - cbn [parse_toks parse_tok]. destruct (checkLiteral c s); [|done]. apply IH1.
  - unfold lookAhead. destruct rest as [|c' rest']; [cbn; by destruct (parse_field _ _ _ _)|].
    case_decide; cbn [parse_toks parse_tok]; (destruct (parse_field _ _ _ _); [|done]);
      cbn [jbind]; [by eapply IH2|by apply IH1].
  - unfold lookAhead. destruct rest as [|c' rest']; [by apply IH1|].
    case_decide; [|by apply IH1]. cbn [parse_toks parse_tok].
    destruct (checkLiteral quote s); [|done]. cbn [jbind]. by eapply IH2.
  - cbn [parse_toks parse_tok]. destruct (checkLiteral c s); [|done]. apply IH1.
Qed.

Lemma looks_ahead_field c : is_field c = true -> (forall b, field_ok c b = false) \/ looks_ahead c = true.
Proof.
  unfold is_field, looks_ahead, field_ok. intros Hf%bool_decide_eq_true.
  repeat (apply elem_of_cons in Hf as [->|Hf]; [by vm_compute; auto|]). by apply elem_of_nil in Hf.
Qed.

Lemma format_loop_toks fmt d : forall literal, readable (toks fmt literal) = true ->
  format_loop fs fmt literal d = format_toks (toks fmt literal) d.
Proof.
  induction fmt as [|c rest IH1 IH2] using fmt_ind; intros literal; [done|].
  cbn [format_loop toks]. destruct literal; [case_decide|destruct (is_field c) eqn:Ef; [|case_decide]].
  - unfold lookAhead. destruct rest as [|c' rest']; [by apply IH1|].
    case_decide; [|by apply IH1]. intros Hr. unfold format_toks; cbn [fmap list_fmap mjoin list_join format_tok app]. f_equal. by eapply IH2.
  - intros Hr. unfold format_toks; cbn [fmap list_fmap mjoin list_join format_tok app]. f_equal. by apply IH1.
  - destruct (looks_ahead_field c Ef) as [Hno|Hl].
    + unfold lookAhead. destruct rest as [|c' rest']; [cbn [readable]; by rewrite Hno|]. case_decide; cbn [readable]; by rewrite Hno.
    + rewrite Hl. unfold lookAhead. destruct rest as [|c' rest']; [done|].
      case_decide; cbn [readable]; intros [_ Hr]%andb_true_iff; unfold format_toks; cbn [fmap list_fmap mjoin list_join format_tok]; f_equal;
        [by eapply IH2|by apply IH1].
  - assert (looks_ahead c = false) as ->.
    { subst c. reflexivity. }
    unfold lookAhead. destruct rest as [|c' rest']; [by apply IH1|].
    case_decide; [|by apply IH1]. intros Hr. unfold format_toks; cbn [fmap list_fmap mjoin list_join format_tok app]. f_equal. by eapply IH2.
  - assert (looks_ahead c = false) as ->.
    { unfold looks_ahead, is_field in *. apply bool_decide_eq_false in Ef. apply bool_decide_eq_false.
      intros Hc. apply Ef. revert Hc. simpl. set_solver. }
    intros Hr. unfold format_toks; cbn [fmap list_fmap mjoin list_join format_tok app]. f_equal. by apply IH1.
Qed.

(** *** Numbers *)

Lemma take_digits_size ds tail size : Forall (fun c => is_digit c = true) ds ->
  (length ds <= size)%nat -> length ds = size \/ starts_nondigit tail ->
  take_while is_digit (take size (ds ++ tail)) = ds.
Proof.
  intros Hd Hle Hor. rewrite take_app, take_ge by lia. apply take_digits_app; [done|].
  destruct Hor as [->|Ht]; [by rewrite Nat.sub_diag|].
  destruct tail as [|c tail]; [by rewrite take_nil|]. by destruct (size - length ds)%nat.
Qed.

Lemma getNumber_ok m b ds tail s : p_rest s = ds ++ tail -> Forall (fun c => is_digit c = true) ds ->
  (1 <= length ds <= number_size m b)%nat -> length ds = number_size m b \/ starts_nondigit tail ->
  (m = char "y" -> length ds = number_size m b) ->
  getNumber m b s = Ok (parse_digits ds, set_rest tail (length ds) s).
Proof.
  intros Hr Hd Hle Hor Hy. unfold getNumber. rewrite Hr, take_digits_size by (done || lia).
  rewrite drop_app_length. destruct (Nat.leb_spec (if decide (m = char "y") then number_size m b else 1%nat) (length ds)); [done|].
  case_decide; [rewrite Hy in * by done|]; lia.
Qed.

Lemma print_Z_nat v : 0 <= v -> print_Z v = print_nat v.
Proof. intros Hv. unfold print_Z. by destruct (Z.ltb_spec v 0); [lia|]. Qed.

Lemma formatNumber_ok b v (len : nat) : 0 <= v < 10 ^ Z.of_nat len -> (1 <= len)%nat ->
  let ds := formatNumber b (Some v) len in
  Forall (fun c => is_digit c = true) ds /\ parse_digits ds = v /\ (1 <= length ds <= len)%nat /\
  (b = true -> length ds = len).
Proof.
  intros Hv Hlen ds. unfold ds, formatNumber; simpl. rewrite print_Z_nat by lia.
  pose proof (print_nat_length v len ltac:(lia) ltac:(lia) Hlen) as Hl.
  pose proof (print_nat_digits v ltac:(lia)) as Hd.
  assert (1 <= length (print_nat v))%nat.
  { pose proof (print_nat_nonempty v ltac:(lia)). destruct (print_nat v); [done|simpl; lia]. }
  destruct b.
  - change (char "0") with (digit_char 0). split_and!.
    + apply Forall_app. split; [|done]. apply Forall_forall. intros c [-> _]%elem_of_replicate. reflexivity.
    + rewrite parse_digits_zeros. apply parse_print. lia.
    + rewrite length_app, length_replicate. lia.
    + rewrite length_app, length_replicate. lia.
    + intros _. rewrite length_app, length_replicate. lia.
  - split_and!; try done. apply parse_print. lia.
Qed.

(** *** Names *)

Lemma names_ok_prefix n names i j a b : names_ok n names = true ->
  names !! i = Some a -> names !! j = Some b -> i <> j -> strip_prefix (to_lower a) (to_lower b) = None.
Proof.
  unfold names_ok. intros [_ H]%andb_true_iff Ha Hb Hij.
  rewrite forallb_forall in H. specialize (H (i, a)).
  assert (In (i, a) (imap pair names)) as Hin.
  { apply list_elem_of_In, elem_of_lookup_imap. eauto. }
  specialize (H Hin). rewrite forallb_forall in H. specialize (H (j, b)).
  assert (In (j, b) (imap pair names)) as Hin'.
  { apply list_elem_of_In, elem_of_lookup_imap. eauto. }
  specialize (H Hin'). apply orb_true_iff in H as [H|H]; by apply bool_decide_eq_true in H.
Qed.

Lemma names_ok_nondigit n names i a : names_ok n names = true -> names !! i = Some a ->
  exists c a', a = c :: a' /\ is_digit c = false.
Proof.
  unfold names_ok. intros [[_ H]%andb_true_iff _]%andb_true_iff Ha. rewrite forallb_forall in H.
  specialize (H a (proj1 (list_elem_of_In _ _) (list_elem_of_lookup_2 _ _ _ Ha))).
  destruct a as [|c a]; [done|]. exists c, a. split; [done|]. by apply negb_true_iff in H.
Qed.

Lemma names_ok_length n names : names_ok n names = true -> length names = n.
Proof. unfold names_ok. intros [[H _]%andb_true_iff _]%andb_true_iff. by apply bool_decide_eq_true in H. Qed.

Lemma match_name_hit names i a v : (Z.of_nat i, a) ∈ names ->
  to_lower (take (length a) v) = to_lower a ->
  (forall k b, (k, b) ∈ names -> to_lower (take (length b) v) = to_lower b -> k = Z.of_nat i /\ b = a) ->
  match_name names v = Some (Z.of_nat i, length a).
Proof.
  intros Hin Hm Hu. induction names as [|[k b] names IH]; [by apply elem_of_nil in Hin|]. simpl.
  case_decide as E.
  - destruct (Hu k b) as [-> ->]; [by left|done|done].
  - apply IH; [|intros k' b' Hk'; apply Hu; by right].
    apply elem_of_cons in Hin as [?|?]; [by simplify_eq|done].
Qed.

Lemma getName_ok n names i a tail s : names_ok n names = true -> names !! i = Some a ->
  p_rest s = a ++ tail -> getName names s = Ok (Z.of_nat i + 1, set_rest tail (length a) s).
Proof.
  intros Hok Ha Hr. unfold getName. rewrite Hr.
  rewrite (match_name_hit _ i a); [by rewrite drop_app_length| | |].
  - apply js_sort_elem, elem_of_lookup_imap. eauto.
  - by rewrite take_app_length.
  - intros k b Hin Hb. apply js_sort_elem, elem_of_lookup_imap in Hin as (j & b' & [= -> ->] & Hj).
    destruct (decide (i = j)) as [->|Hij]; [naive_solver|]. exfalso.
    destruct (decide (length b' <= length a)%nat) as [Hle|Hgt].
    + pose proof (names_ok_prefix n names j i b' a Hok Hj Ha ltac:(done)) as Hp.
      rewrite take_app_le in Hb by done. rewrite <- Hb in Hp. unfold to_lower in Hp.
      rewrite <- (take_drop (length b') a) in Hp at 2. rewrite map_app, strip_prefix_app in Hp. done.
    + pose proof (names_ok_prefix n names i j a b' Hok Ha Hj ltac:(done)) as Hp.
      rewrite take_app, take_ge in Hb by lia. unfold to_lower in *. rewrite map_app in Hb.
      rewrite <- Hb, strip_prefix_app in Hp. done.
Qed.

(** ** The date to read back *)

Context (Hfs : settings_ok fs = true).
Context (n y m k : Z) (Hciv : civil n = (y, m, k)) (Hyear : 1000 <= y <= 9999).

Lemma civ_facts : valid_civil y m k /\ make_day y m k = n.
Proof. pose proof (civil_valid n) as Hc. rewrite Hciv in Hc. naive_solver. Qed.

Lemma n_range : in_range n.
Proof.
  destruct civ_facts as [[Hm Hk] <-]. pose proof (month_length_bounds y m Hm).
  apply in_range_year; lia.
Qed.

Definition yday : Z := days_before y m + k.

Lemma yday_bounds : 1 <= yday <= 366.
Proof.
  destruct civ_facts as [[Hm Hk] _]. unfold yday, month_length in *.
  pose proof (days_before_mono y 0 m ltac:(lia) ltac:(lia) ltac:(lia)) as H0.
  pose proof (days_before_mono y (m + 1) 12 ltac:(lia) ltac:(lia) ltac:(lia)) as H1.
  rewrite days_before_12 in H1. change (days_before y 0) with 0 in H0. destruct (leap y); lia.
Qed.

Lemma yday_day : make_day y 0 yday = n.
Proof.
  destruct civ_facts as [[Hm _] <-]. rewrite !make_day_in by lia. unfold yday.
  change (days_before y 0) with 0. lia.
Qed.

Lemma full_year_y : full_year y = y.
Proof. unfold full_year. destruct (Z.leb_spec y 99); [lia|by rewrite andb_false_r]. Qed.

Lemma day_of_year_at : day_of_year (date_at n) = Some yday.
Proof.
  destruct civ_facts as [Hv Hn]. destruct (fields_date_at n) as (Ey & Em & Ed & _).
  unfold day_of_year. rewrite Ey, Em, Ed, Hciv. cbn [fst snd].
  assert (in_range (make_day y 0 0)) as Hr by (apply in_range_year; lia).
  pose proof n_range. rewrite !new_date_at; rewrite full_year_y, ?Hn; try done.
  unfold getTime, date_at, to_utc. cbn [mbind option_bind]. f_equal.
  pose proof (tz_range (n * ms_day) (make_day y 0 0 * ms_day)).
  assert (n = make_day y 0 0 + yday) as E.
  { rewrite <- make_day_add, Z.add_0_l. by rewrite yday_day. }
  rewrite E in *. divlia.
Qed.

Lemma settings_names : names_ok 7 (fs_dayNamesShort fs) = true /\ names_ok 7 (fs_dayNames fs) = true /\
  names_ok 12 (fs_monthNamesShort fs) = true /\ names_ok 12 (fs_monthNames fs) = true.
Proof.
  pose proof Hfs as Hf. unfold settings_ok in Hf.
  by apply andb_true_iff in Hf as [[[? ?]%andb_true_iff ?]%andb_true_iff ?].
Qed.

Lemma formatName_at len names v : names_ok len names = true -> 0 <= v < Z.of_nat len ->
  exists a, formatName (Some v) names = a /\ names !! Z.to_nat v = Some a.
Proof.
  intros Hok Hv. pose proof (names_ok_length _ _ Hok) as Hl.
  destruct (names !! Z.to_nat v) as [a|] eqn:E.
  - exists a. split; [|done]. unfold formatName. destruct (Z.leb_spec 0 v); [|lia]. by rewrite E.
  - apply lookup_ge_None in E. lia.
Qed.

(** A number or name, whatever its field, starts as the tokens say. *)
Lemma field_starts fm b tail : field_ok fm b = true -> is_name fm = true ->
  starts_nondigit (format_field fs fm b (date_at n) ++ tail).
Proof.
  intros _ Hname. unfold is_name in Hname. apply bool_decide_eq_true in Hname.
  destruct (fields_date_at n) as (_ & Em & _ & Ew). rewrite Hciv in Em.
  destruct settings_names as (N1 & N2 & N3 & N4). destruct civ_facts as [[Hm _] _].
  assert (0 <= week_day n < Z.of_nat 7) as Hw by (unfold week_day; divlia).
  assert (forall len names v, names_ok len names = true -> 0 <= v < Z.of_nat len ->
    starts_nondigit (formatName (Some v) names ++ tail)) as Hst.
  { intros len names v Hok Hv. destruct (formatName_at len names v Hok Hv) as (a & -> & Ha).
    destruct (names_ok_nondigit _ _ _ _ Hok Ha) as (c & a' & -> & Hc). done. }
  unfold format_field. destruct Hname as [->| ->].
  - pick_field. rewrite Ew. destruct b; eapply Hst; try eassumption; lia.
  - pick_field. rewrite Em. destruct b; eapply Hst; try eassumption; simpl; lia.
Qed.

Lemma toks_start l : readable l = true -> starts_digit l = false ->
  starts_nondigit (format_toks l (date_at n)).
Proof.
  destruct l as [|[c|fm b] l]; [done|by simpl|]. simpl.
  intros [[Hf _]%andb_true_iff _]%andb_true_iff Hs. apply negb_false_iff in Hs.
  by apply field_starts.
Qed.

(** What reading field [fm] does to the state. *)
Definition read_state (fm : ascii) (s : pstate) : pstate :=
  if decide (fm = char "d") then set_day (Some k) s
  else if decide (fm = char "o") then set_doy yday s
  else if decide (fm = char "m") then set_month (Some (m + 1)) s
  else if decide (fm = char "M") then set_month (Some (m + 1)) s
  else if decide (fm = char "y") then set_year (Some y) s else s.

Lemma parse_number_field fm b (ds : text) v tail s : is_field fm = true -> is_name fm = false ->
  getNumber fm b s = Ok (v, set_rest tail (length ds) s) ->
  (fm = char "d" -> v = k) -> (fm = char "o" -> v = yday) -> (fm = char "m" -> v = m + 1) ->
  (fm = char "y" -> v = y) -> fm <> char "@" -> fm <> char "!" ->
  parse_field fs fm b s = Ok (read_state fm (set_rest tail (length ds) s)).
Proof.
  intros Hf Hname Hg Hd Ho Hm Hy Ha He. unfold is_name in Hname. apply bool_decide_eq_false in Hname.
  unfold parse_field. do 2 rewrite decide_False by tauto. rewrite Hg. cbn [jbind]. f_equal.
  unfold read_state. repeat case_decide; subst; try done; try (exfalso; tauto);
    try (f_equal; by auto); try (do 2 f_equal; by auto).
  exfalso. unfold is_field in Hf. apply bool_decide_eq_true in Hf. revert Hf. simpl. set_solver.
Qed.

Lemma year_text : print_num (Some y) = print_nat y /\ length (print_nat y) = 4%nat.
Proof.
  simpl. rewrite print_Z_nat by lia. split; [done|].
  pose proof (print_nat_length y 4 ltac:(lia) ltac:(lia) ltac:(lia)).
  pose proof (print_nat_length_ge y 3 ltac:(lia) ltac:(lia)). lia.
Qed.

Lemma parse_field_back fm b tail s : field_ok fm b = true ->
  b = true \/ is_name fm = true \/ starts_nondigit tail ->
  p_rest s = format_field fs fm b (date_at n) ++ tail ->
  exists j, parse_field fs fm b s = Ok (read_state fm (set_rest tail j s)).
Proof.
  intros Hf Hsep Hr. destruct (fields_date_at n) as (Ey & Em & Ed & Ew). rewrite Hciv in *. cbn [fst snd] in *.
  destruct civ_facts as [[Hm Hk] _]. pose proof (month_length_bounds y m Hm). pose proof yday_bounds.
  destruct settings_names as (N1 & N2 & N3 & N4).
  assert (forall len v, 0 <= v < 10 ^ Z.of_nat len -> (1 <= len)%nat -> number_size fm b = len ->
    fm <> char "y" -> is_name fm = false -> p_rest s = formatNumber b (Some v) len ++ tail ->
    getNumber fm b s = Ok (v, set_rest tail (length (formatNumber b (Some v) len)) s)) as Hnum.
  { intros len v Hv Hlen Hsz Hny Hnn Hrest. destruct (formatNumber_ok b v len Hv Hlen) as (F1 & F2 & F3 & F4).
    rewrite (getNumber_ok fm b _ tail s Hrest F1); [by rewrite F2|lia| |done].
    destruct Hsep as [->|[?|?]]; [left; rewrite Hsz; by apply F4|congruence|by right]. }
  unfold field_ok in Hf. apply orb_true_iff in Hf as [Hf|Hf].
  - apply bool_decide_eq_true in Hf. simpl in Hf.
    repeat (apply elem_of_cons in Hf as [->|Hf]); try (by apply elem_of_nil in Hf);
      unfold format_field in Hr;
      pick_field_in Hr.
    + rewrite Ed in Hr. eexists. apply (parse_number_field _ _ (formatNumber b (Some k) 2) k); try done.
      apply (Hnum 2%nat); try done; lia.
    + rewrite Ew in Hr. assert (0 <= week_day n < Z.of_nat 7) as Hw by (unfold week_day; divlia).
      assert (names_ok 7 (if b then fs_dayNames fs else fs_dayNamesShort fs) = true) as N by by destruct b.
      destruct (formatName_at 7 _ _ N Hw) as (a & Ea & Hla). rewrite Ea in Hr.
      unfold parse_field. rewrite decide_True by done. rewrite (getName_ok 7 _ _ a tail s N Hla Hr).
      by eexists.
    + rewrite day_of_year_at in Hr. eexists.
      apply (parse_number_field _ _ (formatNumber b (Some yday) 3) yday); try done.
      apply (Hnum 3%nat); try done; lia.
    + rewrite Em in Hr. cbn [fmap option_fmap option_map] in Hr. eexists.
      apply (parse_number_field _ _ (formatNumber b (Some (Z.succ m)) 2) (Z.succ m)); try done; try lia.
      apply (Hnum 2%nat); try done; lia.
    + rewrite Em in Hr.
      assert (names_ok 12 (if b then fs_monthNames fs else fs_monthNamesShort fs) = true) as N by by destruct b.
      destruct (formatName_at 12 _ m N ltac:(simpl; lia)) as (a & Ea & Hla). rewrite Ea in Hr.
      unfold parse_field. rewrite decide_False, decide_True by done.
      rewrite (getName_ok 12 _ _ a tail s N Hla Hr). rewrite Z2Nat.id by lia. by eexists.
  - apply andb_true_iff in Hf as [Hf ->]. apply bool_decide_eq_true in Hf as ->.
    unfold format_field in Hr. pick_field_in Hr.
    destruct year_text as [Ep El]. rewrite Ey, Ep in Hr. eexists.
    apply (parse_number_field _ _ (print_nat y) y); try done.
    rewrite (getNumber_ok _ _ (print_nat y) tail s Hr); [by rewrite parse_print by lia|..].
    + apply print_nat_digits; lia.
    + rewrite El. vm_compute. lia.
    + by left.
    + by rewrite El.
Qed.

(** A state agrees with the date on what the tokens [l] set; [s0] is the state
    before them. *)
Record agrees (l : list tok) (s0 s : pstate) : Prop := {
  ag_year : p_year s = Some y \/ (has "y" l = false /\ p_year s = p_year s0);
  ag_doy : p_doy s = yday \/ (has "o" l = false /\ p_doy s = p_doy s0);
  ag_day : p_day s = Some k \/ (has "d" l = false /\ p_day s = p_day s0);
  ag_month : p_month s = Some (m + 1) \/ (has "m" l || has "M" l = false /\ p_month s = p_month s0)
}.

Lemma agrees_lit c l s0 s : agrees l s0 s -> agrees (TLit c :: l) s0 s.
Proof. by intros []. Qed.

Lemma agrees_fld fm b l s0 s : field_ok fm b = true ->
  agrees l (read_state fm s0) s -> agrees (TFld fm b :: l) s0 s.
Proof.
  intros Hf [H1 H2 H3 H4]. unfold field_ok in Hf. apply orb_true_iff in Hf as [Hf|Hf].
  - apply bool_decide_eq_true in Hf. simpl in Hf.
    repeat (apply elem_of_cons in Hf as [->|Hf]); try (by apply elem_of_nil in Hf);
      (split; simpl in *; naive_solver).
  - apply andb_true_iff in Hf as [Hf _]. apply bool_decide_eq_true in Hf as ->.
    split; simpl in *; naive_solver.
Qed.

Lemma parse_toks_back l : readable l = true -> forall s, p_rest s = format_toks l (date_at n) ->
  exists s', parse_toks l s = Ok s' /\ p_rest s' = [] /\ agrees l s s'.
Proof.
  induction l as [|[c|fm b] l IH]; intros Hread s Hs.
  - exists s. split_and!; [done|done|]. split; by right.
  - unfold format_toks in Hs. cbn [fmap list_fmap mjoin list_join format_tok app] in Hs.
    cbn [parse_toks parse_tok]. unfold checkLiteral. rewrite Hs, decide_True by done. cbn [jbind].
    destruct (IH Hread (set_rest (format_toks l (date_at n)) 1 s) eq_refl) as (s' & E & Hr & Ha).
    exists s'. split_and!; [exact E|done|]. by apply agrees_lit; destruct Ha.
  - cbn [readable] in Hread. apply andb_true_iff in Hread as [[Hf Hsep]%andb_true_iff Hread].
    change (format_toks (TFld fm b :: l) (date_at n)) with
      (format_field fs fm b (date_at n) ++ format_toks l (date_at n)) in Hs.
    destruct (parse_field_back fm b (format_toks l (date_at n)) s Hf) as [j Hj]; [|exact Hs|].
    { apply orb_true_iff in Hsep as [[->|Hn]%orb_true_iff|Hn]; [by left|by right; left|].
      right; right. apply toks_start; [done|]. by apply negb_true_iff in Hn. }
    cbn [parse_toks parse_tok]. rewrite Hj. cbn [jbind].
    destruct (IH Hread (read_state fm (set_rest (format_toks l (date_at n)) j s))) as (s' & E & Hr & Ha).
    { unfold read_state. by repeat case_decide. }
    exists s'. split_and!; [exact E|done|]. apply agrees_fld; [done|].
    destruct Ha as [A1 A2 A3 A4]. unfold read_state in *.
    split; revert A1 A2 A3 A4; repeat case_decide; simpl; tauto.
Qed.

Lemma check_date_back : check_date (Some y) (Some (m + 1)) (Some k) = Ok (Some (date_at n)).
Proof.
  destruct civ_facts as [Hv Hn]. pose proof n_range. unfold check_date.
  cbn [fmap option_fmap option_map]. replace (Z.pred (m + 1)) with m by lia.
  rewrite new_date_at; rewrite full_year_y, Hn; [|done]. rewrite adjust_date_at by done.
  destruct (fields_date_at n) as (-> & -> & -> & _). rewrite Hciv. cbn [fst snd fmap option_fmap option_map].
  unfold num_eqb. rewrite !(proj2 (Z.eqb_eq _ _)) by lia. done.
Qed.

Lemma doy_loop_back fuel : (14 <= fuel <= 500)%nat ->
  doy_loop fuel (Some y) (Some 1) (Some yday) = Some (Some (m + 1), Some k).
Proof.
  intros Hf. pose proof yday_bounds.
  destruct (doy_loop_spec fuel y ltac:(lia) 1 yday) as (m' & k' & -> & H1 & H2 & H3 & H4); try lia.
  change (1 - 1) with 0 in H2. rewrite yday_day, make_day_norm in H2.
  assert (0 <= (m' - 1) mod 12 <= 11) as Hm' by divlia.
  assert (civil n = (y + (m' - 1) / 12, (m' - 1) mod 12, k')) as E.
  { rewrite <- H2. apply civil_make_day. split; [done|]. split; [apply H4; lia|done]. }
  rewrite Hciv in E. injection E as E1 E2 E3. subst k'. do 2 f_equal.
  f_equal. divlia.
Qed.

Lemma parse_format_back fuel now fmt : (14 <= fuel <= 500)%nat ->
  readable (toks fmt false) = true -> determines (toks fmt false) = true ->
  parseDate fs fuel now (Some fmt) (Some (formatDate fs fmt (Some (date_at n)))) =
  Some (Ok (Some (date_at n))).
Proof.
  intros Hfuel Hread Hdet. unfold parseDate, formatDate. rewrite format_loop_toks by done.
  set (l := toks fmt false) in *. set (v := format_toks l (date_at n)).
  destruct (parse_toks_back l Hread (init_pstate v) eq_refl) as (s' & E & Hr & [A1 A2 A3 A4]).
  unfold determines in Hdet. apply andb_true_iff in Hdet as [Hy Hdet]. rewrite Hy in A1.
  destruct A1 as [A1|[? _]]; [|done].
  assert (parse_finish fs fuel now s' = Some (Ok (Some (date_at n)))) as Hfin.
  { unfold parse_finish. rewrite Hr, A1. simpl resolve_year.
    destruct (Z.eqb_spec y (-1)); [lia|]. destruct (Z.ltb_spec y 100); [lia|].
    pose proof yday_bounds. destruct A2 as [A2|[Ho A2]].
    - rewrite A2. destruct (Z.ltb_spec (-1) yday); [|lia]. rewrite doy_loop_back by done. simpl.
      by rewrite check_date_back.
    - rewrite A2. simpl. rewrite Ho in Hdet. simpl in Hdet. apply andb_true_iff in Hdet as [Hd Hm].
      rewrite Hd in A3. rewrite Hm in A4. destruct A3 as [->|[? _]]; [|done].
      destruct A4 as [->|[? _]]; [|done]. by rewrite check_date_back. }
  destruct v as [|c v'] eqn:Ev.
  - exfalso. assert (p_year s' = Some (-1)); [|congruence || (rewrite A1 in *; simplify_eq; lia)].
    exfalso. clear -Ev Hy Hread Hfs Hciv Hyear TZL.
    unfold v in Ev. clear v. induction l as [|[c|fm b] l IH]; [done|done|].
    cbn [readable] in Hread. apply andb_true_iff in Hread as [[Hf _]%andb_true_iff Hread].
    change (format_field fs fm b (date_at n) ++ format_toks l (date_at n) = []) in Ev.
    apply app_eq_nil in Ev as [Ev1 Ev2]. simpl in Hy. apply orb_true_iff in Hy as [Hy|Hy]; [|by apply IH].
    apply bool_decide_eq_true in Hy as ->. assert (b = true) as ->.
    { unfold field_ok in Hf. apply orb_true_iff in Hf as [Hf|Hf]; [by vm_compute in Hf|].
      by apply andb_true_iff in Hf as [_ ?]. }
    unfold format_field in Ev1. pick_field_in Ev1.
    destruct (fields_date_at n) as (Ey & _). rewrite Ey, Hciv in Ev1. cbn [fst] in Ev1.
    destruct year_text as [Ep El]. rewrite Ep in Ev1. by rewrite Ev1 in El.
  - rewrite parse_loop_toks. fold l. by rewrite E.
Qed.

End roundtrip.

(** C4: [parseDate] inverts [formatDate]: every day of the years 1000 to 9999,
    written in a format with a four-digit year and either the day of the year or
    the month (a number or a name) and the day, where no number of variable
    width is followed by a digit, is read back as the same date, for any names of
    which none begins another. *)
Theorem parse_format_roundtrip {TZ : TimeZone} {TZL : TimeZoneLaws} (fs : format_settings)
    (fuel : nat) (now : date) (fmt : text) (y m k : Z) :
  settings_ok fs = true -> readable (toks fmt false) = true -> determines (toks fmt false) = true ->
  1000 <= y <= 9999 -> valid_civil y m k -> (14 <= fuel <= 500)%nat ->
  let d := new_date (Some y) (Some m) (Some k) in
  parseDate fs fuel now (Some fmt) (Some (formatDate fs fmt (Some d))) = Some (Ok (Some d)).
Proof.
  intros Hfs Hread Hdet Hy Hv Hfuel d. pose proof (civil_make_day y m k Hv) as Hc.
  assert (d = date_at (make_day y m k)) as ->.
  { pose proof (n_range (make_day y m k) y m k Hc Hy) as Hn.
    pose proof (full_year_y y Hy) as E. unfold d. rewrite new_date_at; rewrite E; done. }
  by apply (parse_format_back fs Hfs (make_day y m k) y m k).
Qed.

(** The zone of Brasilia at the end of 2015: the clocks skip the midnight that
    begins October 18. *)
Definition brasilia : TimeZone := summer_zone (-10800000) 1445137200000.

Lemma parse_format_roundtrip_witness :
  let d := @new_date brasilia (Some 2015) (Some 9) (Some 18) in
  @parseDate brasilia english 40 None (Some (txt "DD, d. MM yy 'at' oo"))
    (Some (txt "Sunday, 18. October 2015 at 291")) = Some (Ok (Some d)).
Proof.
  intros d.
  assert (@formatDate brasilia english (txt "DD, d. MM yy 'at' oo") (Some d) =
    txt "Sunday, 18. October 2015 at 291") as <- by (vm_compute; reflexivity).
  apply (@parse_format_roundtrip brasilia (summer_zone_laws (-10800000) 1445137200000 ltac:(lia)) english);
    [vm_compute; reflexivity|vm_compute; reflexivity|vm_compute; reflexivity|lia| |lia].
  split; [lia|]. vm_compute. split; discriminate.
Defined.
