(* ===== verification/DateWeeks.v ===== *)
(** * Week numbers, and the characters a date input accepts *)

From S2P Require Import Prelude JsString JsDate DateFormat DateFormatSpec DateRoundTrip.
From Stdlib Require Import ZArith Lia Ascii.

Local Open Scope Z_scope.

(** ** ISO 8601: weeks begin on Monday, and week 1 holds January 4 *)

Definition monday (n : Z) : Z := n - (week_day n + 6) mod 7.
Definition iso_year (n : Z) : Z := year_from_day (monday n + 3).
Definition week_1 (y : Z) : Z := monday (make_day y 0 4).
Definition iso_week (n : Z) : Z := (monday n - week_1 (iso_year n)) / 7 + 1.

Section weeks.
Context {TZ : TimeZone} {TZL : TimeZoneLaws} (fs : format_settings).

(** A date [a] hours into day [n], and the days [setDate] and [setMonth] move it to. *)
Lemma local_at n a : 0 <= a <= 10 -> exists b, a <= b <= a + 2 /\
  local (Some (to_utc (n * ms_day + a * ms_hour))) = Some (n * ms_day + b * ms_hour).
Proof. intros Ha. destruct (local_hours n a) as (s & Hs & E). exists (a + s). split; [lia|exact E]. Qed.

Lemma setDate_at n a k y m d : 0 <= a <= 10 -> civil n = (y, m, d) -> in_range (make_day y m k) ->
  exists b, a <= b <= a + 2 /\ setDate (Some k) (Some (to_utc (n * ms_day + a * ms_hour))) =
    Some (to_utc (make_day y m k * ms_day + b * ms_hour)).
Proof.
  intros Ha Hc Hr. destruct (local_at n a Ha) as (b & Hb & E). exists b. split; [done|].
  unfold setDate. rewrite E. cbn [mbind option_bind]. rewrite hours_div, hours_mod, Hc by lia.
  by rewrite of_local_hours by (done || lia).
Qed.

Lemma setMonth_at n a k y m d : 0 <= a <= 10 -> civil n = (y, m, d) -> in_range (make_day y k d) ->
  exists b, a <= b <= a + 2 /\ setMonth k (Some (to_utc (n * ms_day + a * ms_hour))) =
    Some (to_utc (make_day y k d * ms_day + b * ms_hour)).
Proof.
  intros Ha Hc Hr. destruct (local_at n a Ha) as (b & Hb & E). exists b. split; [done|].
  unfold setMonth. rewrite E. cbn [mbind option_bind]. rewrite hours_div, hours_mod, Hc by lia.
  by rewrite of_local_hours by (done || lia).
Qed.

(** The difference of two times in the first hours of their days, in days. *)
Lemma round_days n n' a b : 0 <= a <= 8 -> 0 <= b <= 8 ->
  (2 * (to_utc (n * ms_day + a * ms_hour) - to_utc (n' * ms_day + b * ms_hour)) + ms_day)
    / (2 * ms_day) = n - n'.
Proof.
  intros Ha Hb. unfold to_utc. pose proof (tz_range (n * ms_day + a * ms_hour) (n' * ms_day + b * ms_hour)).
  divlia.
Qed.

Lemma iso_week_jan1 n : (monday n + 3 - day_from_year (iso_year n)) / 7 + 1 = iso_week n.
Proof.
  unfold iso_week, week_1. rewrite make_day_in by lia. change (days_before (iso_year n) 0) with 0.
  unfold monday, week_day. set (J := day_from_year (iso_year n)). divlia.
Qed.

(** The days around a day of year [y] are in the years around [y]. *)
Lemma year_near n y T : 1000 <= y <= 9999 -> day_from_year y <= n <= day_from_year y + 366 ->
  n - 3 <= T <= n + 3 -> 900 <= year_from_day T <= 10100.
Proof.
  intros Hy Hn HT. pose proof (year_from_day_spec T) as [H1 H2].
  split.
  - destruct (Z.le_gt_cases 900 (year_from_day T)) as [|Hlt]; [done|exfalso].
    pose proof (day_from_year_mono (year_from_day T + 1) 900 ltac:(lia)).
    pose proof (day_from_year_mono 900 y ltac:(lia)). lia.
  - destruct (Z.le_gt_cases (year_from_day T) 10100) as [|Hgt]; [done|exfalso].
    pose proof (day_from_year_mono y 10100 ltac:(lia)).
    pose proof (day_from_year_mono 10100 (year_from_day T) ltac:(lia)). lia.
Qed.

Lemma day_in_year y m k : valid_civil y m k ->
  day_from_year y <= make_day y m k <= day_from_year y + 366.
Proof.
  intros [Hm Hk]. rewrite make_day_in by done. unfold month_length in Hk.
  pose proof (days_before_mono y 0 m ltac:(lia) ltac:(lia) ltac:(lia)) as H0.
  pose proof (days_before_mono y (m + 1) 12 ltac:(lia) ltac:(lia) ltac:(lia)) as H1.
  rewrite days_before_12 in H1. change (days_before y 0) with 0 in H0. destruct (leap y); lia.
Qed.

(** The Thursday of the week of a day, as the source finds it. *)
Lemma thursday y m k : let n := make_day y m k in
  make_day y m (k + 4 - (if week_day n =? 0 then 7 else week_day n)) = monday n + 3.
Proof.
  intros n. replace (k + 4 - (if week_day n =? 0 then 7 else week_day n))
    with (k + (4 - (if week_day n =? 0 then 7 else week_day n))) by lia.
  rewrite make_day_add. fold n. unfold monday, week_day. clearbody n.
  destruct (Z.eqb_spec ((n + 4) mod 7) 0); divlia.
Qed.

Lemma jan_day y k : 1 <= k <= 31 -> civil (make_day y 0 k) = (y, 0, k).
Proof.
  intros Hk. apply civil_make_day. split; [lia|].
  assert (month_length y 0 = 31) as -> by reflexivity. lia.
Qed.

(** The statements of [iso8601Week] on the Thursday [T], from [a] o'clock on. *)
Lemma week_of_thursday T a : 0 <= a <= 2 -> 900 <= year_from_day T <= 10100 ->
  exists b, 0 <= b <= 6 /\
  setDate (Some 1) (setMonth 0 (Some (to_utc (T * ms_day + a * ms_hour)))) =
  Some (to_utc (day_from_year (year_from_day T) * ms_day + b * ms_hour)).
Proof.
  intros Ha HyT. pose proof (civil_valid T) as HT.
  destruct (civil T) as [[yT mT] kT] eqn:EcT. destruct HT as ([HmT HkT] & _ & EyT).
  rewrite <- EyT in *. pose proof (month_length_bounds yT mT HmT).
  destruct (setMonth_at T a 0 yT mT kT ltac:(lia) EcT) as (b & Hb & ->); [apply in_range_year; lia|].
  destruct (setDate_at (make_day yT 0 kT) b 1 yT 0 kT ltac:(lia) (jan_day yT kT ltac:(lia)))
    as (e & He & ->); [apply in_range_year; lia|].
  exists e. split; [lia|]. do 4 f_equal. rewrite make_day_in by lia.
  change (days_before yT 0) with 0. lia.
Qed.

Lemma date_at_0 n : date_at n = Some (to_utc (n * ms_day + 0 * ms_hour)).
Proof. unfold date_at. by rewrite Z.mul_0_l, Z.add_0_r. Qed.

(** The weeks between a date and the January 1 found, as the source counts them. *)
Definition weeks_between (time jan1 : num) : num :=
  t ← time; j ← jan1; Some ((2 * (t - j) + ms_day) / (2 * ms_day) / 7 + 1).

Lemma week_by_fields (d : date) (w k : Z) : getDay d = Some w -> getDate d = Some k ->
  let c := setDate (Some (k + 4 - (if w =? 0 then 7 else w))) d in
  iso8601Week d = weeks_between c (setDate (Some 1) (setMonth 0 c)).
Proof. intros E1 E2. unfold iso8601Week. by rewrite E1, E2. Qed.

Lemma week_of_date_at n y m k : 1000 <= y <= 9999 -> valid_civil y m k -> civil n = (y, m, k) ->
  day_from_year y <= n <= day_from_year y + 366 ->
  make_day y m (k + 4 - (if week_day n =? 0 then 7 else week_day n)) = monday n + 3 ->
  iso8601Week (date_at n) = Some (iso_week n).
Proof.
  intros Hy [Hm Hk] Hc Hn Ec. pose proof (month_length_bounds y m Hm).
  destruct (fields_date_at n) as (_ & _ & Ed & Ew). rewrite Hc in Ed. cbn [snd] in Ed.
  rewrite (week_by_fields (date_at n) (week_day n) k Ew Ed).
  set (c := k + 4 - (if week_day n =? 0 then 7 else week_day n)) in *.
  assert (-10 <= c <= 40) as Hcb.
  { unfold c. assert (0 <= week_day n < 7) by (apply Z.mod_pos_bound; lia).
    destruct (week_day n =? 0); lia. }
  clearbody c. rewrite date_at_0.
  destruct (setDate_at n 0 c y m k ltac:(lia) Hc) as (a & Ha & ->); [apply in_range_year; lia|].
  rewrite Ec.
  assert (n - 3 <= monday n + 3 <= n + 3) as HT.
  { unfold monday. pose proof (Z.mod_pos_bound (week_day n + 6) 7). lia. }
  pose proof (year_near n y (monday n + 3) Hy Hn HT) as HyT.
  destruct (week_of_thursday (monday n + 3) a ltac:(lia) HyT) as (b & Hb & ->).
  simpl. rewrite round_days by lia. f_equal. apply iso_week_jan1.
Qed.

(** C26: [iso8601Week] is the ISO 8601 week number of every day of the years
    1000 to 9999, daylight saving included. *)
Theorem iso8601Week_correct (y m k : Z) :
  1000 <= y <= 9999 -> valid_civil y m k ->
  iso8601Week (new_date (Some y) (Some m) (Some k)) = Some (iso_week (make_day y m k)).
Proof.
  intros Hy Hv. pose proof (civil_make_day y m k Hv) as Hc.
  pose proof (n_range (make_day y m k) y m k Hc Hy) as Hn.
  rewrite new_date_at; rewrite (full_year_y y Hy); [|done].
  apply (week_of_date_at _ y m k); try done; [by apply day_in_year|apply thursday].
Qed.

End weeks.

Lemma iso8601Week_correct_witness :
  @iso8601Week brasilia (@new_date brasilia (Some 2016) (Some 0) (Some 3)) = Some 53 /\
  iso_week (make_day 2016 0 3) = 53.
Proof.
  assert (iso_week (make_day 2016 0 3) = 53) as E by (vm_compute; reflexivity).
  split; [|exact E]. rewrite <- E.
  apply (@iso8601Week_correct brasilia (summer_zone_laws (-10800000) 1445137200000 ltac:(lia))); [lia|].
  split; [lia|]. vm_compute. split; discriminate.
Defined.

(** ** The characters a date input accepts *)

Section chars.
Context {TZ : TimeZone} {TZL : TimeZoneLaws} (fs : format_settings).
Context (n y m k : Z) (Hciv : civil n = (y, m, k)) (Hyear : 1971 <= y <= 9999).

Lemma digits_in (l : text) : Forall (fun c => is_digit c = true) l ->
  Forall (fun c => c ∈ txt "0123456789") l.
Proof.
  intros Hl. eapply Forall_impl; [exact Hl|]. intros c Hc. unfold is_digit in Hc.
  apply andb_true_iff in Hc as [H1%Z.leb_le H2%Z.leb_le].
  assert (c = digit_char (digit_val c)) as ->.
  { unfold digit_char, digit_val, code in *. rewrite <- (ascii_nat_embedding c) at 1. f_equal. lia. }
  assert (0 <= digit_val c <= 9) as Hv by (unfold digit_val; lia). revert Hv. generalize (digit_val c) as v.
  intros v Hv. assert (v = 0 \/ v = 1 \/ v = 2 \/ v = 3 \/ v = 4 \/ v = 5 \/ v = 6 \/ v = 7 \/ v = 8 \/ v = 9) as Hd by lia.
  repeat (destruct Hd as [->|Hd]; [vm_compute; set_solver|]). subst. vm_compute. set_solver.
Qed.

Lemma print_num_digits v : 0 <= v -> Forall (fun c => is_digit c = true) (print_num (Some v)).
Proof. intros Hv. simpl. rewrite print_Z_nat by done. by apply print_nat_digits. Qed.

Lemma formatNumber_digits b v len : 0 <= v -> Forall (fun c => is_digit c = true) (formatNumber b (Some v) len).
Proof.
  intros Hv. unfold formatNumber. destruct b; [|by apply print_num_digits].
  apply Forall_app. split; [|by apply print_num_digits].
  apply Forall_forall. intros c [-> _]%elem_of_replicate. reflexivity.
Qed.

(** The fields that [_possibleChars] knows as numbers print digits only. *)
Lemma field_digits c b : c ∈ char <$> ["d"; "m"; "y"; "@"]%string ->
  Forall (fun c => is_digit c = true) (format_field fs c b (date_at n)).
Proof.
  intros Hc. destruct (fields_date_at n) as (Ey & Em & Ed & _). rewrite Hciv in *. cbn [fst snd] in *.
  pose proof (civil_valid n) as Hv. rewrite Hciv in Hv. destruct Hv as ([Hm Hk] & Hn & Hy).
  simpl in Hc. unfold format_field.
  repeat (apply elem_of_cons in Hc as [->|Hc]); try (by apply elem_of_nil in Hc); pick_field.
  - rewrite Ed. apply formatNumber_digits. lia.
  - rewrite Em. apply formatNumber_digits. lia.
  - rewrite Ey. destruct b; [apply print_num_digits; lia|]. unfold short_year. rewrite Ey.
    cbn [fmap option_fmap option_map]. rewrite Z.rem_mod_nonneg by lia.
    pose proof (Z.mod_pos_bound (y - 1900) 100 ltac:(lia)).
    destruct (Z.ltb_spec ((y - 1900) mod 100) 10); [constructor; [reflexivity|]|]; apply print_num_digits; lia.
  - apply print_num_digits. unfold getTime, date_at, to_utc.
    pose proof (tz_bound (n * ms_day)). pose proof (year_from_day_spec n) as [H1 _]. rewrite <- Hy in H1.
    pose proof (day_from_year_mono 1971 y ltac:(lia)) as H2. change (day_from_year 1971) with 365 in H2. lia.
Qed.

Lemma possible_loop fmt : char "o" ∉ fmt -> char "!" ∉ fmt -> forall literal cs,
  possibleChars fmt literal = Some cs -> Forall (fun c => c ∈ cs) (format_loop fs fmt literal (date_at n)).
Proof.
  assert (forall c (l : text) (r : option text) cs, cons c <$> r = Some cs ->
    (forall cs', r = Some cs' -> Forall (fun c => c ∈ cs') l) -> Forall (fun c => c ∈ cs) (c :: l)) as Hcons.
  { intros c l [cs'|] cs; [|done]. intros [= <-] Hl. constructor; [by left|].
    eapply Forall_impl; [by apply Hl|]. intros x Hx. by right. }
  induction fmt as [|c rest IH1 IH2] using fmt_ind; intros Ho He literal cs; [constructor|].
  assert (c <> char "o" /\ c <> char "!" /\ char "o" ∉ rest /\ char "!" ∉ rest) as (Hco & Hce & Hro & Hre) by set_solver.
  specialize (IH1 Hro Hre).
  assert (forall c' rest', rest = c' :: rest' -> forall literal cs, possibleChars rest' literal = Some cs ->
    Forall (fun c => c ∈ cs) (format_loop fs rest' literal (date_at n))) as IH.
  { intros c' rest' ->. apply (IH2 c' rest' eq_refl); set_solver. }
  clear IH2. cbn [possibleChars format_loop]. destruct literal; [case_decide|].
  - unfold lookAhead. destruct rest as [|c' rest']; [by apply IH1|].
    case_decide; [|by apply IH1]. intros Hp. eapply Hcons; [exact Hp|]. by eapply IH.
  - intros Hp. eapply Hcons; [exact Hp|]. by apply IH1.
  - destruct (bool_decide (c ∈ char <$> ["d"; "m"; "y"; "@"]%string)) eqn:En.
    + apply bool_decide_eq_true in En. destruct (possibleChars rest false) as [cs'|] eqn:Er; [|done].
      intros [= <-]. pose proof (IH1 false cs' Er) as Hrest.
      assert (forall b l, Forall (fun c => c ∈ cs') l -> Forall (fun c => c ∈ txt "0123456789" ++ cs')
        (format_field fs c b (date_at n) ++ l)) as Happ.
      { intros b l Hl. apply Forall_app. split.
        - eapply Forall_impl; [apply digits_in, (field_digits c b En)|]. set_solver.
        - eapply Forall_impl; [exact Hl|]. set_solver. }
      destruct (looks_ahead c) eqn:El.
      * unfold lookAhead. destruct rest as [|c' rest']; [by apply Happ|]. case_decide as Ec; [|by apply Happ].
        subst c'. apply Happ. cbn [possibleChars] in Er. rewrite (proj2 (bool_decide_eq_true _) En) in Er.
        destruct (possibleChars rest' false) as [cs''|] eqn:Er'; [|done]. injection Er as <-.
        eapply Forall_impl; [by apply (IH c rest' eq_refl false cs'')|]. intros x Hx.
        apply (elem_of_app (txt "0123456789") cs''). by right.
      * assert (is_field c = true) as ->; [|by apply Happ].
        unfold is_field. apply bool_decide_eq_true. revert En. simpl. set_solver.
    + apply bool_decide_eq_false in En.
      destruct (bool_decide (c ∈ char <$> ["D"; "M"]%string)) eqn:Ename; [done|].
      apply bool_decide_eq_false in Ename.
      assert (looks_ahead c = false /\ is_field c = false) as [-> ->].
      { unfold looks_ahead, is_field. simpl in *. rewrite !bool_decide_eq_false. set_solver. }
      case_decide.
      * unfold lookAhead. destruct rest as [|c' rest']; [by apply IH1|].
        case_decide; [|by apply IH1]. intros Hp. eapply Hcons; [exact Hp|]. by eapply IH.
      * intros Hp. eapply Hcons; [exact Hp|]. by apply IH1.
Qed.

End chars.

(** A date input accepts, key by key, every text that [formatDate] writes
    for its format, for dates of the years 1971 to 9999 and formats without the
    fields "o" and "!". *)
Theorem possible_chars_accept {TZ : TimeZone} {TZL : TimeZoneLaws} (fs : format_settings)
    (fmt cs : text) (y m k : Z) :
  char "o" ∉ fmt -> char "!" ∉ fmt -> 1971 <= y <= 9999 -> valid_civil y m k ->
  possibleChars fmt false = Some cs ->
  Forall (fun c => c ∈ cs) (formatDate fs fmt (Some (new_date (Some y) (Some m) (Some k)))).
Proof.
  intros Ho He Hy Hv Hp. pose proof (civil_make_day y m k Hv) as Hc.
  assert (1000 <= y <= 9999) as Hy' by lia.
  pose proof (n_range (make_day y m k) y m k Hc Hy') as Hn.
  rewrite new_date_at; rewrite (full_year_y y Hy'); [|done].
  by apply (possible_loop fs (make_day y m k) y m k Hc Hy).
Qed.

Lemma possible_chars_accept_witness :
  exists cs, possibleChars (txt "dd/mm/yy") false = Some cs /\
    Forall (fun c => c ∈ cs) (txt "18/10/2015").
Proof.
  eexists. split; [reflexivity|].
  assert (@formatDate brasilia english (txt "dd/mm/yy")
    (Some (@new_date brasilia (Some 2015) (Some 9) (Some 18))) = txt "18/10/2015") as <-
    by (vm_compute; reflexivity).
  apply (@possible_chars_accept brasilia (summer_zone_laws (-10800000) 1445137200000 ltac:(lia)) english
    (txt "dd/mm/yy") _ 2015 9 18); [..|reflexivity].
  - vm_compute. set_solver.
  - vm_compute. set_solver.
  - lia.
  - split; [lia|]. vm_compute. split; discriminate.
Defined.

(** The field "o" is a number for [parseDate] and a literal for [_possibleChars]. *)
Lemma possible_chars_day_of_year :
  possibleChars (txt "o") false = Some (txt "o").
Proof. reflexivity. Qed.

(** Two-digit years before 1900 are not two digits. *)
Lemma short_year_1850 : short_year (H := fixed_zone 0) (@new_date (fixed_zone 0) (Some 1850) (Some 0) (Some 1)) = txt "0-50".
Proof. vm_compute. reflexivity. Qed.
