(* ===== verification/DatePicker.v ===== *)
(** * An instance of the date picker (application bundle, lines 20320-20864)

    The state of one instance of [$.datepicker] and the functions that work on
    it alone.  The user's [onChangeMonthYear] is recorded as a notice, here and
    with the other callbacks in [DateManager]; [beforeShowDay] is a function of
    the settings.  [now] is [new Date()].

    A number that is undefined or NaN is [None]; both are falsy. *)

From S2P Require Import Prelude JsString JsDate DateFormat.
From Stdlib Require Import ZArith Lia Ascii.

Local Open Scope Z_scope.
Local Open Scope js_scope.

(** ** Data *)

(** A date option: [null], a string, a number of days, or a date. *)
Inductive dvalue := DNull | DStr (s : text) | DNum (n : num) | DDate (d : date).

(** What [beforeShowDay] returns. *)
Record day_settings := DaySettings { ds_selectable : bool; ds_class : text; ds_title : option text }.

Inductive months := MNull | MNum (n : Z) | MPair (rows cols : Z).

(** The settings of an instance over the defaults ([_get]). *)
Record settings := Settings {
  st_dateFormat : text; st_cutoff : cutoff;
  st_dayNamesShort : list text; st_dayNames : list text; st_dayNamesMin : list text;
  st_monthNamesShort : list text; st_monthNames : list text;
  st_defaultDate : dvalue; st_minDate : dvalue; st_maxDate : dvalue;
  st_gotoCurrent : bool; st_constrainInput : bool;
  st_stepMonths : Z; st_stepBigMonths : Z; st_showCurrentAtPos : Z; st_numberOfMonths : months;
  st_yearRange : text; st_changeMonth : bool; st_changeYear : bool;
  st_showMonthAfterYear : bool; st_yearSuffix : text;
  st_isRTL : bool; st_showButtonPanel : bool; st_hideIfNoPrevNext : bool;
  st_navigationAsDateFormat : bool;
  st_prevText : text; st_nextText : text; st_currentText : text; st_closeText : text;
  st_firstDay : num; st_showWeek : bool; st_weekHeader : text;
  st_showOtherMonths : bool; st_selectOtherMonths : bool;
  st_beforeShowDay : option (date -> day_settings);
  st_onSelect : bool; st_onChangeMonthYear : bool; st_onClose : bool;
  st_altField : bool; st_altFormat : text;
  st_autoSize : bool; st_showOn : text; st_disabled : bool
}.

(** [_defaults] with [regional[""]]. *)
Definition day_names : list text :=
  txt <$> ["Sunday"; "Monday"; "Tuesday"; "Wednesday"; "Thursday"; "Friday"; "Saturday"]%string.
Definition month_names : list text :=
  txt <$> ["January"; "February"; "March"; "April"; "May"; "June";
           "July"; "August"; "September"; "October"; "November"; "December"]%string.

Definition default_settings : settings := {|
  st_dateFormat := txt "mm/dd/yy"; st_cutoff := CutStr (txt "+10");
  st_dayNamesShort := take 3 <$> day_names; st_dayNames := day_names; st_dayNamesMin := take 2 <$> day_names;
  st_monthNamesShort := take 3 <$> month_names; st_monthNames := month_names;
  st_defaultDate := DNull; st_minDate := DNull; st_maxDate := DNull;
  st_gotoCurrent := false; st_constrainInput := true;
  st_stepMonths := 1; st_stepBigMonths := 12; st_showCurrentAtPos := 0; st_numberOfMonths := MNum 1;
  st_yearRange := txt "c-10:c+10"; st_changeMonth := false; st_changeYear := false;
  st_showMonthAfterYear := false; st_yearSuffix := [];
  st_isRTL := false; st_showButtonPanel := false; st_hideIfNoPrevNext := false;
  st_navigationAsDateFormat := false;
  st_prevText := txt "Prev"; st_nextText := txt "Next"; st_currentText := txt "Today"; st_closeText := txt "Done";
  st_firstDay := Some 0; st_showWeek := false; st_weekHeader := txt "Wk";
  st_showOtherMonths := false; st_selectOtherMonths := false; st_beforeShowDay := None;
  st_onSelect := false; st_onChangeMonthYear := false; st_onClose := false;
  st_altField := false; st_altFormat := [];
  st_autoSize := false; st_showOn := txt "focus"; st_disabled := false
|}.

Record inst := Inst {
  i_settings : settings;
  selectedDay : num; selectedMonth : num; selectedYear : num;
  drawMonth : num; drawYear : num;
  currentDay : num; currentMonth : num; currentYear : num;
  i_input : text;                    (* input.val() *)
  i_alt : text;                      (* the value of altField *)
  lastVal : option text;
  i_target : nat;                    (* the element *)
  i_inline : bool;
  i_keyEvent : bool;
  i_trigger : bool;                  (* a trigger button or image is attached *)
  i_focus : bool;                    (* _showDatepicker is bound to focus *)
  i_size : option nat                (* the size attribute set by autoSize *)
}.

Definition set_settings (st : settings) (i : inst) : inst :=
  let 'Inst _ sd sm sy dm dy cd cm cy v a l t il k tr f z := i in Inst st sd sm sy dm dy cd cm cy v a l t il k tr f z.
Definition set_selected (d m y : num) (i : inst) : inst :=
  let 'Inst st _ _ _ dm dy cd cm cy v a l t il k tr f z := i in Inst st d m y dm dy cd cm cy v a l t il k tr f z.
Definition set_draw (m y : num) (i : inst) : inst :=
  let 'Inst st sd sm sy _ _ cd cm cy v a l t il k tr f z := i in Inst st sd sm sy m y cd cm cy v a l t il k tr f z.
Definition set_current (d m y : num) (i : inst) : inst :=
  let 'Inst st sd sm sy dm dy _ _ _ v a l t il k tr f z := i in Inst st sd sm sy dm dy d m y v a l t il k tr f z.
Definition set_input (v : text) (i : inst) : inst :=
  let 'Inst st sd sm sy dm dy cd cm cy _ a l t il k tr f z := i in Inst st sd sm sy dm dy cd cm cy v a l t il k tr f z.
Definition set_alt (a : text) (i : inst) : inst :=
  let 'Inst st sd sm sy dm dy cd cm cy v _ l t il k tr f z := i in Inst st sd sm sy dm dy cd cm cy v a l t il k tr f z.
Definition set_lastVal (l : option text) (i : inst) : inst :=
  let 'Inst st sd sm sy dm dy cd cm cy v a _ t il k tr f z := i in Inst st sd sm sy dm dy cd cm cy v a l t il k tr f z.
Definition set_keyEvent (k : bool) (i : inst) : inst :=
  let 'Inst st sd sm sy dm dy cd cm cy v a l t il _ tr f z := i in Inst st sd sm sy dm dy cd cm cy v a l t il k tr f z.
Definition set_attached (tr f : bool) (i : inst) : inst :=
  let 'Inst st sd sm sy dm dy cd cm cy v a l t il k _ _ z := i in Inst st sd sm sy dm dy cd cm cy v a l t il k tr f z.
Definition set_size (z : option nat) (i : inst) : inst :=
  let 'Inst st sd sm sy dm dy cd cm cy v a l t il k tr f _ := i in Inst st sd sm sy dm dy cd cm cy v a l t il k tr f z.

(** [_newInst] *)
Definition newInst (st : settings) (target : nat) (inline : bool) (value : text) : inst :=
  Inst st (Some 0) (Some 0) (Some 0) (Some 0) (Some 0) None None None value [] None
       target inline false false false None.

Inductive notice :=
| NChangeMonthYear (year month : num)
| NSelect (dateStr : text)
| NChange (target : nat)
| NClose (value : text).

Definition truthy (n : num) : bool := match n with Some z => negb (z =? 0) | None => false end.

Definition num_add (a b : num) : num := x ← a; y ← b; Some (x + y).

(** [Math.min]: NaN if an argument is. *)
Definition num_min (a b : num) : num := x ← a; y ← b; Some (Z.min x y).

(** [a < b] on dates, by time value. *)
Definition date_lt (a b : date) : bool := match a, b with Some x, Some y => x <? y | _, _ => false end.
Definition date_le (a b : date) : bool := match a, b with Some x, Some y => x <=? y | _, _ => false end.

Section picker.
Context `{TimeZone} (defaults : format_settings) (now : date).

(** ** Dates of an instance *)

(** [_getFormatConfig], then the defaults of [parseDate] and [formatDate]. *)
Definition getFormatConfig (st : settings) : settings_arg :=
  SettingsArg
    (Some (CutNum (match st_cutoff st with
                   | CutNum n => n
                   | CutStr s => y ← getFullYear now; c ← parse_int s; Some (Z.rem y 100 + c)
                   end)))
    (Some (st_dayNamesShort st)) (Some (st_dayNames st))
    (Some (st_monthNamesShort st)) (Some (st_monthNames st)).

Definition config (st : settings) : format_settings := resolve (Some (getFormatConfig st)) defaults.

(** [parseDate] with the turns that are enough for formats without ticks. *)
Definition parse (st : settings) (value : text) : jsres (option date) :=
  match parseDate (config st) 40 now (Some (st_dateFormat st)) (Some value) with
  | Some r => r
  | None => Throw "the day-of-year loop does not end"
  end.

Definition format (st : settings) (d : option date) : text := formatDate (config st) (st_dateFormat st) d.

(** [_getDate] *)
Definition getDate_ (i : inst) : option date :=
  if negb (truthy (currentYear i)) || bool_decide (i_input i = []) then None
  else Some (daylightSavingAdjust (new_date (currentYear i) (currentMonth i) (currentDay i))).

(** One match of [/([+\-]?[0-9]+)\s*(d|D|w|W|m|M|y|Y)?/g] from the start of the
    text: the number, the unit, the rest. *)
Definition is_unit (c : ascii) : bool := bool_decide (c ∈ txt "dDwWmMyY").

Definition match_offset (s : text) : option (Z * ascii * text) :=
  let '(neg, ds) := match s with
                    | c :: s' => if decide (c = char "-") then (true, s')
                                 else if decide (c = char "+") then (false, s') else (false, s)
                    | [] => (false, [])
                    end in
  match take_while is_digit ds with
  | [] => None
  | run =>
      let n := if (neg : bool) then - parse_digits run else parse_digits run in
      let rest := drop (length run) ds in
      match drop_while js_space rest with
      | u :: rest' => if is_unit u then Some (n, u, rest') else Some (n, char "d", drop_while js_space rest)
      | [] => Some (n, char "d", [])
      end
  end.

(** [pattern.exec] in a loop; each match consumes text, so its length is enough. *)
Fixpoint offsets (fuel : nat) (s : text) : list (Z * ascii) :=
  match fuel with
  | O => []
  | S fuel =>
      match match_offset s with
      | Some (n, u, rest) => (n, u) :: offsets fuel rest
      | None => match s with [] => [] | _ :: s' => offsets fuel s' end
      end
  end.

Definition apply_offset (acc : num * num * num) (o : Z * ascii) : num * num * num :=
  let '(year, month, day) := acc in
  let '(n, u) := o in
  if bool_decide (u ∈ txt "dD") then (year, month, num_add day (Some n))
  else if bool_decide (u ∈ txt "wW") then (year, month, num_add day (Some (n * 7)))
  else if bool_decide (u ∈ txt "mM") then
    let month := num_add month (Some n) in (year, month, num_min day (getDaysInMonth year month))
  else
    let year := num_add year (Some n) in (year, month, num_min day (getDaysInMonth year month)).

(** [offsetNumeric] and [offsetString] *)
Definition offsetNumeric (offset : Z) : date := setDate (num_add (getDate now) (Some offset)) now.

Definition starts_c (s : text) : bool :=
  match to_lower s with c :: _ => bool_decide (c = char "c") | [] => false end.

Definition offsetString (i : inst) (offset : text) : option date :=
  match parse (i_settings i) offset with
  | Ok d => d
  | Throw _ =>
      let d := default now (if starts_c offset then getDate_ i else None) in
      let '(year, month, day) :=
        foldl apply_offset (getFullYear d, getMonth d, getDate d) (offsets (S (length offset)) offset) in
      Some (new_date year month day)
  end.

(** [_determineDate] *)
Definition determineDate (i : inst) (v : dvalue) (defaultDate : option date) : option date :=
  let newDate := match v with
                 | DNull => defaultDate
                 | DStr s => if decide (s = []) then defaultDate else offsetString i s
                 | DNum None => defaultDate
                 | DNum (Some n) => Some (offsetNumeric n)
                 | DDate d => Some d
                 end in
  let newDate := match newDate with
                 | Some None => defaultDate
                 | _ => newDate
                 end in
  (fun d => daylightSavingAdjust (setMilliseconds 0 (setSeconds 0 (setMinutes 0 (setHours 0 d))))) <$> newDate.

Definition minDate (i : inst) : option date := determineDate i (st_minDate (i_settings i)) None.
Definition maxDate (i : inst) : option date := determineDate i (st_maxDate (i_settings i)) None.

(** [_restrictMinMax] *)
Definition restrictMinMax (i : inst) (d : date) : date :=
  let newDate := match minDate i with
                 | Some lo => if date_lt d lo then lo else d
                 | None => d
                 end in
  match maxDate i with
  | Some hi => if date_lt hi newDate then hi else newDate
  | None => newDate
  end.

(** [_getDefaultDate] *)
Definition getDefaultDate (i : inst) : date :=
  restrictMinMax i (default None (determineDate i (st_defaultDate (i_settings i)) (Some now))).

Definition notifyChange (i : inst) : list notice :=
  if st_onChangeMonthYear (i_settings i)
  then [NChangeMonthYear (selectedYear i) (num_add (selectedMonth i) (Some 1))] else [].

Inductive period := PDay | PMonth | PYear | PNone.

(** The added offset; [offset] is undefined when there is no period. *)
Definition added (p : period) (q : period) (offset : Z) : Z :=
  match p, q with
  | PDay, PDay | PMonth, PMonth | PYear, PYear => offset
  | _, _ => 0
  end.

(** [_adjustInstDate] *)
Definition adjustInstDate (offset : Z) (p : period) (i : inst) : inst * list notice :=
  let year := num_add (drawYear i) (Some (added p PYear offset)) in
  let month := num_add (drawMonth i) (Some (added p PMonth offset)) in
  let day := num_add (num_min (selectedDay i) (getDaysInMonth year month)) (Some (added p PDay offset)) in
  let d := restrictMinMax i (daylightSavingAdjust (new_date year month day)) in
  let i := set_draw (getMonth d) (getFullYear d)
             (set_selected (getDate d) (getMonth d) (getFullYear d) i) in
  (i, match p with PMonth | PYear => notifyChange i | _ => [] end).

(** [_formatDate(inst, day, month, year)]; without a day the current date
    becomes the selected one. *)
Definition formatDate_ (day month year : num) (i : inst) : inst * text :=
  if truthy day then
    (i, format (i_settings i) (Some (daylightSavingAdjust (new_date year month day))))
  else
    let i := set_current (selectedDay i) (selectedMonth i) (selectedYear i) i in
    (i, format (i_settings i)
          (Some (daylightSavingAdjust (new_date (currentYear i) (currentMonth i) (currentDay i))))).

(** [_setDateFromField] *)
Definition setDateFromField (noDefault : bool) (i : inst) : inst :=
  if bool_decide (Some (i_input i) = lastVal i) then i
  else
    let dates := i_input i in
    let i := set_lastVal (Some dates) i in
    let defaultDate := getDefaultDate i in
    let '(d, dates) := match parse (i_settings i) dates with
                       | Ok (Some d) => (d, dates)
                       | Ok None => (defaultDate, dates)
                       | Throw _ => (defaultDate, if noDefault then [] else dates)
                       end in
    let cur n := match dates with [] => Some 0 | _ => n end in
    let i := set_selected (getDate d) (getMonth d) (getFullYear d) i in
    let i := set_draw (getMonth d) (getFullYear d) i in
    let i := set_current (cur (getDate d)) (cur (getMonth d)) (cur (getFullYear d)) i in
    (adjustInstDate 0 PNone i).1.

Definition is_null (v : dvalue) : bool :=
  match v with
  | DNull => true | DStr s => bool_decide (s = []) | DNum n => negb (truthy n) | DDate _ => false
  end.

(** [_setDate] *)
Definition setDate_ (v : dvalue) (noChange : bool) (i : inst) : inst * list notice :=
  let clear := is_null v in
  let '(origMonth, origYear) := (selectedMonth i, selectedYear i) in
  let d := restrictMinMax i (default None (determineDate i v (Some now))) in
  let i := set_current (getDate d) (getMonth d) (getFullYear d)
             (set_draw (getMonth d) (getFullYear d)
               (set_selected (getDate d) (getMonth d) (getFullYear d) i)) in
  let ns := if negb (num_eqb origMonth (selectedMonth i) && num_eqb origYear (selectedYear i)) && negb noChange
            then notifyChange i else [] in
  let i := (adjustInstDate 0 PNone i).1 in
  let '(i, s) := if clear then (i, []) else formatDate_ None None None i in
  (set_input s i, ns).

(** [_getNumberOfMonths] *)
Definition getNumberOfMonths (i : inst) : Z * Z :=
  match st_numberOfMonths (i_settings i) with
  | MNull => (1, 1) | MNum n => (1, n) | MPair r c => (r, c)
  end.

(** [years.split(":")], its first two parts. *)
Definition split_years (s : text) : text * option text :=
  let a := take_while (fun c => negb (bool_decide (c = char ":"))) s in
  match drop (length a) s with
  | [] => (a, None)
  | _ :: rest => (a, Some (take_while (fun c => negb (bool_decide (c = char ":"))) rest))
  end.

(** [match(/[+\-].*/)] *)
Definition has_sign (s : text) : bool := existsb (fun c => bool_decide (c ∈ txt "+-")) s.

(** The limits of [yearRange]: absolute years, or years from this one; a range
    without a colon throws. *)
Definition year_limits (st : settings) : jsres (num * num) :=
  match st_yearRange st with
  | [] => Ok (None, None)
  | years =>
      match split_years years with
      | (a, Some b) =>
          let rel s := let n := parse_int s in if has_sign s then num_add n (getFullYear now) else n in
          Ok (rel a, rel b)
      | (_, None) => Throw "Cannot read property 'match' of undefined"
      end
  end.

(** [_isInRange] *)
Definition isInRange (i : inst) (d : date) : jsres bool :=
  let? (minYear, maxYear) := year_limits (i_settings i) in
  let year_ge y lo := match y, lo with Some a, Some b => b <=? a | _, _ => false end in
  Ok (match minDate i with Some lo => date_le lo d | None => true end &&
      match maxDate i with Some hi => date_le d hi | None => true end &&
      (negb (truthy minYear) || year_ge (getFullYear d) minYear) &&
      (negb (truthy maxYear) || year_ge maxYear (getFullYear d))).

(** [_canAdjustMonth] *)
Definition canAdjustMonth (i : inst) (offset : Z) (curYear curMonth : num) : jsres bool :=
  let '(rows, cols) := getNumberOfMonths i in
  let d := daylightSavingAdjust
             (new_date curYear (num_add curMonth (Some (if offset <? 0 then offset else rows * cols))) (Some 1)) in
  let d := if offset <? 0 then setDate (getDaysInMonth (getFullYear d) (getMonth d)) d else d in
  isInRange i d.

(** [_getFirstDayOfMonth] *)
Definition getFirstDayOfMonth (year month : num) : num := getDay (new_date year month (Some 1)).

End picker.
