(* ===== verification/DatePickerSpec.v ===== *)
(** * Moving through the calendar: what the operations of [DatePicker] compute,
    in terms of day numbers *)

From S2P Require Import Prelude JsString JsDate DateFormat DateFormatSpec DatePicker.
From Stdlib Require Import ZArith Lia Ascii.

Local Open Scope Z_scope.
Local Open Scope js_scope.

(** The day number of a date, and the number of days of a month that may lie
    outside its year. *)
Definition day_of `{TimeZone} (d : date) : num := (fun t => t / ms_day) <$> local d.
Definition month_days (y m : Z) : Z := month_length (y + m / 12) (m mod 12).

Definition clamp (lo hi : option Z) (n : Z) : Z :=
  let n := match lo with Some l => Z.max l n | None => n end in
  match hi with Some h => Z.min h n | None => n end.

(** The day that a move by [off] periods of [p] leads to from day [d] of the
    month drawn, before the bounds. *)
Definition moved (p : period) (off y m d : Z) : Z :=
  match p with
  | PDay => make_day y m (Z.min d (month_days y m)) + off
  | PMonth => make_day (y + (m + off) / 12) ((m + off) mod 12) (Z.min d (month_days y (m + off)))
  | PYear => make_day (y + off) m (Z.min d (month_days (y + off) m))
  | PNone => make_day y m (Z.min d (month_days y m))
  end.

(** The instance shows day [n]. *)
Definition at_day (n : Z) (i : inst) : inst :=
  let '(y, m, d) := civil n in set_draw (Some m) (Some y) (set_selected (Some d) (Some m) (Some y) i).

Definition selected (i : inst) : num * num * num := (selectedYear i, selectedMonth i, selectedDay i).
Definition drawn (i : inst) : num * num := (drawYear i, drawMonth i).

Lemma at_day_settings n i : i_settings (at_day n i) = i_settings i.
Proof. unfold at_day. destruct (civil n) as [[y m] d], i. done. Qed.

Lemma selected_at_day n i : selected (at_day n i) = (Some (civil n).1.1, Some (civil n).1.2, Some (civil n).2) /\
  drawn (at_day n i) = (Some (civil n).1.1, Some (civil n).1.2).
Proof. unfold at_day. destruct (civil n) as [[y m] d], i. done. Qed.

Lemma full_year_id y : 100 <= y -> full_year y = y.
Proof. intros Hy. unfold full_year. destruct (Z.leb_spec y 99); [lia|]. by rewrite andb_false_r. Qed.

Lemma month_days_bounds y m : 28 <= month_days y m <= 31.
Proof. apply month_length_bounds. divlia. Qed.

Lemma in_range_far y m d : 100 <= y <= 150000 -> -12000 <= m <= 12000 -> Z.abs d <= 1000000 ->
  in_range (make_day y m d).
Proof.
  intros Hy Hm Hd. rewrite make_day_norm. replace d with (1 + (d - 1)) by lia. rewrite make_day_add.
  rewrite make_day_in by divlia. set (y' := y + m / 12). set (m' := m mod 12).
  assert (-1000 <= y' <= 151000) as Hy' by (unfold y'; divlia). assert (0 <= m' <= 11) as Hm' by (unfold m'; divlia).
  pose proof (days_before_mono y' 0 m' ltac:(lia) ltac:(lia) ltac:(lia)) as H0.
  pose proof (days_before_mono y' m' 12 ltac:(lia) ltac:(lia) ltac:(lia)) as H1.
  rewrite days_before_12 in H1. change (days_before y' 0) with 0 in H0.
  unfold in_range, day_from_year. destruct (leap y'); divlia.
Qed.

#[local] Opaque civil.

Section spec.
Context {TZ : TimeZone} {TZL : TimeZoneLaws} (defaults : format_settings) (now : date).

(** ** Dates and days *)

Lemma day_of_date_at n : day_of (date_at n) = Some n.
Proof.
  unfold day_of. destruct (local_date_at n) as (s & Hs & ->). cbn [fmap option_fmap option_map].
  by rewrite hours_div by lia.
Qed.

Lemma fields_day_of d n : day_of d = Some n ->
  getFullYear d = Some (civil n).1.1 /\ getMonth d = Some (civil n).1.2 /\ getDate d = Some (civil n).2.
Proof.
  unfold day_of, getFullYear, getMonth, getDate. destruct (local d) as [t|]; [|done].
  cbn [fmap option_fmap option_map]. by intros [= <-].
Qed.

Lemma date_lt_at n n' : date_lt (date_at n) (date_at n') = (n <? n').
Proof. unfold date_lt, date_at. apply date_at_ltb. Qed.

Lemma of_local_near n r : in_range n -> 0 <= r < ms_day ->
  exists u s, of_local (n * ms_day + r) = Some u /\ 0 <= s <= 2 /\ local (Some u) = Some (n * ms_day + r + s * ms_hour).
Proof.
  intros Hn Hr. set (t := n * ms_day + r). destruct (tz_gap t) as (s & Hs & E).
  exists (to_utc t), s. split_and!; [|lia|lia|unfold local; cbn [fmap option_fmap option_map]; by rewrite E].
  unfold of_local, time_clip. destruct (Z.leb_spec (Z.abs (to_utc t)) 8640000000000000) as [|Hb]; [done|].
  exfalso. unfold to_utc, in_range, t in *. pose proof (tz_bound (n * ms_day + r)). lia.
Qed.

(** The resets of [_determineDate] lead to the start of the day. *)
Definition strip (d : date) : date := setMilliseconds 0 (setSeconds 0 (setMinutes 0 (setHours 0 d))).

Lemma strip_day d n : day_of d = Some n -> in_range n ->
  daylightSavingAdjust (strip d) = date_at n.
Proof.
  unfold day_of. destruct (local d) as [t|] eqn:El; [|done]. cbn [fmap option_fmap option_map].
  intros [= <-] Hn. set (n := t / ms_day) in *.
  unfold strip. unfold setHours at 1. rewrite El. cbn [mbind option_bind].
  destruct (of_local_near n (0 * ms_hour + t mod ms_hour) Hn ltac:(divlia)) as (u1 & s1 & E1 & Hs1 & L1).
  replace (t / ms_day * ms_day + 0 * ms_hour + t mod ms_hour) with (n * ms_day + (0 * ms_hour + t mod ms_hour)) by lia.
  rewrite E1. unfold setMinutes. rewrite L1. cbn [mbind option_bind].
  set (t1 := n * ms_day + (0 * ms_hour + t mod ms_hour) + s1 * ms_hour).
  destruct (of_local_near n (s1 * ms_hour + t1 mod 60000) Hn ltac:(divlia)) as (u2 & s2 & E2 & Hs2 & L2).
  replace (t1 / ms_hour * ms_hour + 0 * 60000 + t1 mod 60000) with (n * ms_day + (s1 * ms_hour + t1 mod 60000))
    by (unfold t1; divlia).
  rewrite E2. unfold setSeconds. rewrite L2. cbn [mbind option_bind].
  set (t2 := n * ms_day + (s1 * ms_hour + t1 mod 60000) + s2 * ms_hour).
  destruct (of_local_near n ((s1 + s2) * ms_hour + t2 mod 1000) Hn ltac:(divlia)) as (u3 & s3 & E3 & Hs3 & L3).
  replace (t2 / 60000 * 60000 + 0 * 1000 + t2 mod 1000) with (n * ms_day + ((s1 + s2) * ms_hour + t2 mod 1000))
    by (unfold t2; divlia).
  rewrite E3. unfold setMilliseconds. rewrite L3. cbn [mbind option_bind].
  set (t3 := n * ms_day + ((s1 + s2) * ms_hour + t2 mod 1000) + s3 * ms_hour).
  replace (t3 / 1000 * 1000 + 0) with (n * ms_day + (s1 + s2 + s3) * ms_hour) by (unfold t3; divlia).
  rewrite of_local_hours by (done || lia). apply adjust_hours; [done|lia].
Qed.

Lemma getDaysInMonth_month y m : 100 <= y <= 150000 -> -12000 <= m <= 12000 ->
  getDaysInMonth (Some y) (Some m) = Some (month_days y m).
Proof. intros Hy Hm. by apply getDaysInMonth_spec. Qed.

Lemma new_date_adjust y m d : 100 <= y <= 150000 -> -12000 <= m <= 12000 -> Z.abs d <= 1000000 ->
  daylightSavingAdjust (new_date (Some y) (Some m) (Some d)) = date_at (make_day y m d).
Proof.
  intros Hy Hm Hd. pose proof (in_range_far y m d Hy Hm Hd) as Hr.
  rewrite new_date_at; rewrite full_year_id by lia; [|done]. by apply adjust_date_at.
Qed.

(** ** Bounds *)

(** The settings have the bounds [lo] and [hi], whatever the instance holds. *)
Definition has_bounds (st : settings) (lo hi : option Z) : Prop :=
  forall i, i_settings i = st ->
    minDate defaults now i = date_at <$> lo /\ maxDate defaults now i = date_at <$> hi.

Lemma determine_date d n i dflt : day_of d = Some n -> in_range n ->
  determineDate defaults now i (DDate d) dflt = Some (date_at n).
Proof.
  intros Hd Hn. destruct d as [u|]; [|done]. unfold determineDate. cbn [fmap option_fmap option_map].
  f_equal. by apply strip_day.
Qed.

Lemma determine_null i d n : day_of d = Some n -> in_range n ->
  determineDate defaults now i DNull (Some d) = Some (date_at n).
Proof.
  intros Hd Hn. destruct d as [u|]; [|done]. unfold determineDate. cbn [fmap option_fmap option_map].
  f_equal. by apply strip_day.
Qed.

Lemma has_bounds_dates st lo hi :
  (match lo with Some l => st_minDate st = DDate (date_at l) /\ in_range l | None => st_minDate st = DNull end) ->
  (match hi with Some h => st_maxDate st = DDate (date_at h) /\ in_range h | None => st_maxDate st = DNull end) ->
  has_bounds st lo hi.
Proof.
  intros Hlo Hhi i Hi. unfold minDate, maxDate. rewrite Hi. split.
  - destruct lo as [l|]; [destruct Hlo as [-> Hr]|by rewrite Hlo].
    apply determine_date; [apply day_of_date_at|done].
  - destruct hi as [h|]; [destruct Hhi as [-> Hr]|by rewrite Hhi].
    apply determine_date; [apply day_of_date_at|done].
Qed.

Lemma restrict_at st lo hi i n : has_bounds st lo hi -> i_settings i = st ->
  restrictMinMax defaults now i (date_at n) = date_at (clamp lo hi n).
Proof.
  intros Hb Hi. destruct (Hb i Hi) as [E1 E2]. unfold restrictMinMax. rewrite E1, E2.
  assert ((match date_at <$> lo with Some l => if date_lt (date_at n) l then l else date_at n | None => date_at n end)
    = date_at (match lo with Some l => Z.max l n | None => n end)) as ->.
  { destruct lo as [l|]; cbn [fmap option_fmap option_map]; [|done]. rewrite date_lt_at.
    destruct (Z.ltb_spec n l); f_equal; lia. }
  unfold clamp. destruct hi as [h|]; cbn [fmap option_fmap option_map]; [|done]. rewrite date_lt_at.
  destruct (Z.ltb_spec h (match lo with Some l => Z.max l n | None => n end)); f_equal; lia.
Qed.

Lemma clamp_in lo hi n l h : lo = Some l -> hi = Some h -> l <= h -> l <= clamp lo hi n <= h.
Proof. intros -> -> Hle. simpl. lia. Qed.

(** ** [_adjustInstDate] *)

Lemma adjust_state p off i d : restrictMinMax defaults now i
    (daylightSavingAdjust (new_date (num_add (drawYear i) (Some (added p PYear off)))
      (num_add (drawMonth i) (Some (added p PMonth off)))
      (num_add (num_min (selectedDay i) (getDaysInMonth (num_add (drawYear i) (Some (added p PYear off)))
        (num_add (drawMonth i) (Some (added p PMonth off))))) (Some (added p PDay off))))) = date_at d ->
  (adjustInstDate defaults now off p i).1 = at_day d i.
Proof.
  intros E. unfold adjustInstDate. rewrite E.
  destruct (fields_date_at d) as (-> & -> & -> & _). unfold at_day. destruct (civil d) as [[y m] k].
  by destruct p.
Qed.

Lemma moved_range p off y m d : 100 <= y <= 150000 -> 0 <= m <= 11 -> 0 <= d <= 31 -> Z.abs off <= 2400 ->
  100 <= y + added p PYear off <= 150000 ->
  daylightSavingAdjust (new_date (num_add (Some y) (Some (added p PYear off)))
      (num_add (Some m) (Some (added p PMonth off)))
      (num_add (num_min (Some d) (getDaysInMonth (num_add (Some y) (Some (added p PYear off)))
        (num_add (Some m) (Some (added p PMonth off))))) (Some (added p PDay off)))) = date_at (moved p off y m d).
Proof.
  intros Hy Hm Hd Hoff Hy'. unfold num_add at 2 5; unfold num_add at 1 3. cbn [mbind option_bind].
  assert (Z.abs (added p PMonth off) <= 2400 /\ Z.abs (added p PDay off) <= 2400) as [? ?] by (destruct p; simpl; lia).
  set (m2 := m + added p PMonth off). assert (-12000 <= m2 <= 12000) by lia.
  rewrite getDaysInMonth_month by (done || lia). unfold num_min, num_add. cbn [mbind option_bind].
  pose proof (month_days_bounds (y + added p PYear off) m2).
  rewrite new_date_adjust by (done || lia). f_equal. unfold m2 in *. unfold moved, added.
  destruct p; rewrite ?Z.add_0_r; [by rewrite make_day_add|apply make_day_norm|done|done].
Qed.

Lemma adjust_at st lo hi p off y m d i : has_bounds st lo hi -> i_settings i = st ->
  drawn i = (Some y, Some m) -> selectedDay i = Some d ->
  100 <= y <= 150000 -> 0 <= m <= 11 -> 0 <= d <= 31 -> Z.abs off <= 2400 ->
  100 <= y + added p PYear off <= 150000 ->
  (adjustInstDate defaults now off p i).1 = at_day (clamp lo hi (moved p off y m d)) i.
Proof.
  intros Hb Hi [= Ey Em] Ed Hy Hm Hd Hoff Hy'. apply adjust_state. rewrite Ey, Em, Ed, moved_range by done.
  by apply (restrict_at st).
Qed.

(** ** Relative dates *)

(** A date option such as "+1m -7d": signed numbers with a unit. *)
Definition print_offset (o : Z * ascii) : text :=
  (if o.1 <? 0 then char "-" else char "+") :: print_nat (Z.abs o.1) ++ [o.2].

Fixpoint print_offsets (l : list (Z * ascii)) : text :=
  match l with
  | [] => []
  | [o] => print_offset o
  | o :: l => print_offset o ++ char " " :: print_offsets l
  end.

(** What an offset does to a year, a month and a day: months and years keep the
    day within the month. *)
Definition offset_step (ymd : Z * Z * Z) (o : Z * ascii) : Z * Z * Z :=
  let '(y, m, d) := ymd in
  let '(n, u) := o in
  if bool_decide (u ∈ txt "dD") then (y, m, d + n)
  else if bool_decide (u ∈ txt "wW") then (y, m, d + n * 7)
  else if bool_decide (u ∈ txt "mM") then (y, m + n, Z.min d (month_days y (m + n)))
  else (y + n, m, Z.min d (month_days (y + n) m)).

Lemma unit_char u : is_unit u = true -> is_digit u = false /\ js_space u = false.
Proof.
  unfold is_unit. intros Hu%bool_decide_eq_true.
  repeat (apply elem_of_cons in Hu as [->|Hu]; [by vm_compute|]). by apply elem_of_nil in Hu.
Qed.

Lemma match_offset_print n u rest : is_unit u = true ->
  match_offset (print_offset (n, u) ++ rest) = Some (n, u, rest).
Proof.
  intros Hu. destruct (unit_char u Hu) as [Hd Hs]. unfold match_offset, print_offset. cbn [fst snd].
  pose proof (print_nat_digits (Z.abs n) ltac:(lia)) as Hds.
  assert (take_while is_digit (print_nat (Z.abs n) ++ u :: rest) = print_nat (Z.abs n)) as Et
    by by apply take_digits_app.
  pose proof (print_nat_nonempty (Z.abs n) ltac:(lia)) as Hne.
  assert (parse_digits (print_nat (Z.abs n)) = Z.abs n) as Ep by (by apply parse_print; lia).
  destruct (Z.ltb_spec n 0); cbn [app]; [rewrite decide_True by done|rewrite decide_False, decide_True by done];
    rewrite <- app_assoc; cbn [app]; rewrite Et; destruct (print_nat (Z.abs n)) as [|c ds] eqn:E; try done;
    rewrite Ep, drop_app_length; cbn [drop_while]; rewrite Hs, Hu; do 3 f_equal; lia.
Qed.

Lemma offsets_print l : Forall (fun o => is_unit o.2 = true) l -> forall fuel,
  (length (print_offsets l) < fuel)%nat -> offsets fuel (print_offsets l) = l.
Proof.
  induction 1 as [|[n u] l Hu Hl IH]; intros fuel Hf; [by destruct fuel as [|fuel]; [simpl in Hf; lia|]|].
  destruct fuel as [|fuel]; [lia|]. destruct l as [|o l].
  - cbn [print_offsets offsets] in *. rewrite <- (app_nil_r (print_offset (n, u))), match_offset_print by done.
    by destruct fuel as [|fuel].
  - change (print_offsets ((n, u) :: o :: l)) with (print_offset (n, u) ++ char " " :: print_offsets (o :: l)) in *.
    cbn [offsets]. rewrite match_offset_print by done. f_equal. rewrite length_app in Hf. cbn [length] in Hf.
    assert (2 <= length (print_offset (n, u)))%nat by (unfold print_offset; cbn [length]; rewrite length_app; simpl; lia).
    destruct fuel as [|fuel]; [lia|]. cbn [offsets].
    assert (match_offset (char " " :: print_offsets (o :: l)) = None) as -> by reflexivity.
    apply IH. lia.
Qed.

(** Years, months and days that some offsets of at most [b] keep in range. *)
Definition near (k b : Z) (ymd : Z * Z * Z) : Prop :=
  let '(y, m, d) := ymd in
  1000 - k * b <= y <= 9999 + k * b /\ - k * b <= m <= 11 + k * b /\ - 7 * k * b <= d <= 31 + 7 * k * b.

Definition nums (ymd : Z * Z * Z) : num * num * num :=
  @pair (num * num) num (@pair num num (Some ymd.1.1) (Some ymd.1.2)) (Some ymd.2).

Lemma apply_offset_step k y m d n u : 0 <= k <= 8 -> near k 100 (y, m, d) -> Z.abs n <= 100 ->
  apply_offset (nums (y, m, d)) (n, u) = nums (offset_step (y, m, d) (n, u)) /\
  near (k + 1) 100 (offset_step (y, m, d) (n, u)).
Proof.
  intros Hk (Hy & Hm & Hd) Hn. unfold apply_offset, offset_step, nums. cbn [fst snd].
  destruct (bool_decide (u ∈ txt "dD")); [split; [done|unfold near; lia]|].
  destruct (bool_decide (u ∈ txt "wW")); [split; [done|unfold near; lia]|].
  destruct (bool_decide (u ∈ txt "mM")); unfold num_add, num_min; cbn [mbind option_bind];
    rewrite getDaysInMonth_month by lia; cbn [mbind option_bind]; (split; [done|]).
  - pose proof (month_days_bounds y (m + n)). unfold near. lia.
  - pose proof (month_days_bounds (y + n) m). unfold near. lia.
Qed.

Lemma apply_offsets_fold l : Forall (fun o => Z.abs o.1 <= 100) l -> forall k y m d,
  0 <= k -> k + Z.of_nat (length l) <= 8 -> near k 100 (y, m, d) ->
  let r := foldl offset_step (y, m, d) l in
  foldl apply_offset (nums (y, m, d)) l = nums r /\ near 8 100 r.
Proof.
  induction 1 as [|[n u] l Hn Hl IH]; intros k y m d Hk Hlen Hnear r.
  - split; [done|]. destruct Hnear as (? & ? & ?). cbn [length] in Hlen. unfold r. cbn [foldl]. unfold near. lia.
  - cbn [length] in Hlen. unfold r. cbn [foldl]. cbn [fst] in Hn.
    destruct (apply_offset_step k y m d n u) as [E1 E2]; [lia|done|done|].
    rewrite E1. destruct (offset_step (y, m, d) (n, u)) as [[y' m'] d'].
    apply (IH (k + 1) y' m' d'); [lia|lia|done].
Qed.

Lemma offsetString_print i l n0 : Forall (fun o => is_unit o.2 = true /\ Z.abs o.1 <= 100) l ->
  (length l <= 8)%nat -> (exists msg, parse defaults now (i_settings i) (print_offsets l) = Throw msg) ->
  day_of now = Some n0 -> 1000 <= (civil n0).1.1 <= 9999 ->
  let '(y, m, d) := foldl offset_step (civil n0) l in
  offsetString defaults now i (print_offsets l) = Some (date_at (make_day y m d)) /\
  in_range (make_day y m d).
Proof.
  intros Hl Hlen [msg Hp] Hnow Hy. unfold offsetString. rewrite Hp.
  assert (starts_c (print_offsets l) = false) as ->.
  { destruct l as [|[n u] [|]]; [done| |]; unfold print_offsets, print_offset; cbn [fst app];
      by destruct (n <? 0). }
  cbn [default]. destruct (fields_day_of now n0 Hnow) as (-> & -> & ->).
  rewrite offsets_print by (lia || (eapply Forall_impl; [exact Hl|]; naive_solver)).
  pose proof (civil_valid n0) as Hc. destruct (civil n0) as [[y0 m0] d0]. cbn [fst snd] in *.
  destruct Hc as ([Hm0 Hd0] & _ & _). pose proof (month_length_bounds y0 m0 Hm0).
  destruct (apply_offsets_fold l) with (k := 0) (y := y0) (m := m0) (d := d0) as [E Hn];
    [eapply Forall_impl; [exact Hl|]; naive_solver|lia|lia|unfold near; lia|].
  unfold nums in E at 1. cbn [fst snd] in E. rewrite E. unfold nums. destruct (foldl offset_step (y0, m0, d0) l) as [[y m] d]. cbn [fst snd].
  destruct Hn as (Hy1 & Hm1 & Hd1).
  assert (in_range (make_day y m d)) as Hr by (apply in_range_far; lia).
  split; [|done]. f_equal. rewrite new_date_at; rewrite full_year_id by lia; done.
Qed.

(** ** Reading the field, setting the date *)

Lemma clamp_idem lo hi n : clamp lo hi (clamp lo hi n) = clamp lo hi n.
Proof. unfold clamp. destruct lo, hi; lia. Qed.

Lemma moved_civil n : moved PNone 0 (civil n).1.1 (civil n).1.2 (civil n).2 = n.
Proof.
  pose proof (civil_valid n) as Hc. destruct (civil n) as [[y m] d]. destruct Hc as ([Hm Hd] & <- & _).
  unfold moved, month_days. cbn [fst snd]. rewrite Z.div_small, Z.mod_small, Z.add_0_r by lia. f_equal. lia.
Qed.

(** A year that the picker handles as it is. *)
Definition year_in (n : Z) : Prop := 100 <= (civil n).1.1 <= 140000.

Lemma civil_bounds n : 0 <= (civil n).1.2 <= 11 /\ 1 <= (civil n).2 <= 31.
Proof.
  pose proof (civil_valid n) as Hc. destruct (civil n) as [[y m] d]. destruct Hc as ([Hm Hd] & _).
  pose proof (month_length_bounds y m Hm). cbn [fst snd]. lia.
Qed.

Lemma year_in_range n : year_in n -> in_range n.
Proof.
  intros Hy. pose proof (civil_valid n) as Hc. pose proof (civil_bounds n) as [Hm Hd]. unfold year_in in Hy.
  destruct (civil n) as [[y m] d]. destruct Hc as (_ & <- & _). cbn [fst snd] in *. apply in_range_far; lia.
Qed.

(** Back to a day whose fields an instance has. *)
Lemma adjust_to_day st lo hi n i : has_bounds st lo hi -> i_settings i = st -> year_in n ->
  drawn i = (Some (civil n).1.1, Some (civil n).1.2) -> selectedDay i = Some (civil n).2 ->
  (adjustInstDate defaults now 0 PNone i).1 = at_day (clamp lo hi n) i.
Proof.
  intros Hb Hi Hy Hdr Hd. pose proof (civil_bounds n) as [Hm Hdd]. unfold year_in in Hy.
  rewrite <- (moved_civil n) at 1. apply (adjust_at st); try done; unfold added; lia.
Qed.

Lemma new_date_civil n : year_in n ->
  daylightSavingAdjust (new_date (Some (civil n).1.1) (Some (civil n).1.2) (Some (civil n).2)) = date_at n.
Proof.
  intros Hy. pose proof (civil_bounds n) as [Hm Hd]. pose proof (civil_valid n) as Hc. unfold year_in in Hy.
  destruct (civil n) as [[y m] d]. destruct Hc as (_ & Hn & _). cbn [fst snd] in *. rewrite <- Hn.
  apply new_date_adjust; lia.
Qed.

(** The default date of the settings is day [n], whatever the instance holds. *)
Definition has_default (st : settings) (n : Z) : Prop :=
  forall i, i_settings i = st -> getDefaultDate defaults now i = date_at n.

Lemma has_default_today st lo hi n : has_bounds st lo hi -> st_defaultDate st = DNull ->
  day_of now = Some n -> in_range n -> has_default st (clamp lo hi n).
Proof.
  intros Hb Hd Hn Hr i Hi. unfold getDefaultDate. rewrite Hi, Hd.
  rewrite (determine_null i now n) by done. by apply (restrict_at st).
Qed.

(** The fields of the instance that show day [n] as the current date. *)
Definition current_day (n : Z) (i : inst) : Prop :=
  (currentYear i, currentMonth i, currentDay i) = (Some (civil n).1.1, Some (civil n).1.2, Some (civil n).2).

Lemma getDate_current n i : year_in n -> current_day n i -> i_input i <> [] -> getDate_ i = Some (date_at n).
Proof.
  intros Hy [= E1 E2 E3] Hv. unfold getDate_. rewrite E1, E2, E3. cbn [truthy]. unfold year_in in Hy.
  destruct (Z.eqb_spec (civil n).1.1 0); [lia|]. rewrite bool_decide_false by done. cbn [negb orb].
  by rewrite new_date_civil.
Qed.

Lemma formatDate_selected j y m d : selected j = (y, m, d) ->
  formatDate_ defaults now None None None j =
  (set_current d m y j, format defaults now (i_settings j) (Some (daylightSavingAdjust (new_date y m d)))).
Proof. intros [= <- <- <-]. unfold formatDate_. cbn [truthy]. by destruct j. Qed.

(** [_setDate] on a date. *)
Lemma setDate_day st lo hi d n noChange i : has_bounds st lo hi -> i_settings i = st ->
  day_of d = Some n -> in_range n -> year_in (clamp lo hi n) -> 
  let c := clamp lo hi n in
  let i' := (setDate_ defaults now (DDate d) noChange i).1 in
  i_settings i' = st /\ selected i' = (Some (civil c).1.1, Some (civil c).1.2, Some (civil c).2) /\
  drawn i' = (Some (civil c).1.1, Some (civil c).1.2) /\ current_day c i' /\
  i_input i' = format defaults now st (Some (date_at c)).
Proof.
  intros Hb Hi Hd Hn Hy c i'. unfold i', setDate_.
  rewrite (determine_date d n) by done. cbn [from_option id is_null].
  rewrite (restrict_at st lo hi) by done. fold c. destruct (fields_date_at c) as (-> & -> & -> & _).
  match goal with |- context [adjustInstDate _ _ 0 PNone ?j] => set (i1 := j) end.
  assert (i_settings i1 = st) as H1 by (by unfold i1; destruct i).
  assert ((adjustInstDate defaults now 0 PNone i1).1 = at_day (clamp lo hi c) i1) as ->
    by (apply (adjust_to_day st); try done; by unfold i1; destruct i).
  assert (clamp lo hi c = c) as Ec by apply clamp_idem. rewrite Ec.
  pose proof (at_day_settings c i1) as H2. destruct (selected_at_day c i1) as [H3 H4].
  rewrite (formatDate_selected _ _ _ _ H3), H2, H1, new_date_civil by done. cbn [fst].
  clearbody c i1. clear i'. unfold selected, drawn, current_day in *. set (i2 := at_day c i1) in *. clearbody i2.
  destruct i2 as [f1 f2 f3 f4 f5 f6 f7 f8 f9 f10 f11 f12 f13 f14 f15 f16 f17 f18]. cbn [set_current set_input i_settings selectedDay selectedMonth selectedYear drawMonth drawYear
    currentDay currentMonth currentYear i_input] in *. split_and!; congruence.
Qed.

Lemma at_day_target n i : i_target (at_day n i) = i_target i.
Proof. unfold at_day. destruct (civil n) as [[y m] d], i. done. Qed.

Lemma adjust_target p off i : i_target (adjustInstDate defaults now off p i).1 = i_target i.
Proof. unfold adjustInstDate. cbn [fst]. by destruct i. Qed.

Lemma setDate_target v noChange i : i_target (setDate_ defaults now v noChange i).1 = i_target i.
Proof.
  unfold setDate_.
  match goal with |- context [adjustInstDate _ _ 0 PNone ?j] =>
    pose proof (adjust_target PNone 0 j) as E; set (i1 := (adjustInstDate defaults now 0 PNone j).1) in * end.
  assert (i_target i1 = i_target i) as E1 by (rewrite E; by destruct i). clearbody i1. clear E.
  destruct (is_null v); cbn [fst]; [by destruct i1|]. unfold formatDate_. cbn [truthy fst]. by destruct i1.
Qed.

(** [_setDateFromField]: what the text of the field stands for. *)
Definition read_date (dflt : date) (r : jsres (option date)) : date :=
  match r with Ok (Some d) => d | _ => dflt end.
Definition blank (noDefault : bool) (v : text) (r : jsres (option date)) : bool :=
  bool_decide (v = []) || (noDefault && match r with Throw _ => true | _ => false end).

Lemma setDateFromField_day st lo hi n0 n v noDefault i : has_bounds st lo hi -> has_default st n0 ->
  i_settings i = st -> i_input i = v -> lastVal i <> Some v ->
  day_of (read_date (date_at n0) (parse defaults now st v)) = Some n -> year_in n ->
  let c := clamp lo hi n in
  let i' := setDateFromField defaults now noDefault i in
  i_settings i' = st /\ selected i' = (Some (civil c).1.1, Some (civil c).1.2, Some (civil c).2) /\
  drawn i' = (Some (civil c).1.1, Some (civil c).1.2) /\
  i_input i' = v /\ lastVal i' = Some v /\ i_target i' = i_target i /\ i_inline i' = i_inline i /\
  getDate_ i' = (if blank noDefault v (parse defaults now st v) then None else Some (date_at n)).
Proof.
  intros Hb Hdef Hi Hv Hl Hr Hy c i'. unfold i', setDateFromField. rewrite Hv. rewrite bool_decide_false by congruence.
  rewrite (Hdef (set_lastVal (Some v) i)) by (by destruct i).
  assert (i_settings (set_lastVal (Some v) i) = st) as -> by (by destruct i).
  set (r := parse defaults now st v) in *.
  set (w := if blank noDefault v r then [] else v).
  assert (match r with
          | Ok (Some d) => (d, v) | Ok None => (date_at n0, v)
          | Throw _ => (date_at n0, if noDefault then [] else v)
          end = (read_date (date_at n0) r, w)) as ->.
  { unfold w, blank. destruct v as [|ch v'], r as [[d|]|msg], noDefault; done. }
  destruct (fields_day_of _ _ Hr) as (-> & -> & ->).
  match goal with |- context [adjustInstDate _ _ 0 PNone ?j] => set (i1 := j) end.
  assert ((adjustInstDate defaults now 0 PNone i1).1 = at_day c i1) as ->
    by (apply (adjust_to_day st); try done; by unfold i1; destruct i).
  pose proof (at_day_settings c i1) as H2. destruct (selected_at_day c i1) as [H3 H4].
  split; [by rewrite H2; unfold i1; destruct i|]. split; [done|]. split; [done|].
  assert (forall A (f : inst -> A), (forall d m y j, f (set_selected d m y j) = f j) ->
    (forall m y j, f (set_draw m y j) = f j) -> f (at_day c i1) = f i1) as Hk.
  { intros A f F1 F2. unfold at_day. destruct (civil c) as [[? ?] ?]. by rewrite F2, F1. }
  rewrite (Hk _ i_input), (Hk _ lastVal), (Hk _ i_target), (Hk _ i_inline) by (by intros; destruct j).
  split_and!; try (by unfold i1; destruct i).
  unfold w in i1. destruct (blank noDefault v r) eqn:Eb.
  - unfold getDate_. rewrite (Hk _ currentYear) by (by intros; destruct j). unfold i1. by destruct i.
  - apply getDate_current; [done| |].
    + unfold current_day. rewrite (Hk _ currentYear), (Hk _ currentMonth), (Hk _ currentDay) by (by intros; destruct j). unfold blank in Eb.
      apply orb_false_iff in Eb as [Ev _]. apply bool_decide_eq_false in Ev.
      unfold i1. destruct i, v; done.
    + rewrite (Hk _ i_input) by (by intros; destruct j). unfold blank in Eb.
      apply orb_false_iff in Eb as [Ev _]. apply bool_decide_eq_false in Ev.
      unfold i1. destruct i. cbn in *. congruence.
Qed.

End spec.

(** C20: moving by days, months or years.  From an instance that draws a month
    [m] of a year [y] with the day [d] selected, the picker goes to the day found
    by adding the days, or by adding the months or years and keeping the day
    within the month reached, brought between the bounds; the month drawn and the
    month selected are then those of that day, the settings are untouched, and
    [onChangeMonthYear] hears of a move by months or years. *)
Theorem adjustInstDate_moves {TZ : TimeZone} {TZL : TimeZoneLaws} (defaults : format_settings) (now : date)
    (st : settings) (lo hi : option Z) (p : period) (off y m d : Z) (i : inst) :
  has_bounds defaults now st lo hi -> i_settings i = st ->
  drawn i = (Some y, Some m) -> selectedDay i = Some d ->
  200 <= y <= 100000 -> 0 <= m <= 11 -> 0 <= d <= 31 -> Z.abs off <= 100 ->
  let n := clamp lo hi (moved p off y m d) in
  let '(i', ns) := adjustInstDate defaults now off p i in
  i' = at_day n i /\ i_settings i' = st /\
  selected i' = (Some (civil n).1.1, Some (civil n).1.2, Some (civil n).2) /\
  drawn i' = (Some (civil n).1.1, Some (civil n).1.2) /\
  ns = match p with
       | PMonth | PYear => if st_onChangeMonthYear st then
                             [NChangeMonthYear (Some (civil n).1.1) (Some ((civil n).1.2 + 1))] else []
       | _ => []
       end.
Proof.
  intros Hb Hi Hdr Hd Hy Hm Hdd Hoff n.
  assert ((adjustInstDate defaults now off p i).1 = at_day n i) as E
    by (apply (adjust_at defaults now st); try done; [lia..|destruct p; simpl; lia]).
  destruct (selected_at_day n i) as [E1 E2]. pose proof (at_day_settings n i) as E3.
  unfold adjustInstDate in *. cbn [fst] in E. rewrite E.
  split_and!; [done|by rewrite E3|done|done|]. destruct p; try done; unfold notifyChange; rewrite E3, Hi;
    injection E1 as E1 E4 E5; by rewrite E1, E4.
Qed.

(** A bounded picker for the witnesses: from 2015-10-18 to 2016-02-10. *)
Definition bounded (lo hi : date) : settings := {|
  st_dateFormat := txt "dd/mm/yy"; st_cutoff := CutStr (txt "+10");
  st_dayNamesShort := take 3 <$> day_names; st_dayNames := day_names; st_dayNamesMin := take 2 <$> day_names;
  st_monthNamesShort := take 3 <$> month_names; st_monthNames := month_names;
  st_defaultDate := DNull; st_minDate := DDate lo; st_maxDate := DDate hi;
  st_gotoCurrent := false; st_constrainInput := true;
  st_stepMonths := 1; st_stepBigMonths := 12; st_showCurrentAtPos := 0; st_numberOfMonths := MNum 1;
  st_yearRange := txt "c-10:c+10"; st_changeMonth := true; st_changeYear := true;
  st_showMonthAfterYear := false; st_yearSuffix := [];
  st_isRTL := false; st_showButtonPanel := true; st_hideIfNoPrevNext := false;
  st_navigationAsDateFormat := false;
  st_prevText := txt "Prev"; st_nextText := txt "Next"; st_currentText := txt "Today"; st_closeText := txt "Done";
  st_firstDay := Some 1; st_showWeek := false; st_weekHeader := txt "Wk";
  st_showOtherMonths := false; st_selectOtherMonths := false; st_beforeShowDay := None;
  st_onSelect := false; st_onChangeMonthYear := true; st_onClose := false;
  st_altField := false; st_altFormat := [];
  st_autoSize := false; st_showOn := txt "focus"; st_disabled := false
|}.

Definition day_2015_10_18 : Z := make_day 2015 9 18.
Definition day_2016_02_10 : Z := make_day 2016 1 10.
Definition example_settings `{TimeZone} : settings := bounded (date_at day_2015_10_18) (date_at day_2016_02_10).

Lemma example_bounds {TZ : TimeZone} {TZL : TimeZoneLaws} now :
  has_bounds english now example_settings (Some day_2015_10_18) (Some day_2016_02_10).
Proof.
  apply has_bounds_dates; (split; [reflexivity|]); unfold in_range; vm_compute; discriminate.
Qed.

(** One month on from January 31: February 29, beyond the maximum. *)
Lemma adjustInstDate_moves_witness :
  let TZ := summer_zone (-10800000) 1445137200000 in
  let i := at_day (make_day 2016 0 31) (newInst (@example_settings TZ) 0 false []) in
  let '(i', ns) := @adjustInstDate TZ english (Some 1453000000000) 1 PMonth i in
  selected i' = (Some 2016, Some 1, Some 10) /\ ns = [NChangeMonthYear (Some 2016) (Some 2)].
Proof.
  intros TZ i. pose proof (summer_zone_laws (-10800000) 1445137200000 ltac:(lia)) as TZL.
  pose proof (@adjustInstDate_moves TZ TZL english (Some 1453000000000) (@example_settings TZ)
    (Some day_2015_10_18) (Some day_2016_02_10) PMonth 1 2016 0 31 i (@example_bounds TZ TZL _)) as E.
  cbv zeta in E. specialize (E ltac:(reflexivity) ltac:(reflexivity) ltac:(reflexivity) ltac:(lia) ltac:(lia)
    ltac:(lia) ltac:(lia)).
  destruct (adjustInstDate _ _ _ _ _) as [i' ns]. destruct E as (_ & _ & E1 & _ & E2). rewrite E1, E2.
  split; vm_compute; reflexivity.
Defined.

(** Relative dates.  An option such as "+1m -7d", which is not a date in the
    format of the picker, stands for the day found from today by its offsets in
    order: days and weeks are added, months and years keep the day within the
    month reached. *)
Theorem relative_date {TZ : TimeZone} {TZL : TimeZoneLaws} (defaults : format_settings) (now : date)
    (i : inst) (l : list (Z * ascii)) (n0 : Z) (dflt : option date) :
  l <> [] -> Forall (fun o => is_unit o.2 = true /\ Z.abs o.1 <= 100) l -> (length l <= 8)%nat ->
  (exists msg, parse defaults now (i_settings i) (print_offsets l) = Throw msg) ->
  day_of now = Some n0 -> 1000 <= (civil n0).1.1 <= 9999 ->
  let '(y, m, d) := foldl offset_step (civil n0) l in
  determineDate defaults now i (DStr (print_offsets l)) dflt = Some (date_at (make_day y m d)).
Proof.
  intros Hne Hl Hlen Hp Hnow Hy. pose proof (offsetString_print defaults now i l n0 Hl Hlen Hp Hnow Hy) as E.
  destruct (foldl offset_step (civil n0) l) as [[y m] d]. destruct E as [E Hr].
  unfold determineDate. rewrite decide_False by (destruct l as [|[n u] [|o l]]; done). rewrite E.
  pose proof (strip_day (date_at (make_day y m d)) (make_day y m d) (day_of_date_at _) Hr) as Es.
  assert (exists u, date_at (make_day y m d) = Some u) as [u Eu] by (eexists; reflexivity).
  rewrite Eu in Es |- *. cbn [fmap option_fmap option_map]. unfold strip in Es. by rewrite Es.
Qed.

(** On January 31, 2016, a month and two days on is March 2. *)
Lemma relative_date_witness :
  let TZ := summer_zone (-10800000) 1445137200000 in
  let now := @new_date TZ (Some 2016) (Some 0) (Some 31) in
  @determineDate TZ english now (newInst (@example_settings TZ) 0 false []) (DStr (txt "+1m +2D")) None =
  Some (@date_at TZ (make_day 2016 2 2)).
Proof.
  intros TZ now. pose proof (summer_zone_laws (-10800000) 1445137200000 ltac:(lia)) as TZL.
  pose proof (@relative_date TZ TZL english now (newInst (@example_settings TZ) 0 false [])
    [(1, char "m"); (2, char "D")] (make_day 2016 0 31) None ltac:(discriminate)) as E.
  assert (civil (make_day 2016 0 31) = (2016, 0, 31)) as Ec by (vm_compute; reflexivity). rewrite Ec in E.
  change (make_day 2016 2 2) with (make_day 2016 1 31). apply E.
  - repeat (apply Forall_cons; split; [split; [vm_compute; reflexivity|simpl; lia]|]). apply Forall_nil. exact I.
  - simpl. lia.
  - exists "Missing number at position 0"%string. vm_compute. reflexivity.
  - vm_compute. reflexivity.
  - simpl. lia.
Defined.

(** [setDate] then [getDate].  A date given to the picker comes back brought
    between the bounds, at the start of its day; the field shows it in the
    picker's format, and the calendar is on it. *)
Theorem setDate_getDate {TZ : TimeZone} {TZL : TimeZoneLaws} (defaults : format_settings) (now : date)
    (st : settings) (lo hi : option Z) (d : date) (n : Z) (noChange : bool) (i : inst) :
  has_bounds defaults now st lo hi -> i_settings i = st -> day_of d = Some n -> in_range n ->
  let c := clamp lo hi n in
  year_in c -> format defaults now st (Some (date_at c)) <> [] ->
  let i' := (setDate_ defaults now (DDate d) noChange i).1 in
  getDate_ i' = Some (date_at c) /\ i_input i' = format defaults now st (Some (date_at c)) /\
  selected i' = (Some (civil c).1.1, Some (civil c).1.2, Some (civil c).2) /\
  drawn i' = (Some (civil c).1.1, Some (civil c).1.2).
Proof.
  intros Hb Hi Hd Hn c Hy Hf i'.
  destruct (setDate_day defaults now st lo hi d n noChange i) as (E1 & E2 & E3 & E4 & E5); try done.
  fold c i' in E1, E2, E3, E4, E5. split_and!; try done. apply getDate_current; [done|done|congruence].
Qed.

Lemma setDate_getDate_witness :
  let TZ := summer_zone (-10800000) 1445137200000 in
  let i := newInst (@example_settings TZ) 0 false [] in
  let i' := (@setDate_ TZ english None (DDate (@new_date TZ (Some 2015) (Some 8) (Some 1))) false i).1 in
  @getDate_ TZ i' = Some (@date_at TZ day_2015_10_18) /\ i_input i' = txt "18/10/2015".
Proof.
  intros TZ i i'. pose proof (summer_zone_laws (-10800000) 1445137200000 ltac:(lia)) as TZL.
  destruct (@setDate_getDate TZ TZL english None (@example_settings TZ) (Some day_2015_10_18) (Some day_2016_02_10)
    (@new_date TZ (Some 2015) (Some 8) (Some 1)) (make_day 2015 8 1) false i (@example_bounds TZ TZL _))
    as (E1 & E2 & _).
  - reflexivity.
  - vm_compute. reflexivity.
  - unfold in_range. vm_compute. discriminate.
  - vm_compute. split; discriminate.
  - vm_compute. discriminate.
  - split; [exact E1|]. unfold i'. rewrite E2. vm_compute. reflexivity.
Defined.

(** Reading the field.  When the text of the field has changed since it was
    last read, the picker goes to the date it is in the format, or to the default
    date when it is empty or is not a date, brought between the bounds; the field
    keeps its text.  [getDate] then returns the date read, or the default, as it
    is; it returns nothing when the field is empty, or when the text is not a
    date and no default is to be used. *)
Theorem setDateFromField_reads {TZ : TimeZone} {TZL : TimeZoneLaws} (defaults : format_settings) (now : date)
    (st : settings) (lo hi : option Z) (n0 n : Z) (noDefault : bool) (i : inst) :
  let v := i_input i in
  let r := parse defaults now st v in
  has_bounds defaults now st lo hi -> has_default defaults now st n0 -> i_settings i = st ->
  lastVal i <> Some v -> day_of (read_date (date_at n0) r) = Some n -> year_in n ->
  let c := clamp lo hi n in
  let i' := setDateFromField defaults now noDefault i in
  selected i' = (Some (civil c).1.1, Some (civil c).1.2, Some (civil c).2) /\
  drawn i' = (Some (civil c).1.1, Some (civil c).1.2) /\
  i_input i' = v /\ lastVal i' = Some v /\
  getDate_ i' = if blank noDefault v r then None else Some (date_at n).
Proof.
  intros v r Hb Hdef Hi Hl Hr Hy c i'.
  destruct (setDateFromField_day defaults now st lo hi n0 n v noDefault i) as (_ & E1 & E2 & E3 & E4 & _ & _ & E5);
    done.
Qed.

(** A text beyond the maximum. *)
Lemma setDateFromField_reads_witness :
  let TZ := summer_zone (-10800000) 1445137200000 in
  let now := @new_date TZ (Some 2016) (Some 0) (Some 31) in
  let i' := @setDateFromField TZ english now false (newInst (@example_settings TZ) 0 false (txt "5/3/2016")) in
  selected i' = (Some 2016, Some 1, Some 10) /\ @getDate_ TZ i' = Some (@date_at TZ (make_day 2016 2 5)).
Proof.
  intros TZ now i'. pose proof (summer_zone_laws (-10800000) 1445137200000 ltac:(lia)) as TZL.
  destruct (@setDateFromField_reads TZ TZL english now (@example_settings TZ) (Some day_2015_10_18)
    (Some day_2016_02_10) (make_day 2016 0 31) (make_day 2016 2 5) false
    (newInst (@example_settings TZ) 0 false (txt "5/3/2016")) (@example_bounds TZ TZL _)) as (E1 & _ & _ & _ & E2).
  - change (make_day 2016 0 31) with (clamp (Some day_2015_10_18) (Some day_2016_02_10) (make_day 2016 0 31)).
    apply (@has_default_today TZ TZL);
      [apply (@example_bounds TZ TZL)|reflexivity|vm_compute; reflexivity|unfold in_range; vm_compute; discriminate].
  - reflexivity.
  - discriminate.
  - vm_compute. reflexivity.
  - vm_compute. split; discriminate.
  - split; [etransitivity; [exact E1|vm_compute; reflexivity]|exact E2].
Defined.
