(* ===== verification/DateDraw.v ===== *)
(** * Drawing the date picker: [_generateHTML] and [_generateMonthYearHeader]
    (application bundle, lines 20495-20748)

    The table of a month is computed as cells ([make_cell]) and then written;
    the source does both in one loop.  A number that may be NaN is a [num]. *)

From S2P Require Import Prelude JsString JsDate DateFormat DatePicker.
From Stdlib Require Import ZArith Lia Ascii.

Local Open Scope Z_scope.
Local Open Scope js_scope.

Definition num_ltb (a b : num) : bool := match a, b with Some x, Some y => x <? y | _, _ => false end.
Definition num_leb (a b : num) : bool := match a, b with Some x, Some y => x <=? y | _, _ => false end.
Definition num_max (a b : num) : num := x ← a; y ← b; Some (Z.max x y).

(** [names[k]] in a string concatenation. *)
Definition name_at (names : list text) (k : Z) : text := formatName (Some k) names.

Definition when (b : bool) (s : string) : text := if b then txt s else [].

(** ** Cells *)

Record cell := Cell {
  c_date : date;
  c_weekend : bool; c_otherMonth : bool; c_dayOver : bool; c_unselectable : bool;
  c_current : bool; c_today : bool; c_settings : day_settings
}.

(** What the tables need, computed before the loops. *)
Record grid_ctx := GridCtx {
  g_today : date; g_currentDate : date; g_minDate : option date; g_maxDate : option date;
  g_defaultDate : date; g_firstDay : Z
}.

Section draw.
Context `{TimeZone} (defaults : format_settings) (now : date).

Definition make_ctx (i : inst) : grid_ctx :=
  GridCtx (daylightSavingAdjust (new_date (getFullYear now) (getMonth now) (getDate now)))
          (daylightSavingAdjust (if truthy (currentDay i)
             then new_date (currentYear i) (currentMonth i) (currentDay i)
             else new_date (Some 9999) (Some 9) (Some 9)))
          (minDate defaults now i) (maxDate defaults now i) (getDefaultDate defaults now i)
          (default 0 (st_firstDay (i_settings i))).

(** The [while] loop that goes back to the last month that may be drawn. *)
Fixpoint back_to (fuel : nat) (maxDraw : date) (year month : num) : num * num :=
  match fuel with
  | O => (year, month)
  | S n => if date_lt maxDraw (daylightSavingAdjust (new_date year month (Some 1)))
           then let month := num_add month (Some (-1)) in
                if num_ltb month (Some 0) then back_to n maxDraw (num_add year (Some (-1))) (Some 11)
                else back_to n maxDraw year month
           else (year, month)
  end.

(** Turns that are enough: the months between, with those of the years 0 to 99,
    which the [Date] constructor reads as 1900 to 1999. *)
Definition back_fuel (maxDraw : date) (year month : num) : nat :=
  match year, month, getFullYear maxDraw, getMonth maxDraw with
  | Some y, Some m, Some y', Some m' => Z.to_nat (12 * (y - y') + (m - m') + 1300)
  | _, _, _, _ => 1
  end.

(** The year and month of the first table. *)
Definition first_draw (i : inst) : num * num :=
  let '(rows, cols) := getNumberOfMonths i in
  let month := num_add (drawMonth i) (Some (- st_showCurrentAtPos (i_settings i))) in
  let '(year, month) := if num_ltb month (Some 0)
                        then (num_add (drawYear i) (Some (-1)), num_add month (Some 12))
                        else (drawYear i, month) in
  match maxDate defaults now i with
  | None => (year, month)
  | Some hi =>
      let maxDraw := daylightSavingAdjust (new_date (getFullYear hi)
                       (num_add (getMonth hi) (Some (1 - rows * cols))) (getDate hi)) in
      let maxDraw := match minDate defaults now i with
                     | Some lo => if date_lt maxDraw lo then lo else maxDraw
                     | None => maxDraw
                     end in
      back_to (back_fuel maxDraw year month) maxDraw year month
  end.

(** The body of the innermost loop. *)
Definition make_cell (i : inst) (g : grid_ctx) (drawMonth : num) (selectedDate : date) (dow : Z) (d : date) : cell :=
  let st := i_settings i in
  let ds := match st_beforeShowDay st with Some f => f d | None => DaySettings true [] None end in
  let other := negb (num_eqb (getMonth d) drawMonth) in
  Cell d (5 <=? Z.rem (dow + g_firstDay g + 6) 7) other
    ((num_eqb (getTime d) (getTime selectedDate) && num_eqb drawMonth (selectedMonth i) && i_keyEvent i) ||
     (num_eqb (getTime (g_defaultDate g)) (getTime d) &&
      num_eqb (getTime (g_defaultDate g)) (getTime selectedDate)))
    ((other && negb (st_selectOtherMonths st)) || negb (ds_selectable ds) ||
     match g_minDate g with Some lo => date_lt d lo | None => false end ||
     match g_maxDate g with Some hi => date_lt hi d | None => false end)
    (num_eqb (getTime d) (getTime (g_currentDate g))) (num_eqb (getTime d) (getTime (g_today g))) ds.

(** [printDate.setDate(printDate.getDate() + 1)], then the adjustment. *)
Definition next_day (d : date) : date :=
  daylightSavingAdjust (setDate (num_add (getDate d) (Some 1)) d).

Fixpoint make_row (mk : Z -> date -> cell) (n : nat) (dow : Z) (d : date) : list cell * date :=
  match n with
  | O => ([], d)
  | S n => let '(cs, d') := make_row mk n (dow + 1) (next_day d) in (mk dow d :: cs, d')
  end.

(** A row with the date whose week is shown. *)
Fixpoint make_rows (mk : Z -> date -> cell) (n : nat) (d : date) : list (date * list cell) :=
  match n with
  | O => []
  | S n => let '(row, d') := make_row mk 7 0 d in (d, row) :: make_rows mk n d'
  end.

(** [Math.ceil(a / 7)] *)
Definition ceil7 (a : num) : num := (fun a => (a + 6) / 7) <$> a.

Record table := Table { t_inst : inst; t_maxRows : num; t_rows : list (date * list cell) }.

(** One month: the instance with [selectedDay] clamped, the next [maxRows], the rows. *)
Definition month_table (i : inst) (g : grid_ctx) (multi : bool) (maxRows year month : num) : table :=
  let selectedDate := daylightSavingAdjust (new_date year month (selectedDay i)) in
  let daysInMonth := getDaysInMonth year month in
  let i := if num_eqb year (selectedYear i) && num_eqb month (selectedMonth i)
           then set_selected (num_min (selectedDay i) daysInMonth) (selectedMonth i) (selectedYear i) i
           else i in
  let leadDays := (fun w => Z.rem (w - g_firstDay g + 7) 7) <$> getFirstDayOfMonth year month in
  let curRows := ceil7 (num_add leadDays daysInMonth) in
  let numRows := if multi then if num_ltb curRows maxRows then maxRows else curRows else curRows in
  let printDate := daylightSavingAdjust (new_date year month ((fun l => 1 - l) <$> leadDays)) in
  Table i numRows (make_rows (make_cell i g month selectedDate) (Z.to_nat (default 0 numRows)) printDate).

(** ** Text *)

Definition escape_apos (s : text) : text := mjoin ((fun c => if decide (c = quote) then txt "&#39;" else [c]) <$> s).

Definition draw_cell (st : settings) (c : cell) : text :=
  let ds := c_settings c in
  let day := print_num (getDate (c_date c)) in
  let hidden := c_otherMonth c && negb (st_showOtherMonths st) in
  txt "<td class='" ++
  when (c_weekend c) " ui-datepicker-week-end" ++
  when (c_otherMonth c) " ui-datepicker-other-month" ++
  when (c_dayOver c) " ui-datepicker-days-cell-over" ++
  when (c_unselectable c) " ui-datepicker-unselectable ui-state-disabled" ++
  (if hidden then [] else txt " " ++ ds_class ds ++
     when (c_current c) " ui-datepicker-current-day" ++ when (c_today c) " ui-datepicker-today") ++ txt "'" ++
  match ds_title ds with
  | Some (_ :: _ as title) => if hidden then [] else txt " title='" ++ escape_apos title ++ txt "'"
  | _ => []
  end ++
  (if c_unselectable c then []
   else txt " data-handler='selectDay' data-event='click' data-month='" ++ print_num (getMonth (c_date c)) ++
        txt "' data-year='" ++ print_num (getFullYear (c_date c)) ++ txt "'") ++ txt ">" ++
  (if hidden then txt "&#xa0;"
   else if c_unselectable c then txt "<span class='ui-state-default'>" ++ day ++ txt "</span>"
   else txt "<a class='ui-state-default" ++ when (c_today c) " ui-state-highlight" ++
        when (c_current c) " ui-state-active" ++ when (c_otherMonth c) " ui-priority-secondary" ++
        txt "' href='#'>" ++ day ++ txt "</a>") ++ txt "</td>".

Definition draw_row (st : settings) (r : date * list cell) : text :=
  txt "<tr>" ++
  (if st_showWeek st then txt "<td class='ui-datepicker-week-col'>" ++ print_num (iso8601Week r.1) ++ txt "</td>"
   else []) ++
  mjoin (draw_cell st <$> r.2) ++ txt "</tr>".

Definition draw_head (st : settings) (firstDay : Z) : text :=
  (if st_showWeek st then txt "<th class='ui-datepicker-week-col'>" ++ st_weekHeader st ++ txt "</th>" else []) ++
  mjoin ((fun dow =>
    let day := Z.rem (dow + firstDay) 7 in
    txt "<th scope='col'" ++
    when (5 <=? Z.rem (dow + firstDay + 6) 7) " class='ui-datepicker-week-end'" ++
    txt "><span title='" ++ name_at (st_dayNames st) day ++ txt "'>" ++
    name_at (st_dayNamesMin st) day ++ txt "</span></th>") <$> seqZ 0 7).

(** [determineYear] of the header. *)
Definition has_c_sign (s : text) : bool :=
  existsb (fun k => match drop k s with
                    | c :: d :: _ => bool_decide (c = char "c") && bool_decide (d ∈ txt "+-")
                    | _ => false
                    end) (seq 0 (length s)).

Definition determineYear (year : num) (value : text) : num :=
  let thisYear := getFullYear now in
  let y := if has_c_sign value then num_add year (parse_int (drop 1 value))
           else if has_sign value then num_add thisYear (parse_int value)
           else parse_int value in
  match y with None => thisYear | _ => y end.

Definition draw_option (value : Z) (selected : bool) (label : text) : text :=
  txt "<option value='" ++ print_Z value ++ txt "'" ++ when selected " selected='selected'" ++
  txt ">" ++ label ++ txt "</option>".

Definition month_select (st : settings) (month year : num) (lo hi : option date) : text :=
  let inYear d := match d with Some d => num_eqb (getFullYear d) year | None => false end in
  let shown k := (negb (inYear lo) || match lo with Some d => num_leb (getMonth d) (Some k) | None => false end) &&
                 (negb (inYear hi) || match hi with Some d => num_leb (Some k) (getMonth d) | None => false end) in
  txt "<select class='ui-datepicker-month' data-handler='selectMonth' data-event='change'>" ++
  mjoin ((fun k => if shown k then draw_option k (num_eqb (Some k) month) (name_at (st_monthNamesShort st) k)
                   else []) <$> seqZ 0 12) ++
  txt "</select>".

(** The years offered: from [.1] to [.2]. *)
Definition year_bounds (st : settings) (year : num) (lo hi : option date) : num * num :=
  let '(a, b) := split_years (st_yearRange st) in
  let from := determineYear year a in
  let upto := num_max from (determineYear year (default [] b)) in
  (match lo with Some d => num_max from (getFullYear d) | None => from end,
   match hi with Some d => num_min upto (getFullYear d) | None => upto end).

Definition year_select (st : settings) (year : num) (lo hi : option date) : text :=
  txt "<select class='ui-datepicker-year' data-handler='selectYear' data-event='change'>" ++
  match year_bounds st year lo hi with
  | (Some a, Some b) =>
      mjoin ((fun y => draw_option y (num_eqb (Some y) year) (print_Z y)) <$> seqZ a (b - a + 1))
  | _ => []
  end ++ txt "</select>".

(** [_generateMonthYearHeader] *)
Definition generateMonthYearHeader (i : inst) (month year : num) (lo hi : option date)
    (secondary : bool) : text :=
  let st := i_settings i in
  let monthHtml :=
    if secondary || negb (st_changeMonth st)
    then txt "<span class='ui-datepicker-month'>" ++ formatName month (st_monthNames st) ++ txt "</span>"
    else month_select st month year lo hi in
  let gap := when (secondary || negb (st_changeMonth st && st_changeYear st)) "&#xa0;" in
  txt "<div class='ui-datepicker-title'>" ++
  (if st_showMonthAfterYear st then [] else monthHtml ++ gap) ++
  (if secondary || negb (st_changeYear st)
   then txt "<span class='ui-datepicker-year'>" ++ print_num year ++ txt "</span>"
   else year_select st year lo hi) ++
  st_yearSuffix st ++
  (if st_showMonthAfterYear st then gap ++ monthHtml else []) ++ txt "</div>".

(** [prev] and [next]: [dir] is -1 or 1. *)
Definition nav_link (i : inst) (dir : Z) (year month : num) (enabled : bool) : text :=
  let st := i_settings i in
  let label := if dir <? 0 then st_prevText st else st_nextText st in
  let label := if st_navigationAsDateFormat st
               then formatDate (config defaults now st) label
                      (Some (daylightSavingAdjust (new_date year
                         (num_add month (Some (dir * st_stepMonths st))) (Some 1))))
               else label in
  let cls := if dir <? 0 then "prev" else "next" in
  let icon := if Bool.eqb (dir <? 0) (st_isRTL st) then "e" else "w" in
  let inner := txt "><span class='ui-icon ui-icon-circle-triangle-" ++ txt icon ++ txt "'>" ++ label ++
               txt "</span></a>" in
  if enabled then
    txt "<a class='ui-datepicker-" ++ txt cls ++ txt " ui-corner-all' data-handler='" ++ txt cls ++
    txt "' data-event='click' title='" ++ label ++ txt "'" ++ inner
  else if st_hideIfNoPrevNext st then []
  else txt "<a class='ui-datepicker-" ++ txt cls ++ txt " ui-corner-all ui-state-disabled' title='" ++ label ++
       txt "'" ++ inner.

(** The classes of a group and of its header's corners. *)
Definition group_class (st : settings) (cols col : Z) : text * string :=
  if cols >? 1 then
    if col =? 0 then (txt " ui-datepicker-group-first", if st_isRTL st then " ui-corner-right" else " ui-corner-left")
    else if col =? cols - 1
    then (txt " ui-datepicker-group-last", if st_isRTL st then " ui-corner-left" else " ui-corner-right")
    else (txt " ui-datepicker-group-middle", "")
  else ([], " ui-corner-all").

(** The state of the loops over months. *)
Record draw_state := DrawState {
  d_inst : inst; d_year : num; d_month : num; d_maxRows : num; d_html : text
}.

Definition next_month (year month : num) : num * num :=
  let month := num_add month (Some 1) in
  if num_ltb (Some 11) month then (num_add year (Some 1), Some 0) else (year, month).

(** The body of the loop over [col]. *)
Definition draw_month (g : grid_ctx) (rows cols : Z) (prev next : text) (s : draw_state) (rc : Z * Z) : draw_state :=
  let '(row, col) := rc in
  let st := i_settings (d_inst s) in
  let multi := negb ((rows =? 1) && (cols =? 1)) in
  let t := month_table (d_inst s) g multi (if col =? 0 then Some 4 else d_maxRows s) (d_year s) (d_month s) in
  let '(cls, corner) := if multi then group_class st cols col else ([], " ui-corner-all") in
  let left := bool_decide (corner ∈ [" ui-corner-all"; " ui-corner-left"]) in
  let right := bool_decide (corner ∈ [" ui-corner-all"; " ui-corner-right"]) in
  let html :=
    (if multi then txt "<div class='ui-datepicker-group" ++ cls ++ txt "'>" else []) ++
    txt "<div class='ui-datepicker-header ui-widget-header ui-helper-clearfix" ++ txt corner ++ txt "'>" ++
    (if left && (row =? 0) then if st_isRTL st then next else prev else []) ++
    (if right && (row =? 0) then if st_isRTL st then prev else next else []) ++
    generateMonthYearHeader (d_inst s) (d_month s) (d_year s) (g_minDate g) (g_maxDate g)
      ((0 <? row) || (0 <? col)) ++
    txt "</div><table class='ui-datepicker-calendar'><thead><tr>" ++ draw_head st (g_firstDay g) ++
    txt "</tr></thead><tbody>" ++ mjoin (draw_row st <$> t_rows t) ++ txt "</tbody></table>" ++
    (if multi then txt "</div>" ++ when ((0 <? rows) && (col =? cols - 1)) "<div class='ui-datepicker-row-break'></div>"
     else []) in
  let '(year, month) := next_month (d_year s) (d_month s) in
  DrawState (t_inst t) year month (t_maxRows t) (d_html s ++ html).

Definition positions (rows cols : Z) : list (Z * Z) := r ← seqZ 0 rows; c ← seqZ 0 cols; [(r, c)].

Definition button_panel (i : inst) (g : grid_ctx) (in_range : bool) : text :=
  let st := i_settings i in
  let gotoDate := if st_gotoCurrent st && truthy (currentDay i) then g_currentDate g else g_today g in
  let currentText := if st_navigationAsDateFormat st
                     then formatDate (config defaults now st) (st_currentText st) (Some gotoDate)
                     else st_currentText st in
  let controls := if i_inline i then []
                  else txt "<button type='button' class='ui-datepicker-close ui-state-default ui-priority-primary ui-corner-all' data-handler='hide' data-event='click'>" ++
                       st_closeText st ++ txt "</button>" in
  txt "<div class='ui-datepicker-buttonpane ui-widget-content'>" ++
  (if st_isRTL st then controls else []) ++
  (if in_range then txt "<button type='button' class='ui-datepicker-current ui-state-default ui-priority-secondary ui-corner-all' data-handler='today' data-event='click'>" ++
                    currentText ++ txt "</button>" else []) ++
  (if st_isRTL st then [] else controls) ++ txt "</div>".

(** [_generateHTML]: the instance it leaves and the markup, or the exception of
    [_isInRange]; an exception comes after [drawMonth] and [drawYear] are set. *)
Definition generateHTML (i : inst) : inst * jsres text :=
  let g := make_ctx i in
  let st := i_settings i in
  let '(rows, cols) := getNumberOfMonths i in
  let '(year, month) := first_draw i in
  let i := set_draw month year i in
  let gotoDate := if st_gotoCurrent st && truthy (currentDay i) then g_currentDate g else g_today g in
  let checks :=
    let? p := canAdjustMonth defaults now i (-1) year month in
    let? n := canAdjustMonth defaults now i 1 year month in
    let? t := (if st_showButtonPanel st then isInRange defaults now i gotoDate else Ok true) in
    Ok (p, n, t) in
  match checks with
  | Throw msg => (i, Throw msg)
  | Ok (p, n, t) =>
      let s := foldl (draw_month g rows cols (nav_link i (-1) year month p) (nav_link i 1 year month n))
                 (DrawState i year month (Some 4) []) (positions rows cols) in
      let panel := if st_showButtonPanel st then button_panel i g t else [] in
      (set_keyEvent false (d_inst s), Ok (d_html s ++ panel))
  end.

End draw.
