(* ===== verification/DateGrid.v ===== *)
(** * The tables of the months: what [DateDraw] lays out, in day numbers *)

From S2P Require Import Prelude JsString JsDate DateFormat DateFormatSpec DatePicker DatePickerSpec DateDraw.
From Stdlib Require Import ZArith Lia Ascii.

Local Open Scope Z_scope.
Local Open Scope js_scope.

#[local] Opaque civil.

(** ** Months in a row: month [k] of year 0 is month [k mod 12] of year [k / 12] *)

Definition month_start (k : Z) : Z := make_day 0 k 1.
Definition month_index (n : Z) : Z := 12 * (civil n).1.1 + (civil n).1.2.

Lemma month_start_ym y m : make_day y m 1 = month_start (12 * y + m).
Proof. unfold month_start. rewrite make_day_norm, (make_day_norm 0). f_equal; divlia. Qed.

Lemma month_start_next k : month_start (k + 1) = month_start k + month_days 0 k.
Proof.
  unfold month_start, month_days. rewrite (make_day_norm 0 k).
  replace (make_day 0 (k + 1) 1) with (make_day (0 + k / 12) (k mod 12 + 1) 1).
  - apply make_day_next. divlia.
  - rewrite (make_day_norm _ (k mod 12 + 1)), (make_day_norm 0 (k + 1)). f_equal; divlia.
Qed.

Lemma month_start_gap k k' : k <= k' -> month_start k + 28 * (k' - k) <= month_start k'.
Proof.
  intros Hk. replace k' with (k + Z.of_nat (Z.to_nat (k' - k))) by lia.
  induction (Z.to_nat (k' - k)) as [|n IH]; [rewrite !Z.add_0_r; lia|].
  rewrite Nat2Z.inj_succ. unfold Z.succ. rewrite (Z.add_assoc k), month_start_next.
  pose proof (month_days_bounds 0 (k + Z.of_nat n)). lia.
Qed.

Lemma month_start_mono k k' : k <= k' -> month_start k <= month_start k'.
Proof. intros Hk. pose proof (month_start_gap k k' Hk). lia. Qed.

Lemma month_index_spec n : month_start (month_index n) <= n < month_start (month_index n + 1).
Proof.
  pose proof (civil_valid n) as Hc. unfold month_index. destruct (civil n) as [[y m] d].
  destruct Hc as ([Hm Hd] & <- & _). cbn [fst snd]. rewrite month_start_next, <- month_start_ym.
  replace d with (1 + (d - 1)) by lia. rewrite make_day_add.
  assert (month_days 0 (12 * y + m) = month_length y m) as ->.
  { unfold month_days. f_equal; divlia. }
  lia.
Qed.

(** A month begins by day [n] exactly when it is not after the month of [n]. *)
Lemma month_start_le k n : month_start k <= n <-> k <= month_index n.
Proof.
  pose proof (month_index_spec n) as [H1 H2]. split; intros Hk.
  - destruct (Z.le_gt_cases k (month_index n)) as [|Hgt]; [done|].
    pose proof (month_start_mono (month_index n + 1) k ltac:(lia)). lia.
  - pose proof (month_start_mono k (month_index n) Hk). lia.
Qed.

Section grid.
Context {TZ : TimeZone} {TZL : TimeZoneLaws} (defaults : format_settings) (now : date).

(** ** Rows *)

Definition far (n : Z) : Prop := Z.abs n <= 98000000.

Lemma next_day_at n : far n -> next_day (date_at n) = date_at (n + 1).
Proof.
  intros Hn. unfold next_day. destruct (fields_date_at n) as (_ & _ & -> & _).
  unfold num_add. cbn [mbind option_bind]. pose proof (civil_valid n) as Hc.
  destruct (civil n) as [[y m] d] eqn:E. destruct Hc as (_ & Hd & _). cbn [snd].
  assert (make_day y m (d + 1) = n + 1) as Ed by (rewrite make_day_add; lia).
  rewrite (setDate_adjust n (d + 1) y m d) by (done || (rewrite Ed; unfold in_range, far in *; lia)). by rewrite Ed.
Qed.

Definition row_cells (mk : Z -> date -> cell) (dow n k : Z) : list cell :=
  (fun j => mk (dow + j) (date_at (n + j))) <$> seqZ 0 k.

Lemma row_cells_succ mk dow n k : 0 <= k ->
  row_cells mk dow n (k + 1) = mk dow (date_at n) :: row_cells mk (dow + 1) (n + 1) k.
Proof.
  intros Hk. unfold row_cells. rewrite seqZ_cons by lia. cbn [fmap list_fmap]. f_equal; [by rewrite !Z.add_0_r|].
  replace (Z.pred (k + 1)) with k by lia. change (Z.succ 0) with (1 + 0); rewrite <- (fmap_add_seqZ 1 0 k), <- list_fmap_compose.
  apply list_fmap_ext. intros _ j _. cbn. f_equal; [lia|]. f_equal. lia.
Qed.

Lemma make_row_at mk k : forall dow n, far n -> far (n + Z.of_nat k) ->
  make_row mk k dow (date_at n) = (row_cells mk dow n (Z.of_nat k), date_at (n + Z.of_nat k)).
Proof.
  induction k as [|k IH]; intros dow n H1 H2.
  - cbn [make_row]. rewrite Z.add_0_r. done.
  - cbn [make_row]. rewrite next_day_at by done. unfold far in *. rewrite IH by lia.
    replace (Z.of_nat (S k)) with (Z.of_nat k + 1) by lia. rewrite row_cells_succ by lia.
    f_equal. f_equal. lia.
Qed.

Definition week_rows (mk : Z -> date -> cell) (n r : Z) : list (date * list cell) :=
  (fun q => (date_at (n + 7 * q), row_cells mk 0 (n + 7 * q) 7)) <$> seqZ 0 r.

Lemma make_rows_at mk r : forall n, far n -> far (n + 7 * Z.of_nat r) ->
  make_rows mk r (date_at n) = week_rows mk n (Z.of_nat r).
Proof.
  induction r as [|r IH]; intros n H1 H2; [done|].
  cbn [make_rows]. unfold far in *. rewrite make_row_at by (unfold far; lia).
  change (Z.of_nat 7) with 7. rewrite IH by lia. unfold week_rows.
  rewrite (seqZ_cons 0 (Z.of_nat (S r))) by lia. cbn [fmap list_fmap]. rewrite Z.mul_0_r, Z.add_0_r. f_equal.
  replace (Z.pred (Z.of_nat (S r))) with (Z.of_nat r) by lia.
  change (Z.succ 0) with (1 + 0); rewrite <- (fmap_add_seqZ 1 0 (Z.of_nat r)), <- list_fmap_compose.
  apply list_fmap_ext. intros _ j _. cbn. by replace (n + 7 + 7 * j) with (n + 7 * (1 + j)) by lia.
Qed.

(** ** A month *)

(** The first day shown for month [m] of year [y], and the weeks needed. *)
Definition lead_days (fd y m : Z) : Z := (week_day (make_day y m 1) - fd) mod 7.
Definition grid_start (fd y m : Z) : Z := make_day y m 1 - lead_days fd y m.
Definition grid_rows (fd y m : Z) : Z := (lead_days fd y m + month_length y m + 6) / 7.

Lemma lead_rem fd w : 0 <= fd <= 6 -> 0 <= w <= 6 -> Z.rem (w - fd + 7) 7 = (w - fd) mod 7.
Proof. intros Hf Hw. rewrite Z.rem_mod_nonneg by lia. divlia. Qed.

Lemma week_day_bounds n : 0 <= week_day n <= 6.
Proof. unfold week_day. divlia. Qed.

Definition table_rows (multi : bool) (maxRows fd y m : Z) : Z :=
  if multi then Z.max maxRows (grid_rows fd y m) else grid_rows fd y m.

Lemma month_table_at i g multi maxRows y m : 200 <= y <= 100000 -> 0 <= m <= 11 -> 0 <= g_firstDay g <= 6 ->
  0 <= maxRows <= 100 ->
  let R := table_rows multi maxRows (g_firstDay g) y m in
  let t := month_table i g multi (Some maxRows) (Some y) (Some m) in
  t_maxRows t = Some R /\
  exists j, t_rows t = week_rows (make_cell j g (Some m)
    (daylightSavingAdjust (new_date (Some y) (Some m) (selectedDay i)))) (grid_start (g_firstDay g) y m) R /\
    i_settings j = i_settings i /\ i_keyEvent j = i_keyEvent i /\ selectedMonth j = selectedMonth i /\ t_inst t = j.
Proof.
  intros Hy Hm Hf Hmr R t. unfold t, month_table.
  assert (in_range (make_day y m 1)) as Hr by (apply in_range_far; lia).
  assert (getFirstDayOfMonth (Some y) (Some m) = Some (week_day (make_day y m 1))) as ->.
  { unfold getFirstDayOfMonth. rewrite new_date_at; rewrite full_year_id by lia; [|done]. apply fields_date_at. }
  rewrite getDaysInMonth_month by lia. cbn [fmap option_fmap option_map].
  pose proof (week_day_bounds (make_day y m 1)) as Hw. rewrite lead_rem by done.
  fold (lead_days (g_firstDay g) y m). set (lead := lead_days (g_firstDay g) y m).
  assert (0 <= lead <= 6) as Hl by (unfold lead, lead_days; divlia).
  assert (month_days y m = month_length y m) as Em
    by (unfold month_days; rewrite Z.div_small, Z.mod_small by lia; by rewrite Z.add_0_r).
  pose proof (month_length_bounds y m Hm) as Hlen.
  unfold num_add, ceil7. cbn [mbind option_bind fmap option_fmap option_map]. rewrite Em.
  rewrite new_date_adjust by lia.
  replace (make_day y m (1 - lead)) with (grid_start (g_firstDay g) y m)
    by (unfold grid_start; replace (1 - lead) with (1 + - lead) by lia; rewrite make_day_add; unfold lead; lia).
  match goal with |- context [Table _ ?x _] => assert (x = Some R) as -> end.
  { unfold R, table_rows, grid_rows. fold lead. destruct multi; [|done]. unfold num_ltb.
    destruct (Z.ltb_spec ((lead + month_length y m + 6) / 7) maxRows); f_equal; lia. }
  cbn [t_maxRows t_rows t_inst from_option id]. split; [done|].
  assert (0 <= R <= 106) as HR.
  { unfold R, table_rows, grid_rows. fold lead. assert (0 <= (lead + month_length y m + 6) / 7 <= 6) by divlia.
    destruct multi; lia. }
  assert (Z.abs (make_day y m 1) <= 97000000) as Hfar.
  { rewrite make_day_in by done. pose proof (days_before_mono y 0 m ltac:(lia) ltac:(lia) ltac:(lia)) as H0.
    pose proof (days_before_mono y m 12 ltac:(lia) ltac:(lia) ltac:(lia)) as H1.
    rewrite days_before_12 in H1. change (days_before y 0) with 0 in H0. unfold day_from_year. destruct (leap y); divlia. }
  eexists. rewrite make_rows_at by (unfold far, grid_start; fold lead; lia). rewrite Z2Nat.id by lia.
  split; [done|]. destruct (_ && _); destruct i; done.
Qed.

Definition cells (t : table) : list cell := mjoin (snd <$> t_rows t).

Lemma week_cells mk k : forall n, mjoin (snd <$> week_rows mk n (Z.of_nat k)) =
  (fun j => mk (j mod 7) (date_at (n + j))) <$> seqZ 0 (7 * Z.of_nat k).
Proof.
  induction k as [|k IH]; intros n; [done|].
  assert (week_rows mk n (Z.of_nat (S k)) = (date_at n, row_cells mk 0 n 7) :: week_rows mk (n + 7) (Z.of_nat k)) as ->.
  { unfold week_rows. rewrite seqZ_cons by lia. cbn [fmap list_fmap]. rewrite Z.mul_0_r, Z.add_0_r. f_equal.
    replace (Z.pred (Z.of_nat (S k))) with (Z.of_nat k) by lia.
    change (Z.succ 0) with (1 + 0). rewrite <- (fmap_add_seqZ 1 0), <- list_fmap_compose.
    apply list_fmap_ext. intros _ j _. cbn. by replace (n + 7 + 7 * j) with (n + 7 * (1 + j)) by lia. }
  rewrite fmap_cons. cbn [snd mjoin list_join]. rewrite IH.
  replace (7 * Z.of_nat (S k)) with (7 + 7 * Z.of_nat k) by lia. rewrite seqZ_app by lia. rewrite fmap_app. f_equal.
  change (0 + 7) with (7 + 0). rewrite <- (fmap_add_seqZ 7 0), <- list_fmap_compose.
  apply list_fmap_ext. intros _ j _. cbn. f_equal; [divlia|f_equal; lia].
Qed.

(** The cells of a month's table, in order. *)
Lemma month_cells i g multi maxRows y m : 200 <= y <= 100000 -> 0 <= m <= 11 -> 0 <= g_firstDay g <= 6 ->
  0 <= maxRows <= 100 ->
  let R := table_rows multi maxRows (g_firstDay g) y m in
  let start := grid_start (g_firstDay g) y m in
  exists j, i_settings j = i_settings i /\ i_keyEvent j = i_keyEvent i /\ selectedMonth j = selectedMonth i /\
    cells (month_table i g multi (Some maxRows) (Some y) (Some m)) =
    (fun k => make_cell j g (Some m) (daylightSavingAdjust (new_date (Some y) (Some m) (selectedDay i)))
                (k mod 7) (date_at (start + k))) <$> seqZ 0 (7 * R).
Proof.
  intros Hy Hm Hf Hmr R start.
  destruct (month_table_at i g multi maxRows y m Hy Hm Hf Hmr) as (_ & j & E & E1 & E2 & E3 & _).
  exists j. split_and!; try done. unfold cells. rewrite E. fold R start.
  assert (0 <= R) as HR.
  { unfold R, table_rows, grid_rows, lead_days. pose proof (month_length_bounds y m Hm).
    assert (0 <= ((week_day (make_day y m 1) - g_firstDay g) mod 7 + month_length y m + 6) / 7) by divlia.
    destruct multi; lia. }
  rewrite <- (Z2Nat.id R) by done. apply week_cells.
Qed.

Lemma grid_bounds fd y m : 0 <= m <= 11 -> 0 <= fd <= 6 ->
  let first := make_day y m 1 in
  let start := grid_start fd y m in
  week_day start = fd /\ start <= first < start + 7 /\
  start + 7 * (grid_rows fd y m - 1) < first + month_length y m <= start + 7 * grid_rows fd y m.
Proof.
  intros Hm Hf first start. pose proof (month_length_bounds y m Hm) as Hl.
  unfold start, grid_start, grid_rows. fold first. set (lead := lead_days fd y m).
  assert (lead = (week_day first - fd) mod 7) as El by reflexivity. clearbody lead.
  unfold week_day in *. split_and!; divlia.
Qed.

Lemma seqZ_fmap_add n k : (fun j => date_at (n + j)) <$> seqZ 0 k = date_at <$> seqZ n k.
Proof. replace (seqZ n k) with (seqZ (n + 0) k) by (f_equal; lia). rewrite <- fmap_add_seqZ, <- list_fmap_compose. done. Qed.

(** ** The context of the tables, the first month drawn *)

Lemma getTime_eqb n n' : num_eqb (getTime (date_at n)) (getTime (date_at n')) = (n =? n').
Proof.
  unfold getTime, num_eqb, date_at. destruct (Z.eqb_spec n n') as [->|Hne]; [apply Z.eqb_refl|].
  apply Z.eqb_neq. intros E. apply Hne. apply date_at_inj. unfold date_at. by rewrite E.
Qed.

Lemma ctx_today i n0 : day_of now = Some n0 -> year_in n0 -> g_today (make_ctx defaults now i) = date_at n0.
Proof.
  intros Hn Hy. unfold make_ctx. cbn [g_today]. destruct (fields_day_of now n0 Hn) as (-> & -> & ->).
  by apply new_date_civil.
Qed.

Lemma date_le_at n n' : date_le (date_at n) (date_at n') = (n <=? n').
Proof.
  change (date_le (date_at n) (date_at n')) with (to_utc (n * ms_day) <=? to_utc (n' * ms_day)).
  by rewrite !Z.leb_antisym, date_at_ltb.
Qed.

(** The loop goes back to the month of [x], and no further. *)
Lemma back_to_at x : year_in x -> forall fuel y m, 100 <= y <= 100000 -> 0 <= m <= 11 ->
  12 * y + m - month_index x < Z.of_nat fuel ->
  exists y' m', back_to fuel (date_at x) (Some y) (Some m) = (Some y', Some m') /\ 0 <= m' <= 11 /\
    12 * y' + m' = Z.min (12 * y + m) (month_index x).
Proof.
  intros Hx. assert (1200 <= month_index x) as Hx2.
  { unfold month_index, year_in in *. pose proof (civil_bounds x). lia. }
  induction fuel as [|fuel IH]; intros y m Hy Hm Hf.
  - exists y, m. split_and!; [done|lia..].
  - cbn [back_to]. rewrite new_date_adjust by lia. rewrite date_lt_at, month_start_ym.
    pose proof (month_start_le (12 * y + m) x) as Hle.
    destruct (Z.ltb_spec x (month_start (12 * y + m))).
    + assert (month_index x < 12 * y + m) by (destruct (Z.lt_ge_cases (month_index x) (12 * y + m)); [done|lia]).
      unfold num_add, num_ltb. cbn [mbind option_bind]. destruct (Z.ltb_spec (m + -1) 0).
      * destruct (IH (y + -1) 11) as (y' & m' & E & E1 & E2); [lia..|]. exists y', m'. split_and!; [done|lia..].
      * destruct (IH y (m + -1)) as (y' & m' & E & E1 & E2); [lia..|]. exists y', m'. split_and!; [done|lia..].
    + exists y, m. split_and!; [done|lia..].
Qed.

(** The day that limits the months drawn. *)
Definition max_draw (rows cols : Z) (lo hi : option Z) : option Z :=
  h ← hi;
  let '(y, m, d) := civil h in
  let x := make_day y (m + (1 - rows * cols)) d in
  Some (match lo with Some l => Z.max l x | None => x end).

(** The month drawn first: back by [showCurrentAtPos], and back to the limit. *)
Lemma first_draw_at st lo hi i y m : has_bounds defaults now st lo hi -> i_settings i = st ->
  drawn i = (Some y, Some m) -> 300 <= y <= 100000 -> 0 <= m <= 11 -> 0 <= st_showCurrentAtPos st <= 11 ->
  let '(rows, cols) := getNumberOfMonths i in
  Z.abs (rows * cols) <= 1000 ->
  match hi with Some h => 300 <= (civil h).1.1 <= 100000 | None => True end ->
  match max_draw rows cols lo hi with Some x => year_in x | None => True end ->
  exists y' m', first_draw defaults now i = (Some y', Some m') /\ 0 <= m' <= 11 /\
    12 * y' + m' = (let k := 12 * y + m - st_showCurrentAtPos st in
                    match max_draw rows cols lo hi with Some x => Z.min k (month_index x) | None => k end).
Proof.
  intros Hb Hi [= Ey Em] Hy Hm Hp. destruct (getNumberOfMonths i) as [rows cols] eqn:En. intros Hrc Hh Hx.
  unfold first_draw. rewrite En, Ey, Em, Hi. destruct (Hb i Hi) as [-> ->].
  unfold num_add, num_ltb. cbn [mbind option_bind]. set (p := st_showCurrentAtPos st) in *.
  match goal with |- context [if m + - p <? 0 then ?a else ?b] =>
    assert (exists y1 m1, (if m + - p <? 0 then a else b) = (Some y1, Some m1) /\ 0 <= m1 <= 11 /\
      12 * y1 + m1 = 12 * y + m - p /\ 299 <= y1 <= 100000) as (y1 & m1 & E1 & Hm1 & Hk & Hy1) end.
  { destruct (Z.ltb_spec (m + - p) 0); eexists _, _; split_and!; try done; lia. }
  rewrite E1. clear E1. unfold max_draw in *. destruct hi as [h|]; cbn [fmap option_fmap option_map mbind option_bind] in *;
    [|by exists y1, m1].
  destruct (fields_date_at h) as (-> & -> & -> & _). cbn [mbind option_bind].
  pose proof (civil_bounds h) as [Hmh Hdh]. destruct (civil h) as [[yh mh] dh]. cbn [fst snd] in *.
  rewrite new_date_adjust by lia. set (x := make_day yh (mh + (1 - rows * cols)) dh) in *.
  assert (match date_at <$> lo with Some l => if date_lt (date_at x) l then l else date_at x | None => date_at x end =
    date_at (match lo with Some l => Z.max l x | None => x end)) as ->.
  { destruct lo as [l|]; cbn [fmap option_fmap option_map]; [|done]. rewrite date_lt_at.
    destruct (Z.ltb_spec x l); f_equal; lia. }
  set (z := match lo with Some l => Z.max l x | None => x end) in *.
  assert (12 * y1 + m1 - month_index z < Z.of_nat (back_fuel (date_at z) (Some y1) (Some m1))) as Hfuel.
  { unfold back_fuel. destruct (fields_date_at z) as (-> & -> & _). unfold month_index. lia. }
  destruct (back_to_at z Hx _ y1 m1 ltac:(lia) Hm1 Hfuel) as (y' & m' & E & E2 & E3).
  exists y', m'. split_and!; [done|lia..].
Qed.

(** A day between the bounds. *)
Definition in_bounds (lo hi : option Z) (n : Z) : bool :=
  match lo with Some l => l <=? n | None => true end && match hi with Some h => n <=? h | None => true end.

Lemma month_near k n : month_start k - 60 <= n <= month_start k + 60 ->
  ((civil n).1.2 =? k mod 12) = (k =? month_index n).
Proof.
  intros Hn. pose proof (month_index_spec n) as [H1 H2]. pose proof (civil_bounds n) as [Hm _].
  assert ((civil n).1.2 = month_index n mod 12) as -> by (unfold month_index; divlia).
  set (j := month_index n) in *. clearbody j.
  assert (k - 4 < j < k + 4) as Hj.
  { split.
    - destruct (Z.lt_ge_cases (k - 4) j); [done|]. pose proof (month_start_gap (j + 1) k ltac:(lia)). lia.
    - destruct (Z.lt_ge_cases j (k + 4)); [done|]. pose proof (month_start_gap k j ltac:(lia)). lia. }
  destruct (Z.eqb_spec k j) as [->|Hne]; [apply Z.eqb_refl|]. apply Z.eqb_neq. divlia.
Qed.

Lemma bounds_unselectable lo hi n :
  match date_at <$> lo with Some l => date_lt (date_at n) l | None => false end ||
  match date_at <$> hi with Some h => date_lt h (date_at n) | None => false end = negb (in_bounds lo hi n).
Proof.
  unfold in_bounds. destruct lo as [l|], hi as [h|]; cbn [fmap option_fmap option_map]; rewrite ?date_lt_at;
    bool_cases; try done; lia.
Qed.

(** ** Drawing leaves the selection alone *)

Lemma set_selected_same i d m y : selected i = (y, m, d) -> set_selected d m y i = i.
Proof. intros [= <- <- <-]. by destruct i. Qed.

Definition selects (n : Z) (i : inst) : Prop :=
  selected i = (Some (civil n).1.1, Some (civil n).1.2, Some (civil n).2).

Lemma month_table_inst i g multi maxRows year month n : selects n i -> year_in n ->
  t_inst (month_table i g multi maxRows year month) = i.
Proof.
  intros Hs Hy. unfold month_table. cbn [t_inst].
  destruct (num_eqb year (selectedYear i) && num_eqb month (selectedMonth i)) eqn:E; [|done].
  apply andb_true_iff in E as [E1 E2]. injection Hs as Ey Em Ed. rewrite Ey, Em, Ed in *.
  apply num_eqb_eq in E1 as (a & -> & [= <-]). apply num_eqb_eq in E2 as (b & -> & [= <-]).
  pose proof (civil_bounds n) as [Hm _]. unfold year_in in Hy. rewrite getDaysInMonth_month by lia.
  pose proof (civil_valid n) as Hc. destruct (civil n) as [[y m] d]. destruct Hc as ([_ Hd] & _). cbn [fst snd] in *.
  unfold num_min. cbn [mbind option_bind]. unfold month_days.
  rewrite Z.div_small, Z.mod_small, Z.add_0_r, Z.min_l by lia.
  apply set_selected_same. unfold selected. congruence.
Qed.

Lemma draw_months_inst g rows cols prev next n l : forall s, selects n (d_inst s) -> year_in n ->
  d_inst (foldl (draw_month now g rows cols prev next) s l) = d_inst s.
Proof.
  induction l as [|[r c] l IH]; intros s Hs Hy; [done|]. cbn [foldl].
  assert (d_inst (draw_month now g rows cols prev next s (r, c)) = d_inst s) as E.
  { unfold draw_month.
    match goal with |- context [t_inst ?t] => assert (t_inst t = d_inst s) as Et
      by (apply (month_table_inst _ _ _ _ _ _ n); done) end.
    destruct (if negb ((rows =? 1) && (cols =? 1)) then _ else _) as [cls corner].
    destruct (next_month (d_year s) (d_month s)) as [y' m']. cbn [d_inst]. exact Et. }
  rewrite IH; [exact E|by rewrite E|done].
Qed.

(** The years of [yearRange] can be read. *)
Definition range_reads (st : settings) : Prop := exists a, year_limits now st = Ok a.

Lemma isInRange_ok st i d : range_reads st -> i_settings i = st -> exists b, isInRange defaults now i d = Ok b.
Proof.
  intros [[a b] E] Hi. unfold isInRange. rewrite Hi, E. cbn [jbind]. by eexists.
Qed.

Lemma canAdjust_ok st i off y m : range_reads st -> i_settings i = st ->
  exists b, canAdjustMonth defaults now i off y m = Ok b.
Proof. intros Hr Hi. unfold canAdjustMonth. destruct (getNumberOfMonths i). by apply (isInRange_ok st). Qed.

Lemma generateHTML_keeps st n i : range_reads st -> i_settings i = st -> selects n i -> year_in n ->
  exists html, generateHTML defaults now i =
    (set_keyEvent false (set_draw (first_draw defaults now i).2 (first_draw defaults now i).1 i), Ok html).
Proof.
  intros Hr Hi Hs Hy. unfold generateHTML. destruct (getNumberOfMonths i) as [rows cols].
  destruct (first_draw defaults now i) as [year month]. cbn [fst snd].
  set (i1 := set_draw month year i).
  assert (i_settings i1 = st) as H1 by (by unfold i1; destruct i).
  assert (selects n i1) as Hs1 by (unfold selects in *; rewrite <- Hs; unfold i1; by destruct i).
  destruct (canAdjust_ok st i1 (-1) year month Hr H1) as [p ->].
  destruct (canAdjust_ok st i1 1 year month Hr H1) as [q ->]. cbn [jbind].
  match goal with |- context [if st_showButtonPanel ?a then isInRange ?b ?c ?d ?e else _] =>
    destruct (isInRange_ok st d e Hr H1) as [r ->] end.
  assert (forall A B (b : bool) (x : A) (k : A -> jsres B), jbind (if b then Ok x else Ok x) k = k x) as Hif
    by (by intros ?? []).
  destruct (st_showButtonPanel _); cbn [jbind]; rewrite (draw_months_inst _ _ _ _ _ n) by done; by eexists.
Qed.

(** ** The links to other months *)

Lemma setDate_midnight n k y m d : civil n = (y, m, d) -> in_range (make_day y m k) ->
  local (date_at n) = Some (n * ms_day) -> setDate (Some k) (date_at n) = date_at (make_day y m k).
Proof.
  intros Ec Hk El. unfold setDate. rewrite El. cbn [mbind option_bind]. rewrite Z.div_mul, Z.mod_mul, Ec by lia.
  rewrite Z.add_0_r. by apply of_local_day.
Qed.

Lemma isInRange_at st lo hi i n : has_bounds defaults now st lo hi -> i_settings i = st ->
  year_limits now st = Ok (None, None) -> isInRange defaults now i (date_at n) = Ok (in_bounds lo hi n).
Proof.
  intros Hb Hi Hl. unfold isInRange. rewrite Hi, Hl. cbn [jbind truthy negb orb]. destruct (Hb i Hi) as [-> ->].
  rewrite !andb_true_r. unfold in_bounds.
  destruct lo as [l|], hi as [h|]; cbn [fmap option_fmap option_map]; by rewrite ?date_le_at.
Qed.

Lemma canAdjust_at st lo hi i y m : has_bounds defaults now st lo hi -> i_settings i = st ->
  year_limits now st = Ok (None, None) -> 200 <= y <= 100000 -> 0 <= m <= 11 ->
  let k := 12 * y + m in
  let '(rows, cols) := getNumberOfMonths i in
  0 <= rows * cols <= 1000 ->
  local (date_at (month_start (k - 1))) = Some (month_start (k - 1) * ms_day) ->
  canAdjustMonth defaults now i (-1) (Some y) (Some m) = Ok (in_bounds lo hi (month_start k - 1)) /\
  canAdjustMonth defaults now i 1 (Some y) (Some m) = Ok (in_bounds lo hi (month_start (k + rows * cols))).
Proof.
  intros Hb Hi Hl Hy Hm k. unfold canAdjustMonth. destruct (getNumberOfMonths i) as [rows cols]. intros Hrc Hmid.
  unfold num_add. cbn [mbind option_bind Z.ltb Z.compare].
  rewrite !new_date_adjust by lia. rewrite !month_start_ym.
  replace (12 * y + (m + -1)) with (k - 1) by (unfold k; lia).
  replace (12 * y + (m + rows * cols)) with (k + rows * cols) by (unfold k; lia).
  split; [|by apply (isInRange_at st)].
  set (f := month_start (k - 1)) in *. destruct (fields_date_at f) as (-> & -> & _).
  assert (civil f = ((k - 1) / 12, (k - 1) mod 12, 1)) as Ec.
  { unfold f, month_start. rewrite make_day_norm. replace (0 + (k - 1) / 12) with ((k - 1) / 12) by lia.
    apply civil_make_day. pose proof (month_length_bounds ((k - 1) / 12) ((k - 1) mod 12) ltac:(divlia)).
    split; [divlia|lia]. }
  rewrite Ec. cbn [fst snd]. rewrite getDaysInMonth_month by (unfold k; divlia).
  assert (make_day ((k - 1) / 12) ((k - 1) mod 12) (month_days ((k - 1) / 12) ((k - 1) mod 12)) = month_start k - 1) as El.
  { set (l := month_days ((k - 1) / 12) ((k - 1) mod 12)). replace l with (1 + (l - 1)) by lia.
    rewrite make_day_add, month_start_ym. replace (12 * ((k - 1) / 12) + (k - 1) mod 12) with (k - 1) by divlia.
    assert (month_start k = month_start (k - 1) + month_days 0 (k - 1)) as ->
      by (rewrite <- month_start_next; f_equal; lia).
    assert (month_days 0 (k - 1) = l) as ->; [|lia].
    unfold l, month_days. f_equal; divlia. }
  rewrite (setDate_midnight f _ _ _ _ Ec); rewrite ?El; [by apply (isInRange_at st)| |done].
  rewrite <- El. apply in_range_far; [unfold k; divlia|divlia|].
  pose proof (month_days_bounds ((k - 1) / 12) ((k - 1) mod 12)). lia.
Qed.

End grid.

(** C16: the table of a month.  Whatever the first day of the week, the cells of
    the table are consecutive days, in rows of seven, from the last first day of
    the week that is not after the first of the month, through every day of the
    month; no day has two cells, and a month drawn alone has no row without a
    day of it. *)
Theorem month_table_tiles {TZ : TimeZone} {TZL : TimeZoneLaws} (i : inst) (g : grid_ctx) (multi : bool)
    (maxRows y m : Z) :
  200 <= y <= 100000 -> 0 <= m <= 11 -> 0 <= g_firstDay g <= 6 -> 0 <= maxRows <= 100 ->
  let t := month_table i g multi (Some maxRows) (Some y) (Some m) in
  let first := make_day y m 1 in
  exists start rows,
    c_date <$> cells t = date_at <$> seqZ start (7 * rows) /\ NoDup (c_date <$> cells t) /\
    Forall (fun row => length row.2 = 7%nat) (t_rows t) /\ Z.of_nat (length (t_rows t)) = rows /\
    t_maxRows t = Some rows /\
    week_day start = g_firstDay g /\ start <= first < start + 7 /\
    first + month_length y m <= start + 7 * rows /\
    (multi = false -> start + 7 * (rows - 1) < first + month_length y m).
Proof.
  intros Hy Hm Hf Hmr t first. set (fd := g_firstDay g) in *.
  destruct (month_cells i g multi maxRows y m Hy Hm Hf Hmr) as (j & _ & _ & _ & E).
  destruct (month_table_at i g multi maxRows y m Hy Hm Hf Hmr) as (E2 & j' & E3 & _).
  destruct (grid_bounds fd y m Hm Hf) as (B1 & B2 & B3). fold first t fd in E, E2, E3, B2, B3.
  set (R := table_rows multi maxRows fd y m) in *. set (start := grid_start fd y m) in *.
  assert (c_date <$> cells t = date_at <$> seqZ start (7 * R)) as Ed
    by (rewrite E, <- list_fmap_compose; apply seqZ_fmap_add).
  assert (grid_rows fd y m <= R /\ (multi = false -> R = grid_rows fd y m)) as [HR HR'].
  { unfold R, table_rows. destruct multi; [split; [lia|done]|split; [lia|done]]. }
  assert (0 <= grid_rows fd y m) as H0.
  { unfold grid_rows, lead_days. pose proof (month_length_bounds y m Hm). divlia. }
  exists start, R. split_and!; try done; try lia.
  - rewrite Ed. apply NoDup_fmap_2; [intros a b; apply date_at_inj|apply NoDup_seqZ].
  - rewrite E3. unfold week_rows. apply Forall_fmap, Forall_true. intros q. done.
  - rewrite E3. unfold week_rows. rewrite length_fmap, length_seqZ. lia.
  - intros Hmu. rewrite HR' by done. lia.
Qed.

(** The cells.  In the table of a month, a cell is in another month exactly
    when its day is, is a weekend exactly on a Saturday or a Sunday, is marked as
    today exactly on today, and can be selected exactly when its day is in the
    month, or other months can be selected, when [beforeShowDay] allows it, and
    when it is between the bounds. *)
Theorem month_table_cells {TZ : TimeZone} {TZL : TimeZoneLaws} (defaults : format_settings) (now : date)
    (st : settings) (lo hi : option Z) (n0 fd : Z) (i : inst) (multi : bool) (maxRows y m : Z) (c : cell) :
  has_bounds defaults now st lo hi -> i_settings i = st -> day_of now = Some n0 -> year_in n0 ->
  st_firstDay st = Some fd -> 0 <= fd <= 6 -> 200 <= y <= 100000 -> 0 <= m <= 11 -> 0 <= maxRows <= 6 ->
  c ∈ cells (month_table i (make_ctx defaults now i) multi (Some maxRows) (Some y) (Some m)) ->
  let allowed d := match st_beforeShowDay st with Some f => ds_selectable (f d) | None => true end in
  exists n, c_date c = date_at n /\
    c_otherMonth c = negb (month_index n =? 12 * y + m) /\
    c_weekend c = ((week_day n =? 0) || (week_day n =? 6)) /\
    c_today c = (n =? n0) /\
    c_unselectable c = negb (((month_index n =? 12 * y + m) || st_selectOtherMonths st) &&
                             allowed (date_at n) && in_bounds lo hi n).
Proof.
  intros Hb Hi Hn0 Hy0 Hfd Hf Hy Hm Hmr Hc allowed. set (g := make_ctx defaults now i) in *.
  assert (g_firstDay g = fd) as Eg by (unfold g, make_ctx; cbn [g_firstDay]; by rewrite Hi, Hfd).
  assert (0 <= g_firstDay g <= 6) as Hg by lia. assert (0 <= maxRows <= 100) as Hmr' by lia.
  destruct (month_cells i g multi maxRows y m Hy Hm Hg Hmr') as (j & Ej & _ & _ & E). rewrite E in Hc. rewrite Eg in *.
  apply list_elem_of_fmap in Hc as (k & -> & Hk%elem_of_seqZ).
  destruct (grid_bounds fd y m Hm Hf) as (B1 & B2 & B3). set (start := grid_start fd y m) in *.
  pose proof (month_length_bounds y m Hm) as Hlen.
  assert (table_rows multi maxRows fd y m <= 6) as HR.
  { unfold table_rows. assert (grid_rows fd y m <= 6) by lia. destruct multi; lia. }
  exists (start + k). set (n := start + k) in *.
  assert (make_day y m 1 = month_start (12 * y + m)) as E1 by apply month_start_ym. rewrite E1 in B2.
  unfold make_cell. cbn [c_date c_otherMonth c_weekend c_today c_unselectable].
  destruct (fields_date_at n) as (_ & -> & _).
  assert (num_eqb (Some (civil n).1.2) (Some m) = (month_index n =? 12 * y + m)) as ->
    by (rewrite Z.eqb_sym, <- month_near by lia; unfold num_eqb; f_equal; divlia).
  split_and!; [done|done| | |].
  - rewrite Eg, Z.rem_mod_nonneg by divlia. assert (week_day n = (fd + k mod 7) mod 7) as ->
      by (unfold n, week_day in *; divlia). bool_cases; try done; divlia.
  - unfold g. rewrite (ctx_today defaults now i n0) by done. by apply getTime_eqb.
  - rewrite Ej, Hi. unfold g, make_ctx. cbn [g_minDate g_maxDate]. destruct (Hb i Hi) as [-> ->].
    rewrite <- orb_assoc, bounds_unselectable. unfold allowed.
    destruct (st_beforeShowDay st) as [f|]; cbn [ds_selectable]; [destruct (ds_selectable (f (date_at n)))|];
      by destruct (month_index n =? 12 * y + m), (st_selectOtherMonths st), (in_bounds lo hi n).
Qed.

(** The links to other months.  When the month drawn is not before the month
    of the minimum nor after that of the maximum, the link back is live exactly
    when the minimum is in an earlier month, and the link on exactly when the
    month after those drawn is not after the month of the maximum. *)
Theorem nav_links {TZ : TimeZone} {TZL : TimeZoneLaws} (defaults : format_settings) (now : date)
    (st : settings) (lo hi : option Z) (i : inst) (y m : Z) :
  has_bounds defaults now st lo hi -> i_settings i = st -> year_limits now st = Ok (None, None) ->
  200 <= y <= 100000 -> 0 <= m <= 11 ->
  let k := 12 * y + m in
  let '(rows, cols) := getNumberOfMonths i in
  1 <= rows * cols <= 1000 ->
  local (date_at (month_start (k - 1))) = Some (month_start (k - 1) * ms_day) ->
  match lo with Some l => month_index l <= k | None => True end ->
  match hi with Some h => k <= month_index h | None => True end ->
  canAdjustMonth defaults now i (-1) (Some y) (Some m) =
    Ok (match lo with Some l => month_index l <? k | None => true end) /\
  canAdjustMonth defaults now i 1 (Some y) (Some m) =
    Ok (match hi with Some h => k + rows * cols <=? month_index h | None => true end).
Proof.
  intros Hb Hi Hl Hy Hm k. pose proof (canAdjust_at defaults now st lo hi i y m Hb Hi Hl Hy Hm) as E. cbv zeta in E.
  destruct (getNumberOfMonths i) as [rows cols]. intros Hrc Hmid Hlo Hhi.
  destruct (E ltac:(lia) Hmid) as [-> ->]. fold k. unfold in_bounds. split; f_equal.
  - destruct lo as [l|], hi as [h|]; try done;
      try pose proof (month_start_le k l); try pose proof (month_start_le k h); bool_cases; try done; lia.
  - destruct lo as [l|], hi as [h|]; try done;
      try pose proof (month_start_le (k + rows * cols) h); try pose proof (month_index_spec l) as [_ Hl2];
      try pose proof (month_start_mono (month_index l + 1) (k + rows * cols) ltac:(lia));
      bool_cases; try done; lia.
Qed.

(** ** Witnesses *)

Definition example_now `{TimeZone} : date := new_date (Some 2016) (Some 0) (Some 31).
Definition example_inst `{TimeZone} : inst := at_day (make_day 2016 0 31) (newInst example_settings 0 false []).

(** October 2015, whose eighteenth day has no midnight. *)
Lemma month_table_tiles_witness :
  let TZ := summer_zone (-10800000) 1445137200000 in
  let t := @month_table TZ (@example_inst TZ) (@make_ctx TZ english (@example_now TZ) (@example_inst TZ))
             false (Some 4) (Some 2015) (Some 9) in
  NoDup (c_date <$> cells t) /\ t_maxRows t = Some 5.
Proof.
  intros TZ t. pose proof (summer_zone_laws (-10800000) 1445137200000 ltac:(lia)) as TZL.
  destruct (@month_table_tiles TZ TZL (@example_inst TZ) (@make_ctx TZ english (@example_now TZ) (@example_inst TZ))
    false 4 2015 9 ltac:(lia) ltac:(lia)) as (start & rows & _ & H1 & _).
  - vm_compute. split; discriminate.
  - lia.
  - split; [exact H1|]. vm_compute. reflexivity.
Defined.

Lemma month_table_cells_witness :
  let TZ := summer_zone (-10800000) 1445137200000 in
  exists c n, c_date c = @date_at TZ n /\ c_weekend c = ((week_day n =? 0) || (week_day n =? 6)) /\ c_unselectable c = true.
Proof.
  intros TZ. pose proof (summer_zone_laws (-10800000) 1445137200000 ltac:(lia)) as TZL.
  set (l := cells (@month_table TZ (@example_inst TZ) (@make_ctx TZ english (@example_now TZ) (@example_inst TZ))
             false (Some 4) (Some 2015) (Some 9))).
  set (c := default (Cell None false false false false false false (DaySettings true [] None)) (head l)).
  assert (c_unselectable c = true) as Hu by (vm_compute; reflexivity).
  assert (length l = 35%nat) as Hc by (vm_compute; reflexivity).
  destruct (@month_table_cells TZ TZL english (@example_now TZ) (@example_settings TZ) (Some day_2015_10_18)
    (Some day_2016_02_10) (make_day 2016 0 31) 1 (@example_inst TZ) false 4 2015 9 c (@example_bounds TZ TZL _))
    as (n & E1 & _ & E2 & _).
  - vm_compute. reflexivity.
  - vm_compute. reflexivity.
  - vm_compute. split; discriminate.
  - reflexivity.
  - lia.
  - lia.
  - lia.
  - lia.
  - fold l. unfold c. clear -Hc. destruct l as [|c' l']; [discriminate Hc|]. apply list_elem_of_here.
  - exists c, n. split; [exact E1|]. split; [exact E2|exact Hu].
Defined.

(** In February 2016 only the link back is live. *)
Lemma nav_links_witness :
  let TZ := summer_zone (-10800000) 1445137200000 in
  @canAdjustMonth TZ english (@example_now TZ) (@example_inst TZ) (-1) (Some 2016) (Some 1) = Ok true /\
  @canAdjustMonth TZ english (@example_now TZ) (@example_inst TZ) 1 (Some 2016) (Some 1) = Ok false.
Proof.
  intros TZ. pose proof (summer_zone_laws (-10800000) 1445137200000 ltac:(lia)) as TZL.
  destruct (@nav_links TZ TZL english (@example_now TZ) (@example_settings TZ) (Some day_2015_10_18)
    (Some day_2016_02_10) (@example_inst TZ) 2016 1 (@example_bounds TZ TZL _)) as [E1 E2].
  - vm_compute. reflexivity.
  - vm_compute. reflexivity.
  - lia.
  - lia.
  - simpl. lia.
  - vm_compute. reflexivity.
  - vm_compute. discriminate.
  - vm_compute. discriminate.
  - split; [exact E1|exact E2].
Defined.

(** The highlighted cell.  In the table of the month of the selected day, the
    only cell that can carry the highlight is that of the selected day, which is
    the one the Enter key chooses. *)
Theorem highlighted_is_selected {TZ : TimeZone} {TZL : TimeZoneLaws} (i : inst) (g : grid_ctx) (multi : bool)
    (maxRows n : Z) (c : cell) :
  selects n i -> 200 <= (civil n).1.1 <= 100000 -> 0 <= g_firstDay g <= 6 -> 0 <= maxRows <= 100 ->
  c ∈ cells (month_table i g multi (Some maxRows) (Some (civil n).1.1) (Some (civil n).1.2)) ->
  c_dayOver c = true -> c_date c = date_at n.
Proof.
  intros Hs Hy Hf Hmr Hc Ho. pose proof (civil_bounds n) as [Hm _].
  destruct (month_cells i g multi maxRows (civil n).1.1 (civil n).1.2 Hy Hm Hf Hmr) as (j & _ & _ & _ & E).
  rewrite E in Hc. apply list_elem_of_fmap in Hc as (k & -> & _).
  injection Hs as _ _ Ed. rewrite Ed in Ho. rewrite new_date_civil in Ho by (unfold year_in; lia).
  unfold make_cell in *. cbn [c_dayOver c_date] in *. unfold getTime in Ho.
  apply orb_true_iff in Ho as [[[Ho _]%andb_true_iff _]%andb_true_iff|[H1 H2]%andb_true_iff].
  - apply num_eqb_eq in Ho as (z & -> & ->). done.
  - apply num_eqb_eq in H1 as (z & E1 & ->). apply num_eqb_eq in H2 as (z' & E2 & ->). congruence.
Qed.

Lemma highlighted_is_selected_witness :
  let TZ := summer_zone (-10800000) 1445137200000 in
  exists c, c_date c = @date_at TZ (make_day 2016 0 31) /\ c_dayOver c = true.
Proof.
  intros TZ. pose proof (summer_zone_laws (-10800000) 1445137200000 ltac:(lia)) as TZL.
  set (l := cells (@month_table TZ (@example_inst TZ) (@make_ctx TZ english (@example_now TZ) (@example_inst TZ))
             false (Some 4) (Some (civil (make_day 2016 0 31)).1.1) (Some (civil (make_day 2016 0 31)).1.2))).
  set (c := default (Cell None false false false false false false (DaySettings true [] None)) (last l)).
  assert (c_dayOver c = true) as Ho by (vm_compute; reflexivity).
  assert (length l = 35%nat) as Hlen by (vm_compute; reflexivity).
  exists c. split; [|exact Ho].
  apply (@highlighted_is_selected TZ TZL (@example_inst TZ) (@make_ctx TZ english (@example_now TZ) (@example_inst TZ))
    false 4 (make_day 2016 0 31) c).
  - vm_compute. reflexivity.
  - vm_compute. split; discriminate.
  - vm_compute. split; discriminate.
  - lia.
  - fold l. unfold c. destruct (last l) as [x|] eqn:El.
    + apply last_Some in El as [l' ->]. apply list_elem_of_In, in_or_app. right. left. reflexivity.
    + apply last_None in El. rewrite El in Hlen. discriminate Hlen.
  - exact Ho.
Defined.
