(* ===== verification/DateManager.v ===== *)
(** * The manager of the date pickers (application bundle, lines 18932-19941)

    Instances are objects in a heap; [$.data(element, "datepicker")] maps an
    element to its instance, and an element has the marker class exactly when
    it has one.  One popup is shared by the inputs, and each inline picker has
    its own div; what is drawn in them is kept.  Positions, animations, focus
    and the dialog are not modelled, and the right-to-left class of the div is
    taken from the settings.  The user's callbacks are recorded as notices. *)

From S2P Require Import Prelude JsString JsDate DateFormat DatePicker DateDraw.
From Stdlib Require Import ZArith Lia Ascii.

Local Open Scope Z_scope.
Local Open Scope js_scope.

Inductive element := EInput | EInline | EOther.

Record manager := Manager {
  m_insts : gmap nat inst;
  m_data : gmap nat nat;          (* element to instance *)
  m_curInst : option nat;
  m_showing : bool;               (* _datepickerShowing *)
  m_lastInput : option nat;
  m_disabled : list nat;          (* _disabledInputs *)
  m_divs : gmap (option nat) text;  (* the popup is None *)
  m_notices : list notice
}.

Definition M : Type -> Type := st_ex manager.

Definition start_manager : manager := Manager ∅ ∅ None false None [] ∅ [].

Definition with_insts (f : gmap nat inst -> gmap nat inst) (m : manager) : manager :=
  Manager (f (m_insts m)) (m_data m) (m_curInst m) (m_showing m) (m_lastInput m) (m_disabled m) (m_divs m) (m_notices m).
Definition with_data (f : gmap nat nat -> gmap nat nat) (m : manager) : manager :=
  Manager (m_insts m) (f (m_data m)) (m_curInst m) (m_showing m) (m_lastInput m) (m_disabled m) (m_divs m) (m_notices m).
Definition with_popup (cur : option nat) (showing : bool) (last : option nat) (m : manager) : manager :=
  Manager (m_insts m) (m_data m) cur showing last (m_disabled m) (m_divs m) (m_notices m).
Definition with_disabled (l : list nat) (m : manager) : manager :=
  Manager (m_insts m) (m_data m) (m_curInst m) (m_showing m) (m_lastInput m) l (m_divs m) (m_notices m).
Definition with_div (d : option nat) (t : text) (m : manager) : manager :=
  Manager (m_insts m) (m_data m) (m_curInst m) (m_showing m) (m_lastInput m) (m_disabled m) (<[d := t]> (m_divs m)) (m_notices m).
Definition notify (ns : list notice) (m : manager) : manager :=
  Manager (m_insts m) (m_data m) (m_curInst m) (m_showing m) (m_lastInput m) (m_disabled m) (m_divs m) (m_notices m ++ ns).

(** [_getInst]; the callers read a property of the instance, and a missing one throws. *)
Definition inst_of (t : nat) : M (nat * inst) := fun m =>
  match m_data m !! t with
  | Some id => match m_insts m !! id with
               | Some i => (m, Ok (id, i))
               | None => (m, Throw "undefined")
               end
  | None => (m, Throw "undefined")
  end.

Definition store (id : nat) (i : inst) : M unit := smodify (with_insts (<[id := i]>)).

Definition get_inst (id : nat) : M inst := fun m =>
  match m_insts m !! id with Some i => (m, Ok i) | None => (m, Throw "undefined") end.

(** [_isDisabledDatepicker] *)
Definition isDisabled (t : nat) (m : manager) : bool := bool_decide (t ∈ m_disabled m).

Definition disableDatepicker (t : nat) : M unit := smodify (fun m =>
  match m_data m !! t with
  | None => m
  | Some _ => with_disabled (filter (fun u => u <> t) (m_disabled m) ++ [t]) m
  end).

Definition enableDatepicker (t : nat) : M unit := smodify (fun m =>
  match m_data m !! t with
  | None => m
  | Some _ => with_disabled (filter (fun u => u <> t) (m_disabled m)) m
  end).

Section manager.
Context `{TimeZone} (defaults : format_settings) (now : date).

(** The position of the first longest name. *)
Definition findMax (names : list text) : nat :=
  (foldl (fun '(best, max, k) n => if Nat.ltb max (length n) then (k, length n, S k) else (best, max, S k))
     (0, 0, 0)%nat names).1.1.

(** [_autoSize] *)
Definition autoSize (i : inst) : inst :=
  let st := i_settings i in
  if st_autoSize st && negb (i_inline i) then
    let fmt := st_dateFormat st in
    let twice c := existsb (fun k => bool_decide (take 2 (drop k fmt) = [c; c])) (seq 0 (length fmt)) in
    let d := new_date (Some 2009) (Some 11) (Some 20) in
    let d :=
      if bool_decide (char "D" ∈ fmt) || bool_decide (char "M" ∈ fmt) then
        let d := setMonth (Z.of_nat (findMax (if twice (char "M") then st_monthNames st else st_monthNamesShort st))) d in
        setDate (num_add (Some (Z.of_nat (findMax (if twice (char "D") then st_dayNames st else st_dayNamesShort st)) + 20))
                         (Z.opp <$> getDay d)) d
      else d in
    set_size (Some (length (format defaults now st (Some d)))) i
  else i.

(** [_attachments]: what the trigger and the focus event do. *)
Definition attachments (i : inst) : inst :=
  let on l := bool_decide (st_showOn (i_settings i) ∈ txt <$> l) in
  set_attached (on ["button"; "both"]%string) (on ["focus"; "both"]%string) i.

(** [_updateAlternate] *)
Definition updateAlternate (i : inst) : inst :=
  let st := i_settings i in
  if st_altField st then
    let altFormat := match st_altFormat st with [] => st_dateFormat st | f => f end in
    set_alt (formatDate (config defaults now st) altFormat (getDate_ i)) i
  else i.

Definition div_of (i : inst) : option nat := if i_inline i then Some (i_target i) else None.

(** [_updateDatepicker] *)
Definition updateDatepicker (id : nat) : M unit :=
  let! i := get_inst id in
  let '(i', html) := generateHTML defaults now i in
  smodify (with_div (div_of i) []) ;!
  store id i' ;!
  match html with
  | Ok t => smodify (with_div (div_of i) t)
  | Throw msg => sthrow msg
  end.

(** ** Showing and hiding *)

(** [_hideDatepicker(input)] *)
Definition hideDatepicker (input : option nat) : M unit := smodify (fun m =>
  match m_curInst m with
  | None => m
  | Some id =>
      if match input with Some t => negb (bool_decide (m_data m !! t = Some id)) | None => false end then m
      else if m_showing m then
        let closed := match m_insts m !! id with
                      | Some i => if st_onClose (i_settings i) then [NClose (i_input i)] else []
                      | None => []
                      end in
        with_popup (Some id) false None (notify closed m)
      else m
  end).

(** [_showDatepicker(input)]; [beforeShow] gives the new settings, or [None] for
    [false]. *)
Definition showDatepicker (beforeShow : settings -> option settings) (t : nat) : M unit := fun m =>
  if isDisabled t m || bool_decide (m_lastInput m = Some t) then sret tt m
  else
    (let! (id, i) := inst_of t in
     let! cur := sget (fun m =>
       match m_curInst m with
       | Some c => if bool_decide (c <> id) && m_showing m then i_target <$> m_insts m !! c else None
       | None => None
       end) in
     match cur with Some c => hideDatepicker (Some c) | None => sret tt end ;!
     match beforeShow (i_settings i) with
     | None => sret tt
     | Some st =>
         smodify (fun m => with_popup (m_curInst m) (m_showing m) (Some t) m) ;!
         store id (setDateFromField defaults now false (set_lastVal None (set_settings st i))) ;!
         updateDatepicker id ;!
         swhen (negb (i_inline i)) (smodify (fun m => with_popup (Some id) true (m_lastInput m) m))
     end) m.

(** The click on a trigger button. *)
Definition triggerClick (beforeShow : settings -> option settings) (t : nat) : M unit := fun m =>
  (if m_showing m && bool_decide (m_lastInput m = Some t) then hideDatepicker None
   else if m_showing m then hideDatepicker None ;! showDatepicker beforeShow t
   else showDatepicker beforeShow t) m.

(** [_checkExternalClick]: [inPopup] is a click in the popup, [onTrigger] in a trigger. *)
Definition checkExternalClick (t : nat) (inPopup onTrigger : bool) : M unit := fun m =>
  match m_curInst m with
  | None => sret tt m
  | Some c =>
      let marked := bool_decide (is_Some (m_data m !! t)) in
      swhen ((negb inPopup && negb marked && negb onTrigger && m_showing m) ||
             (marked && negb (bool_decide (m_data m !! t = Some c)))) (hideDatepicker None) m
  end.

(** ** Choosing *)

(** [_selectDate(id, dateStr)] *)
Definition selectDate (t : nat) (dateStr : text) : M unit :=
  let! (id, i) := inst_of t in
  let i := updateAlternate (set_input dateStr i) in
  store id i ;!
  smodify (notify (if st_onSelect (i_settings i) then [NSelect dateStr] else [NChange t])) ;!
  if i_inline i then updateDatepicker id
  else hideDatepicker None ;! smodify (fun m => with_popup (m_curInst m) (m_showing m) None m).

Definition clearDate (t : nat) : M unit := selectDate t [].

(** [_selectDay(id, month, year, td)]: [day] is the text of the link in the
    cell, if there is one. *)
Definition selectDay (t : nat) (month year day : num) (unselectable : bool) : M unit := fun m =>
  if unselectable || isDisabled t m then sret tt m
  else
    (let! (id, i) := inst_of t in
     let i := set_current day month year (set_selected day month year i) in
     let '(i, s) := formatDate_ defaults now day month year i in
     store id i ;! selectDate t s) m.

(** [_adjustDate(id, offset, period)] *)
Definition adjustDate (t : nat) (offset : Z) (p : period) : M unit := fun m =>
  if isDisabled t m then sret tt m
  else
    (let! (id, i) := inst_of t in
     let pos := match p with PMonth => st_showCurrentAtPos (i_settings i) | _ => 0 end in
     let '(i, ns) := adjustInstDate defaults now (offset + pos) p i in
     store id i ;! smodify (notify ns) ;! updateDatepicker id) m.

(** [_gotoToday] *)
Definition gotoToday (t : nat) : M unit :=
  let! (id, i) := inst_of t in
  let i := if st_gotoCurrent (i_settings i) && truthy (currentDay i)
           then set_draw (currentMonth i) (currentYear i)
                  (set_selected (currentDay i) (currentMonth i) (currentYear i) i)
           else set_draw (getMonth now) (getFullYear now)
                  (set_selected (getDate now) (getMonth now) (getFullYear now) i) in
  store id i ;! smodify (notify (notifyChange i)) ;! adjustDate t 0 PNone.

(** [_selectMonthYear(id, select, period)] with the value chosen. *)
Definition selectMonthYear (t : nat) (value : Z) (p : period) : M unit :=
  let! (id, i) := inst_of t in
  let i := match p with
           | PMonth => set_draw (Some value) (drawYear i)
                         (set_selected (selectedDay i) (Some value) (selectedYear i) i)
           | _ => set_draw (drawMonth i) (Some value)
                    (set_selected (selectedDay i) (selectedMonth i) (Some value) i)
           end in
  store id i ;! smodify (notify (notifyChange i)) ;! adjustDate t 0 PNone.

(** ** Keys *)

Record key_event := KeyEvent { k_code : Z; k_ctrl : bool; k_meta : bool; k_alt : bool }.

(** The [switch] of [_doKeyDown], for the instance [i] of the element; [sel] is
    the highlighted cell that is not the current day: the text of its link and
    whether it is unselectable.  The result tells whether the event is handled. *)
Definition key_switch (t : nat) (i : inst) (e : key_event) (sel : option (num * bool)) : M bool :=
  let st := i_settings i in
  let ctrl := k_ctrl e || k_meta e in
  let step := if k_ctrl e then st_stepBigMonths st else st_stepMonths st in
  if k_code e =? 9 then hideDatepicker None ;! sret false
  else if k_code e =? 13 then
    match sel with
    | Some (day, unselectable) => selectDay t (selectedMonth i) (selectedYear i) day unselectable
    | None => sret tt
    end ;!
    (if st_onSelect st then
       let! (id, i) := inst_of t in
       let '(i, s) := formatDate_ defaults now None None None i in
       store id i ;! smodify (notify [NSelect s])
     else hideDatepicker None) ;!
    sret true
  else if k_code e =? 27 then hideDatepicker None ;! sret true
  else if k_code e =? 33 then adjustDate t (- step) PMonth ;! sret true
  else if k_code e =? 34 then adjustDate t step PMonth ;! sret true
  else if k_code e =? 35 then swhen ctrl (clearDate t) ;! sret ctrl
  else if k_code e =? 36 then swhen ctrl (gotoToday t) ;! sret ctrl
  else if k_code e =? 37 then
    swhen ctrl (adjustDate t (if st_isRTL st then 1 else -1) PDay) ;!
    swhen (k_alt e) (adjustDate t (- step) PMonth) ;! sret ctrl
  else if k_code e =? 38 then swhen ctrl (adjustDate t (-7) PDay) ;! sret ctrl
  else if k_code e =? 39 then
    swhen ctrl (adjustDate t (if st_isRTL st then -1 else 1) PDay) ;!
    swhen (k_alt e) (adjustDate t step PMonth) ;! sret ctrl
  else if k_code e =? 40 then swhen ctrl (adjustDate t 7 PDay) ;! sret ctrl
  else sret false.

(** [_doKeyDown] *)
Definition doKeyDown (beforeShow : settings -> option settings) (t : nat) (e : key_event)
    (sel : option (num * bool)) : M bool :=
  let! (id, i) := inst_of t in
  store id (set_keyEvent true i) ;!
  let! showing := sget m_showing in
  if showing then key_switch t i e sel
  else if (k_code e =? 36) && k_ctrl e then showDatepicker beforeShow t ;! sret true
  else sret false.

(** [_doKeyPress]: whether the character is let through. *)
Definition doKeyPress (ctrl meta : bool) (chr : ascii) (i : inst) : bool :=
  if st_constrainInput (i_settings i) then
    ctrl || meta || (code chr <? 32) ||
    match possibleChars (st_dateFormat (i_settings i)) false with
    | None | Some [] => true
    | Some chars => bool_decide (chr ∈ chars)
    end
  else true.

(** [_doKeyUp] *)
Definition doKeyUp (t : nat) : M unit :=
  let! (id, i) := inst_of t in
  if bool_decide (Some (i_input i) = lastVal i) then sret tt
  else match parse defaults now (i_settings i) (i_input i) with
       | Ok (Some _) =>
           stry (store id (updateAlternate (setDateFromField defaults now false i)) ;! updateDatepicker id)
       | _ => sret tt
       end.

(** ** Methods *)

(** [_setDateDatepicker] and [_getDateDatepicker] *)
Definition setDateDatepicker (t : nat) (v : dvalue) : M unit :=
  let! (id, i) := inst_of t in
  let '(i, ns) := setDate_ defaults now v false i in
  store id i ;! smodify (notify ns) ;! updateDatepicker id ;!
  let! i := get_inst id in store id (updateAlternate i).

Definition getDateDatepicker (t : nat) (noDefault : bool) : M (option date) :=
  let! (id, i) := inst_of t in
  let i := if i_inline i then i else setDateFromField defaults now noDefault i in
  store id i ;! sret (getDate_ i).

Definition refreshDatepicker (t : nat) : M unit := let! (id, _) := inst_of t in updateDatepicker id.

(** What [_optionDatepicker] is given: the merge of the new settings, and which
    of those it looks at are among them. *)
Record option_change := OptionChange {
  oc_merge : settings -> settings;
  oc_dateFormat : bool; oc_minDate : bool; oc_maxDate : bool;
  oc_disabled : option bool
}.

Definition set_minMax (lo hi : dvalue) (st : settings) : settings :=
  let 'Settings a1 a2 a3 a4 a5 a6 a7 a8 _ _ b1 b2 b3 b4 b5 b6 b7 b8 b9 c1 c2 c3 c4 c5 c6 c7 c8 c9 d1 d2 d3 d4 d5
        d6 d7 d8 d9 e1 e2 e3 e4 e5 e6 := st in
  Settings a1 a2 a3 a4 a5 a6 a7 a8 lo hi b1 b2 b3 b4 b5 b6 b7 b8 b9 c1 c2 c3 c4 c5 c6 c7 c8 c9 d1 d2 d3 d4 d5
        d6 d7 d8 d9 e1 e2 e3 e4 e5 e6.

Definition reformat (st : settings) (given : bool) (old : option date) (fmt : bool) (v : dvalue) : dvalue :=
  match old with
  | Some d => if fmt && negb given then DStr (format defaults now st (Some d)) else v
  | None => v
  end.

Definition optionDatepicker (t : nat) (c : option_change) : M unit :=
  let! (id, i) := inst_of t in
  let! cur := sget m_curInst in
  swhen (bool_decide (cur = Some id)) (hideDatepicker None) ;!
  let! date := getDateDatepicker t true in
  let! i := get_inst id in
  let '(lo, hi) := (minDate defaults now i, maxDate defaults now i) in
  let st := oc_merge c (i_settings i) in
  let st := set_minMax (reformat st (oc_minDate c) lo (oc_dateFormat c) (st_minDate st)) (st_maxDate st) st in
  let st := set_minMax (st_minDate st) (reformat st (oc_maxDate c) hi (oc_dateFormat c) (st_maxDate st)) st in
  store id (set_settings st i) ;!
  match oc_disabled c with
  | Some true => disableDatepicker t
  | Some false => enableDatepicker t
  | None => sret tt
  end ;!
  let! i := get_inst id in
  let i := autoSize (attachments i) in
  let '(i, ns) := setDate_ defaults now (match date with Some d => DDate d | None => DNull end) false i in
  smodify (notify ns) ;! store id (updateAlternate i) ;! updateDatepicker id.

(** [_attachDatepicker] with the settings over the defaults and the value of the element. *)
Definition attachDatepicker (t : nat) (e : element) (st : settings) (value : text) : M unit := fun m =>
  let id := fresh (dom (m_insts m)) in
  match m_data m !! t, e with
  | Some _, _ | None, EOther => sret tt m
  | None, EInput =>
      (smodify (with_data (<[t := id]>)) ;!
       store id (autoSize (attachments (newInst st t false value))) ;!
       swhen (st_disabled st) (disableDatepicker t)) m
  | None, EInline =>
      let i := newInst st t true value in
      (smodify (with_data (<[t := id]>)) ;!
       let '(i, ns) := setDate_ defaults now (DDate (getDefaultDate defaults now i)) true i in
       store id i ;! smodify (notify ns) ;! updateDatepicker id ;!
       let! i := get_inst id in
       store id (updateAlternate i) ;! swhen (st_disabled st) (disableDatepicker t)) m
  end.

(** [_destroyDatepicker] *)
Definition destroyDatepicker (t : nat) : M unit := fun m =>
  match m_data m !! t with
  | None => sret tt m
  | Some id =>
      (smodify (with_data (delete t)) ;!
       let! i := get_inst id in
       if i_inline i then smodify (with_div (Some t) [])
       else store id (set_attached false false i)) m
  end.

End manager.

(** [_checkOffset], for a picker that is not right to left nor fixed: the position moved so that
    the picker stays in the view. *)
Definition checkOffset (left top width height inputHeight viewWidth viewHeight : Z) : Z * Z :=
  (left - Z.min left (if (left + width >? viewWidth) && (viewWidth >? width) then Z.abs (left + width - viewWidth) else 0),
   top - Z.min top (if (top + height >? viewHeight) && (viewHeight >? height) then Z.abs (height + inputHeight) else 0)).
