(* ===== verification/DateManagerSpec.v ===== *)
(** * Sessions with a bounded picker: the handlers of [DateManager] refine a
    calendar that holds one day

    The picker shows one month at a time, with [minDate] and [maxDate]. *)

From S2P Require Import Prelude JsString JsDate DateFormat DateFormatSpec DatePicker DatePickerSpec DateDraw DateGrid DateManager.
From Stdlib Require Import ZArith Lia Ascii.

Local Open Scope Z_scope.
Local Open Scope js_scope.

#[local] Opaque civil.

(** What the user does: keys with the highlighted cell, the links to other
    months, the current and close buttons, the choices of month and year, a click
    on a day or elsewhere; and calls of the methods. *)
Inductive action :=
| AKey (e : key_event) (sel : option (num * bool))
| ALink (off : Z)
| AToday
| AMonth (v : Z)
| AYear (v : Z)
| ADay (y m d : Z) (unselectable : bool)
| AClear
| ASet (n : Z)
| ARefresh
| AClose
| AClickElsewhere (t : nat) (inPopup onTrigger : bool).

(** The settings of the sessions. *)
Record session_settings `{TimeZone} (defaults : format_settings) (st : settings) (lo hi : Z) : Prop := {
  ss_bounds now : has_bounds defaults now st (Some lo) (Some hi);
  ss_order : lo <= hi;
  ss_years : 1000 <= (civil lo).1.1 /\ (civil hi).1.1 <= 9999;
  ss_range now : range_reads now st;
  ss_one i : i_settings i = st -> getNumberOfMonths i = (1, 1);
  ss_pos : st_showCurrentAtPos st = 0;
  ss_steps : Z.abs (st_stepMonths st) <= 100 /\ Z.abs (st_stepBigMonths st) <= 100;
  ss_goto : st_gotoCurrent st = false
}.

Definition clock_ok `{TimeZone} (now : date) : Prop :=
  exists n, day_of now = Some n /\ 1000 <= (civil n).1.1 <= 9999.

(** The instance shows day [n]: it is selected and its month is drawn. *)
Record shows (t : nat) (st : settings) (n : Z) (i : inst) : Prop := {
  sh_settings : i_settings i = st;
  sh_target : i_target i = t;
  sh_selected : selects n i;
  sh_drawn : drawn i = (Some (civil n).1.1, Some (civil n).1.2)
}.

Record wf (t id : nat) (st : settings) (lo hi : Z) (n : Z) (m : manager) : Prop := {
  wf_data : m_data m !! t = Some id;
  wf_inst : exists i, m_insts m !! id = Some i /\ shows t st n i;
  wf_enabled : t ∉ m_disabled m;
  wf_in : lo <= n <= hi
}.

Section session.
Context {TZ : TimeZone} {TZL : TimeZoneLaws} (defaults : format_settings).
Context (t id : nat) (st : settings) (lo hi : Z) (Hst : session_settings defaults st lo hi).

Notation wf := (wf t id st lo hi).
Notation shows := (shows t st).
Notation clamp' := (clamp (Some lo) (Some hi)).

(** The calendar: the day after a move. *)
Definition go (p : period) (off n : Z) : Z :=
  clamp' (moved p off (civil n).1.1 (civil n).1.2 (civil n).2).

Definition today (now : date) : Z := default 0 (day_of now).

Definition key_moves (now : date) (e : key_event) (n : Z) : Z :=
  let ctrl := k_ctrl e || k_meta e in
  let step := if k_ctrl e then st_stepBigMonths st else st_stepMonths st in
  let side dir := let n := if ctrl then go PDay dir n else n in n in
  if k_code e =? 33 then go PMonth (- step) n
  else if k_code e =? 34 then go PMonth step n
  else if k_code e =? 36 then if ctrl then clamp' (today now) else n
  else if k_code e =? 37 then
    let n := if ctrl then go PDay (if st_isRTL st then 1 else -1) n else n in
    if k_alt e then go PMonth (- step) n else n
  else if k_code e =? 38 then if ctrl then go PDay (-7) n else n
  else if k_code e =? 39 then
    let n := if ctrl then go PDay (if st_isRTL st then -1 else 1) n else n in
    if k_alt e then go PMonth step n else n
  else if k_code e =? 40 then if ctrl then go PDay 7 n else n
  else n.

(** The abstract step. *)
Definition calendar (showing : bool) (now : date) (a : action) (n : Z) : Z :=
  match a with
  | AKey e _ => if showing then key_moves now e n else n
  | ALink off => go PMonth off n
  | AToday => clamp' (today now)
  | AMonth v => clamp' (moved PNone 0 (civil n).1.1 v (civil n).2)
  | AYear v => clamp' (moved PNone 0 v (civil n).1.2 (civil n).2)
  | ADay y m d unselectable => if unselectable then n else make_day y m d
  | ASet n' => clamp' n'
  | AClear | ARefresh | AClose | AClickElsewhere _ _ _ => n
  end.

(** The handlers. *)
Definition perform (now : date) (a : action) : M unit :=
  match a with
  | AKey e sel => let! _ := doKeyDown defaults now Some t e sel in sret tt
  | ALink off => adjustDate defaults now t off PMonth
  | AToday => gotoToday defaults now t
  | AMonth v => selectMonthYear defaults now t v PMonth
  | AYear v => selectMonthYear defaults now t v PYear
  | ADay y m d unselectable => selectDay defaults now t (Some m) (Some y) (Some d) unselectable
  | AClear => clearDate defaults now t
  | ASet n => setDateDatepicker defaults now t (DDate (date_at n))
  | ARefresh => refreshDatepicker defaults now t
  | AClose => hideDatepicker None
  | AClickElsewhere t' inPopup onTrigger => checkExternalClick t' inPopup onTrigger
  end.

(** What the page lets happen: a clock in the years 1000 to 9999, months and
    years of the menus, selectable cells of the month drawn and between the bounds, the
    highlighted cell that of the selected day; and a hidden picker is not opened by the keys. *)
Definition allowed (showing : bool) (now : date) (a : action) (n : Z) : Prop :=
  clock_ok now /\
  match a with
  | AKey e sel =>
      (showing = false -> (k_code e =? 36) && k_ctrl e = false) /\
      match sel with Some (d, false) => d = Some (civil n).2 | _ => True end
  | ALink off => Z.abs off <= 100
  | AMonth v => 0 <= v <= 11
  | AYear v => 1000 <= v <= 9999
  | ADay y m d false => valid_civil y m d /\ lo <= make_day y m d <= hi /\ (y, m) = (civil n).1
  | ASet n => in_range n
  | _ => True
  end.

(** ** The instance *)

Lemma year_mono n n' : n <= n' -> (civil n).1.1 <= (civil n').1.1.
Proof.
  intros Hn. pose proof (month_index_spec n) as [H1 _].
  assert (month_index n <= month_index n') as Hm by (apply month_start_le; lia).
  unfold month_index in Hm. pose proof (civil_bounds n) as [? _]. pose proof (civil_bounds n') as [? _]. lia.
Qed.

Lemma year_between n : lo <= n <= hi -> 1000 <= (civil n).1.1 <= 9999.
Proof.
  intros Hn. destruct (ss_years _ _ _ _ Hst) as [H1 H2].
  pose proof (year_mono lo n ltac:(lia)). pose proof (year_mono n hi ltac:(lia)). lia.
Qed.

Lemma year_in_between n : lo <= n <= hi -> year_in n.
Proof. intros Hn. pose proof (year_between n Hn). unfold year_in. lia. Qed.

Lemma clamp_between n : lo <= clamp' n <= hi.
Proof. pose proof (ss_order _ _ _ _ Hst). by apply (clamp_in _ _ n lo hi). Qed.

Lemma clamp_id n : lo <= n <= hi -> clamp' n = n.
Proof. intros Hn. simpl. lia. Qed.

(** Changes of other fields. *)
Lemma shows_ext n i j : i_settings j = i_settings i -> i_target j = i_target i -> selected j = selected i ->
  drawn j = drawn i -> shows n i -> shows n j.
Proof. intros E1 E2 E3 E4 [H1 H2 H3 H4]. split; unfold selects in *; congruence. Qed.

Lemma shows_at_day n i : i_settings i = st -> i_target i = t -> shows n (at_day n i).
Proof.
  intros H1 H2. destruct (selected_at_day n i) as [H3 H4]. split; [by rewrite at_day_settings| |done|done].
  unfold at_day. destruct (civil n) as [[y m] d], i. done.
Qed.

Lemma updateAlternate_shows now n i : shows n i -> shows n (updateAlternate defaults now i).
Proof.
  apply shows_ext; unfold updateAlternate; destruct (st_altField _); by destruct i.
Qed.

(** Drawing changes nothing but the key flag. *)
Lemma generate_shows now n i : shows n i -> lo <= n <= hi ->
  exists html, generateHTML defaults now i = (set_keyEvent false i, Ok html).
Proof.
  intros [H1 H2 H3 H4] Hn. pose proof (year_between n Hn) as Hy. pose proof (civil_bounds n) as [Hm _].
  destruct (generateHTML_keeps defaults now st n i) as [html E]; [apply (ss_range _ _ _ _ Hst)|done|done|by apply year_in_between|].
  pose proof (first_draw_at defaults now st (Some lo) (Some hi) i _ _ (ss_bounds _ _ _ _ Hst now) H1 H4
    ltac:(lia) ltac:(lia) ltac:(rewrite (ss_pos _ _ _ _ Hst); lia)) as F.
  rewrite (ss_one _ _ _ _ Hst i H1) in F. pose proof (year_between hi ltac:(pose proof (ss_order _ _ _ _ Hst); lia)).
  assert (max_draw 1 1 (Some lo) (Some hi) = Some hi) as Ex.
  { unfold max_draw. cbn [mbind option_bind]. pose proof (civil_valid hi) as Hc. destruct (civil hi) as [[yh mh] dh].
    destruct Hc as (_ & Hd & _). change (1 - 1 * 1) with 0. rewrite Z.add_0_r, Hd.
    pose proof (ss_order _ _ _ _ Hst). f_equal. lia. }
  rewrite Ex, (ss_pos _ _ _ _ Hst) in F. cbv zeta in F.
  destruct F as (y' & m' & Ef & Hm' & Hk); [lia|lia|apply year_in_between; pose proof (ss_order _ _ _ _ Hst); lia|].
  assert (month_index n <= month_index hi) as Hle.
  { apply month_start_le. pose proof (month_index_spec n). lia. }
  unfold month_index in Hk, Hle.
  assert (y' = (civil n).1.1 /\ m' = (civil n).1.2) as [-> ->] by lia.
  exists html. rewrite E, Ef. cbn [fst snd]. do 2 f_equal. injection H4 as E1 E2. rewrite <- E1, <- E2. by destruct i.
Qed.

(** ** The handlers *)

Lemma inst_of_spec {B} n (k : nat * inst -> M B) Q :
  (forall i, shows n i -> lo <= n <= hi -> hoare (wf n) (k (id, i)) Q) -> hoare (wf n) (let! x := inst_of t in k x) Q.
Proof.
  intros Hk m Hm. destruct (wf_inst _ _ _ _ _ _ _ Hm) as (i & Ei & Hi). unfold sbind, inst_of.
  rewrite (wf_data _ _ _ _ _ _ _ Hm), Ei. by apply (Hk i Hi (wf_in _ _ _ _ _ _ _ Hm)).
Qed.

Lemma get_inst_spec {B} n (k : inst -> M B) Q :
  (forall i, shows n i -> lo <= n <= hi -> hoare (wf n) (k i) Q) -> hoare (wf n) (let! x := get_inst id in k x) Q.
Proof.
  intros Hk m Hm. destruct (wf_inst _ _ _ _ _ _ _ Hm) as (i & Ei & Hi). unfold sbind, get_inst. rewrite Ei. by apply (Hk i Hi (wf_in _ _ _ _ _ _ _ Hm)).
Qed.

Lemma store_spec n n' i : shows n' i -> lo <= n' <= hi -> hoare (wf n) (store id i) (fun _ => wf n').
Proof.
  intros Hi Hn. apply hoare_modify. intros m [H1 _ H3 _]. split; [done| |done|done].
  exists i. split; [apply lookup_insert_eq|done].
Qed.

Lemma keep_spec n f : (forall m, m_data (f m) = m_data m /\ m_insts (f m) = m_insts m /\ m_disabled (f m) = m_disabled m) ->
  hoare (wf n) (smodify f) (fun _ => wf n).
Proof.
  intros Hf. apply hoare_modify. intros m [H1 H2 H3 H4]. destruct (Hf m) as (E1 & E2 & E3).
  split; rewrite ?E1, ?E2, ?E3; done.
Qed.

Lemma notify_spec n ns : hoare (wf n) (smodify (notify ns)) (fun _ => wf n).
Proof. by apply keep_spec. Qed.

Lemma update_spec now n : hoare (wf n) (updateDatepicker defaults now id) (fun _ => wf n).
Proof.
  unfold updateDatepicker. apply get_inst_spec. intros i Hi Hn.
  destruct (generate_shows now n i Hi Hn) as [html ->].
  hbind ltac:(by apply keep_spec).
  hbind ltac:(apply (store_spec n n); [eapply shows_ext; [..|exact Hi]; by destruct i|done]).
  by apply keep_spec.
Qed.

Lemma hide_spec n input : hoare (wf n) (hideDatepicker input) (fun _ => wf n).
Proof.
  apply keep_spec. intros m. destruct (m_curInst m); [|done].
  destruct (match input with Some _ => _ | None => _ end); [done|]. by destruct (m_showing m).
Qed.

(** The instance is [i], which may not show a day yet. *)
Definition holds (i : inst) (m : manager) : Prop :=
  m_data m !! t = Some id /\ m_insts m !! id = Some i /\ t ∉ m_disabled m.

Lemma store_holds n i : hoare (wf n) (store id i) (fun _ => holds i).
Proof. apply hoare_modify. intros m [H1 _ H3 _]. split_and!; [done|apply lookup_insert_eq|done]. Qed.

Lemma notify_holds i ns : hoare (holds i) (smodify (notify ns)) (fun _ => holds i).
Proof. by apply hoare_modify. Qed.

Lemma adjustDate_raw now p off y m d i : i_settings i = st -> i_target i = t ->
  drawn i = (Some y, Some m) -> selectedDay i = Some d ->
  1000 <= y <= 9999 -> 0 <= m <= 11 -> 0 <= d <= 31 -> Z.abs off <= 100 -> p <> PYear ->
  hoare (holds i) (adjustDate defaults now t off p) (fun _ => wf (clamp' (moved p off y m d))).
Proof.
  intros H1 H2 H3 H4 Hy Hm Hd Hoff Hp mg (Hdata & Hinst & Hen). unfold adjustDate, isDisabled.
  rewrite bool_decide_false by done. unfold sbind at 1, inst_of. rewrite Hdata, Hinst.
  assert (match p with PMonth => st_showCurrentAtPos (i_settings i) | _ => 0 end = 0) as ->
    by (rewrite H1, (ss_pos _ _ _ _ Hst); by destruct p).
  rewrite Z.add_0_r.
  assert ((adjustInstDate defaults now off p i).1 = at_day (clamp' (moved p off y m d)) i) as E.
  { apply (adjust_at defaults now st); try done; [apply (ss_bounds _ _ _ _ Hst)|lia..|destruct p; simpl; done || lia]. }
  destruct (adjustInstDate defaults now off p i) as [i' ns]. cbn [fst] in E. subst i'.
  pose proof (shows_at_day (clamp' (moved p off y m d)) i H1 H2) as Hs.
  assert (hoare (fun m => m = mg) (store id (at_day (clamp' (moved p off y m d)) i);! smodify (notify ns);!
    updateDatepicker defaults now id) (fun _ => wf (clamp' (moved p off y m d)))) as Hh; [|by apply Hh].
  eapply hoare_bind.
  - apply hoare_modify with (Q := fun _ => wf (clamp' (moved p off y m d))). intros ? ->.
    split; [done| |done|apply clamp_between]. eexists. split; [apply lookup_insert_eq|done].
  - intros ?. cbn beta. hbind ltac:(apply notify_spec). apply update_spec.
Qed.

Lemma adjustDate_spec now p off n : Z.abs off <= 100 -> p <> PYear ->
  hoare (wf n) (adjustDate defaults now t off p) (fun _ => wf (go p off n)).
Proof.
  intros Hoff Hp m Hm. destruct (wf_inst _ _ _ _ _ _ _ Hm) as (i & Ei & [H1 H2 H3 H4]).
  pose proof (year_between n (wf_in _ _ _ _ _ _ _ Hm)). pose proof (civil_bounds n) as [? ?].
  apply (adjustDate_raw now p off (civil n).1.1 (civil n).1.2 (civil n).2 i); try done; try lia.
  - by injection H3.
  - split_and!; [apply (wf_data _ _ _ _ _ _ _ Hm)|done|apply (wf_enabled _ _ _ _ _ _ _ Hm)].
Qed.

Lemma gotoToday_spec now n : clock_ok now ->
  hoare (wf n) (gotoToday defaults now t) (fun _ => wf (clamp' (today now))).
Proof.
  intros (k & Hk & Hy). unfold gotoToday, today. rewrite Hk. change (default 0 (Some k)) with k.
  apply inst_of_spec. intros i [H1 H2 _ _] Hn. rewrite H1, (ss_goto _ _ _ _ Hst). cbn [andb].
  destruct (fields_day_of now k Hk) as (-> & -> & ->). pose proof (civil_bounds k) as [? ?].
  hbind ltac:(apply store_holds). hbind ltac:(apply notify_holds).
  match goal with |- hoare (holds ?j) _ _ =>
    pose proof (adjustDate_raw now PNone 0 (civil k).1.1 (civil k).1.2 (civil k).2 j) as Hr end.
  rewrite moved_civil in Hr. apply Hr; try done; try lia; by destruct i.
Qed.

Lemma selectMonthYear_spec now v p n : (p = PMonth /\ 0 <= v <= 11) \/ (p = PYear /\ 1000 <= v <= 9999) ->
  hoare (wf n) (selectMonthYear defaults now t v p) (fun _ => wf (clamp' (match p with
    | PMonth => moved PNone 0 (civil n).1.1 v (civil n).2 | _ => moved PNone 0 v (civil n).1.2 (civil n).2 end))).
Proof.
  intros Hv. unfold selectMonthYear. apply inst_of_spec. intros i [H1 H2 H3 H4] Hn.
  pose proof (year_between n Hn). pose proof (civil_bounds n) as [? ?]. injection H3 as Ey Em Ed. injection H4 as Ey' Em'.
  hbind ltac:(apply store_holds). hbind ltac:(apply notify_holds).
  destruct Hv as [[-> Hv]|[-> Hv]]; apply adjustDate_raw; try done; try lia; unfold drawn; destruct i; cbn in *; subst; done.
Qed.

(** ** Choosing a day *)

Lemma selectDate_spec now s n : hoare (wf n) (selectDate defaults now t s) (fun _ => wf n).
Proof.
  unfold selectDate. apply inst_of_spec. intros i Hi Hn.
  hbind ltac:(apply (store_spec n n); [|done]; apply updateAlternate_shows; eapply shows_ext; [..|exact Hi]; by destruct i).
  hbind ltac:(apply notify_spec). destruct (i_inline _); [apply update_spec|].
  hbind ltac:(apply hide_spec). by apply keep_spec.
Qed.

(** The fields of a choice. *)
Lemma choose_shows n n' i : shows n i -> (civil n').1 = (civil n).1 ->
  shows n' (set_current (Some (civil n').2) (Some (civil n').1.2) (Some (civil n').1.1)
             (set_selected (Some (civil n').2) (Some (civil n').1.2) (Some (civil n').1.1) i)).
Proof.
  intros [H1 H2 H3 H4] E. split.
  - by destruct i.
  - by destruct i.
  - unfold selects. by destruct i.
  - rewrite E. destruct i. exact H4.
Qed.

Lemma selectDay_spec now n n' unselectable : (unselectable = false -> lo <= n' <= hi /\ (civil n').1 = (civil n).1) ->
  hoare (wf n) (selectDay defaults now t (Some (civil n').1.2) (Some (civil n').1.1) (Some (civil n').2) unselectable)
    (fun _ => wf (if unselectable then n else n')).
Proof.
  intros Hc m Hm. unfold selectDay, isDisabled. rewrite bool_decide_false by apply (wf_enabled _ _ _ _ _ _ _ Hm).
  destruct unselectable; cbn [orb]; [by eexists _, _|]. destruct (Hc eq_refl) as [Hn' E]. revert m Hm.
  apply inst_of_spec. intros i Hi Hn. unfold formatDate_. pose proof (civil_bounds n') as [_ Hd].
  assert (truthy (Some (civil n').2) = true) as -> by (unfold truthy; destruct (Z.eqb_spec (civil n').2 0); [lia|done]).
  hbind ltac:(apply (store_spec n n'); [by apply choose_shows with (n := n)|done]). apply selectDate_spec.
Qed.

(** ** Keys *)

Lemma key_switch_spec now e sel n i : clock_ok now -> shows n i -> lo <= n <= hi ->
  match sel with Some (d, false) => d = Some (civil n).2 | _ => True end ->
  hoare (wf n) (key_switch defaults now t i e sel) (fun _ => wf (key_moves now e n)).
Proof.
  intros Hck [H1 H2 H3 H4] Hn Hsel. unfold key_switch, key_moves. rewrite H1.
  destruct (ss_steps _ _ _ _ Hst) as [Hs1 Hs2].
  set (step := if k_ctrl e then st_stepBigMonths st else st_stepMonths st).
  assert (Z.abs step <= 100) as Hstep by (unfold step; destruct (k_ctrl e); done).
  clearbody step. assert (Z.abs (- step) <= 100) as Hstep' by lia.
  destruct (Z.eqb_spec (k_code e) 9) as [->|_].
  { hbind ltac:(apply hide_spec). by apply hoare_ret. }
  destruct (Z.eqb_spec (k_code e) 13) as [->|_].
  { cbn [Z.eqb Pos.eqb]. injection H3 as Ey Em Ed. rewrite Ey, Em. eapply hoare_bind with (R := fun _ => wf n).
    - destruct sel as [[d u]|]; [|by apply hoare_ret]. destruct u.
      + intros m Hm. by eexists m, tt.
      + subst d. apply (selectDay_spec now n n false). done.
    - intros ?. cbn beta. eapply hoare_bind with (R := fun _ => wf n); [|intros ?; by apply hoare_ret].
      destruct (st_onSelect st); [|apply hide_spec]. apply inst_of_spec. intros j Hj _.
      unfold formatDate_. cbn [truthy].
      hbind ltac:(apply (store_spec n n); [eapply shows_ext; [..|exact Hj]; by destruct j|done]). apply notify_spec. }
  destruct (Z.eqb_spec (k_code e) 27) as [->|_].
  { hbind ltac:(apply hide_spec). by apply hoare_ret. }
  destruct (k_code e =? 33); [hbind ltac:(by apply adjustDate_spec); by apply hoare_ret|].
  destruct (k_code e =? 34); [hbind ltac:(by apply adjustDate_spec); by apply hoare_ret|].
  set (ctrl := k_ctrl e || k_meta e).
  assert (forall off k, Z.abs off <= 100 -> hoare (wf k) (swhen ctrl (adjustDate defaults now t off PDay))
    (fun _ => wf (if ctrl then go PDay off k else k))) as Hday.
  { intros off k Hoff. destruct ctrl; [by apply adjustDate_spec|by apply hoare_ret]. }
  assert (forall off k, Z.abs off <= 100 -> hoare (wf k) (swhen (k_alt e) (adjustDate defaults now t off PMonth))
    (fun _ => wf (if k_alt e then go PMonth off k else k))) as Halt.
  { intros off k Hoff. destruct (k_alt e); [by apply adjustDate_spec|by apply hoare_ret]. }
  destruct (Z.eqb_spec (k_code e) 35) as [->|_].
  { cbn [Z.eqb Pos.eqb]. eapply hoare_bind with (R := fun _ => wf n); [|intros ?; by apply hoare_ret].
    destruct ctrl; [apply selectDate_spec|by apply hoare_ret]. }
  destruct (k_code e =? 36).
  { eapply hoare_bind with (R := fun _ => wf (if ctrl then clamp' (today now) else n)); [|intros ?; by apply hoare_ret].
    destruct ctrl; [by apply gotoToday_spec|by apply hoare_ret]. }
  destruct (k_code e =? 37).
  { hbind ltac:(apply Hday; destruct (st_isRTL st); lia). hbind ltac:(by apply Halt). by apply hoare_ret. }
  destruct (k_code e =? 38); [hbind ltac:(apply Hday; lia); by apply hoare_ret|].
  destruct (k_code e =? 39).
  { hbind ltac:(apply Hday; destruct (st_isRTL st); lia). hbind ltac:(by apply Halt). by apply hoare_ret. }
  destruct (k_code e =? 40); [hbind ltac:(apply Hday; lia); by apply hoare_ret|].
  by apply hoare_ret.
Qed.

Lemma doKeyDown_spec now e sel n b : allowed b now (AKey e sel) n ->
  hoare (fun m => wf n m /\ m_showing m = b) (doKeyDown defaults now Some t e sel)
    (fun _ => wf (if b then key_moves now e n else n)).
Proof.
  intros (Hck & Hno & Hsel) m [Hm Hb]. destruct (wf_inst _ _ _ _ _ _ _ Hm) as (i & Ei & Hi).
  pose proof (wf_in _ _ _ _ _ _ _ Hm) as Hn.
  unfold doKeyDown, sbind at 1, inst_of. rewrite (wf_data _ _ _ _ _ _ _ Hm), Ei.
  unfold sbind at 1, store, smodify. unfold sbind at 1, sget.
  set (m' := with_insts (<[id:=set_keyEvent true i]>) m).
  assert (wf n m') as Hm'.
  { destruct Hm as [W1 _ W3 W4]. split; [done| |done|done]. eexists. split; [apply lookup_insert_eq|].
    eapply shows_ext; [..|exact Hi]; by destruct i. }
  change (m_showing m') with (m_showing m). rewrite Hb. destruct b.
  - by apply key_switch_spec.
  - rewrite (Hno eq_refl). by exists m', false.
Qed.

(** ** The other methods *)

Lemma setDate_shows now d k n i : shows n i -> day_of d = Some k -> in_range k ->
  shows (clamp' k) (setDate_ defaults now (DDate d) false i).1.
Proof.
  intros [H1 H2 H3 H4] Hd Hk.
  destruct (setDate_day defaults now st (Some lo) (Some hi) d k false i) as (E1 & E2 & E3 & _); try done.
  - apply (ss_bounds _ _ _ _ Hst).
  - apply year_in_between, clamp_between.
  - split; [done| |done|done]. rewrite <- H2. by apply setDate_target.
Qed.

Lemma setDateDatepicker_spec now k n : in_range k ->
  hoare (wf n) (setDateDatepicker defaults now t (DDate (date_at k))) (fun _ => wf (clamp' k)).
Proof.
  intros Hk. unfold setDateDatepicker. apply inst_of_spec. intros i Hi Hn.
  pose proof (setDate_shows now (date_at k) k n i Hi (day_of_date_at k) Hk) as Hs.
  destruct (setDate_ defaults now (DDate (date_at k)) false i) as [i' ns]. cbn [fst] in Hs.
  hbind ltac:(eapply store_spec; [exact Hs|apply clamp_between]).
  hbind ltac:(apply notify_spec). hbind ltac:(apply update_spec).
  apply get_inst_spec. intros j Hj Hjn. apply store_spec; [by apply updateAlternate_shows|done].
Qed.

Lemma external_spec t' inPopup onTrigger n : hoare (wf n) (checkExternalClick t' inPopup onTrigger) (fun _ => wf n).
Proof.
  intros m Hm. unfold checkExternalClick. destruct (m_curInst m) as [c|]; [|by exists m, tt].
  unfold swhen. destruct (_ || _); [by apply hide_spec|by exists m, tt].
Qed.

(** One step of a session. *)
Lemma perform_spec now a n b : allowed b now a n ->
  hoare (fun m => wf n m /\ m_showing m = b) (perform now a) (fun _ => wf (calendar b now a n)).
Proof.
  intros Ha. destruct a; cbn [perform calendar]; destruct Ha as [Hck Ha].
  1: { eapply hoare_bind; [by apply doKeyDown_spec|]. intros ?. by apply hoare_ret. }
  all: intros mg [Hm _]; revert mg Hm.
  - by apply adjustDate_spec.
  - by apply gotoToday_spec.
  - apply (selectMonthYear_spec now v PMonth). by left.
  - apply (selectMonthYear_spec now v PYear). by right.
  - destruct unselectable.
    + intros mg Hm. by exists mg, tt.
    + destruct Ha as (Hv & Hin & Hmonth). pose proof (civil_make_day y m d Hv) as Ec.
      pose proof (selectDay_spec now n (make_day y m d) false) as Hs. rewrite Ec in Hs. apply Hs. intros _.
      split; [done|]. cbn [fst]. done.
  - apply selectDate_spec.
  - by apply setDateDatepicker_spec.
  - unfold refreshDatepicker. apply inst_of_spec. intros i Hi Hn. apply update_spec.
  - apply hide_spec.
  - apply external_spec.
Qed.

(** ** Sessions *)

(** One event after another, up to an exception. *)
Fixpoint run (l : list (date * action)) : M unit :=
  match l with [] => sret tt | (now, a) :: l => perform now a ;! run l end.

Fixpoint run_calendar (l : list (date * action)) (m : manager) (n : Z) : Z :=
  match l with [] => n | (now, a) :: l => run_calendar l (perform now a m).1 (calendar (m_showing m) now a n) end.

Fixpoint all_allowed (l : list (date * action)) (m : manager) (n : Z) : Prop :=
  match l with
  | [] => True
  | (now, a) :: l => allowed (m_showing m) now a n /\ all_allowed l (perform now a m).1 (calendar (m_showing m) now a n)
  end.

Lemma run_wf l : forall m n, wf n m -> all_allowed l m n ->
  exists m', run l m = (m', Ok tt) /\ wf (run_calendar l m n) m'.
Proof.
  induction l as [|[now a] l IH]; intros m n Hm Hl; [by exists m|]. destruct Hl as [Ha Hl]. cbn [run run_calendar].
  destruct (perform_spec now a n _ Ha m (conj Hm eq_refl)) as (m' & [] & E & H).
  rewrite (sbind_run _ _ _ _ _ E). rewrite E in Hl |- *. by apply IH.
Qed.

End session.

(** C1: sessions.  Whatever keys, links, menus, clicks and calls of methods come
    one after another, as long as the page's clock and menus are in order, every
    handler returns without throwing, and the picker stays on one day, that of the
    calendar that holds a day and brings every move between the bounds: the day
    selected is a day of the calendar between the bounds and the month drawn is its month. *)
Theorem session_refines {TZ : TimeZone} {TZL : TimeZoneLaws} (defaults : format_settings)
    (t id : nat) (st : settings) (lo hi : Z) (l : list (date * action)) (m : manager) (n : Z) :
  session_settings defaults st lo hi -> wf t id st lo hi n m -> all_allowed defaults t st lo hi l m n ->
  let n' := run_calendar defaults t st lo hi l m n in
  lo <= n' <= hi /\
  exists m' i, run defaults t l m = (m', Ok tt) /\ m_insts m' !! id = Some i /\ i_settings i = st /\
    selected i = (Some (civil n').1.1, Some (civil n').1.2, Some (civil n').2) /\
    drawn i = (Some (civil n').1.1, Some (civil n').1.2).
Proof.
  intros Hst Hm Hl n'. destruct (run_wf defaults t id st lo hi Hst l m n Hm Hl) as (m' & E & [_ (i & Ei & [H1 _ H3 H4]) _ Hn]).
  split; [done|]. by exists m', i.
Qed.

(** ** Opening *)

(** The day an opening picker goes to: the date in the field, or today. *)
Definition field_day `{TimeZone} (defaults : format_settings) (now : date) (st : settings) (v : text) : Z :=
  match parse defaults now st v with
  | Ok (Some d) => default 0 (day_of d)
  | _ => today now
  end.

Lemma parse_day {TZ : TimeZone} {TZL : TimeZoneLaws} defaults now st v d : clock_ok now ->
  char "!" ∉ st_dateFormat st -> parse defaults now st v = Ok (Some d) ->
  exists n, d = date_at n /\ year_in n.
Proof.
  intros (k & Hk & Hy) Hf. unfold parse.
  destruct (parseDate _ 40 now _ _) as [r|] eqn:E; [|done]. intros ->.
  destruct (fields_day_of now k Hk) as (Ey & _).
  by apply (parse_year_bounds (config defaults now st) 40 now (civil k).1.1 (st_dateFormat st) v d).
Qed.

Lemma update_popup `{TimeZone} defaults now id m m' :
  updateDatepicker defaults now id m = (m', Ok tt) -> m_lastInput m' = m_lastInput m.
Proof.
  unfold updateDatepicker, sbind, get_inst. destruct (m_insts m !! id) as [i|]; [|done].
  destruct (generateHTML defaults now i) as [i' [html|msg]]; by intros [= <-].
Qed.

(** The instance of an input whose field is read. *)
Lemma field_shows {TZ : TimeZone} {TZL : TimeZoneLaws} (defaults : format_settings) (now : date)
    (t : nat) (st : settings) (lo hi : Z) (i : inst) :
  session_settings defaults st lo hi -> clock_ok now -> char "!" ∉ st_dateFormat st -> st_defaultDate st = DNull ->
  i_settings i = st -> i_target i = t -> i_inline i = false ->
  let j := setDateFromField defaults now false (set_lastVal None (set_settings st i)) in
  shows t st (clamp (Some lo) (Some hi) (field_day defaults now st (i_input i))) j /\ i_inline j = false.
Proof.
  intros Hst Hck Hf Hdef Hi Ht Hinl j.
  pose proof Hck as (k & Hk & Hky).
  assert (has_default defaults now st (clamp (Some lo) (Some hi) k)) as Hd.
  { apply has_default_today; [apply (ss_bounds _ _ _ _ Hst)|done|done|]. apply year_in_range. unfold year_in. lia. }
  pose proof (clamp_between defaults st lo hi Hst) as Hcl. pose proof (year_in_between defaults st lo hi Hst) as Hyb.
  assert (exists n, day_of (read_date (date_at (clamp (Some lo) (Some hi) k)) (parse defaults now st (i_input i))) = Some n /\
      year_in n /\ clamp (Some lo) (Some hi) n = clamp (Some lo) (Some hi) (field_day defaults now st (i_input i)))
      as (n & E1 & E2 & E3).
    { unfold read_date, field_day, today. rewrite Hk. change (default 0 (Some k)) with k.
      destruct (parse defaults now st (i_input i)) as [[d|]|msg] eqn:Ep.
      - destruct (parse_day defaults now st _ d Hck Hf Ep) as (n & -> & Hn). exists n.
        rewrite day_of_date_at. done.
      - exists (clamp (Some lo) (Some hi) k). rewrite day_of_date_at, clamp_idem. split_and!; try done. by apply Hyb.
      - exists (clamp (Some lo) (Some hi) k). rewrite day_of_date_at, clamp_idem. split_and!; try done. by apply Hyb. }
    destruct (setDateFromField_day defaults now st (Some lo) (Some hi) (clamp (Some lo) (Some hi) k) n (i_input i) false
      (set_lastVal None (set_settings st i))) as (S1 & S2 & S3 & _ & _ & S6 & S7 & _); try done.
    - apply (ss_bounds _ _ _ _ Hst).
    - by destruct i.
    - by destruct i.
    - by destruct i.
    - rewrite E3 in S2, S3. fold j in S1, S2, S3, S6, S7. split; [|by rewrite S7; destruct i].
      split; [done|by rewrite S6; destruct i|done|done].
Qed.

(** C38: opening.  An enabled input whose picker is not already open opens it:
    the picker that was open is hidden, this one becomes the current one and is
    showing, on the day of the date in the field, or of today when there is none,
    brought between the bounds, with that day's month drawn. *)
Theorem show_opens {TZ : TimeZone} {TZL : TimeZoneLaws} (defaults : format_settings) (now : date)
    (t id : nat) (st : settings) (lo hi : Z) (i : inst) (m : manager) :
  session_settings defaults st lo hi -> clock_ok now -> char "!" ∉ st_dateFormat st -> st_defaultDate st = DNull ->
  m_data m !! t = Some id -> m_insts m !! id = Some i -> i_settings i = st -> i_target i = t ->
  i_inline i = false -> t ∉ m_disabled m -> m_lastInput m <> Some t ->
  exists m', showDatepicker defaults now Some t m = (m', Ok tt) /\
    m_showing m' = true /\ m_curInst m' = Some id /\ m_lastInput m' = Some t /\
    wf t id st lo hi (clamp (Some lo) (Some hi) (field_day defaults now st (i_input i))) m'.
Proof.
  intros Hst Hck Hf Hdef Hdata Hinst Hi Ht Hinl Hen Hlast.
  destruct (field_shows defaults now t st lo hi i Hst Hck Hf Hdef Hi Ht Hinl) as [Hs Hj].
  set (j := setDateFromField defaults now false (set_lastVal None (set_settings st i))) in *.
  pose proof (clamp_between defaults st lo hi Hst) as Hcl.
  set (n := clamp (Some lo) (Some hi) (field_day defaults now st (i_input i))) in *.
  assert (lo <= n <= hi) as Hn by apply Hcl.
  unfold showDatepicker, isDisabled. rewrite bool_decide_false by done. rewrite bool_decide_false by done. cbn [orb].
  unfold sbind at 1, inst_of. rewrite Hdata, Hinst. unfold sbind at 1, sget.
  set (cur := match m_curInst m with Some c => _ | None => None end). clearbody cur.
  assert (exists m1, match cur with Some c => hideDatepicker (Some c) | None => sret tt end m = (m1, Ok tt) /\
    m_data m1 = m_data m /\ m_insts m1 = m_insts m /\ m_disabled m1 = m_disabled m) as (m1 & Em1 & D1 & D2 & D3).
  { destruct cur as [c|]; [|by exists m]. eexists. split; [reflexivity|].
    destruct (m_curInst m); [|done]. destruct (negb _); [done|]. by destruct (m_showing m). }
  rewrite (sbind_run _ _ _ _ _ Em1), Hi. fold j.
  rewrite (sbind_run (smodify _) _ m1 _ tt eq_refl), (sbind_run (store id j) _ _ _ tt eq_refl).
  set (m2 := with_insts (<[id:=j]>) (with_popup (m_curInst m1) (m_showing m1) (Some t) m1)).
  assert (wf t id st lo hi n m2) as Hw.
  { split; [unfold m2; simpl; by rewrite D1| |unfold m2; simpl; by rewrite D3|done].
    exists j. split; [apply lookup_insert_eq|done]. }
  pose proof (update_spec defaults t id st lo hi Hst now n m2 Hw) as (m3 & [] & E3 & Hw3).
  rewrite (sbind_run _ _ m2 _ _ E3). rewrite Hinl. cbn [negb swhen].
  eexists. split; [reflexivity|]. split_and!; [done|done| |].
  - cbn [m_lastInput with_popup]. rewrite (update_popup _ _ _ _ _ E3). done.
  - destruct Hw3 as [W1 W2 W3 W4]. by split.
Qed.

(** ** Witnesses *)

Definition brasilia_zone : TimeZone := summer_zone (-10800000) 1445137200000.

Lemma example_session {TZ : TimeZone} {TZL : TimeZoneLaws} :
  session_settings english example_settings day_2015_10_18 day_2016_02_10.
Proof.
  split.
  - apply example_bounds.
  - vm_compute. discriminate.
  - vm_compute. split; discriminate.
  - intros now. exists (None, None). reflexivity.
  - intros i Hi. unfold getNumberOfMonths. by rewrite Hi.
  - reflexivity.
  - vm_compute. split; discriminate.
  - reflexivity.
Qed.

Lemma example_clock : @clock_ok brasilia_zone (@example_now brasilia_zone).
Proof. exists (make_day 2016 0 31). split; [vm_compute; reflexivity|vm_compute; split; discriminate]. Qed.

(** The picker of element 7, open on January 31, 2016. *)
Definition example_manager : manager :=
  Manager {[0%nat := at_day (make_day 2016 0 31) (newInst (@example_settings brasilia_zone) 7 false (txt "31/01/2016"))]}
    {[7%nat := 0%nat]} (Some 0%nat) true (Some 7%nat) [] ∅ [].

(** Ctrl and the right arrow, the link to the next month, a click on February 5. *)
Definition example_actions : list (date * action) :=
  let now := @example_now brasilia_zone in
  [(now, AKey (KeyEvent 39 true false false) None); (now, ALink 1); (now, ADay 2016 1 5 false)].

Lemma session_refines_witness :
  exists m' i, @run brasilia_zone english 7 example_actions example_manager = (m', Ok tt) /\ m_insts m' !! 0%nat = Some i /\
    selected i = (Some 2016, Some 1, Some 5).
Proof.
  pose proof (summer_zone_laws (-10800000) 1445137200000 ltac:(lia) : @TimeZoneLaws brasilia_zone) as TZL.
  destruct (@session_refines brasilia_zone TZL english 7 0 (@example_settings brasilia_zone) day_2015_10_18
    day_2016_02_10 example_actions example_manager (make_day 2016 0 31)) as (_ & m' & i & E & Ei & _ & Es & _).
  - exact (@example_session brasilia_zone TZL).
  - split.
    + reflexivity.
    + eexists. split; [reflexivity|]. split; reflexivity.
    + vm_compute. intros H. inversion H.
    + vm_compute. split; discriminate.
  - split; [split; [exact example_clock|split; [discriminate|exact I]]|].
    split; [split; [exact example_clock|vm_compute; discriminate]|].
    split; [|exact I]. split; [exact example_clock|]. split; [vm_compute; repeat split; discriminate|].
    split; [vm_compute; split; discriminate|vm_compute; reflexivity].
  - exists m', i. split; [exact E|]. split; [exact Ei|]. etransitivity; [exact Es|vm_compute; reflexivity].
Defined.

(** The same picker, closed, with a date beyond the maximum in its field. *)
Definition closed_manager : manager :=
  Manager {[0%nat := newInst (@example_settings brasilia_zone) 7 false (txt "5/3/2016")]}
    {[7%nat := 0%nat]} None false None [] ∅ [].

Lemma show_opens_witness :
  exists m', @showDatepicker brasilia_zone english (@example_now brasilia_zone) Some 7 closed_manager = (m', Ok tt) /\
    m_showing m' = true.
Proof.
  pose proof (summer_zone_laws (-10800000) 1445137200000 ltac:(lia) : @TimeZoneLaws brasilia_zone) as TZL.
  destruct (@show_opens brasilia_zone TZL english (@example_now brasilia_zone) 7 0 (@example_settings brasilia_zone)
    day_2015_10_18 day_2016_02_10 (newInst (@example_settings brasilia_zone) 7 false (txt "5/3/2016")) closed_manager
    (@example_session brasilia_zone TZL) example_clock) as (m' & E & H & _).
  - vm_compute. set_solver.
  - reflexivity.
  - reflexivity.
  - reflexivity.
  - reflexivity.
  - reflexivity.
  - reflexivity.
  - vm_compute. intros H. inversion H.
  - discriminate.
  - exists m'. split; [exact E|exact H].
Defined.

(** ** Departures *)

(** Three months with the current one in the middle. *)
Definition three_months : settings :=
  let 'Settings a1 a2 a3 a4 a5 a6 a7 a8 a9 a0 b1 b2 b3 b4 _ _ b7 b8 b9 c1 c2 c3 c4 c5 c6 c7 c8 c9 d1 d2 d3 d4 d5
        d6 d7 d8 d9 e1 e2 e3 e4 e5 e6 := default_settings in
  Settings a1 a2 a3 a4 a5 a6 a7 a8 a9 a0 b1 b2 b3 b4 1 (MNum 3) b7 b8 b9 c1 c2 c3 c4 c5 c6 c7 c8 c9 d1 d2 d3 d4 d5
        d6 d7 d8 d9 e1 e2 e3 e4 e5 e6.

(** Drawing moves [drawMonth] to the first of the months; a move by a day then
    starts from there, so that the day after March 15 is February 16. *)
Lemma day_move_after_drawing :
  let now := @example_now brasilia_zone in
  let i := at_day (make_day 2016 2 15) (newInst three_months 7 false []) in
  let i := (@generateHTML brasilia_zone english now i).1 in
  selected (@adjustInstDate brasilia_zone english now 1 PDay i).1 = (Some 2016, Some 1, Some 16).
Proof. vm_compute. reflexivity. Qed.

(** The link to today changes the selection of a disabled picker. *)
Lemma today_when_disabled :
  let m := with_disabled [7%nat] example_manager in
  let now := @new_date brasilia_zone (Some 2015) (Some 10) (Some 2) in
  selected <$> m_insts (@gotoToday brasilia_zone english now 7 m).1 !! 0%nat = Some (Some 2015, Some 10, Some 2).
Proof. vm_compute. reflexivity. Qed.
