(* ===== verification/Turbolinks.v ===== *)
(** * Turbolinks (application bundle, lines 12207-12812)

    Pages are fetched and swapped inside one document; a cache keeps the pages
    left.  The state is the variables of the closure with the window they work
    on: the history, the document, the scroll position.  A request is answered
    later, by [onload] or [onerror]; aborting one empties [xhr] at once, as its
    [loadend] event does.  The events triggered are a log.

    What the browser does with texts is a parameter: parsing an address, and
    what a body holds.  [now] is [new Date().getTime()]. *)

From S2P Require Import Prelude JsString.
From Stdlib Require Import ZArith Lia Ascii.

Local Open Scope Z_scope.
Local Open Scope js_scope.

(** ** Addresses *)

Record url := Url {
  href : text; protocol : text; hostname : text; port : text;
  pathname : text; search : text; hash : text
}.

Record script := Script { sc_type : text; sc_eval : option text; sc_code : text }.

(** The browser: [a.href = s] then its properties, and queries on a body. *)
Class Browser := {
  parse_url : text -> url;
  scripts_of : text -> list script;
  autofocus_of : text -> option nat;
  no_transition_cache : text -> bool;
  firefox : bool
}.

(** What Turbolinks relies on: an address that is read is read as itself. *)
Class BrowserLaws `{Browser} := { parse_href s : parse_url (href (parse_url s)) = parse_url s }.

Definition origin (u : url) : text :=
  protocol u ++ txt "//" ++ hostname u ++ match port u with [] => [] | p => txt ":" ++ p end.
Definition relative (u : url) : text := pathname u ++ search u ++ hash u.
Definition absolute (u : url) : text := href u.
Definition withoutHash (u : url) : text := replace_first (hash u) [] (href u).
Definition hasNoHash (u : url) : bool := match hash u with [] => true | _ => false end.

(** ** State *)

(** The state of a history entry; [url] may be missing from another's state. *)
Record hstate := HState { hs_turbolinks : bool; hs_url : option text }.
Record entry := Entry { e_state : option hstate; e_url : text }.

Record cached := Cached {
  p_url : text; p_body : text; p_title : text; p_y : Z; p_x : Z; p_at : Z; p_disabled : bool
}.

(** A node of a head with its attributes. *)
Record asset := Asset { a_track : option text; a_src : option text; a_href : option text }.

(** A parsed document; the token is the [content] of the meta tag, if there is one. *)
Record doc := Doc { d_title : option text; d_body : text; d_csrf : option (option text); d_head : list asset }.

Record response := Response {
  rs_status : Z; rs_type : option text; rs_redirect : option text; rs_doc : option doc
}.

Record request := Request { rq_url : url; rq_referer : option text; rq_reset : bool }.

Inductive event :=
| EFetch (u : text) | EReceive (u : text) | EChange | EUpdate | ELoad | ERestore
| EExpire (p : cached) | ESend (u : text) | EScript (code : text).

Record turbo := Turbo {
  t_cache : list (text * cached); t_size : Z; t_enabled : bool; t_current : option hstate;
  t_assets : option (list (option text)); t_referer : option text; t_xhr : option request;
  w_before : list entry; w_entry : entry; w_after : list entry;
  w_title : text; w_body : text; w_csrf : option (option text); w_head : list asset;
  w_focus : option nat; w_scroll : Z * Z; w_left : option text; w_log : list event
}.

Definition set_cache c (s : turbo) := let 'Turbo _ z e u a r x b n f t d k h o p l g := s in Turbo c z e u a r x b n f t d k h o p l g.
Definition set_size z (s : turbo) := let 'Turbo c _ e u a r x b n f t d k h o p l g := s in Turbo c z e u a r x b n f t d k h o p l g.
Definition set_enabled e (s : turbo) := let 'Turbo c z _ u a r x b n f t d k h o p l g := s in Turbo c z e u a r x b n f t d k h o p l g.
Definition set_state u (s : turbo) := let 'Turbo c z e _ a r x b n f t d k h o p l g := s in Turbo c z e u a r x b n f t d k h o p l g.
Definition set_assets a (s : turbo) := let 'Turbo c z e u _ r x b n f t d k h o p l g := s in Turbo c z e u a r x b n f t d k h o p l g.
Definition set_referer r (s : turbo) := let 'Turbo c z e u a _ x b n f t d k h o p l g := s in Turbo c z e u a r x b n f t d k h o p l g.
Definition set_xhr x (s : turbo) := let 'Turbo c z e u a r _ b n f t d k h o p l g := s in Turbo c z e u a r x b n f t d k h o p l g.
Definition set_history b n f (s : turbo) := let 'Turbo c z e u a r x _ _ _ t d k h o p l g := s in Turbo c z e u a r x b n f t d k h o p l g.
Definition set_page t d o (s : turbo) := let 'Turbo c z e u a r x b n f _ _ k h _ p l g := s in Turbo c z e u a r x b n f t d k h o p l g.
Definition set_csrf k (s : turbo) := let 'Turbo c z e u a r x b n f t d _ h o p l g := s in Turbo c z e u a r x b n f t d k h o p l g.
Definition set_scroll p (s : turbo) := let 'Turbo c z e u a r x b n f t d k h o _ l g := s in Turbo c z e u a r x b n f t d k h o p l g.
Definition set_left l (s : turbo) := let 'Turbo c z e u a r x b n f t d k h o p _ g := s in Turbo c z e u a r x b n f t d k h o p l g.
Definition trigger ev (s : turbo) := let 'Turbo c z e u a r x b n f t d k h o p l g := s in Turbo c z e u a r x b n f t d k h o p l (g ++ ev).

Definition T : Type -> Type := st_ex turbo.

(** [document.location.href], and its assignment: the page is left. *)
Definition location (s : turbo) : text := e_url (w_entry s).
Definition leave (u : text) : T unit := smodify (set_left (Some u)).

(** [window.history] *)
Definition pushState (st : option hstate) (u : text) : T unit :=
  smodify (fun s => set_history (w_entry s :: w_before s) (Entry st u) [] s).
Definition replaceState (st : option hstate) (u : text) : T unit :=
  smodify (fun s => set_history (w_before s) (Entry st u) (w_after s) s).

(** ** The page cache: an object, in the order of its keys *)

Fixpoint cache_get (k : text) (c : list (text * cached)) : option cached :=
  match c with
  | [] => None
  | (k', p) :: c => if decide (k' = k) then Some p else cache_get k c
  end.

(** Assigning a key keeps its place, or adds it last. *)
Fixpoint cache_set (k : text) (p : cached) (c : list (text * cached)) : list (text * cached) :=
  match c with
  | [] => [(k, p)]
  | (k', p') :: c => if decide (k' = k) then (k, p) :: c else (k', p') :: cache_set k p c
  end.

(** The times of the pages, most recent first. *)
Definition recent_first (c : list (text * cached)) : list Z :=
  js_sort (fun a b => b - a) ((fun e => p_at e.2) <$> c).

(** [constrainPageCacheTo]: a comparison with [undefined] is false. *)
Definition expires (limit : Z) (c : list (text * cached)) (e : text * cached) : bool :=
  match (if limit <? 0 then None else recent_first c !! Z.to_nat limit) with
  | Some t => p_at e.2 <=? t
  | None => false
  end.

Definition constrainPageCacheTo (limit : Z) : T unit := smodify (fun s =>
  let c := t_cache s in
  trigger ((fun e => EExpire e.2) <$> filter (fun e => expires limit c e = true) c)
    (set_cache (filter (fun e => expires limit c e = false) c) s)).

Section turbolinks.
Context `{Browser}.

Definition here (s : turbo) : url := parse_url (location s).

(** [new ComponentUrl(currentState.url)] *)
Definition state_url (st : hstate) (s : turbo) : url :=
  parse_url (default (location s) (hs_url st)).

Definition cacheCurrentPage (now : Z) : T unit :=
  let! s := sget (fun s => s) in
  match t_current s with
  | None => sthrow "Cannot read property 'url' of null"
  | Some st =>
      let u := state_url st s in
      smodify (set_cache (cache_set (absolute u)
        (Cached (relative u) (w_body s) (w_title s) (w_scroll s).2 (w_scroll s).1 now
           (no_transition_cache (w_body s))) (t_cache s))) ;!
      constrainPageCacheTo (t_size s)
  end.

(** [pagesCached(size)]: a text of digits sets the size. *)
Definition pagesCached (size : text) : T unit :=
  match size with
  | [] => sret tt
  | _ => if forallb is_digit size then smodify (set_size (parse_digits size)) else sret tt
  end.

Definition enableTransitionCache (enable : bool) : T unit := smodify (set_enabled enable).

Definition transitionCacheFor (u : text) (s : turbo) : option cached :=
  match cache_get u (t_cache s) with
  | Some p => if p_disabled p then None else Some p
  | None => None
  end.

(** ** The document *)

(** [executeScriptTags]: the scripts put back, which runs them. *)
Definition runs (sc : script) : bool :=
  negb (bool_decide (sc_eval sc = Some (txt "false"))) &&
  bool_decide (sc_type sc ∈ [[]; txt "text/javascript"]).

Definition executeScriptTags : T unit := smodify (fun s =>
  trigger ((fun sc => EScript (sc_code sc)) <$> filter (fun sc => runs sc = true) (scripts_of (w_body s))) s).

(** [CSRFToken.update(latest)] *)
Definition update_token (latest : text) : T unit := smodify (fun s =>
  match w_csrf s with
  | Some (Some current) => if decide (current = latest) then s else set_csrf (Some (Some latest)) s
  | _ => s
  end).

(** [changePage]; assigning [undefined] to [document.title] writes it out, and
    the new body has the focus of its last autofocus field. *)
Definition changePage (title : option text) (body : text) (token : option text) (runScripts : bool) : T unit :=
  smodify (set_page (default (txt "undefined") title) body (autofocus_of body)) ;!
  match token with Some k => update_token k | None => sret tt end ;!
  swhen runScripts executeScriptTags ;!
  smodify (fun s => set_state (e_state (w_entry s)) s) ;!
  smodify (trigger [EChange; EUpdate]).

(** [replace(/<noscript[\S\s]*?<\/noscript>/ig, '')]; the length of the text is
    enough turns. *)
Definition match_ci (p s : text) : option text := 
  if decide (to_lower (take (length p) s) = p) then Some (drop (length p) s) else None.

Fixpoint after_end (fuel : nat) (s : text) : option text :=
  match fuel with
  | O => None
  | S n => match match_ci (txt "</noscript>") s with
           | Some rest => Some rest
           | None => match s with [] => None | _ :: s => after_end n s end
           end
  end.

Fixpoint remove_noscript (fuel : nat) (s : text) : text :=
  match fuel, s with
  | O, _ | _, [] => s
  | S n, c :: s' =>
      match match_ci (txt "<noscript") s with
      | Some rest => match after_end (S (length rest)) rest with
                     | Some rest => remove_noscript n rest
                     | None => c :: remove_noscript n s'
                     end
      | None => c :: remove_noscript n s'
      end
  end.

Definition removeNoscriptTags (s : text) : text := remove_noscript (length s) s.

(** [changePage.apply(null, extractTitleAndBody(doc))] *)
Definition change_to (d : doc) : T unit :=
  changePage (d_title d) (removeNoscriptTags (d_body d)) (d_csrf d ≫= id) true.

(** ** History *)

Definition rememberCurrentUrl : T unit := fun s =>
  replaceState (Some (HState true (Some (location s)))) (location s) s.
Definition rememberCurrentState : T unit := smodify (fun s => set_state (e_state (w_entry s)) s).
Definition rememberReferer : T unit := smodify (fun s => set_referer (Some (location s)) s).

Definition reflectNewUrl (u : url) : T unit := fun s =>
  (if bool_decide (Some (absolute u) = t_referer s) then sret tt
   else pushState (Some (HState true (Some (absolute u)))) (absolute u)) s.

Definition reflectRedirectedUrl (redirect : option text) : T unit := fun s =>
  match redirect with
  | Some ((_ :: _) as l) =>
      let u := parse_url l in
      let preservedHash := if hasNoHash u then hash (here s) else [] in
      replaceState (t_current s) (href u ++ preservedHash) s
  | _ => sret tt s
  end.

(** [manuallyTriggerHashChangeForFirefox]: the hash is taken off and set again,
    in a new entry. *)
Definition manuallyTriggerHashChange : T unit := fun s =>
  let u := here s in
  (if firefox && negb (hasNoHash u) then
     replaceState (t_current s) (withoutHash u) ;! pushState None (withoutHash u ++ hash u)
   else sret tt) s.

Definition recallScrollPosition (p : cached) : T unit := smodify (set_scroll (p_x p, p_y p)).

(** [resetScrollPosition]: with a hash the browser scrolls to its element, at [at_hash]. *)
Definition resetScrollPosition (at_hash : Z * Z) : T unit := smodify (fun s =>
  set_scroll (if hasNoHash (here s) then (0, 0) else at_hash) s).

(** ** Responses *)

(** [extractTrackAssets]: [getAttribute('src') || getAttribute('href')] *)
Definition extractTrackAssets (l : list asset) : list (option text) :=
  omap (fun a => match a_track a with
                 | Some _ => Some (match a_src a with Some (_ :: _) => a_src a | _ => a_href a end)
                 | None => None
                 end) l.

Definition intersection (a b : list (option text)) : list (option text) :=
  let '(a, b) := if Nat.ltb (length b) (length a) then (b, a) else (a, b) in
  filter (fun v => v ∈ b) a.

Definition assetsChanged (fetched loaded : list (option text)) : bool :=
  negb (Nat.eqb (length fetched) (length loaded)) ||
  negb (Nat.eqb (length (intersection fetched loaded)) (length loaded)).

(** [validContent] *)
Definition validContent (ty : text) : bool :=
  existsb (fun p => match strip_prefix (txt p) ty with
                    | Some [] => true
                    | Some (c :: _) => bool_decide (c = ascii_of_nat 59)
                    | None => false
                    end) ["text/html"; "application/xhtml+xml"; "application/xml"]%string.

(** [processResponse]; the assets of the first document are remembered when a
    document is first compared. *)
Definition processResponse (r : response) : T (option doc) := fun s =>
  if (400 <=? rs_status r) && (rs_status r <? 600) then (s, Ok None)
  else match rs_type r with
       | None => (s, Throw "Cannot read property 'match' of null")
       | Some ty =>
           if negb (validContent ty) then (s, Ok None)
           else match rs_doc r with
                | None => (s, Ok None)
                | Some d =>
                    let loaded := default (extractTrackAssets (w_head s)) (t_assets s) in
                    (set_assets (Some loaded) s,
                     Ok (if assetsChanged (extractTrackAssets (d_head d)) loaded then None else Some d))
                end
       end.

(** ** Fetching *)

Definition fetchReplacement (u : url) (reset : bool) : T unit :=
  smodify (trigger [EFetch (absolute u)]) ;!
  smodify (fun s => set_xhr (Some (Request u (t_referer s) reset)) s) ;!
  smodify (trigger [ESend (withoutHash u)]).

Definition fetchHistory (p : cached) : T unit :=
  smodify (set_xhr None) ;!
  changePage (Some (p_title p)) (p_body p) None false ;!
  recallScrollPosition p ;!
  smodify (trigger [ERestore]).

Definition fetch (now : Z) (u : text) : T unit :=
  let u := parse_url u in
  rememberReferer ;!
  cacheCurrentPage now ;!
  let! s := sget (fun s => s) in
  match (if t_enabled s then transitionCacheFor (absolute u) s else None) with
  | Some p => fetchHistory p ;! fetchReplacement u false
  | None => fetchReplacement u true
  end.

(** [xhr.onload], then [xhr.onloadend]. *)
Definition onload (at_hash : Z * Z) (r : response) : T unit :=
  let! x := sget t_xhr in
  match x with
  | None => sret tt
  | Some rq =>
      let u := rq_url rq in
      smodify (trigger [EReceive (absolute u)]) ;!
      let! d := processResponse r in
      match d with
      | Some d =>
          reflectNewUrl u ;! change_to d ;! manuallyTriggerHashChange ;!
          reflectRedirectedUrl (rs_redirect r) ;!
          swhen (rq_reset rq) (resetScrollPosition at_hash) ;!
          smodify (trigger [ELoad])
      | None => leave (absolute u)
      end ;!
      smodify (set_xhr None)
  end.

(** [xhr.onerror] *)
Definition onerror : T unit :=
  let! x := sget t_xhr in
  match x with
  | None => sret tt
  | Some rq => leave (absolute (rq_url rq)) ;! smodify (set_xhr None)
  end.

(** [installHistoryChangeHandler], for the state of the entry gone to. *)
Definition popstate (now : Z) : T unit :=
  let! s := sget (fun s => s) in
  match e_state (w_entry s) with
  | Some st =>
      if hs_turbolinks st then
        match cache_get (absolute (state_url st s)) (t_cache s) with
        | Some p => cacheCurrentPage now ;! fetchHistory p
        | None => fetch now (location s)
        end
      else sret tt
  | None => sret tt
  end.

(** jQuery's ajaxSuccess, with the text of the response. *)
Definition ajaxSuccess (responseText : text) : T unit :=
  swhen (negb (forallb (fun c => bool_decide (code c ∈ [9; 10; 11; 12; 13; 32; 160])) responseText))
    (smodify (trigger [EUpdate])).

(** The back and forward buttons: the entry changes, then [popstate]. *)
Definition back (now : Z) : T unit := fun s =>
  match w_before s with
  | e :: b => (smodify (set_history b e (w_entry s :: w_after s)) ;! popstate now) s
  | [] => (s, Ok tt)
  end.

Definition forward (now : Z) : T unit := fun s =>
  match w_after s with
  | e :: f => (smodify (set_history (w_entry s :: w_before s) e f) ;! popstate now) s
  | [] => (s, Ok tt)
  end.

(** The hashchange listener. *)
Definition hashchange : T unit := rememberCurrentUrl ;! rememberCurrentState.

Definition initializeTurbolinks : T unit := rememberCurrentUrl ;! rememberCurrentState.

(** ** Clicks *)

(** An element on the path of a click, from the target up to the document. *)
Record node := Node { n_anchor : bool; n_href : text; n_optout : bool; n_target : text }.

Definition ends_with (p s : text) : bool :=
  Nat.leb (length p) (length s) && bool_decide (drop (length s - length p) s = p).

Definition lower_alpha (c : ascii) : bool := (97 <=? code c) && (code c <=? 122).

(** [match(/\.[a-z]+$/g)] *)
Definition has_extension (s : text) : bool :=
  let run := take_while lower_alpha (reverse s) in
  match run, drop (length run) (reverse s) with
  | _ :: _, c :: _ => bool_decide (c = ascii_of_nat 46)
  | _, _ => false
  end.

Definition nonHtml (extensions : list text) (u : url) : bool :=
  has_extension (pathname u) &&
  negb (existsb (fun e => ends_with (txt "." ++ e) (pathname u)) ([] :: extensions)).

Definition anchored (u current : url) : bool :=
  (negb (hasNoHash u) && bool_decide (withoutHash u = withoutHash current)) ||
  bool_decide (href u = href current ++ txt "#").

(** [_extractLink]: the first anchor, with the elements above it. *)
Fixpoint extractLink (path : list node) : option (node * list node) :=
  match path with
  | [] => None
  | n :: rest => if n_anchor n then match n_href n with [] => None | _ => Some (n, rest) end
                 else extractLink rest
  end.

Definition shouldIgnore (extensions : list text) (l : node) (above : list node) (s : turbo) : bool :=
  let u := parse_url (n_href l) in
  negb (bool_decide (origin u = origin (here s))) || anchored u (here s) || nonHtml extensions u ||
  existsb n_optout (l :: above) || negb (bool_decide (n_target l = [])).

Record click := ClickEvent { c_prevented : bool; c_which : Z; c_meta : bool; c_ctrl : bool; c_shift : bool; c_alt : bool }.

Definition nonStandardClick (c : click) : bool := (1 <? c_which c) || c_meta c || c_ctrl c || c_shift c || c_alt c.

(** [Click]: whether the default action is prevented; [stop] is a listener of
    page:before-change preventing it. *)
Definition handle_click (extensions : list text) (stop : bool) (now : Z) (c : click) (path : list node) : T bool := fun s =>
  if c_prevented c then (s, Ok true)
  else match extractLink path with
       | Some (l, above) =>
           if shouldIgnore extensions l above s || nonStandardClick c then (s, Ok false)
           else (swhen (negb stop) (fetch now (n_href l)) ;! sret true) s
       | None => (s, Ok false)
       end.

End turbolinks.

(** ** Start *)

Definition word_char (c : ascii) : bool :=
  is_digit c || lower_alpha c || ((65 <=? code c) && (code c <=? 90)) || (code c =? 95).

(** [cookie.match(new RegExp(name + "=(\\w+)"))] *)
Fixpoint cookie_value (name cookie : text) : option text :=
  match match strip_prefix (name ++ txt "=") cookie with
        | Some rest => match take_while word_char rest with [] => None | v => Some v end
        | None => None
        end with
  | Some v => Some v
  | None => match cookie with [] => None | _ :: cookie => cookie_value name cookie end
  end.

Definition upper (c : ascii) : ascii := if lower_alpha c then ascii_of_nat (Z.to_nat (code c - 32)) else c.

Definition requestMethodIsSafe (cookie : text) : bool :=
  let m := map upper (default [] (cookie_value (txt "request_method") cookie)) in
  bool_decide (m = txt "GET") || bool_decide (m = []).
