(* ===== verification/TurbolinksSpec.v ===== *)
(** * Turbolinks: the page cache, responses, clicks and the history *)

From S2P Require Import Prelude JsString Turbolinks.
From Stdlib Require Import ZArith Lia Ascii Sorting.Permutation Sorting.Sorted.

Local Open Scope Z_scope.
Local Open Scope js_scope.

(** ** The page cache *)

Lemma cache_get_set k k' p c : cache_get k (cache_set k' p c) = if decide (k' = k) then Some p else cache_get k c.
Proof.
  induction c as [|[k2 p2] c IH]; cbn [cache_set cache_get]; [done|].
  destruct (decide (k2 = k')) as [->|Hne]; cbn [cache_get]; [by case_decide|].
  rewrite IH. by repeat case_decide; congruence.
Qed.

Lemma cache_get_elem k c p : cache_get k c = Some p -> (k, p) ∈ c.
Proof.
  induction c as [|[k2 p2] c IH]; cbn [cache_get]; [done|]. case_decide as E; [subst; intros [= ->]; apply list_elem_of_here|].
  intros Hp. by apply list_elem_of_further, IH.
Qed.

Lemma cache_set_keys k p c x : x ∈ (cache_set k p c).*1 <-> x = k \/ x ∈ c.*1.
Proof.
  induction c as [|[k2 p2] c IH]; cbn [cache_set fmap list_fmap fst]; [set_solver|].
  destruct (decide (k2 = k)) as [->|]; cbn [fmap list_fmap fst]; rewrite !elem_of_cons; [tauto|]. rewrite IH. tauto.
Qed.

Lemma cache_set_NoDup k p c : NoDup c.*1 -> NoDup (cache_set k p c).*1.
Proof.
  induction c as [|[k2 p2] c IH]; cbn [cache_set fmap list_fmap fst]; [intros; by apply NoDup_singleton|].
  intros [Hn Hc]%NoDup_cons. destruct (decide (k2 = k)) as [->|Hne]; cbn [fmap list_fmap fst].
  - by apply NoDup_cons.
  - apply NoDup_cons. split; [rewrite cache_set_keys; naive_solver|by apply IH].
Qed.

(** In a list sorted from the most recent, fewer than [k] times are after the [k]th. *)
Lemma count_after (l : list Z) (k : nat) (t : Z) : StronglySorted (fun a b => - a <= - b) l -> l !! k = Some t ->
  (length (filter (fun a => (t < a)%Z) l) <= k)%nat.
Proof.
  intros Hs. revert k. induction Hs as [|x l Hs IH Hx]; intros k Hk; [done|]. destruct k as [|k].
  - injection Hk as ->. rewrite filter_cons_False by lia.
    assert (filter (fun a => t < a) l = []) as ->; [|done].
    apply filter_none. eapply Forall_impl; [exact Hx|]. cbv beta. lia.
  - rewrite filter_cons. case_decide; cbn [length]; specialize (IH k Hk); lia.
Qed.

Lemma recent_first_sorted c : StronglySorted (fun a b => - a <= - b) (recent_first c).
Proof. unfold recent_first. apply (js_sort_sorted _ Z.opp). intros; lia. Qed.

Lemma recent_first_perm c : recent_first c ≡ₚ (fun e => p_at e.2) <$> c.
Proof. apply js_sort_perm. Qed.

Lemma length_filter_fmap {A B} (f : A -> B) (P : B -> Prop) `{!forall x, Decision (P x)} (l : list A) :
  length (filter P (f <$> l)) = length (filter (fun x => P (f x)) l).
Proof.
  induction l as [|x l IH]; [done|]. rewrite fmap_cons, !filter_cons.
  destruct (decide (P (f x))); cbn [length]; by rewrite IH.
Qed.

Definition kept (limit : Z) (c : list (text * cached)) := filter (fun e => expires limit c e = false) c.
Definition expired (limit : Z) (c : list (text * cached)) := filter (fun e => expires limit c e = true) c.

(** What [constrainPageCacheTo] keeps and drops. *)
Lemma kept_length limit c : 0 <= limit -> Z.of_nat (length (kept limit c)) <= limit.
Proof.
  intros Hl. unfold kept, expires. destruct (Z.ltb_spec limit 0); [lia|].
  destruct (recent_first c !! Z.to_nat limit) as [t|] eqn:Et.
  - pose proof (count_after _ _ _ (recent_first_sorted c) Et) as Hc.
    rewrite (recent_first_perm c), length_filter_fmap in Hc.
    assert (filter (fun e : text * cached => (p_at e.2 <=? t) = false) c = filter (fun e => t < p_at e.2) c) as ->; [|lia].
    apply list_filter_iff. intros e. rewrite Z.leb_gt. done.
  - apply lookup_ge_None in Et. rewrite (recent_first_perm c), length_fmap in Et.
    pose proof (length_filter (fun e : text * cached => false = false) c). lia.
Qed.

Lemma kept_recent limit c e x : e ∈ kept limit c -> x ∈ expired limit c -> p_at x.2 < p_at e.2.
Proof.
  intros [He _]%list_elem_of_filter [Hx _]%list_elem_of_filter. unfold expires in *.
  destruct (if limit <? 0 then None else _) as [t|]; [|done]. apply Z.leb_gt in He. apply Z.leb_le in Hx. lia.
Qed.

Lemma kept_all limit c : Z.of_nat (length c) <= limit -> kept limit c = c.
Proof.
  intros Hl. unfold kept. apply filter_all, Forall_forall. intros e _. unfold expires.
  destruct (Z.ltb_spec limit 0); [lia|].
  rewrite lookup_ge_None_2; [done|]. rewrite (recent_first_perm c), length_fmap. lia.
Qed.

(** The most recent page is kept, unless another is as recent. *)
Lemma kept_newest limit c k p : 0 < limit -> NoDup c.*1 -> (k, p) ∈ c ->
  (forall k' p', (k', p') ∈ c -> k' <> k -> p_at p' < p_at p) -> (k, p) ∈ kept limit c.
Proof.
  intros Hl Hnd Hin Hnew. apply list_elem_of_filter. split; [|done]. unfold expires.
  destruct (Z.ltb_spec limit 0); [lia|]. destruct (recent_first c !! Z.to_nat limit) as [t|] eqn:Et; [|done].
  apply Z.leb_gt. cbn [snd].
  apply list_elem_of_split in Hin as (l1 & l2 & ->).
  assert (recent_first (l1 ++ (k, p) :: l2) ≡ₚ p_at p :: ((fun e => p_at e.2) <$> l1 ++ l2)) as Hp.
  { rewrite recent_first_perm. rewrite fmap_app, fmap_cons. cbn [snd]. rewrite <- Permutation_middle. by rewrite fmap_app. }
  assert (Forall (fun a => a < p_at p) ((fun e => p_at e.2) <$> l1 ++ l2)) as Hlt.
  { apply Forall_fmap, Forall_forall. intros [k' p'] Hin'. cbn [compose snd]. apply (Hnew k').
    - apply elem_of_app in Hin'. apply elem_of_app. rewrite elem_of_cons. tauto.
    - intros ->. rewrite fmap_app, fmap_cons in Hnd. apply NoDup_app in Hnd as (_ & Hd & [Hn2 _]%NoDup_cons).
      apply elem_of_app in Hin' as [Hin'|Hin'].
      + apply (Hd k); [by apply (list_elem_of_fmap_2 fst _ (k, p'))|apply list_elem_of_here].
      + by apply Hn2, (list_elem_of_fmap_2 fst _ (k, p')). }
  pose proof (recent_first_sorted (l1 ++ (k, p) :: l2)) as Hs.
  destruct (recent_first (l1 ++ (k, p) :: l2)) as [|x l]; [done|].
  replace (Z.to_nat limit) with (S (Z.to_nat (limit - 1))) in Et by lia. cbn [lookup list_lookup] in Et.
  apply list_elem_of_lookup_2 in Et. apply StronglySorted_inv in Hs as [_ Hx]. rewrite Forall_forall in Hx.
  pose proof (Hx _ Et) as Hxt.
  assert (x ∈ p_at p :: ((fun e => p_at e.2) <$> l1 ++ l2)) as Hxin by (rewrite <- Hp; apply list_elem_of_here).
  apply elem_of_cons in Hxin as [->|Hxin].
  - apply (Permutation_cons_inv) in Hp. rewrite Forall_forall in Hlt. apply Hlt. by rewrite <- Hp.
  - rewrite Forall_forall in Hlt. specialize (Hlt x Hxin). lia.
Qed.

Lemma cache_get_NoDup k p c : NoDup c.*1 -> (k, p) ∈ c -> cache_get k c = Some p.
Proof.
  induction c as [|[k2 p2] c IH]; [by intros _ ?%elem_of_nil|]. cbn [fmap list_fmap fst cache_get].
  intros [Hn Hc]%NoDup_cons [E|Hin]%elem_of_cons; [injection E as <- <-; by rewrite decide_True|].
  rewrite decide_False; [by apply IH|]. intros ->. by apply Hn, (list_elem_of_fmap_2 fst _ (k, p)).
Qed.

Lemma filter_keys_NoDup {A B} (f : A * B -> bool) (c : list (A * B)) :
  NoDup c.*1 -> NoDup (filter (fun e => f e = false) c).*1.
Proof.
  induction c as [|e c IH]; [done|]. rewrite fmap_cons.
  intros [Hn Hc]%NoDup_cons. rewrite filter_cons. case_decide; [|by apply IH]. rewrite fmap_cons. apply NoDup_cons.
  split; [|by apply IH]. intros (x & E & [_ Hx]%list_elem_of_filter)%list_elem_of_fmap. apply Hn. rewrite E.
  by apply (list_elem_of_fmap_2 fst).
Qed.

Lemma kept_NoDup limit c : NoDup c.*1 -> NoDup (kept limit c).*1.
Proof. apply filter_keys_NoDup. Qed.

Section spec.
Context {BR : Browser}.

(** The page shown, as it is cached. *)
Definition this_page (now : Z) (st : hstate) (s : turbo) : cached :=
  Cached (relative (state_url st s)) (w_body s) (w_title s) (w_scroll s).2 (w_scroll s).1 now
    (no_transition_cache (w_body s)).
Definition with_page (now : Z) (st : hstate) (s : turbo) : list (text * cached) :=
  cache_set (absolute (state_url st s)) (this_page now st s) (t_cache s).

Lemma cacheCurrentPage_run now st s : t_current s = Some st ->
  cacheCurrentPage now s =
    (trigger ((fun e => EExpire e.2) <$> expired (t_size s) (with_page now st s))
       (set_cache (kept (t_size s) (with_page now st s)) s), Ok tt).
Proof.
  intros E. unfold cacheCurrentPage. rewrite (sbind_run (sget _) _ s s s eq_refl), E.
  rewrite (sbind_run (smodify _) _ s _ tt eq_refl). unfold constrainPageCacheTo, smodify. by destruct s.
Qed.

(** The page just cached is found, when the others are older. *)
Lemma newest_cached now st s : NoDup (t_cache s).*1 -> 0 < t_size s ->
  (forall k' p, (k', p) ∈ t_cache s -> p_at p < now) ->
  cache_get (absolute (state_url st s)) (kept (t_size s) (with_page now st s)) = Some (this_page now st s).
Proof.
  intros Hnd Hp Hold.
  pose proof (cache_set_NoDup (absolute (state_url st s)) (this_page now st s) (t_cache s) Hnd) as Hnd'.
  fold (with_page now st s) in Hnd'. apply cache_get_NoDup; [by apply kept_NoDup|]. apply kept_newest; [done|done| |].
  - apply cache_get_elem. unfold with_page. rewrite cache_get_set. by rewrite decide_True.
  - intros k' p' Hin Hne. apply (cache_get_NoDup k') in Hin; [|done]. unfold with_page in Hin.
    rewrite cache_get_set, decide_False in Hin by (intros E; by apply Hne). cbn [p_at this_page].
    by apply (Hold k'), cache_get_elem.
Qed.

End spec.

(** C28: the page cache.  When the page shown is cached, no more pages are kept
    than the size of the cache; each page dropped is older than each page kept,
    and none is dropped when they fit; no address has two pages; and the page
    just cached is kept when the others are older. *)
Theorem cache_bounded {BR : Browser} (now : Z) (st : hstate) (s : turbo) :
  t_current s = Some st -> 0 <= t_size s -> NoDup (t_cache s).*1 ->
  let s' := (cacheCurrentPage now s).1 in
  let k := absolute (state_url st s) in
  Z.of_nat (length (t_cache s')) <= t_size s /\ NoDup (t_cache s').*1 /\
  (forall e x, e ∈ t_cache s' -> x ∈ with_page now st s -> x ∉ t_cache s' -> p_at x.2 < p_at e.2) /\
  (Z.of_nat (length (with_page now st s)) <= t_size s -> t_cache s' = with_page now st s) /\
  (0 < t_size s -> (forall k' p, (k', p) ∈ t_cache s -> p_at p < now) ->
     cache_get k (t_cache s') = Some (this_page now st s)).
Proof.
  intros Hc Hz Hnd s' k. unfold s'. rewrite (cacheCurrentPage_run now st s Hc). cbn [fst].
  assert (forall a b, t_cache (trigger a (set_cache b s)) = b) as -> by (intros; by destruct s).
  pose proof (cache_set_NoDup k (this_page now st s) (t_cache s) Hnd) as Hnd'. fold (with_page now st s) in Hnd'.
  split_and!; [by apply kept_length|by apply kept_NoDup| |by apply kept_all|].
  - intros e x He Hx Hnx. apply (kept_recent (t_size s) (with_page now st s)); [done|].
    apply list_elem_of_filter. split; [|done]. destruct (expires _ _ x) eqn:E; [done|].
    destruct Hnx. by apply list_elem_of_filter.
  - intros Hp Hold. by apply newest_cached.
Qed.

(** ** Responses *)

Lemma intersection_all (a b : list (option text)) : length a = length b ->
  length (intersection a b) = length b <-> forall v, v ∈ a -> v ∈ b.
Proof.
  intros Hl. unfold intersection. rewrite Hl, Nat.ltb_irrefl. rewrite <- Hl. clear Hl.
  induction a as [|x a IH]; [split; [by intros _ v ?%elem_of_nil|done]|]. rewrite filter_cons.
  pose proof (length_filter (fun v => v ∈ b) a). case_decide as E; cbn [length].
  - rewrite Nat.succ_inj_wd, IH. set_solver.
  - split; [lia|]. intros Hv. destruct E. apply Hv, list_elem_of_here.
Qed.

(** The assets that are tracked.  Two lists of assets without repeats count
    as unchanged exactly when they hold the same assets, in whatever order. *)
Theorem assetsChanged_perm (fetched loaded : list (option text)) :
  NoDup fetched -> NoDup loaded ->
  assetsChanged fetched loaded = false <-> fetched ≡ₚ loaded.
Proof.
  intros Hf Hl. unfold assetsChanged. rewrite orb_false_iff, !negb_false_iff, !Nat.eqb_eq. split.
  - intros [E Hi]. rewrite (intersection_all _ _ E) in Hi.
    apply submseteq_length_Permutation; [by apply NoDup_submseteq|lia].
  - intros Hp. assert (length fetched = length loaded) as E by (by rewrite Hp). split; [done|].
    apply (intersection_all _ _ E). intros v. by rewrite Hp.
Qed.

Lemma assetsChanged_perm_witness :
  assetsChanged [Some (txt "/a.js"); Some (txt "/b.css")] [Some (txt "/b.css"); Some (txt "/a.js")] = false.
Proof.
  apply (assetsChanged_perm [Some (txt "/a.js"); Some (txt "/b.css")] [Some (txt "/b.css"); Some (txt "/a.js")]).
  - apply NoDup_ListNoDup. repeat constructor; cbn; intuition discriminate.
  - apply NoDup_ListNoDup. repeat constructor; cbn; intuition discriminate.
  - apply Permutation_swap.
Defined.

(** With a repeated asset a change goes unseen. *)
Lemma assets_repeated : assetsChanged [Some (txt "/a.js"); Some (txt "/a.js")] [Some (txt "/a.js"); Some (txt "/b.css")] = false.
Proof. reflexivity. Qed.

(** A page without a title is titled "undefined". *)
Lemma untitled_page {BR : Browser} (d : doc) (s : turbo) : d_title d = None ->
  w_title (change_to d s).1 = txt "undefined".
Proof.
  intros E. unfold change_to, changePage. rewrite E. cbn [default from_option id].
  rewrite (sbind_run (smodify _) _ s _ tt eq_refl).
  set (s1 := set_page (txt "undefined") (removeNoscriptTags (d_body d)) (autofocus_of (removeNoscriptTags (d_body d))) s).
  assert (w_title s1 = txt "undefined") as E1 by (by destruct s). clearbody s1.
  destruct (d_csrf d ≫= id) as [k|]; unfold sbind, update_token, swhen, executeScriptTags, smodify, sret;
    cbn [fst]; destruct s1; cbn in *; repeat case_match; done.
Qed.

(** ** Runs of the handlers *)

(** The fields a page is made of. *)
Definition page_of (s : turbo) : text * text * (Z * Z) := (w_title s, w_body s, w_scroll s).
Definition places (s : turbo) : list entry * entry * list entry := (w_before s, w_entry s, w_after s).

Section runs.
Context {BR : Browser}.

Lemma fetch_run now target st s : t_current s = Some st -> t_enabled s = false ->
  let u := parse_url target in
  let s' := (fetch now target s).1 in
  (fetch now target s).2 = Ok tt /\
  t_xhr s' = Some (Request u (Some (location s)) true) /\ t_referer s' = Some (location s) /\
  page_of s' = page_of s /\ places s' = places s /\ t_current s' = Some st /\ w_left s' = w_left s /\
  t_size s' = t_size s /\ t_enabled s' = false /\ w_csrf s' = w_csrf s /\ w_head s' = w_head s /\ t_assets s' = t_assets s /\
  t_cache s' = kept (t_size s) (with_page now st s) /\
  w_log s' = w_log s ++ ((fun e => EExpire e.2) <$> expired (t_size s) (with_page now st s)) ++
             [EFetch (absolute u); ESend (withoutHash u)].
Proof.
  intros Hc He u s'. unfold s', fetch, rememberReferer.
  rewrite (sbind_run (smodify _) _ s _ tt eq_refl).
  set (s1 := set_referer (Some (location s)) s).
  assert (t_current s1 = Some st) as Hc1 by (by destruct s).
  rewrite (sbind_run _ _ s1 _ _ (cacheCurrentPage_run now st s1 Hc1)).
  assert (with_page now st s1 = with_page now st s) as Ew by (by destruct s). rewrite Ew.
  assert (t_size s1 = t_size s) as Ez by (by destruct s). rewrite Ez.
  generalize (expired (t_size s) (with_page now st s)), (kept (t_size s) (with_page now st s)). intros ex kp.
  rewrite (sbind_run (sget _) _ _ _ _ eq_refl).
  assert (forall a b, t_enabled (trigger a (set_cache b s1)) = false) as Hen by (intros; by destruct s).
  rewrite Hen. unfold fetchReplacement, sbind, smodify. unfold s1, page_of, places, location in *. destruct s; cbn in *.
  subst. by rewrite <- !app_assoc.
Qed.

(** A response that replaces the page. *)
Record accepted (s : turbo) (r : response) (d : doc) (ty : text) : Prop := {
  ac_status : (400 <=? rs_status r) && (rs_status r <? 600) = false;
  ac_type : rs_type r = Some ty /\ validContent ty = true;
  ac_doc : rs_doc r = Some d;
  ac_assets : assetsChanged (extractTrackAssets (d_head d)) (default (extractTrackAssets (w_head s)) (t_assets s)) = false
}.

Lemma processResponse_run s r d ty : accepted s r d ty ->
  processResponse r s = (set_assets (Some (default (extractTrackAssets (w_head s)) (t_assets s))) s, Ok (Some d)).
Proof.
  intros [E1 [E2 E3] E4 E5]. unfold processResponse. rewrite E1, E2, E3, E4. cbn [negb]. by rewrite E5.
Qed.

Lemma changePage_run title body token run s : exists k log,
  changePage title body token run s =
    (trigger log (set_state (e_state (w_entry s)) (set_csrf k (set_page (default (txt "undefined") title) body (autofocus_of body) s))), Ok tt) /\
  log = (if run then (fun sc => EScript (sc_code sc)) <$> filter (fun sc => runs sc = true) (scripts_of body) else []) ++ [EChange; EUpdate].
Proof.
  unfold changePage. rewrite (sbind_run (smodify _) _ s _ tt eq_refl).
  set (s1 := set_page (default (txt "undefined") title) body (autofocus_of body) s).
  assert (exists k, match token with Some k => update_token k | None => sret tt end s1 = (set_csrf k s1, Ok tt)) as [k Ek].
  { destruct token as [l|]; [|exists (w_csrf s1); by destruct s].
    unfold update_token, smodify. destruct (w_csrf s1) as [[cur|]|] eqn:E; [|exists (Some None); rewrite <- E; by destruct s|
      exists None; rewrite <- E; by destruct s].
    destruct (decide (cur = l)); [exists (Some (Some cur)); rewrite <- E; by destruct s|by eexists]. }
  rewrite (sbind_run _ _ _ _ _ Ek). exists k. eexists. split; [|reflexivity].
  destruct run; unfold swhen, executeScriptTags, sbind, smodify, sret; unfold s1; destruct s; cbn; by rewrite <- ?app_assoc.
Qed.

End runs.

Section histories.
Context {BR : Browser}.

(** The address shown after a redirect keeps the hash asked for. *)
Definition shown_at (r : response) (a : text) : text :=
  match rs_redirect r with
  | Some ((_ :: _) as l) => href (parse_url l) ++ if hasNoHash (parse_url l) then hash (parse_url a) else []
  | _ => a
  end.

Lemma onload_run at_hash s rq r d ty : t_xhr s = Some rq -> accepted s r d ty ->
  firefox = false -> t_referer s <> Some (absolute (rq_url rq)) ->
  let a := absolute (rq_url rq) in
  exists s', onload at_hash r s = (s', Ok tt) /\ t_xhr s' = None /\
  places s' = (w_entry s :: w_before s, Entry (Some (HState true (Some a))) (shown_at r a), []) /\
  t_current s' = Some (HState true (Some a)) /\
  w_title s' = default (txt "undefined") (d_title d) /\ w_body s' = removeNoscriptTags (d_body d) /\
  t_cache s' = t_cache s /\ t_size s' = t_size s /\ t_enabled s' = t_enabled s /\ w_left s' = w_left s.
Proof.
  intros Hx Hac Hff Hne a. unfold onload. rewrite (sbind_run (sget _) _ _ _ _ eq_refl), Hx. fold a.
  rewrite (sbind_run (smodify _) _ s _ tt eq_refl). set (s1 := trigger [EReceive a] s).
  assert (accepted s1 r d ty) as Hac1 by (destruct Hac; split; try done; by destruct s).
  rewrite (sbind_run _ _ s1 _ _ (processResponse_run s1 r d ty Hac1)).
  set (s2 := set_assets _ s1). unfold sbind at 1. unfold sbind at 1, reflectNewUrl.
  assert (t_referer s2 = t_referer s) as -> by (by destruct s).
  rewrite bool_decide_false by (intros E; by apply Hne). cbn [pushState smodify].
  set (s3 := set_history _ _ _ s2). unfold sbind at 1, change_to.
  destruct (changePage_run (d_title d) (removeNoscriptTags (d_body d)) (d_csrf d ≫= id) true s3) as (k & log & -> & _).
  unfold sbind, manuallyTriggerHashChange, reflectRedirectedUrl. rewrite Hff. cbn [andb].
  unfold s3, s2, s1, pushState, smodify, sret, swhen, resetScrollPosition, shown_at, here, location.
  destruct (rs_redirect r) as [[|ch l]|]; destruct (rq_reset rq); (eexists; split; [reflexivity|]); by destruct s.
Qed.

(** ** Every entry of the history belongs to Turbolinks *)

Definition good (e : entry) : Prop := exists u, e_state e = Some (HState true (Some u)).

Definition ours (s : turbo) : Prop :=
  Forall good (w_before s) /\ good (w_entry s) /\ Forall good (w_after s) /\
  exists u, t_current s = Some (HState true (Some u)).

Lemma ours_ext s s' : places s' = places s -> t_current s' = t_current s -> ours s -> ours s'.
Proof. intros [= E1 E2 E3] E4. unfold ours. by rewrite E1, E2, E3, E4. Qed.

Lemma ours_modify f : (forall s, places (f s) = places s /\ t_current (f s) = t_current s) ->
  hoare ours (smodify f) (fun _ => ours).
Proof. intros Hf. apply hoare_modify. intros s. destruct (Hf s). by apply ours_ext. Qed.

Lemma changePage_ours title body token run : hoare ours (changePage title body token run) (fun _ => ours).
Proof.
  intros s Hs. destruct (changePage_run title body token run s) as (k & log & -> & _).
  eexists _, tt. split; [done|]. destruct Hs as (H1 & [u H2] & H3 & _).
  unfold ours. destruct s. cbn in *. split_and!; [done|by exists u|done|by exists u].
Qed.

Lemma cache_ours now : hoare ours (cacheCurrentPage now) (fun _ => ours).
Proof.
  intros s Hs. pose proof Hs as (_ & _ & _ & u & Hu). rewrite (cacheCurrentPage_run now _ s Hu).
  eexists _, tt. split; [done|]. revert Hs. by apply ours_ext; destruct s.
Qed.

Lemma replace_ours st u : (exists v, st = Some (HState true (Some v))) -> hoare ours (replaceState st u) (fun _ => ours).
Proof.
  intros [v ->]. apply hoare_modify. intros s (H1 & _ & H3 & H4). unfold ours. destruct s. cbn in *.
  split_and!; [done|by exists v|done|done].
Qed.

Lemma push_ours v u : hoare ours (pushState (Some (HState true (Some v))) u) (fun _ => ours).
Proof.
  apply hoare_modify. intros s (H1 & H2 & H3 & H4). unfold ours. destruct s. cbn in *.
  split_and!; [by constructor|by exists v|done|done].
Qed.

Lemma remember_ours : hoare (fun s => Forall good (w_before s) /\ Forall good (w_after s)) hashchange (fun _ => ours).
Proof.
  intros s [H1 H2]. eexists _, tt. split; [reflexivity|]. unfold ours. destruct s. cbn in *.
  split_and!; [done|by eexists|done|by eexists].
Qed.

Lemma fetchReplacement_ours u reset : hoare ours (fetchReplacement u reset) (fun _ => ours).
Proof.
  unfold fetchReplacement. hbind ltac:(apply ours_modify; by intros []).
  hbind ltac:(apply ours_modify; by intros []). apply ours_modify. by intros [].
Qed.

Lemma fetchHistory_ours p : hoare ours (fetchHistory p) (fun _ => ours).
Proof.
  unfold fetchHistory. hbind ltac:(apply ours_modify; by intros []). hbind ltac:(apply changePage_ours).
  hbind ltac:(apply ours_modify; by intros []). apply ours_modify. by intros [].
Qed.

Lemma ours_get {A B} (f : turbo -> A) (k : A -> T B) Q :
  (forall s, ours s -> hoare (fun s' => s' = s) (k (f s)) Q) -> hoare ours (let! x := sget f in k x) Q.
Proof. intros Hk s Hs. rewrite (sbind_run (sget f) _ s s _ eq_refl). by apply (Hk s Hs). Qed.

Lemma hoare_at {A} s (e : T A) Q : ours s -> hoare ours e Q -> hoare (fun s' => s' = s) e Q.
Proof. intros Hs He s' ->. by apply He. Qed.

Lemma fetch_ours now u : hoare ours (fetch now u) (fun _ => ours).
Proof.
  unfold fetch. hbind ltac:(apply ours_modify; by intros []). hbind ltac:(apply cache_ours).
  apply ours_get. intros s Hs. apply hoare_at; [done|].
  destruct (if t_enabled s then _ else None) as [p|]; [|apply fetchReplacement_ours].
  hbind ltac:(apply fetchHistory_ours). apply fetchReplacement_ours.
Qed.

Lemma popstate_ours now : hoare ours (popstate now) (fun _ => ours).
Proof.
  unfold popstate. apply ours_get. intros s Hs. apply hoare_at; [done|].
  destruct (e_state (w_entry s)) as [st|]; [|by apply hoare_ret].
  destruct (hs_turbolinks st); [|by apply hoare_ret].
  destruct (cache_get _ _) as [p|]; [|apply fetch_ours]. hbind ltac:(apply cache_ours). apply fetchHistory_ours.
Qed.

Lemma move_ours b e f : Forall good b -> good e -> Forall good f ->
  hoare ours (smodify (set_history b e f)) (fun _ => ours).
Proof. intros Hb He Hf. apply hoare_modify. intros s (_ & _ & _ & H). unfold ours. by destruct s. Qed.

Lemma back_ours now : hoare ours (back now) (fun _ => ours).
Proof.
  intros s Hs. unfold back. pose proof Hs as (H1 & H2 & H3 & _). destruct (w_before s) as [|e b]; [by exists s, tt|].
  apply Forall_cons in H1 as [He Hb].
  eapply (hoare_bind ours); [apply move_ours; [done|done|by constructor]|intros ?; apply popstate_ours|done].
Qed.

Lemma forward_ours now : hoare ours (forward now) (fun _ => ours).
Proof.
  intros s Hs. unfold forward. pose proof Hs as (H1 & H2 & H3 & _). destruct (w_after s) as [|e f]; [by exists s, tt|].
  apply Forall_cons in H3 as [He Hf].
  eapply (hoare_bind ours); [apply move_ours; [by constructor|done|done]|intros ?; apply popstate_ours|done].
Qed.

Lemma click_ours ext stop now c path : hoare ours (handle_click ext stop now c path) (fun _ => ours).
Proof.
  intros s Hs. unfold handle_click. destruct (c_prevented c); [by exists s, true|].
  destruct (extractLink path) as [[l above]|]; [|by exists s, false].
  destruct (_ || _); [by exists s, false|].
  apply (hoare_bind ours _ (fun _ => ours)); [|intros ?; by apply hoare_ret|done].
  apply hoare_when; [intros _; apply fetch_ours|done].
Qed.

Lemma onload_ours at_hash r : firefox = false -> (exists ty, rs_type r = Some ty) ->
  hoare ours (onload at_hash r) (fun _ => ours).
Proof.
  intros Hff [ty Hty]. unfold onload. apply ours_get. intros s Hs. apply hoare_at; [done|].
  destruct (t_xhr s) as [rq|]; [|by apply hoare_ret].
  hbind ltac:(apply ours_modify; by intros []).
  eapply hoare_bind with (R := fun _ => ours).
  { intros s1 Hs1. unfold processResponse. destruct (_ && _); [by eexists _, _|]. rewrite Hty.
    destruct (negb _); [by eexists _, _|]. destruct (rs_doc r) as [d|]; [|by eexists _, _].
    eexists _, _. split; [reflexivity|]. revert Hs1. by apply ours_ext; destruct s1. }
  intros d. cbn beta. eapply hoare_bind with (R := fun _ => ours); [|intros ?; apply ours_modify; by intros []].
  destruct d as [d|]; [|apply ours_modify; by intros []].
  eapply hoare_bind with (R := fun _ => ours).
  { intros s1 Hs1. unfold reflectNewUrl. case_bool_decide; [by exists s1, tt|]. by apply push_ours. }
  intros ?. hbind ltac:(apply changePage_ours). eapply hoare_bind with (R := fun _ => ours).
  { intros s1 Hs1. unfold manuallyTriggerHashChange. rewrite Hff. by exists s1, tt. }
  intros ?. eapply hoare_bind with (R := fun _ => ours).
  { intros s1 Hs1. unfold reflectRedirectedUrl. destruct (rs_redirect r) as [[|ch l]|]; [by exists s1, tt| |by exists s1, tt].
    apply replace_ours; [|done]. destruct Hs1 as (_ & _ & _ & u & ->). by exists u. }
  intros ?. eapply hoare_bind with (R := fun _ => ours); [|intros ?; apply ours_modify; by intros []].
  apply hoare_when; [intros _; apply ours_modify; by intros []|done].
Qed.

End histories.

(** What happens to a page with Turbolinks: clicks, answers, failures, the
    buttons of the browser, a link to an anchor with its hashchange, scrolling,
    calls of the methods, requests of jQuery. *)
Inductive happening :=
| HClick (extensions : list text) (stop : bool) (now : Z) (c : click) (path : list node)
| HLoad (at_hash : Z * Z) (r : response)
| HError
| HBack (now : Z)
| HForward (now : Z)
| HAnchor (u : text)
| HHash
| HScroll (p : Z * Z)
| HVisit (now : Z) (u : text)
| HSize (size : text)
| HTransition (enable : bool)
| HAjax (responseText : text).

Definition happen `{Browser} (h : happening) : T unit :=
  match h with
  | HClick ext stop now c path => let! _ := handle_click ext stop now c path in sret tt
  | HLoad at_hash r => onload at_hash r
  | HError => onerror
  | HBack now => back now
  | HForward now => forward now
  | HAnchor u => pushState None u ;! hashchange
  | HHash => hashchange
  | HScroll p => smodify (set_scroll p)
  | HVisit now u => fetch now u
  | HSize size => pagesCached size
  | HTransition enable => enableTransitionCache enable
  | HAjax t => ajaxSuccess t
  end.

(** Responses have a Content-Type. *)
Definition typed (h : happening) : Prop := match h with HLoad _ r => is_Some (rs_type r) | _ => True end.

Lemma happen_ours {BR : Browser} h : firefox = false -> typed h -> hoare ours (happen h) (fun _ => ours).
Proof.
  intros Hff Ht. destruct h; cbn [happen].
  - eapply hoare_bind; [apply click_ours|]. intros ?. by apply hoare_ret.
  - destruct Ht as [ty Ht]. apply onload_ours; [done|by exists ty].
  - unfold onerror. apply ours_get. intros s Hs. apply hoare_at; [done|]. destruct (t_xhr s); [|by apply hoare_ret].
    hbind ltac:(apply ours_modify; by intros []). apply ours_modify. by intros [].
  - apply back_ours.
  - apply forward_ours.
  - intros s (H1 & H2 & H3 & H4). unfold pushState. rewrite (sbind_run (smodify _) _ s _ tt eq_refl).
    apply remember_ours. destruct s; cbn in *. split; [by constructor|constructor].
  - intros s (H1 & _ & H3 & _). by apply remember_ours.
  - apply ours_modify. by intros [].
  - apply fetch_ours.
  - unfold pagesCached. destruct size; [by apply hoare_ret|]. destruct (forallb _ _); [|by apply hoare_ret].
    apply ours_modify. by intros [].
  - apply ours_modify. by intros [].
  - unfold ajaxSuccess. apply hoare_when; [intros _; apply ours_modify; by intros []|done].
Qed.

(** The happenings one after the other. *)
Fixpoint happens `{Browser} (hs : list happening) : T unit :=
  match hs with
  | [] => sret tt
  | h :: hs => happen h ;! happens hs
  end.

Lemma happens_ours {BR : Browser} hs : firefox = false -> Forall typed hs -> hoare ours (happens hs) (fun _ => ours).
Proof.
  intros Hff. induction 1 as [|h hs Hh _ IH]; cbn [happens]; [by apply hoare_ret|].
  hbind ltac:(by apply happen_ours). apply IH.
Qed.

(** Turbolinks, as it starts in a page. *)
Definition start_page (addr title body : text) (csrf : option (option text)) (head : list asset) : turbo :=
  Turbo [] 10 false None None None None [] (Entry None addr) [] title body csrf head None (0, 0) None [].

(** C14: in a browser other than Firefox no handler of Turbolinks throws, in any sequence of clicks, answers with
    a Content-Type, failures, moves in the history, anchors and calls after it starts; and every
    entry of the history has a state of Turbolinks, with an address, as has the page shown. *)
Theorem session_safe {BR : Browser} (addr title body : text) csrf head (hs : list happening) :
  firefox = false -> Forall typed hs ->
  exists s', (initializeTurbolinks ;! happens hs) (start_page addr title body csrf head) = (s', Ok tt) /\ ours s'.
Proof.
  intros Hff Hhs.
  assert (hoare (fun s => s = start_page addr title body csrf head) (initializeTurbolinks ;! happens hs) (fun _ => ours)) as H.
  { apply hoare_bind with (R := fun _ => ours); [|intros _; by apply happens_ours].
    intros s ->. by apply remember_ours. }
  destruct (H _ eq_refl) as (s' & [] & E & Hs). by exists s'.
Qed.

(** C19: a visit and back.  In a browser other than Firefox, with a cache that holds a page and no transition cache, from
    a page of Turbolinks newer than those in the cache, the button back, after a visit to another
    address than the page's whose answer replaces the page, brings back the title, the body, the scroll
    position and the entry of the page left, with the page visited ahead; the page comes from
    the cache, and no request is pending. *)
Theorem visit_back {BR : Browser} (s : turbo) (here_url target : text) (now now' : Z) at_hash r d ty :
  t_current s = Some (HState true (Some here_url)) -> e_state (w_entry s) = t_current s ->
  t_enabled s = false -> 0 < t_size s -> NoDup (t_cache s).*1 ->
  (forall k p, (k, p) ∈ t_cache s -> p_at p < now) ->
  accepted s r d ty -> firefox = false -> location s <> absolute (parse_url target) ->
  exists s', (fetch now target ;! onload at_hash r ;! back now') s = (s', Ok tt) /\
    page_of s' = page_of s /\ w_before s' = w_before s /\ w_entry s' = w_entry s /\
    (exists e, w_after s' = [e] /\ e_state e = Some (HState true (Some (absolute (parse_url target))))) /\
    t_current s' = t_current s /\ t_xhr s' = None /\ w_left s' = w_left s.
Proof.
  intros Hc He Ht Hz Hnd Hold Hac Hff Hne.
  set (st := HState true (Some here_url)) in *.
  destruct (fetch now target s) as [s1 res] eqn:E1. pose proof (fetch_run now target st s Hc Ht) as F. rewrite E1 in F.
  cbn [fst snd] in F. destruct F as (-> & Fx & Fr & Fp & Fpl & Fc & Fl & Fz & Fe & Fk & Fh & Fa & Fca & Flog).
  rewrite (sbind_run _ _ s _ _ E1).
  assert (accepted s1 r d ty) as Hac1 by (destruct Hac; split; rewrite ?Fh, ?Fa; done).
  destruct (onload_run at_hash s1 _ r d ty Fx Hac1 Hff) as (s2 & E2 & Ox & Op & Oc & _ & _ & Oca & Oz & Oe & Ol).
  { rewrite Fr. intros [= E]. by apply Hne. }
  rewrite (sbind_run _ _ s1 _ _ E2). cbn [rq_url] in *. unfold places in Op, Fpl.
  injection Op as Ob Oen Oaf. injection Fpl as Fb Fen Faf. unfold back. rewrite Ob.
  rewrite (sbind_run (smodify _) _ s2 _ tt eq_refl). rewrite Fb, Fen.
  set (s3 := set_history _ _ _ s2). unfold popstate. rewrite (sbind_run (sget _) _ _ _ _ eq_refl).
  assert (w_entry s3 = w_entry s) as -> by (by destruct s2). rewrite He, Hc. cbn [hs_turbolinks st].
  assert (t_cache s3 = kept (t_size s) (with_page now st s)) as -> by (rewrite <- Fca, <- Oca; by destruct s2).
  change (absolute (state_url st s3)) with (absolute (state_url st s)). rewrite newest_cached by done.
  assert (t_current s3 = Some (HState true (Some (absolute (parse_url target))))) as Hc3 by (rewrite <- Oc; by destruct s2).
  rewrite (sbind_run _ _ s3 _ _ (cacheCurrentPage_run now' _ s3 Hc3)).
  generalize (expired (t_size s3) (with_page now' (HState true (Some (absolute (parse_url target)))) s3)).
  generalize (kept (t_size s3) (with_page now' (HState true (Some (absolute (parse_url target)))) s3)). intros kp ex.
  unfold fetchHistory. rewrite (sbind_run (smodify _) _ _ _ tt eq_refl). cbn [p_title p_body this_page].
  match goal with |- context [sbind (changePage ?t ?b ?k ?f) _ ?x] =>
    destruct (changePage_run t b k f x) as (tok & log & Ep & _) end.
  rewrite (sbind_run _ _ _ _ _ Ep). unfold sbind, recallScrollPosition, smodify. eexists. split; [reflexivity|].
  unfold s3, page_of. destruct s2; cbn in *. subst. rewrite He, Hc. split_and!; try done.
  - by destruct s; cbn; destruct w_scroll0.
  - by eexists.
Qed.

(** Whether the answer replaces the page. *)
Definition replaces (s : turbo) (r : response) : option doc :=
  if (400 <=? rs_status r) && (rs_status r <? 600) then None
  else match rs_type r, rs_doc r with
       | Some ty, Some d =>
           if validContent ty &&
              negb (assetsChanged (extractTrackAssets (d_head d)) (default (extractTrackAssets (w_head s)) (t_assets s)))
           then Some d else None
       | _, _ => None
       end.

Lemma replaces_accepted s r d : replaces s r = Some d -> exists ty, accepted s r d ty.
Proof.
  unfold replaces. destruct (_ && _) eqn:E1; [done|]. destruct (rs_type r) as [ty|] eqn:E2; [|done].
  destruct (rs_doc r) as [d'|] eqn:E3; [|done]. destruct (validContent ty && _) eqn:E4; [|done]. intros [= ->].
  apply andb_prop in E4 as [E4 E5]. exists ty. by split; [| |done|destruct (assetsChanged _ _)].
Qed.

Lemma refused_run s r : (rs_status r < 400 \/ 600 <= rs_status r -> is_Some (rs_type r)) -> replaces s r = None ->
  exists l, processResponse r s = (set_assets l s, Ok None).
Proof.
  intros Hty. unfold replaces, processResponse. destruct (_ && _) eqn:E1; [intros _; exists (t_assets s); by destruct s|].
  destruct Hty as [ty ->]; [lia|]. destruct (validContent ty); cbn [negb andb].
  - destruct (rs_doc r) as [d|]; [|intros _; exists (t_assets s); by destruct s].
    destruct (assetsChanged _ _); cbn [negb]; [|done]. intros _. by eexists.
  - intros _. exists (t_assets s). by destruct s.
Qed.

(** C39: an answer, in a browser other than Firefox, to a visit of another address than that of the page
    it starts from; an answer that is no error has a Content-Type.  It replaces the title and the body, in a new entry of the history at
    the address asked for, or the one the server redirected to with the hash kept, when it is
    not an error of the client or the server, it is HTML, and the tracked assets are the same.
    Any other answer leaves the page, the history and the cache as they are and
    loads the address anew.  Either way no request is pending any more. *)
Theorem answer_outcome {BR : Browser} at_hash (r : response) (s : turbo) rq :
  t_xhr s = Some rq -> firefox = false -> t_referer s <> Some (absolute (rq_url rq)) ->
  (rs_status r < 400 \/ 600 <= rs_status r -> is_Some (rs_type r)) ->
  exists s', onload at_hash r s = (s', Ok tt) /\ t_xhr s' = None /\ t_cache s' = t_cache s /\
  match replaces s r with
  | Some d =>
      let a := absolute (rq_url rq) in
      w_title s' = default (txt "undefined") (d_title d) /\ w_body s' = removeNoscriptTags (d_body d) /\
      places s' = (w_entry s :: w_before s, Entry (Some (HState true (Some a))) (shown_at r a), []) /\ w_left s' = w_left s
  | None => page_of s' = page_of s /\ places s' = places s /\ w_left s' = Some (absolute (rq_url rq))
  end.
Proof.
  intros Hx Hff Hne Hty. destruct (replaces s r) as [d|] eqn:E.
  - destruct (replaces_accepted s r d E) as [ty Hac].
    destruct (onload_run at_hash s rq r d ty Hx Hac Hff Hne) as (s' & E' & H1 & H2 & _ & H3 & H4 & H5 & _ & _ & H6).
    by exists s'.
  - unfold onload. rewrite (sbind_run (sget _) _ _ _ _ eq_refl), Hx. rewrite (sbind_run (smodify _) _ s _ tt eq_refl).
    set (s1 := trigger _ s). assert (replaces s1 r = None) as E1 by (rewrite <- E; by destruct s).
    destruct (refused_run s1 r Hty E1) as [l E2]. rewrite (sbind_run _ _ s1 _ _ E2).
    eexists. split; [reflexivity|]. unfold s1. by destruct s.
Qed.

(** The clicks Turbolinks follows: plain clicks, whose default action no one prevented, on a
    link of the same origin that is not an anchor of the page, nor a file, nor kept from Turbolinks. *)
Record followed {BR : Browser} (extensions : list text) (c : click) (path : list node) (s : turbo) (l : node) (above : list node) : Prop := {
  fo_click : c_prevented c = false /\ c_which c <= 1 /\ c_meta c = false /\ c_ctrl c = false /\ c_shift c = false /\ c_alt c = false;
  fo_link : exists below, path = below ++ l :: above /\ Forall (fun n => n_anchor n = false) below /\ n_anchor l = true /\ n_href l <> [];
  fo_origin : origin (parse_url (n_href l)) = origin (here s);
  fo_anchor : hash (parse_url (n_href l)) = [] \/ withoutHash (parse_url (n_href l)) <> withoutHash (here s);
  fo_top : href (parse_url (n_href l)) <> href (here s) ++ txt "#";
  fo_html : has_extension (pathname (parse_url (n_href l))) = true ->
            Exists (fun e => ends_with (txt "." ++ e) (pathname (parse_url (n_href l))) = true) ([] :: extensions);
  fo_optout : Forall (fun n => n_optout n = false) (l :: above) /\ n_target l = []
}.

Lemma extractLink_Some path l above : extractLink path = Some (l, above) <->
  exists below, path = below ++ l :: above /\ Forall (fun n => n_anchor n = false) below /\ n_anchor l = true /\ n_href l <> [].
Proof.
  induction path as [|n path IH]; cbn [extractLink].
  - split; [done|]. by intros ([|] & ? & _).
  - destruct (n_anchor n) eqn:En.
    + split.
      * destruct (n_href n) eqn:Eh; [done|]. intros [= <- <-]. exists []. split_and!; [done|constructor|done|by rewrite Eh].
      * intros ([|n' below] & [= -> ->] & Hb & Ha & Hh); [by destruct (n_href l)|]. apply Forall_cons in Hb as [Hb _]. congruence.
    + rewrite IH. split.
      * intros (below & -> & Hb & Ha). exists (n :: below). split_and!; [done|by constructor|apply Ha..].
      * intros ([|n' below] & [= -> ->] & Hb & Ha & Hh); [congruence|]. apply Forall_cons in Hb as [_ Hb]. by exists below.
Qed.

Lemma shouldIgnore_false {BR : Browser} extensions l above s : shouldIgnore extensions l above s = false <->
  let u := parse_url (n_href l) in
  origin u = origin (here s) /\ (hash u = [] \/ withoutHash u <> withoutHash (here s)) /\ href u <> href (here s) ++ txt "#" /\
  (has_extension (pathname u) = true -> Exists (fun e => ends_with (txt "." ++ e) (pathname u) = true) ([] :: extensions)) /\
  Forall (fun n => n_optout n = false) (l :: above) /\ n_target l = [].
Proof.
  unfold shouldIgnore, anchored, nonHtml. cbv zeta. set (u := parse_url (n_href l)).
  rewrite !orb_false_iff, !negb_false_iff, !andb_false_iff, !negb_false_iff, !bool_decide_eq_true, !bool_decide_eq_false.
  assert (hasNoHash u = true <-> hash u = []) as -> by (unfold hasNoHash; by destruct (hash u)).
  assert (existsb n_optout (l :: above) = false <-> Forall (fun n => n_optout n = false) (l :: above)) as ->.
  { rewrite <- not_true_iff_false, existsb_exists, Forall_forall. setoid_rewrite <- not_true_iff_false.
    setoid_rewrite list_elem_of_In. naive_solver. }
  assert (forall f (l : list text), existsb f l = true <-> Exists (fun e => f e = true) l) as Ex.
  { intros f k. rewrite existsb_exists, Exists_exists. by setoid_rewrite list_elem_of_In. }
  rewrite Ex. destruct (has_extension (pathname u)); intuition congruence.
Qed.

Lemma nonStandardClick_false c : nonStandardClick c = false <->
  c_which c <= 1 /\ c_meta c = false /\ c_ctrl c = false /\ c_shift c = false /\ c_alt c = false.
Proof. unfold nonStandardClick. rewrite !orb_false_iff, Z.ltb_ge. tauto. Qed.

Lemma handle_click_followed {BR : Browser} ext stop now c path s l above : followed ext c path s l above ->
  handle_click ext stop now c path s = (swhen (negb stop) (fetch now (n_href l)) ;! sret true) s.
Proof.
  intros [[H1 Hs] Hl Ho Ha Ht Hh [Hp Hg]]. unfold handle_click. rewrite H1.
  apply extractLink_Some in Hl. rewrite Hl. apply nonStandardClick_false in Hs. rewrite Hs.
  assert (shouldIgnore ext l above s = false) as -> by (by apply shouldIgnore_false). done.
Qed.

Lemma handle_click_other {BR : Browser} ext stop now c path s : (forall l above, ~ followed ext c path s l above) ->
  handle_click ext stop now c path s = (s, Ok (c_prevented c)).
Proof.
  intros Hn. unfold handle_click. destruct (c_prevented c) eqn:Ep; [done|].
  destruct (extractLink path) as [[l above]|] eqn:El; [|done].
  destruct (shouldIgnore ext l above s) eqn:Ei; [done|]. destruct (nonStandardClick c) eqn:Ec; [done|].
  destruct (Hn l above). apply extractLink_Some in El. apply nonStandardClick_false in Ec.
  apply shouldIgnore_false in Ei. cbv zeta in Ei. split; tauto.
Qed.

(** A click.  When Turbolinks follows it, its default action is prevented and one
    request is sent, for the address of the link without its hash, with the
    page shown until the answer, unless a listener stops the change; any other click
    changes nothing and keeps its default action. *)
Theorem click_requests {BR : Browser} extensions now (c : click) path st (s : turbo) :
  t_current s = Some st -> t_enabled s = false ->
  (forall l above, followed extensions c path s l above ->
     handle_click extensions true now c path s = (s, Ok true) /\
     exists s' ex, handle_click extensions false now c path s = (s', Ok true) /\
     t_xhr s' = Some (Request (parse_url (n_href l)) (Some (location s)) true) /\
     w_log s' = w_log s ++ (EExpire <$> ex) ++
       [EFetch (absolute (parse_url (n_href l))); ESend (withoutHash (parse_url (n_href l)))] /\
     page_of s' = page_of s /\ places s' = places s /\ w_left s' = w_left s) /\
  ((forall l above, ~ followed extensions c path s l above) -> forall stop,
     handle_click extensions stop now c path s = (s, Ok (c_prevented c))).
Proof.
  intros Hc He. split; [|by intros; apply handle_click_other].
  intros l above Hf. rewrite !(handle_click_followed _ _ _ _ _ _ l above Hf). split; [done|]. cbn [negb swhen].
  destruct (fetch now (n_href l) s) as [s1 res] eqn:E1. pose proof (fetch_run now (n_href l) st s Hc He) as F. rewrite E1 in F.
  cbn [fst snd] in F. destruct F as (-> & Fx & _ & Fp & Fpl & _ & Fl & _ & _ & _ & _ & _ & _ & Flog).
  exists s1, (snd <$> expired (t_size s) (with_page now st s)). rewrite (sbind_run _ _ s _ _ E1).
  rewrite <- list_fmap_compose. done.
Qed.

(** ** A browser for examples: addresses of one host, bodies without scripts *)

Definition before_hash (s : text) : text := take_while (fun c => negb (bool_decide (c = "#"%char))) s.

Definition plain_browser : Browser := {|
  parse_url s := Url s (txt "http:") (txt "h") [] (before_hash s) [] (drop (length (before_hash s)) s);
  scripts_of _ := []; autofocus_of _ := None; no_transition_cache _ := false; firefox := false
|}.

Lemma plain_browser_laws : @BrowserLaws plain_browser.
Proof. by split. Qed.

Definition ex_state : turbo := Turbo
  [(txt "/old", Cached (txt "/old") (txt "old") (txt "Old") 0 0 5 false)] 1 false (Some (HState true (Some (txt "/a"))))
  None None None [] (Entry (Some (HState true (Some (txt "/a")))) (txt "/a")) []
  (txt "A") (txt "a") None [] None (3, 40) None [].
Definition ex_doc : doc := Doc (Some (txt "B")) (txt "b<noscript>x</noscript>c") None [].
Definition ex_response : response := Response 200 (Some (txt "text/html; charset=utf-8")) None (Some ex_doc).
Definition ex_sent : turbo := (@fetch plain_browser 9 (txt "/b#x") ex_state).1.
Definition ex_click : click := ClickEvent false 1 false false false false.
Definition ex_link : node := Node true (txt "/b") false [].
Definition ex_path : list node := [Node false [] false []; ex_link; Node false [] false []].

Lemma cache_bounded_witness : let s' := (@cacheCurrentPage plain_browser 9 ex_state).1 in
  cache_get (txt "/a") (t_cache s') = Some (Cached (txt "/a") (txt "a") (txt "A") 40 3 9 false) /\
  Z.of_nat (length (t_cache s')) <= 1.
Proof.
  destruct (@cache_bounded plain_browser 9 (HState true (Some (txt "/a"))) ex_state) as (H1 & _ & _ & _ & H2).
  - reflexivity.
  - cbn. lia.
  - apply NoDup_singleton.
  - split; [|exact H1]. apply H2; [cbn; lia|]. cbn. intros k p [= -> ->]%list_elem_of_singleton. cbn. lia.
Defined.

Lemma session_safe_witness : exists s', (initializeTurbolinks ;!
    @happens plain_browser [HClick [] false 3 ex_click ex_path; HLoad (0, 0) ex_response; HBack 4])
    (start_page (txt "/a") (txt "A") (txt "a") None []) = (s', Ok tt) /\ ours s'.
Proof.
  apply (@session_safe plain_browser (txt "/a") (txt "A") (txt "a") None []
    [HClick [] false 3 ex_click ex_path; HLoad (0, 0) ex_response; HBack 4]); [reflexivity|].
  repeat (apply List.Forall_cons); cbn; [done|by eexists|done|apply List.Forall_nil].
Defined.

Lemma visit_back_witness : exists s',
  (@fetch plain_browser 9 (txt "/b") ;! @onload plain_browser (0, 0) ex_response ;! @back plain_browser 12) ex_state = (s', Ok tt) /\
  page_of s' = (txt "A", txt "a", (3, 40)).
Proof.
  destruct (@visit_back plain_browser ex_state (txt "/a") (txt "/b") 9 12 (0, 0) ex_response ex_doc
              (txt "text/html; charset=utf-8")) as (s' & E & Hp & _).
  - reflexivity.
  - reflexivity.
  - reflexivity.
  - cbn. lia.
  - apply NoDup_singleton.
  - cbn. intros k p [= -> ->]%list_elem_of_singleton. cbn. lia.
  - split; vm_compute; try split; reflexivity.
  - reflexivity.
  - vm_compute. discriminate.
  - exists s'. split; [exact E|]. rewrite Hp. reflexivity.
Defined.

Lemma answer_outcome_witness :
  (exists s', @onload plain_browser (0, 70) ex_response ex_sent = (s', Ok tt) /\ w_body s' = txt "bc") /\
  (exists s', @onload plain_browser (0, 70) (Response 500 None None None) ex_sent = (s', Ok tt) /\
     w_left s' = Some (txt "/b#x") /\ w_body s' = txt "a").
Proof.
  split.
  - destruct (@answer_outcome plain_browser (0, 70) ex_response ex_sent
                (Request (@parse_url plain_browser (txt "/b#x")) (Some (txt "/a")) true)) as (s' & E & _ & _ & H).
    + vm_compute. reflexivity.
    + reflexivity.
    + vm_compute. discriminate.
    + by eexists.
    + exists s'. split; [exact E|]. assert (replaces ex_sent ex_response = Some ex_doc) as Er by (vm_compute; reflexivity).
      rewrite Er in H. destruct H as (_ & -> & _). vm_compute. reflexivity.
  - destruct (@answer_outcome plain_browser (0, 70) (Response 500 None None None) ex_sent
                (Request (@parse_url plain_browser (txt "/b#x")) (Some (txt "/a")) true)) as (s' & E & _ & _ & H).
    + vm_compute. reflexivity.
    + reflexivity.
    + vm_compute. discriminate.
    + cbn. lia.
    + exists s'. split; [exact E|]. assert (replaces ex_sent (Response 500 None None None) = None) as Er by (vm_compute; reflexivity).
      rewrite Er in H. destruct H as ([= _ -> _] & _ & ->). split; vm_compute; reflexivity.
Defined.

Lemma click_requests_witness : exists s', @handle_click plain_browser [] false 9 ex_click ex_path ex_state = (s', Ok true) /\
  t_xhr s' = Some (Request (@parse_url plain_browser (txt "/b")) (Some (txt "/a")) true).
Proof.
  destruct (proj1 (@click_requests plain_browser [] 9 ex_click ex_path (HState true (Some (txt "/a"))) ex_state eq_refl eq_refl)
              ex_link [Node false [] false []]) as (_ & s' & ex & E & Hx & _).
  - split.
    + cbn. repeat split; lia.
    + exists [Node false [] false []]. repeat split; [|discriminate]. apply List.Forall_cons; [done|apply List.Forall_nil].
    + reflexivity.
    + left. reflexivity.
    + vm_compute. discriminate.
    + vm_compute. discriminate.
    + split; [|reflexivity]. apply List.Forall_cons; [done|]. apply List.Forall_cons; [done|apply List.Forall_nil].
  - by exists s'.
Defined.
