(* ===== verification/Params.v ===== *)
(** * jQuery: data attributes and the serialization of forms (application bundle,
    lines 3634-3665 and 9435-9535)

    A text is made of code units up to 255.  [param_decode] reads a text of
    type application/x-www-form-urlencoded: the reference that
    [jQuery.param] is compared with. *)

From S2P Require Import Prelude JsString.
From Stdlib Require Import ZArith Lia Ascii.

Local Open Scope Z_scope.
Local Open Scope js_scope.

Definition chr (n : Z) : ascii := ascii_of_nat (Z.to_nat n).

(** ** [encodeURIComponent] *)

Definition hex_digit (n : Z) : ascii := chr (if n <? 10 then 48 + n else 55 + n).

Definition unreserved (c : ascii) : bool :=
  is_digit c || ((65 <=? code c) && (code c <=? 90)) || ((97 <=? code c) && (code c <=? 122)) ||
  bool_decide (c ∈ txt "-_.!~*'()").

(** The UTF-8 bytes of a code unit. *)
Definition utf8 (c : ascii) : list ascii :=
  if code c <? 128 then [c] else [chr (192 + Z.shiftr (code c) 6); chr (128 + Z.land (code c) 63)].

Definition escape_byte (c : ascii) : text := ["%"%char; hex_digit (Z.shiftr (code c) 4); hex_digit (Z.land (code c) 15)].
Definition encode_char (c : ascii) : text := if unreserved c then [c] else utf8 c ≫= escape_byte.
Definition encodeURIComponent (s : text) : text := s ≫= encode_char.

(** ** [jQuery.param] of a list of names and values *)

Fixpoint join (sep : text) (l : list text) : text :=
  match l with
  | [] => []
  | [s] => s
  | s :: l => s ++ sep ++ join sep l
  end.

(** [replace(/%20/g, "+")] *)
Fixpoint r20 (s : text) : text :=
  match s with
  | [] => []
  | c :: s1 =>
      match s1 with
      | c2 :: c3 :: s3 =>
          if bool_decide (c = "%"%char) && bool_decide (c2 = "2"%char) && bool_decide (c3 = "0"%char)
          then "+"%char :: r20 s3
          else c :: r20 s1
      | _ => c :: r20 s1
      end
  end.

Definition param (a : list (text * text)) : text :=
  r20 (join (txt "&") ((fun e => encodeURIComponent e.1 ++ txt "=" ++ encodeURIComponent e.2) <$> a)).

(** ** Controls of a form *)

Inductive tag := TA | TButton | TInput | TSelect | TTextarea | TForm | TOther.
#[export] Instance tag_eq : EqDecision tag.
Proof. solve_decision. Defined.

(** [c_vals] is what [val()] gives: one text, those selected, or none. *)
Record control := Control {
  c_tag : tag; c_type : text; c_name : text; c_vals : list text; c_checked : bool; c_disabled : bool
}.

Definition submittable (t : tag) : bool := bool_decide (t ∈ [TInput; TSelect; TTextarea]).
Definition submitter (ty : text) : bool := bool_decide (ty ∈ txt <$> ["submit"; "button"; "image"; "reset"; "file"]%string).
Definition checkable (ty : text) : bool := bool_decide (ty ∈ txt <$> ["checkbox"; "radio"]%string).

(** [replace(/\r?\n/g, "\r\n")] *)
Fixpoint rCRLF (s : text) : text :=
  match s with
  | [] => []
  | c :: s1 =>
      if code c =? 10 then chr 13 :: chr 10 :: rCRLF s1
      else match s1 with
           | c2 :: s2 => if (code c =? 13) && (code c2 =? 10) then chr 13 :: chr 10 :: rCRLF s2 else c :: rCRLF s1
           | [] => [c]
           end
  end.

Definition successful (c : control) : bool :=
  negb (bool_decide (c_name c = [])) && negb (c_disabled c) && submittable (c_tag c) &&
  negb (submitter (c_type c)) && (c_checked c || negb (checkable (c_type c))).

Definition serializeArray (elements : list control) : list (text * text) :=
  c ← filter (fun c => successful c = true) elements; (fun v => (c_name c, rCRLF v)) <$> c_vals c.

Definition serialize (elements : list control) : text := param (serializeArray elements).

(** ** Data attributes

    [dataAttr] reads an attribute as a boolean, null, or a number when its
    numeral is the text; numerals print as they are, so the text is kept.
    Attributes in JSON are not considered. *)

Definition data_falsy (s : text) : bool := bool_decide (s ∈ txt <$> [""; "false"; "null"; "0"; "NaN"]%string).

(** [data(key) || d], for an attribute or none. *)
Definition data_or (a : option text) (d : text) : text :=
  match a with
  | Some s => if data_falsy s then d else s
  | None => d
  end.
Definition data_truthy (a : option text) : bool := match a with Some s => negb (data_falsy s) | None => false end.

(** ** Reading the text back *)

Fixpoint split_on (sep : ascii) (s : text) : list text :=
  match s with
  | [] => [[]]
  | c :: s =>
      if bool_decide (c = sep) then [] :: split_on sep s
      else match split_on sep s with
           | w :: ws => (c :: w) :: ws
           | [] => [[c]]
           end
  end.

Definition hex_value (c : ascii) : Z := if is_digit c then code c - 48 else code c - 55.

(** Pluses are spaces, and escapes are bytes. *)
Fixpoint unescape (s : text) : text :=
  match s with
  | [] => []
  | c :: s1 =>
      if bool_decide (c = "%"%char)
      then match s1 with
           | h :: l :: s3 => chr (16 * hex_value h + hex_value l) :: unescape s3
           | _ => [c]
           end
      else (if bool_decide (c = "+"%char) then " "%char else c) :: unescape s1
  end.

Fixpoint utf8_decode (s : text) : text :=
  match s with
  | [] => []
  | c :: s1 =>
      if code c <? 128 then c :: utf8_decode s1
      else match s1 with
           | c2 :: s2 => chr (64 * Z.land (code c) 3 + Z.land (code c2) 63) :: utf8_decode s2
           | [] => []
           end
  end.

Definition decode_part (s : text) : text := utf8_decode (unescape s).

Definition decode_pair (s : text) : text * text :=
  let name := take_while (fun c => negb (bool_decide (c = "="%char))) s in
  (decode_part name, decode_part (drop (S (length name)) s)).

Definition param_decode (s : text) : list (text * text) :=
  match s with
  | [] => []
  | _ => decode_pair <$> split_on "&"%char s
  end.

(** ** Proofs *)

(** A character as it is written in the end. *)
Definition plus_char (c : ascii) : text := if bool_decide (c = " "%char) then txt "+" else encode_char c.
Definition plus_text (s : text) : text := s ≫= plus_char.

(** A fact of a character, by the 256 of them. *)
Ltac all_chars c := destruct c as [[] [] [] [] [] [] [] []].

Lemma r20_char c s : r20 (encode_char c ++ s) = plus_char c ++ r20 s.
Proof. all_chars c; try reflexivity; destruct s as [|? [|]]; reflexivity. Qed.

Lemma r20_text t s : r20 (encodeURIComponent t ++ s) = plus_text t ++ r20 s.
Proof.
  induction t as [|c t IH]; [done|]. unfold encodeURIComponent, plus_text in *. rewrite !bind_cons.
  rewrite <- !app_assoc, r20_char. by rewrite IH.
Qed.

Lemma unescape_char c s : unescape (plus_char c ++ s) = utf8 c ++ unescape s.
Proof. all_chars c; reflexivity. Qed.

Lemma utf8_decode_char c s : utf8_decode (utf8 c ++ s) = c :: utf8_decode s.
Proof. all_chars c; reflexivity. Qed.

Lemma decode_text t : decode_part (plus_text t) = t.
Proof.
  unfold decode_part. assert (unescape (plus_text t) = t ≫= utf8) as ->.
  { induction t as [|c t IH]; [done|]. unfold plus_text in *. rewrite !bind_cons, unescape_char. by rewrite IH. }
  induction t as [|c t IH]; [done|]. rewrite bind_cons, utf8_decode_char. by rewrite IH.
Qed.

Definition plain (c : ascii) : bool := negb (bool_decide (c ∈ txt "&=")).

Lemma plus_text_plain t : Forall (fun c => plain c = true) (plus_text t).
Proof.
  induction t as [|c t IH]; [constructor|]. unfold plus_text in *. rewrite bind_cons. apply Forall_app. split; [|done].
  apply Forall_forall. intros x Hx. apply list_elem_of_In in Hx. revert x Hx. clear.
  all_chars c; cbn; intros x Hx; repeat (destruct Hx as [<-|Hx]; [reflexivity|]); done.
Qed.

Definition pair_text (e : text * text) : text := plus_text e.1 ++ txt "=" ++ plus_text e.2.

Lemma param_pairs l : param l = join (txt "&") (pair_text <$> l).
Proof.
  unfold param. induction l as [|[k v] l IH]; [done|]. destruct l as [|e l].
  - cbn [fmap list_fmap join fst snd]. unfold pair_text. cbn [fst snd]. rewrite r20_text. f_equal.
    rewrite <- (app_nil_r (encodeURIComponent v)). change (txt "=" ++ encodeURIComponent v ++ []) with ("="%char :: encodeURIComponent v ++ []).
    transitivity ("="%char :: r20 (encodeURIComponent v ++ [])); [|rewrite r20_text; by rewrite app_nil_r].
    cbn [r20]. destruct (encodeURIComponent v ++ []) as [|? [|]]; reflexivity.
  - cbn [fmap list_fmap fst snd] in *. change (join (txt "&") (?a :: ?b :: ?c)) with (a ++ txt "&" ++ join (txt "&") (b :: c)).
    cbn [join] in IH |- *.
    match goal with |- context [txt "&" ++ ?r] => set (rest := r) in * end.
    unfold pair_text at 1. cbn [fst snd]. rewrite <- !app_assoc, r20_text. f_equal.
    assert (forall s, r20 (txt "=" ++ s) = "="%char :: r20 s) as E1 by (by intros [|? [|]]).
    assert (forall s, r20 (txt "&" ++ s) = "&"%char :: r20 s) as E2 by (by intros [|? [|]]).
    rewrite E1, r20_text, E2. cbn. by rewrite IH.
Qed.

Lemma split_on_first sep (s t : text) : Forall (fun c => c <> sep) s -> split_on sep (s ++ sep :: t) = s :: split_on sep t.
Proof. induction 1 as [|c s Hc _ IH]; cbn [app split_on]; [by rewrite bool_decide_true|]. rewrite bool_decide_false by done. by rewrite IH. Qed.

Lemma split_on_whole sep (s : text) : Forall (fun c => c <> sep) s -> split_on sep s = [s].
Proof. induction 1 as [|c s Hc _ IH]; cbn [split_on]; [done|]. rewrite bool_decide_false by done. by rewrite IH. Qed.

Lemma pair_text_amp e : Forall (fun c => c <> "&"%char) (pair_text e).
Proof.
  unfold pair_text. assert (forall t, Forall (fun c => c <> "&"%char) (plus_text t)) as H.
  { intros t. eapply Forall_impl; [apply plus_text_plain|]. by intros c Hc ->. }
  apply Forall_app. split; [apply H|]. apply Forall_app. split; [by repeat constructor|apply H].
Qed.

Lemma split_join l : l <> [] -> split_on "&"%char (join (txt "&") (pair_text <$> l)) = pair_text <$> l.
Proof.
  induction l as [|e l IH]; [done|]. intros _. destruct l as [|e2 l].
  - cbn. apply split_on_whole, pair_text_amp.
  - rewrite !fmap_cons in *. change (join (txt "&") (?a :: ?b :: ?c)) with (a ++ "&"%char :: join (txt "&") (b :: c)).
    rewrite split_on_first by apply pair_text_amp. f_equal. by apply IH.
Qed.

Lemma take_until (p : ascii -> bool) s c t : Forall (fun c => p c = true) s -> p c = false -> take_while p (s ++ c :: t) = s.
Proof. induction 1 as [|x s Hx _ IH]; intros Hc; cbn [app take_while]; [by rewrite Hc|]. rewrite Hx. by rewrite IH. Qed.

Lemma decode_pair_text e : decode_pair (pair_text e) = e.
Proof.
  destruct e as [k v]. unfold decode_pair, pair_text. cbn [fst snd]. change (txt "=" ++ ?s) with ("="%char :: s).
  rewrite take_until; [|eapply Forall_impl; [apply plus_text_plain|]|done].
  - rewrite decode_text. f_equal. rewrite <- (decode_text v) at 2. f_equal.
    rewrite drop_app_ge by lia. by replace (S (length (plus_text k)) - length (plus_text k))%nat with 1%nat by lia.
  - intros c Hc. destruct (decide (c = "="%char)) as [->|Hn]; [done|]. by rewrite bool_decide_false.
Qed.

(** C40: the serialization of names and values.  Whatever the names and the values, the
    text of [jQuery.param] is read back, as a form is decoded, to the same list in the same
    order: no character of a name or a value is taken for a separator. *)
Theorem param_roundtrip (a : list (text * text)) : param_decode (param a) = a.
Proof.
  rewrite param_pairs. destruct a as [|e a]; [done|].
  assert (join (txt "&") (pair_text <$> e :: a) <> []) as Hne.
  { intros E. assert ("="%char ∈ join (txt "&") (pair_text <$> e :: a)) as Hin; [|rewrite E in Hin; by apply elem_of_nil in Hin].
    rewrite fmap_cons. unfold pair_text at 1. destruct a; cbn [fmap list_fmap join]; rewrite ?elem_of_app; set_solver. }
  unfold param_decode. destruct (join _ _) eqn:E; [done|]. rewrite <- E, split_join by done.
  rewrite <- list_fmap_compose. rewrite <- (list_fmap_id (e :: a)) at 2. apply list_fmap_ext. intros. apply decode_pair_text.
Qed.

Example param_ex : param [(txt "user[name]", txt "Ana & co"); (txt "q", [chr 233])] = txt "user%5Bname%5D=Ana+%26+co&q=%C3%A9".
Proof. reflexivity. Qed.
