(* ===== verification/Ujs.v ===== *)
(** * jquery_ujs (application bundle, lines 10360-10821)

    Elements with [data-*] attributes confirm, send their requests with ajax, post
    with another method, and are disabled meanwhile.  A page is the list of its
    elements, the timers and the requests that wait.  The elements and their
    attributes stay; what changes is in the fields of [el].

    [world] is what happens outside: whether the listeners of the page let an event
    through, what the user answers to a confirmation, whether a request can be
    sent.  [cross_origin] is the comparison of [$.ajax] of an address with the
    one of the page. *)

From S2P Require Import Prelude JsString Params.
From Stdlib Require Import ZArith Lia Ascii.

Local Open Scope Z_scope.
Local Open Scope js_scope.

(** ** Elements *)

(** [a_owner] is the form of a control, [a_inside] the form it is in; [a_form] and
    [a_type] are the presence of the attributes form and type. *)
Record attrs := Attrs {
  a_inside : option nat; a_owner : option nat; a_form : bool; a_type : bool;
  a_href : option text; a_target : text; a_action : option text; a_formmethod : option text;
  a_confirm : option text; a_method : option text; a_params : option text; a_url : option text;
  a_datatype : option text; a_cross : option text; a_credentials : option text;
  a_remote : bool; a_disable_with : option text; a_disable : bool;
  a_required : bool; a_novalidate : bool
}.

(** [enable_with] and [submit_button] are the data of the element, [blocked] the
    handler click.railsDisable. *)
Record el := El {
  at_ : attrs; ctl : control; html : text;
  enable_with : option text; submit_button : option (text * text); blocked : bool
}.

Inductive data_sent :=
| NoData
| Pairs (l : list (text * text))
| Body (s : text).

Record request := Request {
  r_el : nat; r_type : text; r_url : option text; r_data : data_sent; r_datatype : option text;
  r_credentials : bool; r_csrf : option text; r_restore : option bool
}.

Inductive event_name :=
| AjaxBefore | AjaxBeforeSend | AjaxSend | AjaxSuccess | AjaxError | AjaxComplete
| Confirm | ConfirmComplete (answer : bool) | AbortedRequired (l : list nat) | AbortedFile (l : list nat)
| EverythingStopped.

Inductive effect :=
| LFire (i : nat) (ev : event_name)
| LConfirm (msg : text)
| LSend (r : request)
| LPost (href target method : text) (csrf : option (text * text))
| LFollow (i : nat)
| LSubmit (f : nat).

Inductive timer := DisableForm (f : nat) | EnableForm (f : nat).

Record page := Page {
  els : list el; timers : list timer; pending : list request;
  csrf_param : option text; csrf_token : option text; log : list effect
}.

Record world := World { lets : nat -> event_name -> bool; answers : text -> bool; transports : bool }.

Definition set_els l (p : page) := let 'Page _ t r k n g := p in Page l t r k n g.
Definition set_timers t (p : page) := let 'Page l _ r k n g := p in Page l t r k n g.
Definition set_pending r (p : page) := let 'Page l t _ k n g := p in Page l t r k n g.
Definition add_log g' (p : page) := let 'Page l t r k n g := p in Page l t r k n (g ++ g').

Definition P : Type -> Type := st_ex page.

Definition change_el (f : el -> el) (i : nat) : P unit := smodify (fun p => set_els (alter f i (els p)) p).
Definition write (g : effect) : P unit := smodify (add_log [g]).

(** ** Selectors *)

Definition is_tag (t : tag) (e : el) : bool := bool_decide (c_tag (ctl e) = t).
Definition is_some {A} (o : option A) : bool := match o with Some _ => true | None => false end.

Definition disables (e : el) : bool := is_some (a_disable_with (at_ e)) || a_disable (at_ e).

Definition linkClickSelector (e : el) : bool :=
  is_tag TA e && (is_some (a_confirm (at_ e)) || is_some (a_method (at_ e)) || a_remote (at_ e) || disables e).
Definition buttonClickSelector (e : el) : bool :=
  is_tag TButton e && (a_remote (at_ e) || is_some (a_confirm (at_ e))) && negb (is_some (a_inside (at_ e))).
Definition inputChangeSelector (e : el) : bool :=
  bool_decide (c_tag (ctl e) ∈ [TSelect; TInput; TTextarea]) && a_remote (at_ e).
Definition formInputClickSelector (e : el) : bool :=
  (is_some (a_inside (at_ e)) || a_form (at_ e)) &&
  ((is_tag TInput e && bool_decide (c_type (ctl e) ∈ txt <$> ["submit"; "image"]%string)) ||
   (is_tag TButton e && (negb (a_type (at_ e)) || bool_decide (c_type (ctl e) = txt "submit")))).
Definition disableable (e : el) : bool :=
  bool_decide (c_tag (ctl e) ∈ [TInput; TButton; TTextarea]) && disables e.
Definition disableSelector (e : el) : bool := disableable e && negb (c_disabled (ctl e)).
Definition enableSelector (e : el) : bool := disableable e && c_disabled (ctl e).
Definition requiredInputSelector (e : el) : bool :=
  bool_decide (c_tag (ctl e) ∈ [TInput; TTextarea]) && negb (bool_decide (c_name (ctl e) = [])) &&
  a_required (at_ e) && negb (c_disabled (ctl e)).
Definition fileInputSelector (e : el) : bool := is_tag TInput e && bool_decide (c_type (ctl e) = txt "file").
Definition linkDisableSelector (e : el) : bool := is_tag TA e && disables e.
Definition buttonDisableSelector (e : el) : bool := is_tag TButton e && a_remote (at_ e) && disables e.

(** The elements of a page that pass a test, by their places. *)
Definition select (f : el -> bool) (p : page) : list nat :=
  omap (fun x => if f x.2 then Some x.1 else None) (imap (fun i e => (i, e)) (els p)).

(** [formElements] of a form: its [elements]. *)
Definition formElements (form : nat) (f : el -> bool) : page -> list nat :=
  select (fun e => bool_decide (a_owner (at_ e) = Some form) && f e).

(** [form.find(selector)] *)
Definition find_in (form : nat) (f : el -> bool) : page -> list nat :=
  select (fun e => bool_decide (a_inside (at_ e) = Some form) && f e).

Fixpoint each (f : nat -> P unit) (l : list nat) : P unit :=
  match l with
  | [] => sret tt
  | i :: l => f i ;! each f l
  end.

(** ** Disabling *)

(** What [html(value)] and [val(value)] show for the data of an attribute. *)
Definition html_of (s : text) : text := if bool_decide (s ∈ txt <$> ["false"; "null"; "NaN"]%string) then [] else s.
Definition val_of (s : text) : text := if bool_decide (s = txt "null") then [] else s.

Definition set_html h (e : el) := let 'El a c _ w b k := e in El a c h w b k.
Definition set_enable_with w (e : el) := let 'El a c h _ b k := e in El a c h w b k.
Definition set_submit b (e : el) := let 'El a c h w _ k := e in El a c h w b k.
Definition set_blocked k (e : el) := let 'El a c h w b _ := e in El a c h w b k.
Definition set_ctl c (e : el) := let 'El a _ h w b k := e in El a c h w b k.
Definition set_vals v (c : control) := let 'Control t y n _ k d := c in Control t y n v k d.
Definition set_checked k (c : control) := let 'Control t y n v _ d := c in Control t y n v k d.
Definition set_disabled d (c : control) := let 'Control t y n v k _ := c in Control t y n v k d.

Definition val (e : el) : text := default [] (head (c_vals (ctl e))).

(** [element[method]()] and [element[method](value)], of the data of an attribute or of a text stored. *)
Definition shown (e : el) : text := if is_tag TButton e then html e else val e.
Definition show (data : bool) (s : text) (e : el) : el :=
  if is_tag TButton e then set_html (if data then html_of s else s) e
  else set_ctl (set_vals [if data then val_of s else s] (ctl e)) e.

Definition disable_control (e : el) : el :=
  let e1 := set_enable_with (Some (shown e)) e in
  let e2 := match a_disable_with (at_ e) with Some s => show true s e1 | None => e1 end in
  set_ctl (set_disabled true (ctl e2)) e2.

Definition enable_control (e : el) : el :=
  let e1 := match enable_with e with
            | Some ((_ :: _) as s) => show false s e
            | _ => e
            end in
  set_ctl (set_disabled false (ctl e1)) e1.

Definition disableFormElement (i : nat) : P unit := change_el disable_control i.
Definition enableFormElement (i : nat) : P unit := change_el enable_control i.

Definition disableFormElements (f : nat) : P unit :=
  let! l := sget (formElements f disableSelector) in each disableFormElement l.
Definition enableFormElements (f : nat) : P unit :=
  let! l := sget (formElements f enableSelector) in each enableFormElement l.

Definition disable_link (e : el) : el :=
  let e1 := set_enable_with (Some (html e)) e in
  let e2 := match a_disable_with (at_ e) with Some s => set_html (html_of s) e1 | None => e1 end in
  set_blocked true e2.

Definition enable_link (e : el) : el :=
  let e1 := match enable_with e with Some s => set_enable_with None (set_html s e) | None => e end in
  set_blocked false e1.

Definition disableElement (i : nat) : P unit := change_el disable_link i.
Definition enableElement (i : nat) : P unit := change_el enable_link i.

(** ** Events *)

Definition here (i : nat) {A} (f : el -> A) (d : A) (p : page) : A :=
  match els p !! i with Some e => f e | None => d end.

(** The handlers of ujs for ajax:complete and ajax:send: on the element and, for a
    form, on the form itself only. *)
Definition ajax_handlers (i : nat) (ev : event_name) : P unit :=
  match ev with
  | AjaxComplete =>
      let! link := sget (here i linkDisableSelector false) in swhen link (enableElement i) ;!
      let! button := sget (here i buttonDisableSelector false) in swhen button (enableFormElement i) ;!
      let! form := sget (here i (is_tag TForm) false) in swhen form (enableFormElements i)
  | AjaxSend => let! form := sget (here i (is_tag TForm) false) in swhen form (disableFormElements i)
  | _ => sret tt
  end.

Definition trigger (i : nat) (ev : event_name) : P unit := write (LFire i ev) ;! ajax_handlers i ev.
Definition fire (w : world) (i : nat) (ev : event_name) : P bool := trigger i ev ;! sret (lets w i ev).

Definition stopEverything (i : nat) : P unit := trigger i EverythingStopped.

(** [allowAction] *)
Definition allowAction (w : world) (i : nat) : P bool :=
  let! m := sget (here i (fun e => a_confirm (at_ e)) None) in
  match m with
  | Some msg =>
      if data_falsy msg then sret true
      else let! go := fire w i Confirm in
           if go then
             write (LConfirm msg) ;!
             let! callback := fire w i (ConfirmComplete (answers w msg)) in
             sret (answers w msg && callback)
           else sret false
  | None => sret true
  end.

(** ** Requests *)

Section requests.
Variable cross_origin : option text -> bool.

(** The callbacks when a request is over, in the order of [done]: the state settles, with
    [restore] the callback of the handler for a failure, then complete. *)
Definition restore (i : nat) (how : option bool) : P unit :=
  match how with
  | Some true => enableElement i
  | Some false => enableFormElement i
  | None => sret tt
  end.

Definition finish (success : bool) (r : request) : P unit :=
  trigger (r_el r) (if success then AjaxSuccess else AjaxError) ;!
  swhen (negb success) (restore (r_el r) (r_restore r)) ;!
  trigger (r_el r) AjaxComplete.

(** [rails.ajax(options)], then [.error(f)] of the promise: a request canceled in
    [beforeSend] has failed before [success], [error] and [complete] are set. *)
Definition ajax (w : world) (r : request) : P unit :=
  let! go := fire w (r_el r) AjaxBeforeSend in
  if go then
    trigger (r_el r) AjaxSend ;!
    if transports w then write (LSend r) ;! smodify (fun p => set_pending (pending p ++ [r]) p)
    else finish false (Request (r_el r) (r_type r) (r_url r) (r_data r) (r_datatype r) (r_credentials r) (r_csrf r) None) ;!
         restore (r_el r) (r_restore r)
  else restore (r_el r) (r_restore r).

(** [element.serialize()], with the data-params after it. *)
Definition serialized (e : el) : data_sent :=
  Body (serialize [ctl e] ++ if data_truthy (a_params (at_ e)) then txt "&" ++ default [] (a_params (at_ e)) else []).

Definition form_data (i : nat) (p : page) : list (text * text) :=
  serializeArray (omap (fun e => if bool_decide (a_owner (at_ e) = Some i) then Some (ctl e) else None) (els p)).

Definition blank_or {A} (s : option text) (d : A) (k : text -> A) : A :=
  match s with Some ((_ :: _) as t) => k t | _ => d end.
Definition data_text (a : option text) : option text := if data_truthy a then a else None.

(** The method, the address and the data of an element. *)
Definition request_of (i : nat) (e : el) (p : page) : text * option text * data_sent :=
  let a := at_ e in
  if is_tag TForm e then
    (blank_or (a_formmethod a) (txt "GET") id, blank_or (a_action a) None Some,
     Pairs (form_data i p ++ match submit_button e with Some b => [b] | None => [] end))
  else if inputChangeSelector e then (data_or (a_method a) (txt "GET"), data_text (a_url a), serialized e)
  else if buttonClickSelector e then (data_or (a_method a) (txt "get"), data_text (a_url a), serialized e)
  else (data_or (a_method a) (txt "GET"), blank_or (a_href a) None Some,
        if data_truthy (a_params a) then Body (default [] (a_params a)) else NoData).

(** [crossDomain], and [CSRFProtection] for a request of the same origin. *)
Definition crossDomain (e : el) (url : option text) : bool :=
  match a_cross (at_ e) with
  | Some s => if decide (s = txt "null") then cross_origin url else negb (data_falsy s)
  | None => cross_origin url
  end.
Definition csrf_header (e : el) (url : option text) (p : page) : option text :=
  if crossDomain e url then None else blank_or (csrf_token p) None Some.

Definition handleRemote (w : world) (restoring : option bool) (i : nat) : P unit :=
  let! go := fire w i AjaxBefore in
  if go then
    let! p := sget (fun p => p) in
    match els p !! i with
    | None => sret tt
    | Some e =>
        let '(method, url, data) := request_of i e p in
        swhen (is_tag TForm e) (change_el (set_submit None) i) ;!
        ajax w (Request i method url data (data_text (a_datatype (at_ e)))
                  (data_truthy (a_credentials (at_ e))) (csrf_header e url p) restoring)
    end
  else restore i restoring.

(** [handleMethod]: a form that posts to the address, made and submitted; being a form, it is
    bound by ujs, and has no controls to disable. *)
Definition handleMethod (i : nat) (e : el) : P unit := fun p =>
  write (LPost (default (txt "undefined") (a_href (at_ e))) (a_target (at_ e)) (default [] (a_method (at_ e)))
    match csrf_param p, csrf_token p with Some k, Some v => Some (k, v) | _, _ => None end) p.

(** ** Handlers: the event is stopped, or its default action prevented, or neither *)

Inductive verdict := Stop | Prevent | Default.

Definition stop (i : nat) : P verdict := stopEverything i ;! sret Stop.

Definition link_click (w : world) (metaClick : bool) (i : nat) (e : el) : P verdict :=
  let! allowed := allowAction w i in
  if negb allowed then stop i
  else
    swhen (negb metaClick && linkDisableSelector e) (disableElement i) ;!
    if a_remote (at_ e) then
      if metaClick && bool_decide (data_or (a_method (at_ e)) (txt "GET") = txt "GET") && negb (data_truthy (a_params (at_ e)))
      then sret Default
      else handleRemote w (Some true) i ;! sret Prevent
    else if data_truthy (a_method (at_ e)) then handleMethod i e ;! sret Prevent
    else sret Default.

Definition button_click (w : world) (i : nat) (e : el) : P verdict :=
  let! allowed := allowAction w i in
  if negb allowed then stop i
  else
    swhen (buttonDisableSelector e) (disableFormElement i) ;!
    handleRemote w (Some false) i ;! sret Prevent.

Definition input_change (w : world) (i : nat) : P verdict :=
  let! allowed := allowAction w i in
  if negb allowed then stop i else handleRemote w None i ;! sret Prevent.

(** The pressed button is remembered by the form it is in. *)
Definition form_input_click (w : world) (i : nat) (e : el) : P verdict :=
  let! allowed := allowAction w i in
  if negb allowed then stop i
  else
    match a_inside (at_ e) with
    | Some f => change_el (set_submit (match c_name (ctl e) with [] => None | n => Some (n, val e) end)) f
    | None => sret tt
    end ;! sret Default.

(** [blankInputs]: [nonBlank] asks for those that are not. *)
Definition filled (e : el) : bool :=
  if is_tag TInput e && checkable (c_type (ctl e)) then c_checked (ctl e)
  else negb (bool_decide (val e = [])).
Definition is_radio (e : el) : bool := is_tag TInput e && bool_decide (c_type (ctl e) = txt "radio").
Definition group_checked (p : page) (all : list nat) (e : el) : bool :=
  existsb (fun j => here j (fun e' => is_radio e' && c_checked (ctl e') && bool_decide (c_name (ctl e') = c_name (ctl e))) false p) all.

Definition blankInputs (f : nat) (specified : el -> bool) (nonBlank : bool) (p : page) : list nat :=
  let all := find_in f specified p in
  filter (fun i => here i (fun e => Bool.eqb (filled e) nonBlank && negb (is_radio e && group_checked p all e)) false p = true) all.

Definition form_submit (w : world) (f : nat) (e : el) : P verdict :=
  let! allowed := allowAction w f in
  if negb allowed then stop f
  else
    let! blank := sget (blankInputs f requiredInputSelector false) in
    let! aborted :=
      match a_novalidate (at_ e), blank with
      | false, _ :: _ => fire w f (AbortedRequired blank)
      | _, _ => sret false
      end in
    if aborted then stop f
    else if a_remote (at_ e) then
      let! files := sget (blankInputs f fileInputSelector true) in
      match files with
      | _ :: _ =>
          smodify (fun p => set_timers (timers p ++ [DisableForm f]) p) ;!
          let! aborted := fire w f (AbortedFile files) in
          swhen (negb aborted) (smodify (fun p => set_timers (timers p ++ [EnableForm f]) p)) ;!
          sret (if aborted then Default else Prevent)
      | [] => handleRemote w None f ;! sret Prevent
      end
    else
      smodify (fun p => set_timers (timers p ++ [DisableForm f]) p) ;! sret Default.

(** ** What happens to the page *)

(** The handlers of one element for one event, in the order they are bound; the
    event goes on to the others unless it is stopped. *)
Fixpoint dispatch (l : list (bool * P verdict)) : P verdict :=
  match l with
  | [] => sret Default
  | (false, _) :: l => dispatch l
  | (true, h) :: l =>
      let! v := h in
      match v with
      | Stop => sret Stop
      | Prevent => dispatch l ;! sret Prevent
      | Default => dispatch l
      end
  end.

(** A form submitted: unless it is prevented, the form is sent. *)
Definition submit (w : world) (f : nat) : P unit :=
  let! e := sget (fun p => els p !! f) in
  match e with
  | Some e =>
      if is_tag TForm e then
        let! v := form_submit w f e in
        match v with Default => write (LSubmit f) | _ => sret tt end
      else sret tt
  | None => sret tt
  end.

Definition submits (e : el) : bool :=
  (is_tag TInput e && bool_decide (c_type (ctl e) ∈ txt <$> ["submit"; "image"]%string)) ||
  (is_tag TButton e && (negb (a_type (at_ e)) || bool_decide (c_type (ctl e) = txt "submit"))).

(** A click: none on a disabled control; click.railsDisable, bound to the element, stops it first. *)
Definition click (w : world) (metaClick : bool) (i : nat) : P unit :=
  let! e := sget (fun p => els p !! i) in
  match e with
  | None => sret tt
  | Some e =>
      if c_disabled (ctl e) then sret tt
      else if blocked e then stopEverything i
      else
        let! v := dispatch [(linkClickSelector e, link_click w metaClick i e);
                            (buttonClickSelector e, button_click w i e);
                            (formInputClickSelector e, form_input_click w i e)] in
        match v with
        | Default =>
            if is_tag TA e then write (LFollow i)
            else match (if submits e then a_owner (at_ e) else None) with
                 | Some f => submit w f
                 | None => sret tt
                 end
        | _ => sret tt
        end
  end.

Definition change (w : world) (i : nat) : P unit :=
  let! e := sget (fun p => els p !! i) in
  match e with
  | Some e => if inputChangeSelector e then input_change w i ;! sret tt else sret tt
  | None => sret tt
  end.

(** The answer of a pending request, and a timer. *)
Definition answer (k : nat) (success : bool) : P unit :=
  let! r := sget (fun p => pending p !! k) in
  match r with
  | Some r => smodify (fun p => set_pending (delete k (pending p)) p) ;! finish success r
  | None => sret tt
  end.

Definition tick : P unit :=
  let! t := sget timers in
  match t with
  | [] => sret tt
  | DisableForm f :: t => smodify (set_timers t) ;! disableFormElements f
  | EnableForm f :: t => smodify (set_timers t) ;! enableFormElements f
  end.

(** [refreshCSRFTokens], when the document is ready. *)
Definition refreshCSRFTokens : P unit := smodify (fun p =>
  set_els ((fun e => if is_tag TInput e && is_some (a_inside (at_ e)) &&
                        bool_decide (c_name (ctl e) = default (txt "undefined") (csrf_param p))
                     then set_ctl (set_vals [default [] (csrf_token p)] (ctl e)) e else e) <$> els p) p).

Inductive happening :=
| HClick (w : world) (metaClick : bool) (i : nat)
| HChange (w : world) (i : nat)
| HSubmit (w : world) (f : nat)
| HInput (i : nat) (vals : list text) (checked : bool)
| HAnswer (k : nat) (success : bool)
| HTick
| HReady.

Definition happen (h : happening) : P unit :=
  match h with
  | HClick w m i => click w m i
  | HChange w i => change w i
  | HSubmit w f => submit w f
  | HInput i v c => change_el (fun e => set_ctl (set_checked c (set_vals v (ctl e))) e) i
  | HAnswer k ok => answer k ok
  | HTick => tick
  | HReady => refreshCSRFTokens
  end.

Fixpoint happens (hs : list happening) : P unit :=
  match hs with
  | [] => sret tt
  | h :: hs => happen h ;! happens hs
  end.

End requests.
