(* ===== verification/UjsSpec.v ===== *)
(** * jquery_ujs: confirmations, links with requests, required fields *)

From S2P Require Import Prelude JsString Params Ujs.
From Stdlib Require Import ZArith Lia Ascii.

Local Open Scope Z_scope.
Local Open Scope js_scope.

(** ** Steps that only log *)

Definition logs {A} (e : P A) : Prop := forall p, exists g a, e p = (add_log g p, Ok a).

Lemma add_log_nil p : add_log [] p = p.
Proof. destruct p. cbn. by rewrite app_nil_r. Qed.

Lemma add_log_app g g' p : add_log g' (add_log g p) = add_log (g ++ g') p.
Proof. destruct p. cbn. by rewrite app_assoc. Qed.

Lemma logs_ret {A} (a : A) : logs (sret a).
Proof. intros p. exists [], a. by rewrite add_log_nil. Qed.

Lemma logs_bind {A B} (e : P A) (k : A -> P B) : logs e -> (forall a, logs (k a)) -> logs (sbind e k).
Proof.
  intros He Hk p. destruct (He p) as (g & a & E). destruct (Hk a (add_log g p)) as (g' & b & E').
  exists (g ++ g'), b. unfold sbind. by rewrite E, E', add_log_app.
Qed.

Lemma logs_get {A B} (f : page -> A) (k : A -> P B) : (forall a, logs (k a)) -> logs (let! x := sget f in k x).
Proof. intros Hk p. unfold sbind, sget. apply Hk. Qed.

Lemma logs_write g : logs (write g).
Proof. intros p. by exists [g], tt. Qed.

Create HintDb ujs.
#[export] Hint Resolve logs_ret logs_bind logs_get logs_write : ujs.

Definition quiet_event (ev : event_name) : Prop := ev <> AjaxComplete /\ ev <> AjaxSend.

Lemma trigger_logs i ev : quiet_event ev -> logs (trigger i ev).
Proof. intros [H1 H2]. unfold trigger. apply logs_bind; [auto with ujs|]. intros _. destruct ev; try done; cbn; auto with ujs. Qed.

Lemma fire_logs w i ev : quiet_event ev -> logs (fire w i ev).
Proof. intros H. apply logs_bind; [by apply trigger_logs|]. auto with ujs. Qed.

Lemma allowAction_logs w i : logs (allowAction w i).
Proof.
  apply logs_get. intros [msg|]; [|auto with ujs]. destruct (data_falsy msg); [auto with ujs|].
  apply logs_bind; [by apply fire_logs|]. intros []; [|auto with ujs].
  apply logs_bind; [auto with ujs|]. intros _. apply logs_bind; [by apply fire_logs|]. auto with ujs.
Qed.

Lemma stop_logs i : logs (stop i).
Proof. apply logs_bind; [by apply trigger_logs|]. auto with ujs. Qed.

(** An assertion that ignores the log. *)
Definition unlogged (Q : page -> Prop) : Prop := forall g p, Q p -> Q (add_log g p).

Lemma hoare_logs {A} (Q : page -> Prop) (e : P A) : unlogged Q -> logs e -> hoare Q e (fun _ => Q).
Proof. intros HQ He p Hp. destruct (He p) as (g & a & E). exists (add_log g p), a. auto. Qed.

Lemma hoare_get {A B} (Q : page -> Prop) (f : page -> A) (k : A -> P B) R :
  (forall p, Q p -> hoare (fun p' => p' = p) (k (f p)) R) -> hoare Q (let! x := sget f in k x) R.
Proof. intros Hk p Hp. unfold sbind, sget. by apply (Hk p Hp). Qed.

Lemma hoare_pre {A} (Q Q' : page -> Prop) (e : P A) R : hoare Q e R -> (forall p, Q' p -> Q p) -> hoare Q' e R.
Proof. intros H HQ p Hp. apply H. auto. Qed.

Lemma select_elem f p i : i ∈ select f p <-> exists e, els p !! i = Some e /\ f e = true.
Proof.
  unfold select. rewrite list_elem_of_omap. split.
  - intros ([j e] & Hin & E). apply list_elem_of_lookup in Hin as [k Hk]. rewrite list_lookup_imap in Hk.
    destruct (els p !! k) as [e1|] eqn:E1; [|done]. injection Hk as <- <-. cbn in E. destruct (f e1) eqn:Ef; [|done].
    injection E as <-. eauto.
  - intros (e & E & Hf). exists (i, e). split; [|cbn; by rewrite Hf]. apply list_elem_of_lookup. exists i.
    rewrite list_lookup_imap. by rewrite E.
Qed.

(** ** Links with requests *)

(** What an element keeps: its attributes and its kind; and, for a link, what it shows. *)
Definition static (e e' : el) : Prop := at_ e' = at_ e /\ c_tag (ctl e') = c_tag (ctl e).
Definition alike (e e' : el) : Prop :=
  static e e' /\ (is_tag TA e = true -> html e' = html e /\ enable_with e' = enable_with e /\ blocked e' = blocked e).

Section links.
Context (cross_origin : option text -> bool) (base : list el).

(** A link that sends requests is as it was, or disabled with what it showed kept,
    and a request of it pending; [x] is a link excepted from that. *)
Definition link_ok (x : option nat) (i : nat) (e0 e : el) (p : page) : Prop :=
  is_tag TA e0 = true -> a_remote (at_ e0) = true ->
  (blocked e = false /\ enable_with e = None /\ html e = html e0) \/
  (blocked e = true /\ enable_with e = Some (html e0) /\ linkDisableSelector e0 = true /\
     (x = Some i \/ Exists (fun r => r_el r = i) (pending p))).

Definition links_inv (x : option nat) (p : page) : Prop :=
  Forall2 static base (els p) /\
  forall i e0 e, base !! i = Some e0 -> els p !! i = Some e -> link_ok x i e0 e p.

Lemma links_inv_unlogged x : unlogged (links_inv x).
Proof. intros g p H. by destruct p. Qed.

Lemma links_inv_weaken x p : links_inv None p -> links_inv x p.
Proof.
  intros [H1 H2]. split; [done|]. intros i e0 e E0 E. specialize (H2 i e0 e E0 E). intros Ha Hr.
  destruct (H2 Ha Hr) as [H|(? & ? & ? & [?|?])]; [by left|done|]. right. naive_solver.
Qed.

Lemma static_at x p i e0 e : links_inv x p -> base !! i = Some e0 -> els p !! i = Some e -> static e0 e.
Proof. intros [H _] E0 E. by eapply Forall2_lookup_lr. Qed.

Lemma static_base x p i e : links_inv x p -> els p !! i = Some e -> exists e0, base !! i = Some e0 /\ static e0 e.
Proof. intros [H _] E. eapply Forall2_lookup_r in H as (e0 & E0 & Hs); [|done]. eauto. Qed.

Lemma static_alter f i l : Forall2 static base l -> (forall e, l !! i = Some e -> static e (f e)) -> Forall2 static base (alter f i l).
Proof.
  intros H Hf. apply Forall2_same_length_lookup_2; [rewrite length_alter; by eapply Forall2_length|].
  intros j e0 e E0 E. destruct (decide (i = j)) as [->|Hne].
  - rewrite list_lookup_alter_eq in E. destruct (l !! j) as [e1|] eqn:E1; [|done]. injection E as <-.
    destruct (Forall2_lookup_lr _ _ _ _ _ _ H E0 E1) as [H1 H2]. destruct (Hf e1 eq_refl) as [H3 H4]. split; congruence.
  - rewrite list_lookup_alter_ne in E by done. by eapply Forall2_lookup_lr.
Qed.

(** Changes that leave the links. *)
Lemma change_alike x f i : (forall e, alike e (f e)) -> hoare (links_inv x) (change_el f i) (fun _ => links_inv x).
Proof.
  intros Hf. apply hoare_modify. intros p [H1 H2]. destruct p as [l t r k n g]. cbn in *. split; cbn.
  { apply static_alter; [done|]. intros e _. apply Hf. }
  intros j e0 e E0 E Ha Hr. destruct (decide (i = j)) as [->|Hne].
  - rewrite list_lookup_alter_eq in E. destruct (l !! j) as [e1|] eqn:E1; [|done]. injection E as <-.
    destruct (Hf e1) as [_ Hal].
    assert (is_tag TA e1 = true) as Ha1.
    { destruct (Forall2_lookup_lr _ _ _ _ _ _ H1 E0 E1) as [_ Ht]. unfold is_tag in *. by rewrite Ht. }
    destruct (Hal Ha1) as (-> & -> & ->). exact (H2 j e0 e1 E0 E1 Ha Hr).
  - rewrite list_lookup_alter_ne in E by done. exact (H2 j e0 e E0 E Ha Hr).
Qed.

Lemma show_static d s e : static e (show d s e).
Proof. unfold show. by destruct e as [? []], (is_tag _ _). Qed.

Lemma show_link d s e : is_tag TA e = true -> html (show d s e) = html e /\ enable_with (show d s e) = enable_with e /\ blocked (show d s e) = blocked e.
Proof.
  intros Ha. unfold show. assert (is_tag TButton e = false) as ->; [|by destruct e].
  unfold is_tag in *. apply bool_decide_eq_true in Ha. apply bool_decide_eq_false. congruence.
Qed.

Lemma set_ctl_alike c e : c_tag c = c_tag (ctl e) -> alike e (set_ctl c e).
Proof. destruct e. cbn. by split; [split|]. Qed.

Lemma alike_trans e1 e2 e3 : alike e1 e2 -> alike e2 e3 -> alike e1 e3.
Proof.
  intros [[H1 H2] H3] [[H4 H5] H6]. split; [split; congruence|]. intros Ha. destruct (H3 Ha) as (<- & <- & <-).
  apply H6. unfold is_tag in *. by rewrite H2.
Qed.

Lemma enable_control_alike e : alike e (enable_control e).
Proof.
  unfold enable_control. cbv zeta. eapply alike_trans; [|by apply set_ctl_alike; destruct (ctl _)].
  destruct (enable_with e) as [[|ch s]|]; try (by split; [split|]).
  split; [apply show_static|]. apply show_link.
Qed.

Lemma disable_control_static e : static e (disable_control e).
Proof.
  unfold disable_control, show. destruct (a_disable_with (at_ e)); [destruct (is_tag _ _)|]; by destruct e as [? []].
Qed.

Lemma set_submit_alike b e : alike e (set_submit b e).
Proof. destruct e. by split; [split|]. Qed.

(** A change of an element that is no link. *)
Lemma change_other x f i e1 : (forall e, static e (f e)) -> base !! i = Some e1 -> is_tag TA e1 = false ->
  hoare (links_inv x) (change_el f i) (fun _ => links_inv x).
Proof.
  intros Hf Ei Hn. apply hoare_modify. intros p [H1 H2]. destruct p as [l t r k n g]. cbn in *. split; cbn.
  { apply static_alter; [done|]. intros e _. apply Hf. }
  intros j e0 e E0 E Ha Hr. destruct (decide (i = j)) as [->|Hne]; [congruence|].
  rewrite list_lookup_alter_ne in E by done. exact (H2 j e0 e E0 E Ha Hr).
Qed.

(** Enabling the link that was excepted, or any. *)
Lemma enable_inv i : hoare (links_inv (Some i)) (enableElement i) (fun _ => links_inv None).
Proof.
  apply hoare_modify. intros p [H1 H2]. destruct p as [l t r k n g]. cbn in *. split; cbn.
  { apply static_alter; [done|]. intros e _. unfold enable_link. destruct e as [? ? ? []]; by split. }
  intros j e0 e E0 E Ha Hr. destruct (decide (i = j)) as [->|Hne].
  - rewrite list_lookup_alter_eq in E. destruct (l !! j) as [e1|] eqn:E1; [|done]. injection E as <-. left.
    destruct (H2 j e0 e1 E0 E1 Ha Hr) as [(Hb & He & Hh)|(Hb & He & _)]; unfold enable_link; rewrite He; destruct e1; cbn in *; done.
  - rewrite list_lookup_alter_ne in E by done.
    destruct (H2 j e0 e E0 E Ha Hr) as [H|(Hb & He & Hd & [[= ->]|Hp])]; [by left|done|]. right. naive_solver.
Qed.

Lemma disable_inv i : hoare (fun p => links_inv None p /\ here i (fun e => negb (blocked e) && linkDisableSelector e) true p = true)
  (disableElement i) (fun _ => links_inv (Some i)).
Proof.
  apply hoare_modify. intros p [[H1 H2] Hh]. destruct p as [l t r k n g]. unfold here in Hh. cbn in *. split; cbn.
  { apply static_alter; [done|]. intros e _. unfold disable_link. destruct e. cbn. destruct (a_disable_with _); by split. }
  intros j e0 e E0 E Ha Hr. destruct (decide (i = j)) as [->|Hne].
  - rewrite list_lookup_alter_eq in E. destruct (l !! j) as [e1|] eqn:E1; [|done]. injection E as <-. right.
    apply andb_prop in Hh as [Hnb Hd].
    destruct (H2 j e0 e1 E0 E1 Ha Hr) as [(Hb & He & Hh)|(Hb & _)]; [|by rewrite Hb in Hnb].
    assert (linkDisableSelector e0 = true) as Hd0.
    { destruct (Forall2_lookup_lr _ _ _ _ _ _ H1 E0 E1) as [Hs1 Hs2]. revert Hd.
      unfold linkDisableSelector, is_tag, disables. by rewrite Hs1, Hs2. }
    unfold disable_link. destruct e1. cbn in *. subst. destruct (a_disable_with _); cbn; naive_solver.
  - rewrite list_lookup_alter_ne in E by done.
    destruct (H2 j e0 e E0 E Ha Hr) as [H|(Hb & He & Hd & [[= ->]|Hp])]; [by left|]. right. naive_solver.
Qed.

Lemma each_inv x f l : Forall (fun i => hoare (links_inv x) (f i) (fun _ => links_inv x)) l ->
  hoare (links_inv x) (each f l) (fun _ => links_inv x).
Proof. induction 1 as [|i l Hi _ IH]; cbn [each]; [by apply hoare_ret|]. eapply hoare_bind; [apply Hi|]. intros ?. apply IH. Qed.

Lemma disableFormElements_inv x f : hoare (links_inv x) (disableFormElements f) (fun _ => links_inv x).
Proof.
  apply hoare_get. intros p Hp. apply (hoare_pre (links_inv x)); [|by intros ? ->]. apply each_inv, Forall_forall. intros i Hi.
  apply select_elem in Hi as (e & E & Hf). destruct (static_base x p i e Hp E) as (e0 & E0 & _ & Ht).
  apply (change_other x _ i e0); [apply disable_control_static|done|].
  apply andb_prop in Hf as [_ Hf]. unfold disableSelector, disableable, is_tag in *. rewrite <- Ht.
  apply bool_decide_eq_false. intros Ea. rewrite Ea in Hf. done.
Qed.

Lemma enableFormElement_inv x i : hoare (links_inv x) (enableFormElement i) (fun _ => links_inv x).
Proof. apply change_alike, enable_control_alike. Qed.

Lemma enableFormElements_inv x f : hoare (links_inv x) (enableFormElements f) (fun _ => links_inv x).
Proof.
  apply hoare_get. intros p Hp. apply (hoare_pre (links_inv x)); [|by intros ? ->]. apply each_inv, Forall_forall.
  intros. apply enableFormElement_inv.
Qed.

Lemma when_inv {S} (I : S -> Prop) (b : bool) (e : st_ex S unit) : hoare I e (fun _ => I) -> hoare I (swhen b e) (fun _ => I).
Proof. intros He. by apply hoare_when. Qed.

Lemma logs_inv {A} x (e : P A) : logs e -> hoare (links_inv x) e (fun _ => links_inv x).
Proof. apply hoare_logs, links_inv_unlogged. Qed.

Lemma here_static x p i (f : el -> bool) : links_inv x p -> (forall e e', static e e' -> f e' = f e) ->
  here i f false p = match base !! i with Some e0 => f e0 | None => false end.
Proof.
  intros [H _] Hf. unfold here. destruct (els p !! i) as [e|] eqn:E.
  - destruct (Forall2_lookup_r _ _ _ _ _ H E) as (e0 & -> & Hs). by apply Hf.
  - apply lookup_ge_None in E. apply Forall2_length in H. by rewrite lookup_ge_None_2 by lia.
Qed.

Lemma linkDisable_static e e' : static e e' -> linkDisableSelector e' = linkDisableSelector e.
Proof. intros [H1 H2]. unfold linkDisableSelector, is_tag, disables. by rewrite H1, H2. Qed.

(** A request of a link being complete restores it. *)
Lemma complete_inv i : hoare (links_inv (Some i)) (trigger i AjaxComplete) (fun _ => links_inv None).
Proof.
  unfold trigger. eapply hoare_bind; [apply logs_inv, logs_write|]. intros ?. cbn [ajax_handlers].
  apply hoare_get. intros p Hp. rewrite (here_static _ p i _ Hp linkDisable_static).
  apply (hoare_pre (links_inv (Some i))); [|by intros ? ->].
  apply hoare_bind with (R := fun _ => links_inv None).
  - destruct (match base !! i with Some e0 => linkDisableSelector e0 | None => false end) eqn:E; [apply enable_inv|].
    apply hoare_ret. intros p' [H1 H2]. split; [done|]. intros j e0 e E0 Ej Ha Hr.
    destruct (H2 j e0 e E0 Ej Ha Hr) as [H|(Hb & He & Hd & [[= ->]|Hx])]; [by left| |right; naive_solver].
    rewrite E0, Hd in E. done.
  - intros ?. apply hoare_get. intros p2 Hp2. apply (hoare_pre (links_inv None)); [|by intros ? ->].
    apply hoare_bind with (R := fun _ => links_inv None); [apply when_inv, enableFormElement_inv|].
    intros ?. apply hoare_get. intros p3 Hp3. apply (hoare_pre (links_inv None)); [|by intros ? ->].
    apply when_inv, enableFormElements_inv.
Qed.

Lemma restore_inv i how : hoare (links_inv None) (restore i how) (fun _ => links_inv None).
Proof.
  destruct how as [[]|]; [|apply enableFormElement_inv|by apply hoare_ret].
  apply (hoare_pre (links_inv (Some i))); [apply enable_inv|]. apply links_inv_weaken.
Qed.

(** The link is excepted until its request fails or completes. *)
Lemma restore_link i how : hoare (links_inv (Some i)) (restore i how)
  (fun _ p => links_inv (Some i) p /\ (how = Some true -> links_inv None p)).
Proof.
  destruct how as [[]|].
  - eapply hoare_post; [apply enable_inv|]. intros ? p Hp. split; [by apply links_inv_weaken|done].
  - eapply hoare_post; [apply enableFormElement_inv|]. intros ? p Hp. by split.
  - apply hoare_ret. intros p Hp. by split.
Qed.

Lemma finish_inv success r : hoare (links_inv (Some (r_el r))) (finish success r) (fun _ => links_inv None).
Proof.
  unfold finish. eapply hoare_bind; [apply logs_inv, trigger_logs; by destruct success|]. intros ?.
  apply hoare_bind with (R := fun _ => links_inv (Some (r_el r))); [|intros ?; apply complete_inv].
  apply when_inv. eapply hoare_post; [apply restore_link|]. by intros ? p [? _].
Qed.

(** A request for an element that may be excepted, if a failure restores it. *)
Lemma ajax_inv w r x : x = None \/ (x = Some (r_el r) /\ r_restore r = Some true) ->
  hoare (links_inv x) (ajax w r) (fun _ => links_inv None).
Proof.
  intros Hx. unfold ajax. eapply hoare_bind; [apply logs_inv, fire_logs; done|]. intros go.
  assert (forall how, r_restore r = how -> hoare (links_inv x) (restore (r_el r) how) (fun _ => links_inv None)) as Hres.
  { intros how E. destruct Hx as [->|[-> Hr]]; [apply restore_inv|].
    eapply hoare_post; [apply restore_link|]. cbn. intros ? p [_ H]. apply H. congruence. }
  destruct go; [|by apply Hres].
  apply hoare_bind with (R := fun _ => links_inv x).
  { unfold trigger. eapply hoare_bind; [apply logs_inv, logs_write|]. intros ?. cbn [ajax_handlers].
    apply hoare_get. intros p Hp. apply (hoare_pre (links_inv x)); [|by intros ? ->]. apply when_inv, disableFormElements_inv. }
  intros ?. destruct (transports w).
  - eapply hoare_bind; [apply logs_inv, logs_write|]. intros ?. apply hoare_modify. intros p [H1 H2].
    destruct p as [l t q k n g]. split; [done|]. intros j e0 e E0 E Ha Hr.
    destruct (H2 j e0 e E0 E Ha Hr) as [H|(Hb & He & Hd & Hp)]; [by left|]. right. split_and!; [done..|]. right. cbn.
    apply Exists_app. destruct Hp as [E1|Hp]; [|by left]. right. apply Exists_cons_hd.
    destruct Hx as [->|[-> _]]; [done|]. by injection E1.
  - apply hoare_bind with (R := fun _ => links_inv None); [|intros ?; apply restore_inv].
    apply (hoare_pre (links_inv (Some (r_el r)))); [apply (finish_inv false (Request _ _ _ _ _ _ _ None))|].
    intros p Hp. destruct Hx as [->|[-> _]]; [by apply links_inv_weaken|done].
Qed.

Lemma handleRemote_inv w how i x : x = None \/ (x = Some i /\ how = Some true) ->
  hoare (links_inv x) (handleRemote cross_origin w how i) (fun _ => links_inv None).
Proof.
  intros Hx. unfold handleRemote. eapply hoare_bind; [apply logs_inv, fire_logs; done|]. intros [].
  - apply hoare_get. intros p Hp. apply (hoare_pre (links_inv x)); [|by intros ? ->]. destruct (els p !! i) as [e|] eqn:E.
    + destruct (request_of i e p) as [[method url] data].
      eapply hoare_bind; [apply when_inv, change_alike, set_submit_alike|]. intros ?. by apply ajax_inv.
    + apply hoare_ret. intros p' [H1 H2]. destruct Hx as [->|[-> _]]; [done|]. split; [done|]. intros j e0 e E0 Ej Ha Hr.
      destruct (H2 j e0 e E0 Ej Ha Hr) as [H|(Hb & He & Hd & [[= ->]|Hq])]; [by left| |right; naive_solver].
      exfalso. destruct Hp as [Hp _]. pose proof (Forall2_length _ _ _ Hp). pose proof (Forall2_length _ _ _ H1).
      apply lookup_lt_Some in Ej. apply lookup_ge_None in E. lia.
  - destruct Hx as [->|[-> ->]]; [apply restore_inv|apply enable_inv].
Qed.

(** *** Handlers *)

(** The element a handler is given: the one of the page, unless it has changed since. *)
Definition given (i : nat) (e : el) : Prop := exists e0, base !! i = Some e0 /\ static e0 e.

Lemma keeps_verdict {A} (e : P A) v : hoare (links_inv None) e (fun _ => links_inv None) ->
  hoare (links_inv None) (e ;! sret v : P verdict) (fun _ => links_inv None).
Proof. intros He. eapply hoare_bind; [apply He|]. intros ?. by apply hoare_ret. Qed.

Lemma link_click_inv w meta i e :
  hoare (fun p => links_inv None p /\ els p !! i = Some e /\ blocked e = false)
    (link_click cross_origin w meta i e) (fun _ => links_inv None).
Proof.
  intros p (Hp & E & Hb). unfold link_click. destruct (allowAction_logs w i p) as (g & b & Ea).
  unfold sbind at 1. rewrite Ea. assert (links_inv None (add_log g p) /\ els (add_log g p) !! i = Some e) as [Hp' E'] by (by destruct p).
  revert Hp' E'. generalize (add_log g p). clear p g Hp E Ea. intros p Hp E.
  destruct b; cbn [negb]; [|by apply (logs_inv None), Hp; apply stop_logs].
  set (x := if negb meta && linkDisableSelector e then Some i else None).
  assert (exists p', swhen (negb meta && linkDisableSelector e) (disableElement i) p = (p', Ok tt) /\ links_inv x p') as (p' & E1 & Hp').
  { unfold x. destruct (negb meta && linkDisableSelector e) eqn:Ed; [|by exists p].
    apply andb_prop in Ed as [_ Ed]. destruct (disable_inv i p) as (p' & [] & E1 & Hp'); [|by exists p'].
    split; [done|]. unfold here. rewrite E. by rewrite Hb, Ed. }
  rewrite (sbind_run _ _ p p' tt E1). clear E1.
  assert (links_inv (Some i) p') as Hi by (unfold x in Hp'; destruct (negb _ && _); [done|by apply links_inv_weaken]).
  destruct (a_remote (at_ e)) eqn:Er.
  - destruct (meta && _ && _) eqn:Em.
    + destruct meta; [|done]. by exists p', Default.
    + eapply hoare_bind; [apply (handleRemote_inv w (Some true) i (Some i)); by right| |exact Hi].
      intros ?. by apply hoare_ret.
  - assert (links_inv None p') as Hn.
    { destruct Hi as [H1 H2]. split; [done|]. intros j e0 ej E0 Ej Ha Hr.
      destruct (H2 j e0 ej E0 Ej Ha Hr) as [H|(Hbj & He & Hd & [[= ->]|Hx])]; [by left| |right; naive_solver].
      destruct (static_at None p j e0 e Hp E0 E) as [Hs _]. rewrite Hs in Er. congruence. }
    destruct (data_truthy _); [|by exists p', Default].
    apply (keeps_verdict _ Prevent); [|done]. apply logs_inv. intros q. apply logs_write.
Qed.

Lemma allowed_inv w i (k : P verdict) : hoare (links_inv None) k (fun _ => links_inv None) ->
  hoare (links_inv None) (let! allowed := allowAction w i in if negb allowed then stop i else k) (fun _ => links_inv None).
Proof.
  intros Hk. eapply hoare_bind; [apply logs_inv, allowAction_logs|]. intros []; [exact Hk|apply logs_inv, stop_logs].
Qed.

Lemma button_click_inv w i e : given i e ->
  hoare (links_inv None) (button_click cross_origin w i e) (fun _ => links_inv None).
Proof.
  intros (e0 & E0 & Hs). apply allowed_inv.
  apply hoare_bind with (R := fun _ => links_inv None).
  - destruct (buttonDisableSelector e) eqn:Ed; [|by apply hoare_ret].
    apply (change_other None _ i e0); [apply disable_control_static|done|].
    apply andb_prop in Ed as [Ed _]. apply andb_prop in Ed as [Ed _]. destruct Hs as [_ Hs]. unfold is_tag in *. rewrite <- Hs.
    apply bool_decide_eq_true in Ed. rewrite Ed. done.
  - intros ?. apply keeps_verdict, handleRemote_inv. by left.
Qed.

Lemma input_change_inv w i : hoare (links_inv None) (input_change cross_origin w i) (fun _ => links_inv None).
Proof. apply allowed_inv, keeps_verdict, handleRemote_inv. by left. Qed.

Lemma form_input_click_inv w i e : hoare (links_inv None) (form_input_click w i e) (fun _ => links_inv None).
Proof.
  apply allowed_inv, keeps_verdict. destruct (a_inside (at_ e)); [|by apply hoare_ret].
  apply change_alike, set_submit_alike.
Qed.

Lemma timers_inv f : hoare (links_inv None) (smodify (fun p => set_timers (f p) p)) (fun _ => links_inv None).
Proof. apply hoare_modify. intros [] H. exact H. Qed.

Lemma form_submit_inv w f e : hoare (links_inv None) (form_submit cross_origin w f e) (fun _ => links_inv None).
Proof.
  apply allowed_inv. apply hoare_get. intros p Hp. apply (hoare_pre (links_inv None)); [|by intros ? ->].
  eapply hoare_bind with (R := fun _ => links_inv None).
  { destruct (a_novalidate (at_ e)); [by apply hoare_ret|]. destruct (blankInputs _ _ _ _); [by apply hoare_ret|].
    by apply logs_inv, fire_logs. }
  intros []; [apply logs_inv, stop_logs|]. destruct (a_remote (at_ e)); [|apply keeps_verdict, timers_inv].
  apply hoare_get. intros p2 Hp2. apply (hoare_pre (links_inv None)); [|by intros ? ->].
  destruct (blankInputs _ _ _ _) as [|i l]; [apply keeps_verdict, handleRemote_inv; by left|].
  apply hoare_bind with (R := fun _ => links_inv None); [apply timers_inv|]. intros ?.
  apply hoare_bind with (R := fun _ => links_inv None); [by apply logs_inv, fire_logs|]. intros ?.
  apply hoare_bind with (R := fun _ => links_inv None); [apply when_inv, timers_inv|]. intros ?. by apply hoare_ret.
Qed.

Lemma submit_inv w f : hoare (links_inv None) (submit cross_origin w f) (fun _ => links_inv None).
Proof.
  apply hoare_get. intros p Hp. apply (hoare_pre (links_inv None)); [|by intros ? ->].
  destruct (els p !! f) as [e|]; [|by apply hoare_ret]. destruct (is_tag TForm e); [|by apply hoare_ret].
  apply hoare_bind with (R := fun _ => links_inv None); [apply form_submit_inv|].
  intros []; [by apply hoare_ret..|]. apply logs_inv, logs_write.
Qed.

Lemma dispatch_inv l : Forall (fun h => h.1 = true -> hoare (links_inv None) h.2 (fun _ => links_inv None)) l ->
  hoare (links_inv None) (dispatch l) (fun _ => links_inv None).
Proof.
  induction 1 as [|[[] h] l Hh _ IH]; cbn [dispatch]; [by apply hoare_ret| |done].
  apply hoare_bind with (R := fun _ => links_inv None); [by apply Hh|].
  intros []; [by apply hoare_ret|by apply keeps_verdict|done].
Qed.

Lemma click_inv w meta i : hoare (links_inv None) (click cross_origin w meta i) (fun _ => links_inv None).
Proof.
  apply hoare_get. intros p Hp. destruct (els p !! i) as [e|] eqn:E; [|apply (hoare_pre (links_inv None)); [by apply hoare_ret|by intros ? ->]].
  destruct (c_disabled _); [apply (hoare_pre (links_inv None)); [by apply hoare_ret|by intros ? ->]|].
  destruct (blocked e) eqn:Eb; [apply (hoare_pre (links_inv None)); [by apply logs_inv, trigger_logs|by intros ? ->]|].
  assert (given i e) as Hg by (destruct (static_base None p i e Hp E) as (e0 & ? & ?); by exists e0).
  assert (hoare (links_inv None) (dispatch [(buttonClickSelector e, button_click cross_origin w i e);
             (formInputClickSelector e, form_input_click w i e)]) (fun _ => links_inv None)) as Hd.
  { apply dispatch_inv. repeat constructor; intros ?; [by apply button_click_inv|apply form_input_click_inv]. }
  apply hoare_bind with (R := fun _ => links_inv None).
  - destruct (linkClickSelector e) eqn:El.
    + cbn [dispatch]. apply hoare_bind with (R := fun _ => links_inv None).
      { intros ? ->. by apply link_click_inv. }
      intros []; [by apply hoare_ret|by apply keeps_verdict|done].
    + cbn [dispatch]. apply (hoare_pre (links_inv None)); [done|by intros ? ->].
  - intros []; [by apply hoare_ret..|]. destruct (is_tag TA e); [apply logs_inv, logs_write|].
    destruct (if submits e then a_owner (at_ e) else None); [apply submit_inv|by apply hoare_ret].
Qed.

Lemma answer_inv k success : hoare (links_inv None) (answer k success) (fun _ => links_inv None).
Proof.
  apply hoare_get. intros p Hp. destruct (pending p !! k) as [r|] eqn:Ek; [|apply (hoare_pre (links_inv None)); [by apply hoare_ret|by intros ? ->]].
  apply hoare_bind with (R := fun _ => links_inv (Some (r_el r))); [|intros ?; apply finish_inv].
  intros ? ->. eexists _, tt. split; [reflexivity|]. destruct p as [l t q kp n g]. destruct Hp as [H1 H2]. split; [done|].
  intros j e0 e E0 E Ha Hr. destruct (H2 j e0 e E0 E Ha Hr) as [H|(Hb & He & Hd & [?|Hx])]; [by left|done|]. right.
  split_and!; [done..|]. cbn in *. destruct (decide (r_el r = j)) as [->|Hne]; [by left|]. right.
  apply Exists_exists in Hx as (r' & Hin & Hr'). apply Exists_exists. exists r'. split; [|done].
  rewrite (delete_take_drop q k). rewrite <- (take_drop_middle q k r Ek) in Hin.
  rewrite elem_of_app, elem_of_cons in Hin. rewrite elem_of_app. destruct Hin as [?|[->|?]]; [by left|done|by right].
Qed.

Lemma happen_inv h : hoare (links_inv None) (happen cross_origin h) (fun _ => links_inv None).
Proof.
  destruct h; cbn [happen].
  - apply click_inv.
  - apply hoare_get. intros p Hp. apply (hoare_pre (links_inv None)); [|by intros ? ->].
    destruct (els p !! i) as [e|]; [|by apply hoare_ret]. destruct (inputChangeSelector e); [|by apply hoare_ret].
    eapply hoare_bind; [apply input_change_inv|]. intros ?. by apply hoare_ret.
  - apply submit_inv.
  - apply change_alike. intros e. apply set_ctl_alike. by destruct (ctl e).
  - apply answer_inv.
  - apply hoare_get. intros p Hp. apply (hoare_pre (links_inv None)); [|by intros ? ->].
    destruct (timers p) as [|[f|f] t]; [by apply hoare_ret|eapply hoare_bind; [apply (timers_inv (fun _ => t))|]..]; intros ?;
      [apply disableFormElements_inv|apply enableFormElements_inv].
  - apply hoare_modify. intros p [H1 H2]. destruct p as [l t q k n g]. split; cbn in *.
    + rewrite Forall2_fmap_r. eapply Forall2_impl; [exact H1|]. intros e0 e [Ha Ht]. unfold compose. match goal with |- context [if ?b then _ else _] => destruct b end; [|done].
      by destruct e as [? []].
    + intros j e0 e E0 E Ha Hr. rewrite list_lookup_fmap in E. destruct (l !! j) as [e1|] eqn:E1; [|done]. injection E as <-.
      specialize (H2 j e0 e1 E0 E1 Ha Hr). cbv beta. match goal with |- context [if ?b then _ else _] => destruct b end; [|done]. by destruct e1.
Qed.

Lemma happens_inv hs : hoare (links_inv None) (happens cross_origin hs) (fun _ => links_inv None).
Proof.
  induction hs as [|h hs IH]; cbn [happens]; [by apply hoare_ret|].
  apply hoare_bind with (R := fun _ => links_inv None); [apply happen_inv|]. intros ?. apply IH.
Qed.

End links.

(** ** Answers *)

(** A step that keeps the requests that are pending. *)
Definition keeps {A} (e : P A) : Prop := forall p, exists p' a, e p = (p', Ok a) /\ pending p' = pending p.

Lemma keeps_logs {A} (e : P A) : logs e -> keeps e.
Proof. intros He p. destruct (He p) as (g & a & E). exists (add_log g p), a. split; [done|by destruct p]. Qed.

Lemma keeps_bind {A B} (e : P A) (k : A -> P B) : keeps e -> (forall a, keeps (k a)) -> keeps (sbind e k).
Proof.
  intros He Hk p. destruct (He p) as (p1 & a & E & H1). destruct (Hk a p1) as (p2 & b & E2 & H2).
  exists p2, b. unfold sbind. rewrite E. split; [done|congruence].
Qed.

Lemma keeps_get {A B} (f : page -> A) (k : A -> P B) : (forall a, keeps (k a)) -> keeps (let! x := sget f in k x).
Proof. intros Hk p. unfold sbind, sget. apply Hk. Qed.

Lemma keeps_change f i : keeps (change_el f i).
Proof. intros p. eexists _, tt. split; [reflexivity|by destruct p]. Qed.

Lemma keeps_when b e : keeps e -> keeps (swhen b e).
Proof. intros He. destruct b; [done|]. apply keeps_logs, logs_ret. Qed.

Lemma keeps_each f l : (forall i, keeps (f i)) -> keeps (each f l).
Proof. intros Hf. induction l; cbn [each]; [apply keeps_logs, logs_ret|]. by apply keeps_bind. Qed.

#[export] Hint Resolve keeps_change keeps_when keeps_each : ujs.

Lemma keeps_trigger i ev : keeps (trigger i ev).
Proof.
  apply keeps_bind; [apply keeps_logs, logs_write|]. intros _. destruct ev; try (apply keeps_logs, logs_ret); cbn [ajax_handlers].
  - apply keeps_get. intros ?. apply keeps_when, keeps_get. intros ?. apply keeps_each. intros ?. apply keeps_change.
  - apply keeps_get. intros ?. apply keeps_bind; [apply keeps_when, keeps_change|]. intros _.
    apply keeps_get. intros ?. apply keeps_bind; [apply keeps_when, keeps_change|]. intros _.
    apply keeps_get. intros ?. apply keeps_when, keeps_get. intros ?. apply keeps_each. intros ?. apply keeps_change.
Qed.

Lemma keeps_finish success r : keeps (finish success r).
Proof.
  apply keeps_bind; [apply keeps_trigger|]. intros _. apply keeps_bind; [|intros _; apply keeps_trigger].
  apply keeps_when. destruct (r_restore r) as [[]|]; [apply keeps_change..|apply keeps_logs, logs_ret].
Qed.

(** Once every request pending is answered, none is. *)
Lemma answers_run cross_origin oks : forall p, length oks = length (pending p) ->
  exists p', happens cross_origin (HAnswer 0 <$> oks) p = (p', Ok tt) /\ pending p' = [].
Proof.
  induction oks as [|ok oks IH]; intros p Hl.
  { exists p. split; [done|]. by destruct (pending p). }
  rewrite fmap_cons. cbn [happens happen]. unfold answer.
  destruct (pending p) as [|r rs] eqn:Ep; [done|].
  assert (exists p1, (let! r := sget (fun p => pending p !! 0%nat) in
     match r with Some r => smodify (fun p => set_pending (delete 0%nat (pending p)) p) ;! finish ok r | None => sret tt end) p = (p1, Ok tt) /\
     pending p1 = rs) as (p1 & E1 & Hp1).
  { unfold sbind at 1, sget. rewrite Ep. cbn [lookup list_lookup].
    rewrite (sbind_run (smodify _) _ p _ tt eq_refl).
    destruct (keeps_finish ok r (set_pending (delete 0%nat (pending p)) p)) as (p1 & [] & E1 & H1). exists p1. split; [done|].
    rewrite H1. rewrite Ep. by destruct p. }
  rewrite (sbind_run _ _ p p1 tt E1). apply IH. rewrite Hp1. by injection Hl.
Qed.

(** C5: links that send requests.  Whatever happens to a page, no handler throws, and a link
    with data-remote that ujs has disabled has a request pending; one that it has not shows what it
    showed at first.  So once the requests pending are answered, with success or
    not, every such link is enabled and as it was. *)
Theorem links_restored (cross_origin : option text -> bool) (p : page) (hs : list happening) :
  pending p = [] ->
  (forall i e, els p !! i = Some e -> is_tag TA e = true -> enable_with e = None /\ blocked e = false) ->
  exists p1, happens cross_origin hs p = (p1, Ok tt) /\
  (forall i e e1, els p !! i = Some e -> els p1 !! i = Some e1 -> is_tag TA e = true -> a_remote (at_ e) = true ->
     if blocked e1 then Exists (fun r => r_el r = i) (pending p1) else html e1 = html e) /\
  (forall oks, length oks = length (pending p1) ->
     exists p2, happens cross_origin (HAnswer 0 <$> oks) p1 = (p2, Ok tt) /\ pending p2 = [] /\
     forall i e e2, els p !! i = Some e -> els p2 !! i = Some e2 -> is_tag TA e = true -> a_remote (at_ e) = true ->
       blocked e2 = false /\ html e2 = html e).
Proof.
  intros Hp Hl. assert (links_inv (els p) None p) as H0.
  { split; [by apply Forall_Forall2_diag, Forall_forall|]. intros i e0 e E0 E Ha Hr. left.
    destruct (Hl i e E) as [H1 H2]; [by simplify_eq|]. by simplify_eq. }
  destruct (happens_inv cross_origin (els p) hs p H0) as (p1 & [] & E1 & H1). exists p1. split_and!; [done| |].
  - intros i e e1 E Ee1 Ha Hr. destruct (proj2 H1 i e e1 E Ee1 Ha Hr) as [(-> & _ & Hh)|(-> & _ & _ & [?|Hx])]; done.
  - intros oks Hoks. destruct (answers_run cross_origin oks p1 Hoks) as (p2 & E2 & Hp2). exists p2. split_and!; [done..|].
    destruct (happens_inv cross_origin (els p) (HAnswer 0 <$> oks) p1 H1) as (p2' & [] & E2' & H2).
    rewrite E2 in E2'. injection E2' as <-. intros i e e2 E Ee2 Ha Hr.
    destruct (proj2 H2 i e e2 E Ee2 Ha Hr) as [(-> & _ & Hh)|(_ & _ & _ & [?|Hx])]; [done|done|].
    rewrite Hp2 in Hx. by apply Exists_nil in Hx.
Qed.

(** ** Confirmations *)

Definition refused (w : world) (i : nat) (msg : text) : bool :=
  negb (lets w i Confirm && answers w msg && lets w i (ConfirmComplete true)).

(** What is left of a confirmation that is refused: the question is asked once at most. *)
Definition refusal (w : world) (i : nat) (msg : text) : list effect :=
  LFire i Confirm ::
  (if lets w i Confirm then [LConfirm msg; LFire i (ConfirmComplete (answers w msg))] else []) ++ [LFire i EverythingStopped].

Lemma refused_handler w i msg e (k : P verdict) p : els p !! i = Some e -> a_confirm (at_ e) = Some msg ->
  data_falsy msg = false -> refused w i msg = true ->
  (let! allowed := allowAction w i in if negb allowed then stop i else k) p = (add_log (refusal w i msg) p, Ok Stop).
Proof.
  intros E Em Hm Hr. unfold refused, refusal in *. destruct p as [l t r kp n g]. cbn in E.
  unfold allowAction, fire, trigger, write, sbind, sget, smodify, sret, here. cbn [els]. rewrite E, Em, Hm.
  cbn [ajax_handlers add_log]. unfold sret. destruct (lets w i Confirm); cbn [negb].
  - destruct (answers w msg); cbn [andb] in *.
    + destruct (lets w i (ConfirmComplete true)); [done|]. cbn. by rewrite <- !app_assoc.
    + cbn. by rewrite <- !app_assoc.
  - cbn. by rewrite <- !app_assoc.
Qed.

(** C29: confirmations.  When an element asks for a confirmation, which is refused by a
    listener or by the user, a click on it, a change or a submission does nothing but ask,
    once at most: no request, no form, no address followed, nothing disabled. *)
Theorem refused_nothing (cross_origin : option text -> bool) (w : world) (i : nat) (e : el) (msg : text) (p : page) :
  els p !! i = Some e -> a_confirm (at_ e) = Some msg -> data_falsy msg = false -> refused w i msg = true ->
  (forall meta, c_disabled (ctl e) = false -> blocked e = false ->
     linkClickSelector e || buttonClickSelector e || formInputClickSelector e = true ->
     happen cross_origin (HClick w meta i) p = (add_log (refusal w i msg) p, Ok tt)) /\
  (inputChangeSelector e = true -> happen cross_origin (HChange w i) p = (add_log (refusal w i msg) p, Ok tt)) /\
  (is_tag TForm e = true -> happen cross_origin (HSubmit w i) p = (add_log (refusal w i msg) p, Ok tt)).
Proof.
  intros E Em Hm Hr. pose proof (fun k => refused_handler w i msg e k p E Em Hm Hr) as Hk. split_and!.
  - intros meta Hd Hb Hs. cbn [happen]. unfold click. rewrite (sbind_run (sget _) _ p p _ eq_refl). rewrite E, Hd, Hb.
    rewrite (sbind_run _ _ p (add_log (refusal w i msg) p) Stop); [done|].
    assert (forall l, dispatch ((true, link_click cross_origin w meta i e) :: l) p = (add_log (refusal w i msg) p, Ok Stop)) as H1
      by (intros; cbn [dispatch]; unfold link_click; by rewrite (sbind_run _ _ _ _ _ (Hk _))).
    assert (forall l, dispatch ((true, button_click cross_origin w i e) :: l) p = (add_log (refusal w i msg) p, Ok Stop)) as H2
      by (intros; cbn [dispatch]; unfold button_click; by rewrite (sbind_run _ _ _ _ _ (Hk _))).
    assert (forall l, dispatch ((true, form_input_click w i e) :: l) p = (add_log (refusal w i msg) p, Ok Stop)) as H3
      by (intros; cbn [dispatch]; unfold form_input_click; by rewrite (sbind_run _ _ _ _ _ (Hk _))).
    destruct (linkClickSelector e); [apply H1|]. destruct (buttonClickSelector e); [apply H2|].
    destruct (formInputClickSelector e); [apply H3|done].
  - intros Hs. cbn [happen]. unfold change, input_change. rewrite (sbind_run (sget _) _ p p _ eq_refl). rewrite E, Hs.
    by rewrite (sbind_run _ _ _ _ _ (Hk _)).
  - intros Hs. cbn [happen]. unfold submit, form_submit. rewrite (sbind_run (sget _) _ p p _ eq_refl). rewrite E, Hs.
    by rewrite (sbind_run _ _ _ _ _ (Hk _)).
Qed.

(** ** Required fields *)

(** A field of a form that passes a test, blank or not as asked, radio buttons counting
    as their group: one is skipped when one of its name is checked among the fields tested. *)
Definition wanting (f : nat) (test : el -> bool) (nonBlank : bool) (p : page) (i : nat) : Prop :=
  exists e, els p !! i = Some e /\ a_inside (at_ e) = Some f /\ test e = true /\ filled e = nonBlank /\
  ~ (is_radio e = true /\ exists j e', els p !! j = Some e' /\ a_inside (at_ e') = Some f /\ test e' = true /\
       is_radio e' = true /\ c_checked (ctl e') = true /\ c_name (ctl e') = c_name (ctl e)).

Lemma find_in_elem f test p i : i ∈ find_in f test p <->
  exists e, els p !! i = Some e /\ a_inside (at_ e) = Some f /\ test e = true.
Proof.
  unfold find_in. rewrite select_elem. split; intros (e & E & H); exists e; [apply andb_prop in H as [H1 H2]|].
  - by apply bool_decide_eq_true in H1.
  - destruct H as [H1 H2]. split; [done|]. by rewrite bool_decide_true.
Qed.

Lemma group_checked_true p f test e : group_checked p (find_in f test p) e = true <->
  exists j e', els p !! j = Some e' /\ a_inside (at_ e') = Some f /\ test e' = true /\
       is_radio e' = true /\ c_checked (ctl e') = true /\ c_name (ctl e') = c_name (ctl e).
Proof.
  unfold group_checked. rewrite existsb_exists. setoid_rewrite <- list_elem_of_In. split.
  - intros (j & Hj & H). apply find_in_elem in Hj as (e' & E & Hi & Ht). unfold here in H. rewrite E in H.
    apply andb_prop in H as [H Hn]. apply andb_prop in H as [Hr Hc]. apply bool_decide_eq_true in Hn. by exists j, e'.
  - intros (j & e' & E & Hi & Ht & Hr & Hc & Hn). exists j. split; [apply find_in_elem; by exists e'|].
    unfold here. rewrite E, Hr, Hc. by apply bool_decide_eq_true.
Qed.

Lemma blankInputs_elem f test nonBlank p i : i ∈ blankInputs f test nonBlank p <-> wanting f test nonBlank p i.
Proof.
  unfold blankInputs, wanting. rewrite list_elem_of_filter, find_in_elem. unfold here. split.
  - intros (H & e & E & Hi & Ht). rewrite E in H. exists e. apply andb_prop in H as [Hf Hg].
    apply Bool.eqb_prop in Hf. split_and!; try done. rewrite <- group_checked_true. apply negb_true_iff, andb_false_iff in Hg.
    intros [H1 H2]. destruct Hg; congruence.
  - intros (e & E & Hi & Ht & Hf & Hg). rewrite E. split; [|by exists e]. rewrite Hf, Bool.eqb_reflx. cbn [andb].
    rewrite <- group_checked_true in Hg. apply negb_true_iff, andb_false_iff.
    destruct (is_radio e); [|by left]. right. destruct (group_checked _ _ _); [|done]. by destruct Hg.
Qed.

(** Required fields.  A form without novalidate nor confirmation is stopped exactly when a
    required field of it is blank, unless a listener asks it to go on; it is sent
    otherwise, its controls to be disabled once it is serialized. *)
Theorem required_fields (cross_origin : option text -> bool) (w : world) (f : nat) (e : el) (p : page) :
  els p !! f = Some e -> is_tag TForm e = true -> a_confirm (at_ e) = None -> a_novalidate (at_ e) = false ->
  let l := blankInputs f requiredInputSelector false p in
  (forall i, i ∈ l <-> wanting f requiredInputSelector false p i) /\
  let asked := match l with [] => [] | _ => [LFire f (AbortedRequired l)] end in
  (l <> [] -> lets w f (AbortedRequired l) = true ->
     happen cross_origin (HSubmit w f) p = (add_log (asked ++ [LFire f EverythingStopped]) p, Ok tt)) /\
  (l = [] \/ lets w f (AbortedRequired l) = false -> a_remote (at_ e) = false ->
     happen cross_origin (HSubmit w f) p =
       (add_log (asked ++ [LSubmit f]) (set_timers (timers p ++ [DisableForm f]) p), Ok tt)).
Proof.
  intros E Et Ec Ev l. unfold l. clear l. split; [intros i; apply blankInputs_elem|].
  assert (allowAction w f p = (p, Ok true)) as Ea.
  { unfold allowAction, sbind, sget, here. by rewrite E, Ec. }
  assert (forall p' v, form_submit cross_origin w f e p = (p', Ok v) -> happen cross_origin (HSubmit w f) p =
    (match v with Default => add_log [LSubmit f] p' | _ => p' end, Ok tt)) as Hrun.
  { intros p' v Hv. cbn [happen]. unfold submit. rewrite (sbind_run (sget _) _ p p _ eq_refl). rewrite E, Et.
    rewrite (sbind_run _ _ _ _ _ Hv). by destruct v. }
  unfold form_submit in Hrun. rewrite (sbind_run _ _ p p true Ea) in Hrun. cbn [negb] in Hrun.
  rewrite (sbind_run (sget _) _ p p _ eq_refl), Ev in Hrun. cbv beta iota in Hrun.
  destruct (blankInputs f requiredInputSelector false p) as [|i l]; cbv zeta.
  - rewrite (sbind_run (sret _) _ p p _ eq_refl) in Hrun. cbv iota in Hrun. split; [done|]. intros _ Hr. rewrite Hr in Hrun.
    rewrite (Hrun _ _ eq_refl). by destruct p.
  - set (ev := AbortedRequired (i :: l)) in *.
    assert (fire w f ev p = (add_log [LFire f ev] p, Ok (lets w f ev))) as Ef by done.
    rewrite (sbind_run _ _ _ _ _ Ef) in Hrun. split.
    + intros _ Hl. rewrite Hl in Hrun. rewrite (Hrun _ _ eq_refl). by rewrite add_log_app.
    + intros [?|Hl] Hr; [done|]. rewrite Hl, Hr in Hrun. rewrite (Hrun _ _ eq_refl). by destruct p; cbn; rewrite <- app_assoc.
Qed.

(** ** Small pages *)

Definition no_attrs : attrs := Attrs None None false false None [] None None None None None None None None None
  false None false false false.
Definition bare (t : tag) : el := El no_attrs (Control t [] [] [] false false) [] None None false.
Definition with_at (a : attrs) (e : el) : el := El a (ctl e) (html e) (enable_with e) (submit_button e) (blocked e).

(** A link "Delete" with data-remote, data-disable-with and data-confirm. *)
Definition remote_link : el := set_html (txt "Delete") (with_at
  (Attrs None None false false (Some (txt "/users/1")) [] None None (Some (txt "Sure?")) (Some (txt "delete")) None None None None None
     true (Some (txt "Wait")) false false false) (bare TA)).
Definition plain_form : el := bare TForm.
Definition field (f : nat) (required : bool) (c : control) : el := with_at
  (Attrs (Some f) (Some f) false false None [] None None None None None None None None None false None false required false)
  (set_ctl c (bare (c_tag c))).
Definition page_with (l : list el) : page := Page l [] [] None (Some (txt "tok")) [].

Definition yes : world := World (fun _ _ => true) (fun _ => true) true.
Definition no : world := World (fun _ _ => true) (fun _ => false) true.

Lemma links_restored_witness :
  exists p1, happens (fun _ => false) [HClick yes false 0; HClick yes false 0] (page_with [remote_link]) = (p1, Ok tt) /\
    length (pending p1) = 1%nat /\ (html <$> els p1) = [txt "Wait"] /\
    exists p2, happens (fun _ => false) [HAnswer 0 false] p1 = (p2, Ok tt) /\ (html <$> els p2) = [txt "Delete"].
Proof.
  destruct (links_restored (fun _ => false) (page_with [remote_link]) [HClick yes false 0; HClick yes false 0])
    as (p1 & E & _ & H2).
  - reflexivity.
  - intros [|i] e [= <-] _. split; reflexivity.
  - exists p1. assert (p1 = (happens (fun _ => false) [HClick yes false 0; HClick yes false 0] (page_with [remote_link])).1) as Ep
      by (rewrite E; reflexivity).
    assert (length (pending p1) = 1%nat) as El by (rewrite Ep; vm_compute; reflexivity).
    destruct (H2 [false]) as (p2 & E2 & _ & _); [rewrite El; reflexivity|].
    split; [exact E|]. split; [exact El|]. split; [rewrite Ep; vm_compute; reflexivity|].
    exists p2. split; [exact E2|]. assert (p2 = (happens (fun _ => false) [HAnswer 0 false] p1).1) as -> by (change (HAnswer 0 <$> [false]) with [HAnswer 0 false] in E2; rewrite E2; reflexivity).
    rewrite Ep. vm_compute. reflexivity.
Defined.

Lemma refused_nothing_witness : (happen (fun _ => false) (HClick no false 0) (page_with [remote_link])) =
  (add_log [LFire 0 Confirm; LConfirm (txt "Sure?"); LFire 0 (ConfirmComplete false); LFire 0 EverythingStopped] (page_with [remote_link]), Ok tt).
Proof.
  apply (proj1 (refused_nothing (fun _ => false) no 0 remote_link (txt "Sure?") (page_with [remote_link])
    eq_refl eq_refl eq_refl eq_refl)); reflexivity.
Defined.

Lemma required_fields_witness :
  let p := page_with [plain_form; field 0 true (Control TInput (txt "text") (txt "name") [[]] false false)] in
  happen (fun _ => false) (HSubmit yes 0) p = (add_log [LFire 0 (AbortedRequired [1%nat]); LFire 0 EverythingStopped] p, Ok tt).
Proof.
  intros p. destruct (required_fields (fun _ => false) yes 0 plain_form p eq_refl eq_refl eq_refl eq_refl) as (_ & H & _).
  apply H; [discriminate|reflexivity].
Defined.

(** A field left empty keeps the text of data-disable-with, for the empty text is
    taken for no text when it is enabled. *)
Lemma empty_not_restored :
  let e := with_at (Attrs None None false false None [] None None None None None None None None None
             false (Some (txt "Saving")) false false false) (set_ctl (Control TTextarea [] (txt "note") [[]] false false) (bare TTextarea)) in
  val e = [] /\ val (enable_control (disable_control e)) = txt "Saving".
Proof. split; reflexivity. Qed.

(** A radio button that is required counts as blank when the one of its name that is
    checked is not required itself. *)
Lemma required_radio :
  blankInputs 0 requiredInputSelector false (page_with
    [plain_form; field 0 true (Control TInput (txt "radio") (txt "plan") [txt "a"] false false);
     field 0 false (Control TInput (txt "radio") (txt "plan") [txt "b"] true false)]) = [1%nat].
Proof. reflexivity. Qed.

(** A button with data-confirm alone, in no form, sends a request to the page. *)
Lemma confirm_button_requests :
  let b := with_at (Attrs None None false false None [] None None (Some (txt "Sure?")) None None None None None None
             false None false false false) (bare TButton) in
  length (pending (happen (fun _ => false) (HClick yes false 0) (page_with [b])).1) = 1%nat.
Proof. reflexivity. Qed.

(** A submit button with the attribute form, in no form, is not remembered. *)
Lemma outside_button_lost :
  let b := with_at (Attrs None (Some 0%nat) true true None [] None None None None None None None None None
             false None false false false) (set_ctl (Control TButton (txt "submit") (txt "save") [txt "1"] false false) (bare TButton)) in
  submit_button <$> els (happen (fun _ => false) (HClick yes false 1) (page_with [plain_form; b])).1 = [None; None].
Proof. reflexivity. Qed.
