(* ===== verification/BestInPlace.v ===== *)
(** * best_in_place (application bundle, lines 11239-11843)

    A text of the page that becomes a field when it is clicked, and sends its value
    when the field is left.  The element holds either what it shows, as HTML, or
    the form.  How the browser reads and writes HTML, and JSON, is a parameter. *)

From S2P Require Import Prelude JsString Params.
From Stdlib Require Import ZArith Lia Ascii.

Local Open Scope Z_scope.
Local Open Scope js_scope.

(** [html_out h] is [html()] after [html(h)]; [text_of h] is then [text()]; [form_html] is [html()]
    when the element holds its form; [parse_json] gives the property display_as of a text in JSON. *)
Class Markup := {
  html_out : text -> text;
  text_of : text -> text;
  form_html : text;
  parse_json : text -> option (option text)
}.

(** [html()] after [text(v)]. *)
Definition escape_char (c : ascii) : text :=
  if code c =? 38 then txt "&amp;" else if code c =? 60 then txt "&lt;" else if code c =? 62 then txt "&gt;"
  else if code c =? 160 then txt "&nbsp;" else [c].
Definition escape (v : text) : text := v ≫= escape_char.

Class MarkupLaws `{Markup} := {
  html_out_out h : html_out (html_out h) = html_out h;
  html_out_escape v : html_out (escape v) = escape v;
  text_of_escape v : text_of (escape v) = v;
  form_html_nonempty : form_html <> []
}.

(** ** State *)

Inductive form_type := FInput | FTextarea | FSelect | FCheckbox.
#[export] Instance form_type_eq : EqDecision form_type.
Proof. solve_decision. Defined.

(** The options of an editor; [values] is the collection of a select or a checkbox. *)
Record config := Config {
  formType : form_type; display_raw : bool; useConfirm : bool; okButton : bool; cancelButton : bool;
  placeHolder : text; url : text; objectName : text; attributeName : text; values : list (text * text);
  csrf : option (text * text)
}.

Inductive content := Shown (h : text) | Field (v : text).

(** The events that are triggered, and the texts sent. *)
Inductive bip_event := EActivate | EAbort | EDeactivate | EUpdate | ESuccess | EError | ESend (data : text).

(** [clicks] counts the times [clickHandler] is bound; [timers] are the timers of blur not yet
    fired or cleared, [blurTimer] the last; [pending] the values sent. *)
Record editor := Editor {
  element : content; bipValue : option text; original_content : text; collectionValue : text;
  previousCollectionValue : text; oldValue : text; clicks : nat; pending : list text;
  timers : list nat; blurTimer : option nat; next_timer : nat; userClicked : bool; log : list bip_event
}.

Definition set_element x (s : editor) := let 'Editor _ b o c p v k q t r n u g := s in Editor x b o c p v k q t r n u g.
Definition set_bipValue x (s : editor) := let 'Editor e _ o c p v k q t r n u g := s in Editor e x o c p v k q t r n u g.
Definition set_original x (s : editor) := let 'Editor e b _ c p v k q t r n u g := s in Editor e b x c p v k q t r n u g.
Definition set_collection x (s : editor) := let 'Editor e b o _ p v k q t r n u g := s in Editor e b o x p v k q t r n u g.
Definition set_previous x (s : editor) := let 'Editor e b o c _ v k q t r n u g := s in Editor e b o c x v k q t r n u g.
Definition set_oldValue x (s : editor) := let 'Editor e b o c p _ k q t r n u g := s in Editor e b o c p x k q t r n u g.
Definition set_clicks x (s : editor) := let 'Editor e b o c p v _ q t r n u g := s in Editor e b o c p v x q t r n u g.
Definition set_pending x (s : editor) := let 'Editor e b o c p v k _ t r n u g := s in Editor e b o c p v k x t r n u g.
Definition set_timers t r n (s : editor) := let 'Editor e b o c p v k q _ _ _ u g := s in Editor e b o c p v k q t r n u g.
Definition set_userClicked x (s : editor) := let 'Editor e b o c p v k q t r n _ g := s in Editor e b o c p v k q t r n x g.
Definition trigger ev (s : editor) := let 'Editor e b o c p v k q t r n u g := s in Editor e b o c p v k q t r n u (g ++ ev).

Definition E : Type -> Type := st_ex editor.

(** ** Texts *)

Definition space (c : ascii) : bool := bool_decide (code c ∈ [9; 10; 11; 12; 13; 32; 160]).

(** [sanitizeValue]: [jQuery.trim] *)
Definition sanitizeValue (s : text) : text := reverse (drop_while space (reverse (drop_while space s))).

(** [replace(/&amp;/gi, '&')] *)
Fixpoint unamp (fuel : nat) (s : text) : text :=
  match fuel, s with
  | O, _ | _, [] => s
  | S n, c :: s' =>
      if decide (to_lower (take 5 s) = txt "&amp;") then "&"%char :: unamp n (drop 5 s) else c :: unamp n s'
  end.
Definition replace_amp (s : text) : text := unamp (length s) s.

(** ** Collections: the keys of an object, whole numbers first in order, then as they were added *)

Definition index_key (k : text) : bool :=
  forallb is_digit k && match k with [] => false | [_] => true | c :: _ => negb (bool_decide (c = "0"%char)) end.

Fixpoint object_set (k v : text) (o : list (text * text)) : list (text * text) :=
  match o with
  | [] => [(k, v)]
  | (k', v') :: o => if decide (k' = k) then (k, v) :: o else (k', v') :: object_set k v o
  end.
Definition arrayToObject (l : list (text * text)) : list (text * text) := foldl (fun o e => object_set e.1 e.2 o) [] l.
Fixpoint object_get (k : text) (o : list (text * text)) : option text :=
  match o with [] => None | (k', v) :: o => if decide (k' = k) then Some v else object_get k o end.
Definition object_keys (o : list (text * text)) : list text :=
  js_sort (fun a b => parse_digits a - parse_digits b) (filter (fun k => index_key k = true) o.*1) ++
  filter (fun k => index_key k = false) o.*1.

Section editor.
Context `{Markup} (cfg : config).

(** ** The element *)

Definition html_get (s : editor) : text := match element s with Shown h => h | Field _ => form_html end.
Definition html_set (h : text) : E unit := smodify (set_element (Shown (html_out h))).
Definition text_set (v : text) : E unit := smodify (set_element (Shown (escape v))).

Definition isPlaceHolder (s : editor) : bool :=
  bool_decide (html_get s = []) || bool_decide (html_get s = placeHolder cfg).

Definition initPlaceHolder : E unit := fun s =>
  (if bool_decide (html_get s = []) then html_set (placeHolder cfg) else sret tt) s.

(** [activateText] *)
Definition activateText (value : text) : E unit :=
  html_set value ;!
  let! p := sget isPlaceHolder in swhen p (html_set (placeHolder cfg)).

Definition bind_click : E unit := smodify (fun s => set_clicks (S (clicks s)) s).

Definition abort : E unit :=
  (let! v := sget oldValue in activateText v) ;!
  bind_click ;! smodify (trigger [EAbort; EDeactivate]).

(** [abortIfConfirm]; [yes] is the answer of the user. *)
Definition abortIfConfirm (yes : bool) : E unit := if negb (useConfirm cfg) || yes then abort else sret tt.

(** [getValue] of each type of form: the value of its field, none being "". *)
Definition getValue (s : editor) : text :=
  match formType cfg with
  | FCheckbox => collectionValue s
  | _ => match element s with Field v => sanitizeValue v | Shown _ => [] end
  end.

Definition requestData (s : editor) : text :=
  txt "_method=put&" ++ objectName cfg ++ txt "[" ++ attributeName cfg ++ txt "]=" ++ encodeURIComponent (getValue s) ++
  match csrf cfg with Some (k, t) => txt "&" ++ k ++ txt "=" ++ encodeURIComponent t | None => [] end.

(** [html(undefined)] reads the element and leaves it. *)
Definition show_choice (value : text) : E unit :=
  match object_get value (arrayToObject (values cfg)) with Some t => html_set t | None => sret tt end.

Definition update : E unit :=
  let! s := sget (fun s => s) in
  let value := getValue s in
  if bool_decide (formType cfg ∈ [FInput; FTextarea]) && bool_decide (value = oldValue s) then abort
  else
    smodify (fun s => trigger [ESend (requestData s)] (set_pending (pending s ++ [value]) s)) ;!
    match formType cfg with
    | FSelect => smodify (set_previous value) ;! show_choice value
    | FCheckbox => show_choice value
    | _ => match value with
           | [] => html_set (placeHolder cfg)
           | _ => if display_raw cfg then html_set value else text_set value
           end
    end ;!
    smodify (set_bipValue (Some value)) ;!
    smodify (trigger [EUpdate]).

(** ** Forms *)

(** The option selected in a new select: the one of the value, or the first. *)
Definition selected (s : editor) : text :=
  let keys := object_keys (arrayToObject (values cfg)) in
  if bool_decide (collectionValue s ∈ keys) then collectionValue s else default [] (head keys).

Definition activate_input (display_value : text) : E unit := smodify (fun s =>
  set_userClicked false (set_timers (timers s) None (next_timer s) (set_element (Field display_value) s))).
Definition activate_textarea (display_value : text) : E unit := smodify (fun s =>
  set_userClicked false (set_timers (timers s) None (next_timer s) (set_element (Field (sanitizeValue display_value)) s))).
Definition activate_select : E unit := smodify (fun s => set_element (Field (selected s)) s).
Definition activate_checkbox : E unit :=
  smodify (fun s => set_collection (if data_falsy (collectionValue s) then txt "true" else txt "false") s) ;! update.

Definition activateForm (display_value : text) : E unit :=
  match formType cfg with
  | FInput => activate_input display_value
  | FTextarea => activate_textarea display_value
  | FSelect => activate_select
  | FCheckbox => activate_checkbox
  end.

Definition activate : E unit :=
  let! s := sget (fun s => s) in
  let to_display :=
    if isPlaceHolder s then []
    else match original_content s with
         | _ :: _ => original_content s
         | [] => match formType cfg with
                 | FInput | FTextarea =>
                     if display_raw cfg then replace_amp (html_get s)
                     else match bipValue s with Some v => replace_amp v | None => [] end
                 | FSelect => html_get s
                 | FCheckbox => []
                 end
         end in
  smodify (set_oldValue (if isPlaceHolder s then [] else html_get s)) ;!
  smodify (set_clicks 0) ;!
  activateForm to_display ;!
  smodify (trigger [EActivate]).

(** A click runs the handlers bound when it is made. *)
Fixpoint clickHandlers (n : nat) : E unit :=
  match n with
  | O => sret tt
  | S n => activate ;! clickHandlers n
  end.
Definition click : E unit := let! n := sget clicks in clickHandlers n.

(** ** Handlers of the form, bound while it is there *)

Definition editing (s : editor) : bool := match element s with Field _ => true | Shown _ => false end.
Definition in_form (e : E unit) : E unit := let! b := sget editing in swhen b e.

Definition start_timer : E unit :=
  smodify (fun s => set_timers (timers s ++ [next_timer s]) (Some (next_timer s)) (S (next_timer s)) s).
Definition clear_timer : E unit :=
  smodify (fun s => set_timers (match blurTimer s with Some t => filter (fun t' => t' <> t) (timers s) | None => timers s end)
                      (blurTimer s) (next_timer s) s).

(** [inputBlurHandler] is bound without an OK button only; the [blurHandler] of a textarea always. *)
Definition inputBlurHandler : E unit := if okButton cfg then start_timer else if cancelButton cfg then start_timer else update.
Definition textareaBlurHandler : E unit := if okButton cfg then start_timer else if cancelButton cfg then start_timer else update.
Definition selectBlurHandler : E unit := update.

Definition blur : E unit := in_form
  match formType cfg with
  | FInput => if okButton cfg then sret tt else inputBlurHandler
  | FTextarea => textareaBlurHandler
  | FSelect => selectBlurHandler
  | FCheckbox => sret tt
  end.

(** A timer of blur fires. *)
Definition fire_timer (yes : bool) (t : nat) : E unit :=
  let! s := sget (fun s => s) in
  if bool_decide (t ∈ timers s) then
    smodify (fun s => set_timers (filter (fun t' => t' <> t) (timers s)) (blurTimer s) (next_timer s) s) ;!
    if userClicked s then sret tt
    else if okButton cfg then (if bool_decide (formType cfg = FTextarea) then abortIfConfirm yes else abort)
    else update
  else sret tt.

Definition submitHandler : E unit := in_form
  (if bool_decide (formType cfg ∈ [FInput; FTextarea])
   then smodify (set_userClicked true) ;! clear_timer ;! update else sret tt).

Definition cancelButtonHandler (yes : bool) : E unit := in_form
  (if bool_decide (formType cfg ∈ [FInput; FTextarea]) && cancelButton cfg
   then smodify (set_userClicked true) ;! clear_timer ;!
        (if bool_decide (formType cfg = FTextarea) then abortIfConfirm yes else abort)
   else sret tt).

(** [keyupHandler], for the key Escape. *)
Definition escape_key (yes : bool) : E unit := in_form
  (if bool_decide (formType cfg = FTextarea) then abortIfConfirm yes else abort).

(** ** Answers *)

Definition loadSuccessCallback (data : text) : E unit :=
  let data := sanitizeValue data in
  smodify (fun s => set_original (if display_raw cfg then html_get s else text_of (html_get s)) s) ;!
  match data with
  | [] => sret tt
  | _ => match parse_json data with
         | None => sthrow "Unexpected token"
         | Some (Some display_as) => html_set display_as
         | Some None => sret tt
         end
  end ;!
  smodify (trigger [ESuccess]) ;! bind_click ;! smodify (trigger [EDeactivate]) ;!
  swhen (bool_decide (formType cfg = FSelect))
    (smodify (fun s => set_previous [] (set_collection (previousCollectionValue s) s))).

Definition loadErrorCallback : E unit :=
  (let! v := sget oldValue in activateText v) ;!
  smodify (trigger [EError]) ;! bind_click ;! smodify (trigger [EDeactivate]).

(** The answer to the [k]th request pending: the data of a success, or none. *)
Definition answer (k : nat) (data : option text) : E unit :=
  let! q := sget pending in
  match q !! k with
  | Some _ =>
      smodify (set_pending (delete k q)) ;!
      match data with Some d => loadSuccessCallback d | None => loadErrorCallback end
  | None => sret tt
  end.

(** ** What happens to an element *)

Inductive happening :=
| HClick | HType (v : text) | HSubmit | HBlur | HCancel (yes : bool) | HEscape (yes : bool)
| HTimer (yes : bool) (t : nat) | HAnswer (k : nat) (data : option text).

Definition happen (h : happening) : E unit :=
  match h with
  | HClick => click
  | HType v => in_form (smodify (set_element (Field v)))
  | HSubmit => submitHandler
  | HBlur => blur
  | HCancel yes => cancelButtonHandler yes
  | HEscape yes => escape_key yes
  | HTimer yes t => fire_timer yes t
  | HAnswer k d => answer k d
  end.

Fixpoint happens (hs : list happening) : E unit :=
  match hs with [] => sret tt | h :: hs => happen h ;! happens hs end.

(** A new editor of an element that shows [h], with its data-bip-value and data-bip-original-content. *)
Definition new_editor (h : text) (value : option text) (original : text) : editor :=
  (initPlaceHolder (Editor (Shown h) value original (data_or value []) [] [] 1 [] [] None 0 false [])).1.

End editor.
