(* ===== verification/BestInPlaceSpec.v ===== *)
(** * best_in_place: the editor as a machine of three phases *)

From S2P Require Import Prelude JsString Params BestInPlace.
From Stdlib Require Import ZArith Lia Ascii.

Local Open Scope Z_scope.
Local Open Scope js_scope.

(** ** The specification

    An element is idle and shows [h]; or it is edited, with the text typed and
    what it showed before; or it waits for the answer to the value sent. *)

Inductive phase :=
| Idle (h : text)
| Editing (h v : text)
| Saving (h v : text).

Section spec.
Context `{Markup} (cfg : config).

(** What is compared with the value, and put back: nothing for the placeholder. *)
Definition old_of (h : text) : text := if bool_decide (h = [] \/ h = placeHolder cfg) then [] else h.
Definition restored (h : text) : text := if bool_decide (h = []) then placeHolder cfg else h.

(** What is shown for a value that is sent. *)
Definition shown_for (v : text) : text :=
  match v with
  | [] => placeHolder cfg
  | _ => if display_raw cfg then html_out v else escape v
  end.

(** The user leaves the field, confirming or not that changes are lost. *)
Definition leaves (yes : bool) : bool := match formType cfg with FTextarea => negb (useConfirm cfg) || yes | _ => true end.

Definition commit (h v : text) : phase :=
  if bool_decide (sanitizeValue v = old_of h) then Idle (restored h) else Saving h (sanitizeValue v).

(** One step; [v0] is the text a field starts with. *)
Definition step (v0 : text) (ev : happening) (p : phase) : phase :=
  match p, ev with
  | Idle h, HClick => Editing h v0
  | Editing h _, HType v => Editing h v
  | Editing h v, (HSubmit | HBlur) => commit h v
  | Editing h v, HEscape yes => if leaves yes then Idle (restored h) else p
  | Saving h v, HAnswer 0 None => Idle (restored h)
  | Saving h v, HAnswer 0 (Some d) =>
      match sanitizeValue d with
      | [] => Idle (shown_for v)
      | _ => match parse_json (sanitizeValue d) with
             | Some (Some display_as) => Idle (html_out display_as)
             | _ => Idle (shown_for v)
             end
      end
  | _, _ => p
  end.

Inductive steps : list happening -> phase -> phase -> Prop :=
| steps_nil p : steps [] p p
| steps_cons v0 ev evs p q : steps evs (step v0 ev p) q -> steps (ev :: evs) p q.

(** The answers are empty or in JSON, as [respond_with_bip] makes them. *)
Definition answered (ev : happening) : Prop :=
  match ev with
  | HAnswer _ (Some d) => sanitizeValue d <> [] -> is_Some (parse_json (sanitizeValue d))
  | _ => True
  end.

(** The state of an editor in a phase: the handler of clicks is bound once when it is
    idle only, and one request is pending when it waits only. *)
Definition in_phase (p : phase) (s : editor) : Prop :=
  timers s = [] /\ html_out (oldValue s) = oldValue s /\
  match p with
  | Idle h => element s = Shown h /\ html_out h = h /\ clicks s = 1%nat /\ pending s = []
  | Editing h v => element s = Field v /\ html_out h = h /\ oldValue s = old_of h /\ clicks s = 0%nat /\ pending s = []
  | Saving h v => element s = Shown (shown_for v) /\ html_out h = h /\ oldValue s = old_of h /\ clicks s = 0%nat /\ pending s = [v]
  end.

Context (Hlaws : MarkupLaws) (Hform : formType cfg = FInput \/ formType cfg = FTextarea)
  (Hok : okButton cfg = false) (Hcancel : cancelButton cfg = false)
  (Hplace : html_out (placeHolder cfg) = placeHolder cfg).

Lemma html_out_shown_for v : html_out (shown_for v) = shown_for v.
Proof. unfold shown_for. destruct v; [done|]. destruct (display_raw cfg); [apply html_out_out|apply html_out_escape]. Qed.

Lemma html_out_restored h : html_out h = h -> html_out (restored h) = restored h.
Proof. intros E. unfold restored. by case_bool_decide. Qed.

Lemma html_out_nil : html_out [] = [].
Proof. exact (html_out_escape []). Qed.

(** Putting the old text back. *)
Lemma activateText_old h s : html_out h = h -> activateText cfg (old_of h) s = (set_element (Shown (restored h)) s, Ok tt).
Proof.
  intros E. unfold activateText. rewrite (sbind_run (html_set _) _ s _ tt eq_refl).
  rewrite (sbind_run (sget _) _ _ _ _ eq_refl). unfold isPlaceHolder, html_get.
  assert (forall x, element (set_element (Shown x) s) = Shown x) as -> by (by destruct s).
  destruct (decide (h = [] \/ h = placeHolder cfg)) as [Hh|Hh].
  - assert (old_of h = []) as -> by (unfold old_of; by rewrite bool_decide_true). rewrite html_out_nil.
    rewrite (bool_decide_true ([] = [])) by done. cbn [orb swhen]. unfold html_set, smodify. rewrite Hplace.
    assert (restored h = placeHolder cfg) as ->; [|by destruct s]. unfold restored. case_bool_decide; naive_solver.
  - assert (old_of h = h) as -> by (unfold old_of; by rewrite bool_decide_false). rewrite E.
    assert (restored h = h) as -> by (unfold restored; rewrite bool_decide_false; naive_solver).
    rewrite !bool_decide_false by naive_solver. done.
Qed.

Lemma abort_phase p h s : html_out h = h -> oldValue s = old_of h -> timers s = [] -> clicks s = 0%nat -> pending s = p ->
  exists s', abort cfg s = (s', Ok tt) /\ timers s' = [] /\ oldValue s' = oldValue s /\
    element s' = Shown (restored h) /\ clicks s' = 1%nat /\ pending s' = p.
Proof.
  intros E Eo Et Ec Ep. unfold abort. rewrite (sbind_run _ _ s (set_element (Shown (restored h)) s) tt).
  2:{ rewrite (sbind_run (sget _) _ s s _ eq_refl), Eo. by apply activateText_old. }
  eexists. split; [reflexivity|]. destruct s; cbn in *. subst. done.
Qed.

Lemma not_editing (e : E unit) s h : element s = Shown h -> in_form e s = (s, Ok tt).
Proof. intros Ee. unfold in_form, editing. rewrite (sbind_run (sget _) _ s s _ eq_refl). by rewrite Ee. Qed.

Lemma is_editing (e : E unit) s v : element s = Field v -> in_form e s = e s.
Proof. intros Ee. unfold in_form, editing. rewrite (sbind_run (sget _) _ s s _ eq_refl). by rewrite Ee. Qed.

Lemma no_timer yes t s : timers s = [] -> fire_timer cfg yes t s = (s, Ok tt).
Proof. intros Et. unfold fire_timer. rewrite (sbind_run (sget _) _ s s _ eq_refl), Et. by rewrite bool_decide_false by apply not_elem_of_nil. Qed.

Lemma no_answer k d s : pending s = [] -> answer cfg k d s = (s, Ok tt).
Proof. intros Ep. unfold answer. rewrite (sbind_run (sget _) _ s s _ eq_refl). by rewrite Ep. Qed.

(** A click on an idle element. *)
Lemma click_idle h s : in_phase (Idle h) s -> exists s' v0, click cfg s = (s', Ok tt) /\ in_phase (Editing h v0) s'.
Proof.
  intros (Et & Eo & Ee & Eh & Ec & Ep). unfold click. rewrite (sbind_run (sget _) _ s s _ eq_refl), Ec. cbn [clickHandlers].
  unfold activate. rewrite (sbind_run _ _ s (activate cfg s).1 tt).
  2:{ unfold activate. rewrite (sbind_run (sget _) _ s s _ eq_refl). unfold sbind, smodify, activateForm, activate_input, activate_textarea.
      by destruct Hform as [-> | ->]. }
  unfold activate. rewrite (sbind_run (sget _) _ s s _ eq_refl). unfold sbind, smodify, activateForm, activate_input, activate_textarea, sret.
  assert ((if isPlaceHolder cfg s then [] else html_get s) = old_of h) as Eold.
  { unfold isPlaceHolder, html_get, old_of. rewrite Ee. repeat case_bool_decide; cbn; naive_solver. }
  rewrite Eold. destruct Hform as [-> | ->]; cbn iota;
    match goal with |- exists _ _, (?x, _) = _ /\ _ => exists x, (match element x with Field v => v | Shown _ => [] end) end;
    (split; [reflexivity|]); destruct s; cbn in *; subst; (split_and!; [done| |reflexivity|done..]); unfold old_of; case_bool_decide; try done;
    apply (html_out_escape []).
Qed.

(** The value of the field is committed. *)
Lemma update_phase h v s : in_phase (Editing h v) s ->
  exists s', update cfg s = (s', Ok tt) /\ in_phase (commit h v) s'.
Proof.
  intros (Et & Eo & Ee & Eh & Ev & Ec & Ep). unfold update. rewrite (sbind_run (sget _) _ s s _ eq_refl).
  assert (getValue cfg s = sanitizeValue v) as Eg.
  { unfold getValue. rewrite Ee. by destruct Hform as [-> | ->]. }
  assert (bool_decide (formType cfg ∈ [FInput; FTextarea]) = true) as Ef.
  { apply bool_decide_eq_true. destruct Hform as [-> | ->]; set_solver. }
  cbv zeta. rewrite Eg, Ef, Ev. cbn [andb]. unfold commit.
  destruct (decide (sanitizeValue v = old_of h)) as [Hd|Hd];
    [rewrite !bool_decide_true by done|rewrite !bool_decide_false by done].
  - destruct (abort_phase [] h s Eh Ev Et Ec Ep) as (s' & E1 & H1 & H2 & H3 & H4 & H5). exists s'. split; [done|].
    unfold in_phase. rewrite H2. split_and!; try done. by apply html_out_restored.
  - rewrite (sbind_run (smodify _) _ s _ tt eq_refl).
    set (s1 := trigger _ _).
    assert (exists x, match formType cfg with
       | FSelect => smodify (set_previous (sanitizeValue v)) ;! show_choice cfg (sanitizeValue v)
       | FCheckbox => show_choice cfg (sanitizeValue v)
       | _ => match sanitizeValue v with
              | [] => html_set (placeHolder cfg)
              | _ => if display_raw cfg then html_set (sanitizeValue v) else text_set (sanitizeValue v)
              end end s1 = (set_element (Shown x) s1, Ok tt) /\ x = shown_for (sanitizeValue v)) as (x & E1 & ->).
    { unfold shown_for. destruct (sanitizeValue v) as [|c w]; [exists (html_out (placeHolder cfg))|
        destruct (display_raw cfg); eexists]; destruct Hform as [-> | ->]; done. }
    rewrite (sbind_run _ _ _ _ _ E1). eexists. split; [reflexivity|]. unfold s1. destruct s; cbn in *. by subst.
Qed.

Lemma escape_phase yes h v s : in_phase (Editing h v) s ->
  exists s', escape_key cfg yes s = (s', Ok tt) /\ in_phase (if leaves yes then Idle (restored h) else Editing h v) s'.
Proof.
  intros Hph. pose proof Hph as (Et & Eo & Ee & Eh & Ev & Ec & Ep). unfold escape_key. rewrite (is_editing _ s v Ee).
  destruct (abort_phase [] h s Eh Ev Et Ec Ep) as (s' & E1 & H1 & H2 & H3 & H4 & H5).
  assert (in_phase (Idle (restored h)) s') as Hi.
  { unfold in_phase. rewrite H2. split_and!; try done. by apply html_out_restored. }
  unfold leaves. destruct Hform as [-> | ->]; rewrite ?bool_decide_false, ?bool_decide_true by done; [by exists s'|].
  unfold abortIfConfirm. destruct (negb (useConfirm cfg) || yes); [by exists s'|by exists s].
Qed.

(** Answers. *)
Lemma error_phase h v s : in_phase (Saving h v) s ->
  exists s', answer cfg 0 None s = (s', Ok tt) /\ in_phase (Idle (restored h)) s'.
Proof.
  intros (Et & Eo & Ee & Eh & Ev & Ec & Ep). unfold answer. rewrite (sbind_run (sget _) _ s s _ eq_refl), Ep. cbn [lookup list_lookup].
  rewrite (sbind_run (smodify _) _ s _ tt eq_refl). set (s1 := set_pending _ s). unfold loadErrorCallback.
  rewrite (sbind_run _ _ s1 (set_element (Shown (restored h)) s1) tt).
  2:{ rewrite (sbind_run (sget _) _ s1 s1 _ eq_refl). assert (oldValue s1 = old_of h) as -> by (by destruct s). by apply activateText_old. }
  eexists. split; [reflexivity|]. unfold s1. destruct s; cbn in *. subst. split_and!; try done. by apply html_out_restored.
Qed.

Lemma success_phase h v d s : in_phase (Saving h v) s -> answered (HAnswer 0 (Some d)) ->
  exists s', answer cfg 0 (Some d) s = (s', Ok tt) /\ in_phase (step [] (HAnswer 0 (Some d)) (Saving h v)) s'.
Proof.
  intros (Et & Eo & Ee & Eh & Ev & Ec & Ep) Hd. unfold answer. rewrite (sbind_run (sget _) _ s s _ eq_refl), Ep. cbn [lookup list_lookup].
  rewrite (sbind_run (smodify _) _ s _ tt eq_refl). unfold loadSuccessCallback. cbv zeta.
  rewrite (sbind_run (smodify _) _ _ _ tt eq_refl). set (s1 := set_original _ _).
  assert (exists x, match sanitizeValue d with
       | [] => sret tt
       | _ => match parse_json (sanitizeValue d) with
              | None => sthrow "Unexpected token"
              | Some (Some display_as) => html_set display_as
              | Some None => sret tt end end s1 = (set_element (Shown x) s1, Ok tt) /\
       step [] (HAnswer 0 (Some d)) (Saving h v) = Idle x /\ html_out x = x) as (x & E1 & -> & Ex).
  { pose proof (html_out_shown_for v). assert (set_element (Shown (shown_for v)) s1 = s1) as Es by (unfold s1; by destruct s; cbn in *; subst).
    cbn [step]. cbn [answered] in Hd. destruct (sanitizeValue d) as [|c w]; [exists (shown_for v); by rewrite Es|].
    destruct Hd as [j Hj]; [done|]. rewrite Hj. destruct j as [j|]; [exists (html_out j); split_and!; [done..|apply html_out_out]|
      exists (shown_for v); by rewrite Es]. }
  rewrite (sbind_run _ _ _ _ _ E1).
  assert (bool_decide (formType cfg = FSelect) = false) as -> by (destruct Hform as [-> | ->]; done).
  eexists. split; [reflexivity|]. unfold s1. destruct s; cbn in *. by subst.
Qed.

Lemma happen_step ev p s : in_phase p s -> answered ev ->
  exists s' v0, happen cfg ev s = (s', Ok tt) /\ in_phase (step v0 ev p) s'.
Proof.
  intros Hp Ha. destruct p as [h|h v|h v]; pose proof Hp as (Et & Eo & Ee & Hq).
  - destruct Hq as (Eh & Ec & Ep).
    destruct ev; cbn [happen]; unfold submitHandler, blur, cancelButtonHandler, escape_key;
      rewrite ?(not_editing _ s h Ee), ?no_timer, ?no_answer by done; [apply (click_idle h s Hp)|by exists s, []..].
  - destruct Hq as (Eh & Ev & Ec & Ep).
    destruct ev as [|v'| | |yes|yes|yes t|k d]; cbn [happen].
    + exists s, []. split; [|done]. unfold click. rewrite (sbind_run (sget _) _ s s _ eq_refl). by rewrite Ec.
    + rewrite (is_editing _ s v Ee). eexists _, []. split; [reflexivity|]. by destruct s.
    + unfold submitHandler. rewrite (is_editing _ s v Ee).
      assert (bool_decide (formType cfg ∈ [FInput; FTextarea]) = true) as -> by (apply bool_decide_eq_true; destruct Hform as [-> | ->]; set_solver).
      rewrite (sbind_run (smodify _) _ s _ tt eq_refl). unfold clear_timer. rewrite (sbind_run (smodify _) _ _ _ tt eq_refl).
      match goal with |- exists _ _, update cfg ?x = _ /\ _ => set (s1 := x) end.
      assert (in_phase (Editing h v) s1) as H1 by (unfold s1; destruct s as [? ? ? ? ? ? ? ? ? []]; cbn in *; by subst).
      destruct (update_phase h v s1 H1) as (s' & E1 & H2). by exists s', [].
    + unfold blur. rewrite (is_editing _ s v Ee). unfold inputBlurHandler, textareaBlurHandler. rewrite Hok, Hcancel.
      destruct (update_phase h v s Hp) as (s' & E1 & H2). exists s', []. by destruct Hform as [-> | ->].
    + unfold cancelButtonHandler. rewrite (is_editing _ s v Ee), Hcancel, andb_false_r. by exists s, [].
    + destruct (escape_phase yes h v s Hp) as (s' & E1 & H2). by exists s', [].
    + rewrite no_timer by done. by exists s, [].
    + rewrite no_answer by done. by exists s, [].
  - destruct Hq as (Eh & Ev & Ec & Ep).
    destruct ev as [|v'| | |yes|yes|yes t|k d]; cbn [happen]; unfold submitHandler, blur, cancelButtonHandler, escape_key;
      rewrite ?(not_editing _ s _ Ee), ?no_timer by done; try (by exists s, []).
    + exists s, []. split; [|done]. unfold click. rewrite (sbind_run (sget _) _ s s _ eq_refl). by rewrite Ec.
    + destruct k as [|k].
      * destruct d as [d|]; [destruct (success_phase h v d s Hp Ha) as (s' & E1 & H1)|destruct (error_phase h v s Hp) as (s' & E1 & H1)];
          by exists s', [].
      * exists s, []. split; [|by destruct d]. unfold answer. rewrite (sbind_run (sget _) _ s s _ eq_refl). by rewrite Ep.
Qed.

Lemma new_in_phase h value original : html_out h = h -> in_phase (Idle (restored h)) (new_editor cfg h value original).
Proof.
  intros Eh. unfold new_editor, initPlaceHolder, restored. cbn [html_get element]. case_bool_decide; [|by split_and!; try apply html_out_nil].
  unfold html_set, smodify. cbn. rewrite Hplace. split_and!; try done. apply html_out_nil.
Qed.

Lemma happens_steps evs : forall p s, in_phase p s -> Forall answered evs ->
  exists s' q, happens cfg evs s = (s', Ok tt) /\ in_phase q s' /\ steps evs p q.
Proof.
  induction evs as [|ev evs IH]; intros p s Hp Ha; cbn [happens]; [exists s, p; split_and!; [done..|constructor]|].
  apply Forall_cons in Ha as [Ha Hr]. destruct (happen_step ev p s Hp Ha) as (s1 & v0 & E1 & H1).
  destruct (IH _ s1 H1 Hr) as (s2 & q & E2 & H2 & Hs). exists s2, q. rewrite (sbind_run _ _ s s1 tt E1).
  split_and!; [done..|by econstructor].
Qed.

End spec.

(** C6: editing in place.  An editor of an input or a textarea, without buttons, whose placeholder and first text are
    kept as they are when read as HTML, refines the machine of three phases, whatever clicks, typing, keys and
    answers come, when an answer that succeeds is empty or in JSON: no handler throws; the
    handler of clicks is bound once when the text is shown, and not while it is edited or sent; a request
    is pending exactly while one is waited for, with the text that was typed, when it has changed; Escape
    and an answer that fails put back what was shown. *)
Theorem editor_refines `{MarkupLaws} (cfg : config) (h : text) (value : option text) (original : text) (evs : list happening) :
  formType cfg = FInput \/ formType cfg = FTextarea -> okButton cfg = false -> cancelButton cfg = false ->
  html_out (placeHolder cfg) = placeHolder cfg -> html_out h = h -> Forall answered evs ->
  exists s q, happens cfg evs (new_editor cfg h value original) = (s, Ok tt) /\
    steps cfg evs (Idle (restored cfg h)) q /\ in_phase cfg q s.
Proof.
  intros Hf Hok Hc Hp Hh Ha.
  destruct (happens_steps cfg _ Hf Hok Hc Hp evs _ _ (new_in_phase cfg _ Hp h value original Hh) Ha) as (s & q & E1 & H1 & H2).
  by exists s, q.
Qed.

(** ** A page for examples: HTML is kept as it is written *)

Fixpoint read (n : nat) (s : text) : text :=
  match n, s with
  | O, _ | _, [] => []
  | S n, c :: s' =>
      match strip_prefix (txt "&amp;") s, strip_prefix (txt "&lt;") s, strip_prefix (txt "&gt;") s, strip_prefix (txt "&nbsp;") s with
      | Some r, _, _, _ => "&"%char :: read n r
      | _, Some r, _, _ => "<"%char :: read n r
      | _, _, Some r, _ => ">"%char :: read n r
      | _, _, _, Some r => chr 160 :: read n r
      | _, _, _, _ => c :: read n s'
      end
  end.

#[export] Instance plain_markup : Markup := {|
  html_out h := h; text_of h := read (length h) h; form_html := txt "<form></form>"; parse_json _ := Some None
|}.

Lemma read_char c n s : read (S n) (escape_char c ++ s) = c :: read n s.
Proof. all_chars c; reflexivity. Qed.

Lemma escape_char_length c : (1 <= length (escape_char c))%nat.
Proof. unfold escape_char. repeat case_match; cbn; lia. Qed.

Lemma read_escape v : forall n, (length v <= n)%nat -> read n (escape v) = v.
Proof.
  induction v as [|c v IH]; intros [|n] Hn; cbn [length] in Hn; try lia; [done..|].
  unfold escape in *. rewrite bind_cons, read_char. f_equal. apply IH. lia.
Qed.

#[export] Instance plain_markup_laws : MarkupLaws.
Proof.
  split; [done|done| |done]. intros v. cbn. apply read_escape. unfold escape. induction v as [|c v IH]; [done|].
  rewrite bind_cons, length_app. pose proof (escape_char_length c). cbn [length]. lia.
Qed.

Definition ex_config (t : form_type) (cancel : bool) : config :=
  Config t false false false cancel (txt "-") (txt "/goals/1") (txt "goal") (txt "description") [] None.

Lemma editor_refines_witness : exists s q,
  happens (ex_config FInput false) [HClick; HType (txt " Buy a house "); HSubmit; HBlur; HClick; HAnswer 0 None; HClick]
    (new_editor (ex_config FInput false) [] None []) = (s, Ok tt) /\
  steps (ex_config FInput false) [HClick; HType (txt " Buy a house "); HSubmit; HBlur; HClick; HAnswer 0 None; HClick] (Idle (txt "-")) q.
Proof.
  destruct (editor_refines (ex_config FInput false) [] None []
    [HClick; HType (txt " Buy a house "); HSubmit; HBlur; HClick; HAnswer 0 None; HClick]) as (s & q & E1 & Hq & _).
  - left. reflexivity.
  - reflexivity.
  - reflexivity.
  - reflexivity.
  - reflexivity.
  - repeat (apply List.Forall_cons; [exact I|]). apply List.Forall_nil.
  - exists s, q. split; [exact E1|exact Hq].
Defined.

(** After an answer that fails, the field starts with the text that was refused. *)
Lemma refused_text_kept :
  element (happens (ex_config FInput false) [HClick; HType (txt "bad"); HSubmit; HAnswer 0 None; HClick]
    (new_editor (ex_config FInput false) (txt "good") (Some (txt "good")) [])).1 = Field (txt "bad").
Proof. reflexivity. Qed.

(** A text with a character that HTML escapes is sent again when it has not changed. *)
Lemma unchanged_sent :
  pending (happens (ex_config FInput false) [HClick; HSubmit]
    (new_editor (ex_config FInput false) (txt "a &amp; b") (Some (txt "a & b")) [])).1 = [txt "a & b"].
Proof. reflexivity. Qed.

(** With a Cancel button alone, a timer of blur outlives Escape, and sends an empty text. *)
Lemma late_timer_sends :
  let s := (happens (ex_config FInput true) [HClick; HType (txt "new"); HBlur; HEscape true; HTimer true 0]
    (new_editor (ex_config FInput true) (txt "old") (Some (txt "old")) [])).1 in
  pending s = [[]] /\ element s = Shown (txt "-").
Proof. split; reflexivity. Qed.
