(* ===== verification/Dropdown.v ===== *)
(** * Bootstrap: dropdowns (application bundle, lines 13848-13999)

    A toggle opens the menu in its parent; [parents] are numbered, and have the
    class open or not.  [world] is what happens outside: the listeners that prevent a menu from
    opening or closing, and whether the screen is a touch screen. *)

From S2P Require Import Prelude JsString.
From Stdlib Require Import ZArith Lia Ascii.

Local Open Scope Z_scope.

(** A toggle, a link: the parent of [getParent], the parents it is inside, its class disabled. *)
Record toggle_ := Toggle { tg_parent : nat; tg_in : list nat; tg_disabled : bool }.

(** A parent: the class open, the items of its menu that can be focused, whether it is in a navbar. *)
Record parent := Parent { pa_open : bool; pa_items : nat; pa_navbar : bool }.

Inductive focus := FToggle (t : nat) | FItem (p i : nat).
Inductive event := EShow (p : nat) | EShown (p : nat) | EHide (p : nat) | EHidden (p : nat).

Record page := Page { parents : list parent; backdrops : nat; focused : option focus; log : list event }.

Definition set_open b (p : parent) := let 'Parent _ n v := p in Parent b n v.
Definition set_parents l (s : page) := let 'Page _ b f g := s in Page l b f g.
Definition set_backdrops b (s : page) := let 'Page l _ f g := s in Page l b f g.
Definition set_focused f (s : page) := let 'Page l b _ g := s in Page l b f g.
Definition write g' (s : page) := let 'Page l b f g := s in Page l b f (g ++ g').

Record world := World { keeps_open : nat -> bool; keeps_closed : nat -> bool; touch : bool }.

Section dropdown.
Context (toggles : list toggle_) (w : world).

Definition is_open (p : nat) (s : page) : bool := match parents s !! p with Some x => pa_open x | None => false end.

(** ** [clearMenus] *)

Definition close_one (t : toggle_) (s : page) : page :=
  let p := tg_parent t in
  if negb (is_open p s) then s
  else
    let s := write [EHide p] s in
    if keeps_open w p then s
    else write [EHidden p] (set_parents (alter (set_open false) p (parents s)) s).

Definition clearMenus (s : page) : page := foldl (fun s t => close_one t s) (set_backdrops 0 s) toggles.

(** The handler of clicks on the document; [which] is 3 for the right button. *)
Definition document_click (which : Z) (s : page) : page := if which =? 3 then s else clearMenus s.

(** ** [Dropdown.prototype.toggle]: whether the click is stopped *)

Definition toggle (t : nat) (s : page) : page * bool :=
  match toggles !! t with
  | None => (s, false)
  | Some tg =>
      if tg_disabled tg then (s, false)
      else
        let p := tg_parent tg in
        let isActive := is_open p s in
        let s := clearMenus s in
        if isActive then (s, true)
        else
          let navbar := match parents s !! p with Some x => pa_navbar x | None => false end in
          let s := if touch w && negb navbar then set_backdrops (S (backdrops s)) s else s in
          let s := write [EShow p] s in
          if keeps_closed w p then (s, false)
          else
            let s := set_focused (Some (FToggle t)) s in
            (write [EShown p] (set_parents (alter (fun x => set_open (negb (pa_open x)) x) p (parents s)) s), true)
  end.

(** A click on a toggle goes on to the document unless it is stopped. *)
Definition toggle_click (which : Z) (t : nat) (s : page) : page :=
  let '(s, stopped) := toggle t s in if stopped then s else document_click which s.

(** ** [Dropdown.prototype.keydown] *)

(** [/(38|40|27)/.test(keyCode)], on the digits of the code. *)
Fixpoint contains (p s : text) : bool :=
  match strip_prefix p s with
  | Some _ => true
  | None => match s with [] => false | _ :: s => contains p s end
  end.
Definition menu_key (keyCode : Z) : bool :=
  existsb (fun p => contains (txt p) (print_nat keyCode)) ["38"; "40"; "27"]%string.

(** The element that has the key: a toggle, or the menu of a parent. *)
Inductive source := OnToggle (t : nat) | OnMenu (p : nat).

Definition source_parent (x : source) : option nat :=
  match x with OnToggle t => tg_parent <$> toggles !! t | OnMenu p => Some p end.
Definition source_disabled (x : source) : bool :=
  match x with OnToggle t => match toggles !! t with Some tg => tg_disabled tg | None => true end | OnMenu _ => false end.

(** The toggle that is left with the focus when those inside a parent are focused: the last. *)
Definition toggle_of (p : nat) : option nat :=
  fst <$> last (filter (fun x => p ∈ tg_in x.2) (imap (fun i t => (i, t)) toggles)).

Definition move (keyCode : Z) (n index : Z) : Z :=
  let index := if (keyCode =? 38) && (0 <? index) then index - 1 else index in
  let index := if (keyCode =? 40) && (index <? n - 1) then index + 1 else index in
  if index =? -1 then 0 else index.

Definition index_in (p : nat) (s : page) : Z :=
  match focused s with Some (FItem q i) => if decide (q = p) then Z.of_nat i else -1 | _ => -1 end.

Definition keydown (keyCode : Z) (x : source) (s : page) : page :=
  if negb (menu_key keyCode) then s
  else if source_disabled x then s
  else
    match source_parent x with
    | None => s
    | Some p =>
        let isActive := is_open p s in
        if negb isActive || (keyCode =? 27) then
          let s := if keyCode =? 27 then match toggle_of p with Some t => set_focused (Some (FToggle t)) s | None => s end else s in
          match x with
          | OnToggle t => toggle_click 0 t s
          | OnMenu _ => document_click 0 s
          end
        else
          let n := match parents s !! p with Some y => Z.of_nat (pa_items y) | None => 0 end in
          if n =? 0 then s
          else set_focused (Some (FItem p (Z.to_nat (move keyCode n (index_in p s))))) s
    end.

End dropdown.

(** ** What happens to the page *)

Inductive happening :=
| HToggle (w : world) (which : Z) (t : nat)
| HDocument (w : world) (which : Z)
| HForm
| HKey (w : world) (keyCode : Z) (x : source).

Definition happen (toggles : list toggle_) (h : happening) (s : page) : page :=
  match h with
  | HToggle w which t => toggle_click toggles w which t s
  | HDocument w which => document_click toggles w which s
  | HForm => s
  | HKey w k x => keydown toggles w k x s
  end.

Definition happens (toggles : list toggle_) (hs : list happening) (s : page) : page := foldl (fun s h => happen toggles h s) s hs.

(** ** Properties *)

(** Every parent with a menu open has a toggle; the item focused is one of its menu. *)
Definition toggled (toggles : list toggle_) (s : page) : Prop :=
  forall p, is_open p s = true -> Exists (fun t => tg_parent t = p) toggles.
Definition focus_ok (s : page) : Prop :=
  match focused s with
  | Some (FItem p i) => match parents s !! p with Some x => (i < pa_items x)%nat | None => False end
  | _ => True
  end.
Definition one_open (s : page) : Prop := forall p q, is_open p s = true -> is_open q s = true -> p = q.

(** Listeners let every menu close. *)
Definition lets_close (h : happening) : Prop :=
  match h with HToggle w _ _ | HDocument w _ | HKey w _ _ => forall p, keeps_open w p = false | HForm => True end.

Lemma is_open_alter f p q s : is_open q (set_parents (alter f p (parents s)) s) =
  if decide (p = q) then match parents s !! p with Some x => pa_open (f x) | None => false end else is_open q s.
Proof.
  unfold is_open. destruct s as [l b fo g]. cbn. destruct (decide (p = q)) as [->|Hne].
  - rewrite list_lookup_alter_eq. by destruct (l !! q).
  - by rewrite list_lookup_alter_ne.
Qed.

Section closing.
Context (toggles : list toggle_) (w : world) (Hw : forall p, keeps_open w p = false).

Lemma close_one_open t q s : is_open q (close_one w t s) = if decide (tg_parent t = q) then false else is_open q s.
Proof.
  unfold close_one. destruct (is_open (tg_parent t) s) eqn:E; cbn [negb]; [|case_decide as Hd; [by subst|done]].
  rewrite Hw. assert (forall g s, is_open q (write g s) = is_open q s) as Ew by (by intros ? []).
  rewrite Ew, is_open_alter. assert (parents (write [EHide (tg_parent t)] s) = parents s) as -> by (by destruct s).
  rewrite Ew. unfold is_open in E. destruct (parents s !! tg_parent t) as [[]|]; by case_decide.
Qed.

(** [clearMenus] closes every menu that has a toggle. *)
Lemma clearMenus_open s : toggled toggles s -> forall q, is_open q (clearMenus toggles w s) = false.
Proof.
  intros Ht q. unfold clearMenus.
  assert (forall l s, is_open q (foldl (fun s t => close_one w t s) s l) =
    if decide (Exists (fun t => tg_parent t = q) l) then false else is_open q s) as H.
  { induction l as [|t l IH]; intros s'; cbn [foldl]; [rewrite decide_False; [done|by intros ?%Exists_nil]|].
    rewrite IH, close_one_open. destruct (decide (Exists _ l)) as [Hl|Hl]; [by rewrite decide_True by (by apply Exists_cons_tl)|].
    case_decide as Hp; [by rewrite decide_True by (by apply Exists_cons_hd)|].
    rewrite decide_False; [done|]. by intros [?|?]%Exists_cons. }
  rewrite H. case_decide as Hd; [done|]. destruct (is_open q (set_backdrops 0 s)) eqn:E; [|done].
  destruct Hd. apply Ht. by destruct s.
Qed.

Lemma close_one_items t s : (fun x => (pa_items x, pa_navbar x)) <$> parents (close_one w t s) = (fun x => (pa_items x, pa_navbar x)) <$> parents s.
Proof.
  unfold close_one. destruct (negb _); [done|]. rewrite Hw. destruct s as [l b f g]. cbn.
  apply list_eq. intros i. rewrite !list_lookup_fmap. destruct (decide (tg_parent t = i)) as [->|Hne].
  - rewrite list_lookup_alter_eq. by destruct (l !! i) as [[]|].
  - by rewrite list_lookup_alter_ne.
Qed.

Lemma clearMenus_same s : (fun x => (pa_items x, pa_navbar x)) <$> parents (clearMenus toggles w s) = (fun x => (pa_items x, pa_navbar x)) <$> parents s /\
  focused (clearMenus toggles w s) = focused s.
Proof.
  unfold clearMenus. assert (forall l s, (fun x => (pa_items x, pa_navbar x)) <$> parents (foldl (fun s t => close_one w t s) s l) =
     (fun x => (pa_items x, pa_navbar x)) <$> parents s /\ focused (foldl (fun s t => close_one w t s) s l) = focused s) as H.
  { induction l as [|t l IH]; intros s'; cbn [foldl]; [done|]. destruct (IH (close_one w t s')) as [-> ->].
    split; [apply close_one_items|]. unfold close_one. destruct (negb _); [done|]. rewrite Hw. by destruct s'. }
  destruct (H toggles (set_backdrops 0 s)) as [-> ->]. by destruct s.
Qed.

End closing.

Section sessions.
Context (toggles : list toggle_).

Definition inv (s : page) : Prop := toggled toggles s /\ one_open s /\ focus_ok s.

Lemma closed_inv s : (forall q, is_open q s = false) -> focus_ok s -> inv s.
Proof. intros H Hf. split_and!; [|intros p q Hp; by rewrite H in Hp|done]. intros p Hp. by rewrite H in Hp. Qed.

Lemma clearMenus_inv w s : (forall p, keeps_open w p = false) -> inv s -> inv (clearMenus toggles w s).
Proof.
  intros Hw (Ht & _ & Hf). destruct (clearMenus_same toggles w Hw s) as [Hp Hfo].
  apply closed_inv; [by apply clearMenus_open|]. unfold focus_ok in *. rewrite Hfo. destruct (focused s) as [[t|p i]|]; try done.
  assert ((fun x => (pa_items x, pa_navbar x)) <$> (parents (clearMenus toggles w s) !! p) =
    (fun x => (pa_items x, pa_navbar x)) <$> (parents s !! p)) as E by (by rewrite <- !list_lookup_fmap, Hp).
  destruct (parents s !! p) as [x|], (parents (clearMenus toggles w s) !! p) as [y|]; try done. by injection E as ->.
Qed.

Lemma document_inv w which s : (forall p, keeps_open w p = false) -> inv s -> inv (document_click toggles w which s).
Proof. intros Hw Hs. unfold document_click. destruct (_ =? _); [done|by apply clearMenus_inv]. Qed.

Definition exists_parent (p : nat) (s : page) : bool := bool_decide (is_Some (parents s !! p)).

(** A click on a toggle that is enabled closes the other menus, and opens or closes its own. *)
Lemma toggle_click_open w which t tg s : (forall p, keeps_open w p = false) -> toggled toggles s ->
  toggles !! t = Some tg -> tg_disabled tg = false -> forall q,
  is_open q (toggle_click toggles w which t s) =
    if decide (q = tg_parent tg) then negb (is_open q s) && negb (keeps_closed w q) && exists_parent q s else false.
Proof.
  intros Hw Ht Et Ed q. unfold toggle_click, toggle. rewrite Et, Ed.
  pose proof (clearMenus_open toggles w Hw s Ht) as Hc. destruct (clearMenus_same toggles w Hw s) as [Hp _].
  set (s1 := clearMenus toggles w s) in *. destruct (is_open (tg_parent tg) s) eqn:Eo.
  { rewrite Hc. case_decide as Hq; [|done]. by rewrite Hq, Eo. }
  assert (exists_parent (tg_parent tg) s1 = exists_parent (tg_parent tg) s) as Ex.
  { unfold exists_parent. apply bool_decide_ext. pose proof (f_equal (lookup (tg_parent tg)) Hp) as E. rewrite !list_lookup_fmap in E.
    destruct (parents s1 !! tg_parent tg), (parents s !! tg_parent tg); naive_solver. }
  set (navbar := match parents s1 !! tg_parent tg with Some x => pa_navbar x | None => false end).
  set (s2 := if touch w && negb navbar then set_backdrops (S (backdrops s1)) s1 else s1).
  assert (forall q, is_open q s2 = false) as Hc2 by (intros r; rewrite <- (Hc r); unfold s2; destruct (touch w && negb navbar); by destruct s1).
  assert (parents s2 = parents s1) as Ep by (unfold s2; destruct (touch w && negb navbar); by destruct s1).
  clearbody s2. set (s3 := write [EShow (tg_parent tg)] s2).
  assert (forall q, is_open q s3 = false) as Hc3 by (intros r; rewrite <- (Hc2 r); by destruct s2).
  assert (parents s3 = parents s1) as Ep3 by (rewrite <- Ep; by destruct s2). clearbody s3.
  destruct (keeps_closed w (tg_parent tg)) eqn:Ek.
  - assert (is_open q (document_click toggles w which s3) = false) as ->.
    { unfold document_click. destruct (_ =? _); [done|]. apply clearMenus_open; [done|]. intros r Hr. by rewrite Hc3 in Hr. }
    case_decide as Hq; [|done]. by rewrite Hq, Ek, andb_false_r.
  - set (s4 := set_focused (Some (FToggle t)) s3).
    assert (forall q, is_open q s4 = false) as Hc4 by (intros r; rewrite <- (Hc3 r); by destruct s3).
    assert (parents s4 = parents s1) as Ep4 by (rewrite <- Ep3; by destruct s3). clearbody s4.
    assert (forall g s, is_open q (write g s) = is_open q s) as Ew by (by intros ? []).
    rewrite Ew, is_open_alter, Hc4. destruct (decide (q = tg_parent tg)) as [->|Hq]; [rewrite decide_True by done|by rewrite decide_False by done].
    rewrite Eo, Ek. cbn [negb andb]. rewrite <- Ex. unfold exists_parent. specialize (Hc4 (tg_parent tg)). unfold is_open in Hc4.
    rewrite Ep4 in *. destruct (parents s1 !! tg_parent tg) as [[]|]; [|rewrite bool_decide_false; [done|by intros []]].
    cbn in *. by rewrite Hc4.
Qed.

Lemma focus_ok_same s s' : (fun x => (pa_items x, pa_navbar x)) <$> parents s' = (fun x => (pa_items x, pa_navbar x)) <$> parents s ->
  focused s' = focused s -> focus_ok s -> focus_ok s'.
Proof.
  intros Hp Hfo. unfold focus_ok. rewrite Hfo. destruct (focused s) as [[t|p i]|]; try done.
  assert ((fun x => (pa_items x, pa_navbar x)) <$> (parents s' !! p) = (fun x => (pa_items x, pa_navbar x)) <$> (parents s !! p)) as E
    by (by rewrite <- !list_lookup_fmap, Hp).
  destruct (parents s !! p) as [x|], (parents s' !! p) as [y|]; try done. by injection E as ->.
Qed.

Lemma toggle_click_focus w which t s : (forall p, keeps_open w p = false) -> inv s -> focus_ok (toggle_click toggles w which t s).
Proof.
  intros Hw Hi. pose proof (clearMenus_inv w s Hw Hi) as Hi1. unfold toggle_click, toggle.
  destruct (toggles !! t) as [tg|]; [|by apply document_inv]. destruct (tg_disabled tg); [by apply document_inv|].
  destruct (is_open _ s); [by apply Hi1|].
  set (s1 := clearMenus toggles w s) in *.
  set (s2 := if touch w && _ then set_backdrops (S (backdrops s1)) s1 else s1).
  assert (inv s2) as Hi2 by (unfold s2; destruct (_ && _); [by destruct s1|done]).
  assert (inv (write [EShow (tg_parent tg)] s2)) as Hi3 by (by destruct s2). destruct (keeps_closed _ _).
  - by apply document_inv.
  - by destruct s2.
Qed.

Lemma toggle_click_inv w which t s : (forall p, keeps_open w p = false) -> inv s -> inv (toggle_click toggles w which t s).
Proof.
  intros Hw Hi. pose proof (toggle_click_focus w which t s Hw Hi) as Hf.
  destruct (toggles !! t) as [tg|] eqn:Et; [|unfold toggle_click, toggle; rewrite Et; by apply document_inv].
  destruct (tg_disabled tg) eqn:Ed; [unfold toggle_click, toggle; rewrite Et, Ed; by apply document_inv|].
  pose proof (toggle_click_open w which t tg s Hw (proj1 Hi) Et Ed) as Ho. split_and!; [| |done].
  - intros p Hp. rewrite Ho in Hp. case_decide as Hq; [|done]. subst. apply Exists_exists. exists tg. split; [|done].
    by eapply list_elem_of_lookup_2.
  - intros p q Hp Hq. rewrite Ho in Hp, Hq. do 2 case_decide; congruence.
Qed.

Lemma move_range keyCode n index : 0 < n -> -1 <= index < n -> 0 <= move keyCode n index < n.
Proof. intros Hn Hi. unfold move. repeat (case_match; try lia). Qed.

Lemma keydown_inv w k x s : (forall p, keeps_open w p = false) -> inv s -> inv (keydown toggles w k x s).
Proof.
  intros Hw Hi. unfold keydown. destruct (negb (menu_key k)); [done|]. destruct (source_disabled _ _); [done|].
  destruct (source_parent _ _) as [p|]; [|done]. destruct (negb _ || _).
  - assert (inv (if k =? 27 then match toggle_of toggles p with Some t => set_focused (Some (FToggle t)) s | None => s end else s)) as H1.
    { destruct (k =? 27); [|done]. destruct (toggle_of _ _); [|done]. destruct Hi as (H1 & H2 & H3). by destruct s. }
    destruct x; [by apply toggle_click_inv|by apply document_inv].
  - destruct (parents s !! p) as [y|] eqn:Ey; [|done]. destruct (Z.eqb_spec (Z.of_nat (pa_items y)) 0); [done|].
    destruct Hi as (H1 & H2 & H3). split_and!; [by destruct s|by destruct s|].
    assert (-1 <= index_in p s < Z.of_nat (pa_items y)) as Hr.
    { unfold index_in, focus_ok in *. destruct (focused s) as [[t|q i]|]; try lia. case_decide; [|lia]. subst. rewrite Ey in H3. lia. }
    pose proof (move_range k (Z.of_nat (pa_items y)) (index_in p s) ltac:(lia) Hr).
    unfold focus_ok. destruct s as [l b f g]. cbn in *. rewrite Ey. lia.
Qed.

Lemma session_inv hs s : Forall lets_close hs -> inv s -> inv (happens toggles hs s).
Proof.
  unfold happens. intros Hh. revert s. induction Hh as [|h hs Hh _ IH]; intros s Hi; cbn [foldl]; [done|]. apply IH.
  destruct h; cbn [happen lets_close] in *; [by apply toggle_click_inv|by apply document_inv|done|by apply keydown_inv].
Qed.

End sessions.


Definition ex_toggles : list toggle_ := [Toggle 0 [0%nat] false; Toggle 1 [1%nat] false].
Definition ex_page : page := Page [Parent false 3 true; Parent false 2 true] 0 None [].
Definition ex_world : world := World (fun _ => false) (fun _ => false) false.


(** A key code that has the digits of an arrow's is taken for it. *)
Lemma other_key : menu_key 140 = true.
Proof. reflexivity. Qed.
