(* ===== verification/Tab.v ===== *)
(** * Bootstrap: tabs (application bundle, lines 14000-14119)

    A list of items, some with a menu of nested items, and the panes their links
    show.  A pane that fades changes when its transition ends: the change waits as a task on the panes that
    were active. *)

From S2P Require Import Prelude.
From Stdlib Require Import ZArith Lia.

Record item := Item { it_active : bool; it_menu : list bool }.
Record pane := Pane { pn_active : bool; pn_fade : bool; pn_in : bool }.

(** A link: its item, the nested item it is in, the pane it shows. *)
Record link := Link { l_item : nat; l_nested : option nat; l_pane : option nat }.

Inductive event := EShow (l : link) | EShown (l : link).

(** The panes that were active when a transition began, and the link that is shown. *)
Record task := Task { k_active : list nat; k_link : link }.

Record tabs := Tabs { items : list item; panes : list pane; tasks : list task; log : list event }.

Definition set_items i (t : tabs) := let 'Tabs _ p k g := t in Tabs i p k g.
Definition set_panes p (t : tabs) := let 'Tabs i _ k g := t in Tabs i p k g.
Definition set_tasks k (t : tabs) := let 'Tabs i p _ g := t in Tabs i p k g.
Definition write g' (t : tabs) := let 'Tabs i p k g := t in Tabs i p k (g ++ g').

Definition set_active b (p : pane) := let 'Pane _ f n := p in Pane b f n.
Definition set_fade f (p : pane) := let 'Pane a _ n := p in Pane a f n.
Definition set_in n (p : pane) := let 'Pane a f _ := p in Pane a f n.

Section tab.
Context (support : bool).

(** ** The items: [activate(li, ul)], which has no callback and so no transition *)

(** The active items lose the class, with the nested ones that are active in them. *)
Definition deactivate (i : item) : item := if it_active i then Item false ((fun _ => false) <$> it_menu i) else i.

Definition activate_item (l : link) (t : tabs) : tabs :=
  set_items (alter (fun i => Item true match l_nested l with
                                       | Some j => <[j := true]> (it_menu i)
                                       | None => it_menu i
                                       end) (l_item l) (deactivate <$> items t)) t.

(** ** The panes: [activate($target, $target.parent(), callback)] *)

Definition active_panes (t : tabs) : list nat :=
  omap (fun x => if pn_active x.2 then Some x.1 else None) (imap (fun i p => (i, p)) (panes t)).

Definition on_panes (f : pane -> pane) (l : list nat) (ps : list pane) : list pane := foldr (alter f) ps l.

(** [next()], for the panes that were active. *)
Definition next (transition : bool) (active : list nat) (l : link) (t : tabs) : tabs :=
  let ps := on_panes (set_active false) active (panes t) in
  let ps := match l_pane l with
            | Some k => alter (fun p => (if transition then set_in true else set_fade false) (set_active true p)) k ps
            | None => ps
            end in
  write [EShown l] (set_panes ps t).

Definition activate_pane (l : link) (t : tabs) : tabs :=
  let active := match l_pane l with Some _ => active_panes t | None => [] end in
  let transition := support && existsb (fun k => match panes t !! k with Some p => pn_fade p | None => false end) active in
  let t := if transition then set_tasks (tasks t ++ [Task active l]) t else next false active l t in
  set_panes (on_panes (set_in false) active (panes t)) t.

(** ** [Tab.prototype.show] *)

Definition li_active (l : link) (t : tabs) : bool :=
  match items t !! l_item l with
  | Some i => match l_nested l with Some j => default false (it_menu i !! j) | None => it_active i end
  | None => false
  end.

Definition show (prevented : bool) (l : link) (t : tabs) : tabs :=
  if li_active l t then t
  else
    let t := write [EShow l] t in
    if prevented then t else activate_pane l (activate_item l t).

(** The transition of panes ends: what waits on them runs, once for each of the panes. *)
Definition run_task (k : task) (t : tabs) : tabs :=
  foldl (fun t _ => next true (k_active k) (k_link k) t) t (k_active k).
Definition transition_end (t : tabs) : tabs := foldl (fun t k => run_task k t) (set_tasks [] t) (tasks t).

(** ** Properties *)

Definition click (prevented : bool) (l : link) (t : tabs) : tabs := transition_end (show prevented l t).
Definition clicks (ls : list (bool * link)) (t : tabs) : tabs := foldl (fun t x => click x.1 x.2 t) t ls.

(** Exactly the item [i] is active, and exactly the pane [k]; nothing waits. *)
Definition shows (i k : nat) (t : tabs) : Prop :=
  (forall j x, items t !! j = Some x -> it_active x = bool_decide (j = i)) /\
  (forall j x, panes t !! j = Some x -> pn_active x = bool_decide (j = k)) /\
  (i < length (items t)) /\ (k < length (panes t)) /\ tasks t = [].

(** A link of an item and a pane that exist. *)
Definition link_ok (t : tabs) (l : link) : Prop :=
  l_item l < length (items t) /\ match l_pane l with Some k => k < length (panes t) | None => False end.

Lemma on_panes_lookup f l ps j : (forall p, f (f p) = f p) -> on_panes f l ps !! j =
  if decide (j ∈ l) then f <$> ps !! j else ps !! j.
Proof.
  intros Hf. induction l as [|k l IH]; cbn [on_panes foldr]; [by rewrite decide_False by apply not_elem_of_nil|].
  fold (on_panes f l ps). destruct (decide (k = j)) as [->|Hne].
  - rewrite list_lookup_alter_eq, IH. rewrite (decide_True (P := j ∈ j :: l)) by apply list_elem_of_here.
    case_decide; [|done]. by destruct (ps !! j); cbn; [rewrite Hf|].
  - rewrite list_lookup_alter_ne, IH by done. case_decide as H1; case_decide as H2; set_solver.
Qed.

Lemma on_panes_length f l ps : length (on_panes f l ps) = length ps.
Proof. induction l; cbn; [done|]. by rewrite length_alter. Qed.

Lemma active_panes_elem t k : k ∈ active_panes t <-> exists p, panes t !! k = Some p /\ pn_active p = true.
Proof.
  unfold active_panes. rewrite list_elem_of_omap. split.
  - intros ([j p] & Hin & E). apply list_elem_of_lookup in Hin as [n Hn]. rewrite list_lookup_imap in Hn.
    destruct (panes t !! n) as [q|] eqn:Eq; [|done]. injection Hn as <- <-. cbn in E. destruct (pn_active q) eqn:Ea; [|done].
    injection E as <-. eauto.
  - intros (p & E & Ha). exists (k, p). split; [|cbn; by rewrite Ha]. apply list_elem_of_lookup. exists k.
    rewrite list_lookup_imap. by rewrite E.
Qed.

(** The items after a link is shown. *)
Lemma activate_item_shows l t j x : items (activate_item l t) !! j = Some x -> it_active x = bool_decide (j = l_item l).
Proof.
  unfold activate_item. destruct t as [its ps ks g]. cbn. intros E. destruct (decide (j = l_item l)) as [->|Hne].
  - rewrite list_lookup_alter_eq in E. destruct ((deactivate <$> its) !! l_item l); [|done]. injection E as <-. by rewrite bool_decide_true.
  - rewrite list_lookup_alter_ne in E by done. rewrite list_lookup_fmap in E. destruct (its !! j) as [y|]; [|done].
    injection E as <-. rewrite bool_decide_false by done. unfold deactivate. by destruct (it_active y) eqn:Ey.
Qed.

(** The panes after [next], when exactly [active] were. *)
Lemma next_shows b active l k t : l_pane l = Some k ->
  (forall j p, panes t !! j = Some p -> pn_active p = true -> j ∈ active \/ j = k) ->
  forall j p, panes (next b active l t) !! j = Some p -> pn_active p = bool_decide (j = k).
Proof.
  intros El Ha j p. unfold next. rewrite El. destruct t as [its ps ks g]. cbn in *. intros E.
  destruct (decide (j = k)) as [->|Hne].
  - rewrite list_lookup_alter_eq in E. destruct (on_panes _ _ _ !! k) as [q|]; [|done]. injection E as <-.
    rewrite bool_decide_true by done. by destruct b, q.
  - rewrite list_lookup_alter_ne in E by done. rewrite on_panes_lookup in E by (by intros []).
    rewrite bool_decide_false by done. case_decide as Hd.
    + destruct (ps !! j) as [q|]; [|done]. injection E as <-. by destruct q.
    + destruct (pn_active p) eqn:Ep; [|done]. by destruct (Ha j p E Ep).
Qed.

(** Only the panes of [active], and [k], are active. *)
Definition within (active : list nat) (k : nat) (t : tabs) : Prop :=
  forall j p, panes t !! j = Some p -> pn_active p = true -> j ∈ active \/ j = k.
Definition pane_is (k : nat) (t : tabs) : Prop := forall j p, panes t !! j = Some p -> pn_active p = bool_decide (j = k).

Lemma pane_is_within active k t : pane_is k t -> within active k t.
Proof. intros H j p E Ha. right. rewrite (H j p E) in Ha. by apply bool_decide_eq_true in Ha. Qed.

(** What [next] and its repetitions leave as it was. *)
Definition same (t t' : tabs) : Prop := items t' = items t /\ length (panes t') = length (panes t) /\ tasks t' = tasks t.

Lemma next_same b active l t : same t (next b active l t).
Proof.
  unfold next, same. destruct t as [its ps ks g]. cbn. split_and!; [done| |done].
  destruct (l_pane l); rewrite ?length_alter; apply on_panes_length.
Qed.

Lemma nexts active l k (n : list nat) t : l_pane l = Some k -> within active k t -> n <> [] \/ pane_is k t ->
  let t' := foldl (fun t _ => next true active l t) t n in pane_is k t' /\ same t t'.
Proof.
  intros El. revert t. induction n as [|x n IH]; intros t Hw Hn; cbn [foldl]; [by destruct Hn|].
  assert (pane_is k (next true active l t)) as H1 by (intros j p; by apply (next_shows true active l k t El Hw)).
  destruct (IH (next true active l t)) as (H2 & H3 & H4 & H5); [by apply pane_is_within|by right|].
  destruct (next_same true active l t) as (H6 & H7 & H8). split; [done|]. split_and!; congruence.
Qed.

Lemma leaving_in active k t : within active k (set_panes (on_panes (set_in false) active (panes t)) t) <-> within active k t.
Proof.
  unfold within. assert (forall j, (pn_active <$> panes (set_panes (on_panes (set_in false) active (panes t)) t) !! j) = (pn_active <$> panes t !! j)) as H.
  { intros j. destruct t as [its ps ks g]. cbn. rewrite on_panes_lookup by (by intros []). case_decide; [|done]. by destruct (ps !! j) as [[]|]. }
  split; intros Hw j p E Ha; specialize (H j); rewrite E in H; destruct (_ !! j) as [q|] eqn:Eq; try done;
    injection H as H; apply (Hw j q Eq); congruence.
Qed.

Lemma leaving_pane active k t : pane_is k t -> pane_is k (set_panes (on_panes (set_in false) active (panes t)) t).
Proof.
  intros Hp j p E. destruct t as [its ps ks g]. cbn in *. rewrite on_panes_lookup in E by (by intros []).
  case_decide; [|by apply (Hp j)]. destruct (ps !! j) as [q|] eqn:Eq; [|done]. injection E as <-. rewrite <- (Hp j q Eq). by destruct q.
Qed.

Lemma leaving_same active t : same t (set_panes (on_panes (set_in false) active (panes t)) t).
Proof. destruct t as [its ps ks g]. split_and!; [done|apply on_panes_length|done]. Qed.

(** The panes once the transition is over. *)
Lemma activate_pane_shows l k t : l_pane l = Some k -> tasks t = [] ->
  let t' := transition_end (activate_pane l t) in pane_is k t' /\ same t t'.
Proof.
  intros El Et. unfold activate_pane. rewrite El. set (active := active_panes t).
  assert (within active k t) as Hw by (intros j p E Ha; left; apply active_panes_elem; eauto).
  destruct (support && existsb _ active) eqn:Etr; cbv zeta.
  - assert (active <> []) as Hne by (intros E; by rewrite E, andb_false_r in Etr).
    set (t1 := set_tasks (tasks t ++ [Task active l]) t).
    assert (same (set_tasks [] t) (set_panes (on_panes (set_in false) active (panes t1)) (set_tasks [] t))) as Hs.
    { unfold t1. destruct t as [its ps ks g]. cbn. split_and!; [done|apply on_panes_length|done]. }
    assert (transition_end (set_panes (on_panes (set_in false) active (panes t1)) t1) =
      run_task (Task active l) (set_panes (on_panes (set_in false) active (panes t1)) (set_tasks [] t))) as ->.
    { unfold transition_end, t1. destruct t as [its ps ks g]. cbn in *. by subst. }
    unfold run_task. cbn [k_active k_link].
    destruct (nexts active l k active (set_panes (on_panes (set_in false) active (panes t1)) (set_tasks [] t)) El) as (H1 & H2 & H3 & H4); [|by left|].
    + assert (panes t1 = panes (set_tasks [] t)) as -> by (unfold t1; by destruct t). apply leaving_in. by destruct t.
    + split; [done|]. destruct Hs as (H5 & H6 & H7). rewrite H5 in H2. rewrite H6 in H3. rewrite H7 in H4. unfold same. rewrite H2, H3, H4.
      rewrite Et. by destruct t.
  - assert (tasks (set_panes (on_panes (set_in false) active (panes (next false active l t))) (next false active l t)) = []) as Ek.
    { destruct (next_same false active l t) as (_ & _ & H). destruct (next false active l t). cbn in *. congruence. }
    unfold transition_end. rewrite Ek. cbn [foldl].
    assert (forall x, tasks x = [] -> set_tasks [] x = x) as Eq by (intros []; cbn; by intros ->). rewrite Eq by done.
    split; [apply leaving_pane; intros j p; by apply (next_shows false active l k t El Hw)|]. destruct (leaving_same active (next false active l t)) as (H1 & H2 & H3).
    destruct (next_same false active l t) as (H4 & H5 & H6). split_and!; congruence.
Qed.

(** A link that is clicked, and left the time of its transition, shows its item and its pane. *)
Lemma click_shows i k prevented l t : shows i k t -> link_ok t l ->
  (if prevented || li_active l t then shows i k (click prevented l t)
   else exists k', l_pane l = Some k' /\ shows (l_item l) k' (click prevented l t)) /\
  length (items (click prevented l t)) = length (items t) /\ length (panes (click prevented l t)) = length (panes t).
Proof.
  intros (Hi & Hp & Hil & Hkl & Ht) [Hl Hlp]. unfold click, show.
  assert (forall x, tasks x = [] -> transition_end x = x) as Hend by (unfold transition_end; intros []; cbn; by intros ->).
  destruct (li_active l t) eqn:Ea; [rewrite orb_true_r, Hend by done; split; [by split_and!|done]|]. rewrite orb_false_r.
  destruct prevented.
  { rewrite Hend by (by destruct t). split; [|by destruct t]. destruct t; by split_and!. }
  destruct (l_pane l) as [k'|] eqn:El; [|done].
  set (t1 := activate_item l (write [EShow l] t)).
  assert (tasks t1 = []) as Ht1 by (unfold t1; by destruct t).
  destruct (activate_pane_shows l k' t1 El Ht1) as (H1 & H2 & H3 & H4).
  assert (length (items t1) = length (items t)) as Hlen by (unfold t1; destruct t; cbn; by rewrite length_alter, length_fmap).
  assert (panes t1 = panes t) as Hpan by (unfold t1; by destruct t).
  split; [|split; [by rewrite H2|by rewrite H3, Hpan]]. exists k'. split; [done|]. split_and!.
  - intros j x E. rewrite H2 in E. by eapply activate_item_shows.
  - exact H1.
  - by rewrite H2, Hlen.
  - by rewrite H3, Hpan.
  - by rewrite H4.
Qed.

End tab.

(** C22: tabs.  Links are clicked one after the other, each left the time of its transition before the
    next is clicked ([two_panes_active] shows what happens otherwise), fading or not.  One item and one pane exactly
    are active after them.  A further click makes them those of its link; a click whose event a listener
    prevents, or on the active item, leaves them as they are. *)
Theorem tab_exclusive (support : bool) (i k : nat) (t : tabs) (ls : list (bool * link)) :
  shows i k t -> Forall (fun x => link_ok t x.2) ls ->
  let t' := clicks support ls t in
  exists i' k', shows i' k' t' /\
  forall prevented l, link_ok t l ->
    if prevented || li_active l t' then shows i' k' (click support prevented l t')
    else exists k'', l_pane l = Some k'' /\ shows (l_item l) k'' (click support prevented l t').
Proof.
  intros Hs Hls t'.
  assert ((exists i' k', shows i' k' t') /\ length (items t') = length (items t) /\ length (panes t') = length (panes t)) as (H1 & H2 & H3).
  { unfold t'. clear t'. unfold clicks. revert i k t Hs Hls. induction ls as [|[p l] ls IH]; intros i k t Hs Hls; cbn [foldl fst snd]; [by eauto|].
    apply Forall_cons in Hls as [Hl Hls]. destruct (click_shows support i k p l t Hs Hl) as (H1 & H2 & H3).
    assert (exists i' k', shows i' k' (click support p l t)) as (i' & k' & Hs') by (destruct (p || _); [eauto|destruct H1 as (k' & _ & H1); eauto]).
    destruct (IH i' k' _ Hs') as (H4 & H5 & H6).
    - eapply Forall_impl; [exact Hls|]. intros x. unfold link_ok. by rewrite H2, H3.
    - split; [done|]. split; congruence. }
  destruct H1 as (i' & k' & Hs'). exists i', k'. split; [done|]. intros p l Hl.
  apply (click_shows support i' k' p l t' Hs'). unfold link_ok. by rewrite H2, H3.
Qed.

Definition ex_tabs : tabs := Tabs [Item true []; Item false []; Item false [false; false]]
  [Pane true true true; Pane false true false; Pane false false false; Pane false true false] [] [].

Lemma tab_exclusive_witness :
  let t' := clicks true [(false, Link 1 None (Some 1)); (true, Link 0 None (Some 0)); (false, Link 2 (Some 1) (Some 3))] ex_tabs in
  shows 2 3 t' /\ shows 2 3 (click true true (Link 0 None (Some 0)) t') /\ shows 0 0 (click true false (Link 0 None (Some 0)) t').
Proof.
  destruct (tab_exclusive true 0 0 ex_tabs [(false, Link 1 None (Some 1)); (true, Link 0 None (Some 0)); (false, Link 2 (Some 1) (Some 3))])
    as (i & k & H1 & H2).
  - split; [|split; [|cbn; split; [lia|split; [lia|reflexivity]]]].
    + intros [|[|[|[|j]]]] x E; cbn in E; try discriminate; injection E as <-; reflexivity.
    + intros [|[|[|[|j]]]] x E; cbn in E; try discriminate; injection E as <-; reflexivity.
  - repeat (apply List.Forall_cons; [unfold link_ok; cbn; lia|]). apply List.Forall_nil.
  - assert (i = 2) as -> by (destruct H1 as (Hi & _); specialize (Hi 2 _ eq_refl); symmetry; apply (bool_decide_unpack _); rewrite <- Hi; exact I).
    assert (k = 3) as -> by (destruct H1 as (_ & Hk & _); specialize (Hk 3 _ eq_refl); symmetry; apply (bool_decide_unpack _); rewrite <- Hk; exact I).
    split; [exact H1|]. split; [exact (H2 true (Link 0 None (Some 0)) ltac:(unfold link_ok; cbn; lia))|].
    pose proof (H2 false (Link 0 None (Some 0)) ltac:(unfold link_ok; cbn; lia)) as (k & [= <-] & H). exact H.
Defined.

(** Two links clicked while the first pane fades out leave two panes active. *)
Lemma two_panes_active :
  let t := transition_end (show true false (Link 2 None (Some 3)) (show true false (Link 1 None (Some 1)) ex_tabs)) in
  pn_active <$> panes t = [false; true; false; true].
Proof. reflexivity. Qed.
