(* ===== verification/Modal.v ===== *)
(** * Bootstrap: the modal (application bundle, lines 14360-14629)

    One modal of a page with the body it locks.  What waits for the end of a
    transition is a task on the element that moves; the end comes as an event, which runs
    the tasks of that element (its emulation by a timer makes sure that it comes).  [prevented] is
    whether a listener prevents the event a call triggers. *)

From S2P Require Import Prelude.
From Stdlib Require Import ZArith Lia.

Local Open Scope Z_scope.

(** ** State *)

Inductive backdrop_option := BackdropTrue | BackdropStatic | BackdropFalse.
#[export] Instance backdrop_option_eq : EqDecision backdrop_option.
Proof. solve_decision. Defined.

(** [fade] is the class of the element; [support] is [$.support.transition]; [base_padding] is the
    padding of the body in the style sheets, [overflows] and [measured] what the browser measures. *)
Record options := Options {
  backdrop_of : backdrop_option; keyboard : bool; fade : bool; support : bool;
  base_padding : Z; overflows : bool; measured : Z
}.

Inductive target := OnElement | OnDialog | OnBackdrop (b : nat).
#[export] Instance target_eq : EqDecision target.
Proof. solve_decision. Defined.

Inductive callback := CbShow | CbHidden.
Inductive task := TShown | THide | TBackdrop (cb : callback) | TRemove (cb : callback).

Inductive event := EShow | EShown | EHide | EHidden | EFocus | ERestoreFocus.
#[export] Instance event_eq : EqDecision event.
Proof. solve_decision. Defined.

(** [armed] counts the handlers of the button waiting for show.bs.modal, [restorers] those waiting
    for hidden.bs.modal; [dismiss] the handlers click.dismiss, [keyup] keyup.dismiss. *)
Record modal := Modal {
  isShown : bool; visible : bool; class_in : bool; aria_hidden : bool; body_open : bool;
  padding : option Z; scrollbarWidth : Z; backdrops : list nat; current : option nat; next_backdrop : nat;
  dismiss_buttons : nat; dismiss_backdrop : nat; keyup : nat; focusin : bool;
  armed : nat; restorers : nat; tasks : list (target * task); log : list event
}.

Definition set_isShown x (m : modal) := let 'Modal _ v i a o p w b c n d e k f r q t g := m in Modal x v i a o p w b c n d e k f r q t g.
Definition set_looks v i a (m : modal) := let 'Modal s _ _ _ o p w b c n d e k f r q t g := m in Modal s v i a o p w b c n d e k f r q t g.
Definition set_body o p w (m : modal) := let 'Modal s v i a _ _ _ b c n d e k f r q t g := m in Modal s v i a o p w b c n d e k f r q t g.
Definition set_backdrops b c n (m : modal) := let 'Modal s v i a o p w _ _ _ d e k f r q t g := m in Modal s v i a o p w b c n d e k f r q t g.
Definition set_dismiss d e (m : modal) := let 'Modal s v i a o p w b c n _ _ k f r q t g := m in Modal s v i a o p w b c n d e k f r q t g.
Definition set_keyup k (m : modal) := let 'Modal s v i a o p w b c n d e _ f r q t g := m in Modal s v i a o p w b c n d e k f r q t g.
Definition set_focusin f (m : modal) := let 'Modal s v i a o p w b c n d e k _ r q t g := m in Modal s v i a o p w b c n d e k f r q t g.
Definition set_restorers r q (m : modal) := let 'Modal s v i a o p w b c n d e k f _ _ t g := m in Modal s v i a o p w b c n d e k f r q t g.
Definition set_tasks t (m : modal) := let 'Modal s v i a o p w b c n d e k f r q _ g := m in Modal s v i a o p w b c n d e k f r q t g.
Definition write g' (m : modal) := let 'Modal s v i a o p w b c n d e k f r q t g := m in Modal s v i a o p w b c n d e k f r q t (g ++ g').

(** [new Modal(element, options)], for an element that is hidden. *)
Definition new_modal : modal := Modal false false false true false None 0 [] None 0 0 0 0 false 0 0 [] [].

Section modal.
Context (opts : options).

Definition transition : bool := support opts && fade opts.

Definition wait (on : target) (t : task) (m : modal) : modal := set_tasks (tasks m ++ [(on, t)]) m.

(** ** The body *)

Definition checkScrollbar (m : modal) : modal :=
  if overflows opts then
    set_body (body_open m) (padding m) (if scrollbarWidth m =? 0 then measured opts else scrollbarWidth m) m
  else m.

Definition setScrollbar (m : modal) : modal :=
  let bodyPad := default (base_padding opts) (padding m) in
  if scrollbarWidth m =? 0 then m else set_body (body_open m) (Some (bodyPad + scrollbarWidth m)) (scrollbarWidth m) m.

Definition resetScrollbar (m : modal) : modal := set_body (body_open m) None (scrollbarWidth m) m.

(** ** Handlers of the element *)

Definition enforceFocus (m : modal) : modal := set_focusin true m.

Definition escape (m : modal) : modal :=
  if isShown m && keyboard opts then set_keyup (S (keyup m)) m
  else if negb (isShown m) then set_keyup 0 m
  else m.

(** ** The backdrop *)

(** Removing an element drops what waits on it. *)
Definition removeBackdrop (m : modal) : modal :=
  match current m with
  | Some b => set_tasks (filter (fun t => t.1 <> OnBackdrop b) (tasks m))
                (set_backdrops (filter (fun x => x <> b) (backdrops m)) None (next_backdrop m) m)
  | None => m
  end.

(** The event hidden.bs.modal, and the one that ends [show]. *)
Definition hidden (m : modal) : modal :=
  set_restorers (armed m) 0 (write (EHidden :: replicate (restorers m) ERestoreFocus) m).

Definition shown (m : modal) : modal := write [EFocus; EShown] m.

Definition show_callback (m : modal) : modal :=
  let m := enforceFocus (set_looks true true false m) in
  if transition then wait OnDialog TShown m else shown m.

Definition call (cb : callback) : modal -> modal :=
  match cb with CbShow => show_callback | CbHidden => hidden end.

Definition remove_callback (cb : callback) (m : modal) : modal := call cb (removeBackdrop m).

Definition backdrop (cb : callback) (m : modal) : modal :=
  if isShown m && negb (bool_decide (backdrop_of opts = BackdropFalse)) then
    let b := next_backdrop m in
    let m := set_backdrops (backdrops m ++ [b]) (Some b) (S b) m in
    let m := set_dismiss (dismiss_buttons m) (S (dismiss_backdrop m)) m in
    if transition then wait (OnBackdrop b) (TBackdrop cb) m else call cb m
  else if negb (isShown m) then
    match current m with
    | Some b => if transition then wait (OnBackdrop b) (TRemove cb) m else remove_callback cb m
    | None => call cb m
    end
  else call cb m.

Definition hideModal (m : modal) : modal := backdrop CbHidden (set_looks false (class_in m) (aria_hidden m) m).

(** ** [show], [hide], [toggle] *)

(** The handlers of buttons waiting for show.bs.modal. *)
Definition trigger_show (prevented : bool) (m : modal) : modal :=
  set_restorers 0 (if prevented then restorers m else restorers m + armed m)%nat (write [EShow] m).

Definition show (prevented : bool) (m : modal) : modal :=
  let m := trigger_show prevented m in
  if isShown m || prevented then m
  else
    let m := checkScrollbar (set_isShown true m) in
    let m := setScrollbar (set_body true (padding m) (scrollbarWidth m) m) in
    let m := escape m in
    backdrop CbShow (set_dismiss (S (dismiss_buttons m)) (dismiss_backdrop m) m).

Definition hide (prevented : bool) (m : modal) : modal :=
  let m := write [EHide] m in
  if negb (isShown m) || prevented then m
  else
    let m := set_isShown false m in
    let m := resetScrollbar (set_body false (padding m) (scrollbarWidth m) m) in
    let m := set_focusin false (escape m) in
    let m := set_dismiss 0 0 (set_looks (visible m) false true m) in
    if transition then wait OnElement THide m else hideModal m.

Definition toggle (prevented : bool) (m : modal) : modal :=
  if isShown m then hide prevented m else show prevented m.

(** ** Events *)

Definition run_task (t : task) : modal -> modal :=
  match t with
  | TShown => shown
  | THide => hideModal
  | TBackdrop cb => call cb
  | TRemove cb => remove_callback cb
  end.

(** The end of the transition of an element. *)
Definition transition_end (on : target) (m : modal) : modal :=
  let now := filter (fun t => t.1 = on) (tasks m) in
  foldl (fun m t => run_task t.2 m) (set_tasks (filter (fun t => t.1 <> on) (tasks m)) m) now.

(** The handlers bound while the modal is shown: each of those that are bound runs. *)
Fixpoint times (n : nat) (f : modal -> modal) (m : modal) : modal :=
  match n with O => m | S n => times n f (f m) end.

Inductive happening :=
| HButton (prevented : bool)
| HShow (prevented : bool)
| HHide (prevented : bool)
| HDismiss (prevented : bool)
| HBackdrop (prevented : bool)
| HEscape (prevented : bool)
| HEnd (on : target).

Definition happen (h : happening) (m : modal) : modal :=
  match h with
  | HButton p => toggle p (set_restorers (S (armed m)) (restorers m) m)
  | HShow p => show p m
  | HHide p => hide p m
  | HDismiss p => times (dismiss_buttons m) (hide p) m
  | HBackdrop p => times (dismiss_backdrop m) (if bool_decide (backdrop_of opts = BackdropStatic) then write [EFocus] else hide p) m
  | HEscape p => times (keyup m) (hide p) m
  | HEnd on => transition_end on m
  end.

Definition happens (hs : list happening) (m : modal) : modal := foldl (fun m h => happen h m) m hs.

End modal.
