(* ===== verification/ModalSpec.v ===== *)
(** * Bootstrap: the modal, when its transitions end before the next call *)

From S2P Require Import Prelude Modal.
From Stdlib Require Import ZArith Lia.

Local Open Scope Z_scope.

Section spec.
Context (opts : options).

Definition has_backdrop : bool := negb (bool_decide (backdrop_of opts = BackdropFalse)).

(** A modal at rest, shown or not: nothing waits, and the element, the body, the
    backdrop and the handlers agree. *)
Record at_rest (b : bool) (m : modal) : Prop := {
  ar_shown : isShown m = b; ar_tasks : tasks m = [];
  ar_looks : visible m = b /\ class_in m = b /\ aria_hidden m = negb b;
  ar_body : body_open m = b /\
    padding m = if b && negb (scrollbarWidth m =? 0) then Some (base_padding opts + scrollbarWidth m) else None;
  ar_backdrop : if b && has_backdrop then exists k, backdrops m = [k] /\ current m = Some k else backdrops m = [] /\ current m = None;
  ar_dismiss : dismiss_buttons m = Nat.b2n b /\ dismiss_backdrop m = Nat.b2n (b && has_backdrop);
  ar_keys : keyup m = Nat.b2n (b && keyboard opts) /\ focusin m = b
}.

(** What a happening makes of a modal at rest. *)
Definition next (b : bool) (h : happening) : bool :=
  match h with
  | HButton p => if p then b else negb b
  | HShow p => b || negb p
  | HHide p | HDismiss p => b && p
  | HBackdrop p => if bool_decide (backdrop_of opts = BackdropTrue) then b && p else b
  | HEscape p => if keyboard opts then b && p else b
  | HEnd _ => b
  end.

(** The end of the first transition that is waited for; two are enough for a call. *)
Definition end_first (m : modal) : modal :=
  match tasks m with (on, _) :: _ => transition_end opts on m | [] => m end.
Definition settle (h : happening) (m : modal) : modal := end_first (end_first (happen opts h m)).

(** The ends of showing and hiding that were announced. *)
Definition ends (m : modal) : list event := filter (fun e => e = EShown \/ e = EHidden) (log m).

Lemma filter_ids (k : nat) : filter (fun x => x <> k) [k] = [].
Proof. rewrite filter_cons_False by tauto. done. Qed.

Lemma ends_log m g l : log m = g ++ l ->
  ends m = filter (fun e => e = EShown \/ e = EHidden) g ++ filter (fun e => e = EShown \/ e = EHidden) l.
Proof. unfold ends. intros ->. apply filter_app. Qed.

Lemma ends_restores n : filter (fun e => e = EShown \/ e = EHidden) (replicate n ERestoreFocus) = [].
Proof. induction n as [|n IH]; [done|]. cbn [replicate]. rewrite filter_cons_False by naive_solver. done. Qed.

Lemma at_rest_false m : at_rest false m <-> exists w n a r g,
  m = Modal false false false true false None w [] None n 0 0 0 false a r [] g.
Proof.
  split; [|intros (w & n & a & r & g & ->); by split].
  intros [H1 H2 (H3 & H4 & H5) (H6 & H7) (H8 & H9) (H10 & H11) (H12 & H13)]. destruct m. cbn in *. subst. by eexists _, _, _, _, _.
Qed.

Lemma at_rest_true m : at_rest true m <-> exists w n a r g bs,
  m = Modal true true true false true (if w =? 0 then None else Some (base_padding opts + w)) w
        (if has_backdrop then [bs] else []) (if has_backdrop then Some bs else None) n
        1 (Nat.b2n has_backdrop) (Nat.b2n (keyboard opts)) true a r [] g.
Proof.
  split.
  - intros [H1 H2 (H3 & H4 & H5) (H6 & H7) H8 (H10 & H11) (H12 & H13)].
    destruct m as [s v i a o p w b c n d e k f r q t g]. cbn in *. subst. revert H8. case has_backdrop; [intros (bs & -> & ->)|intros [-> ->]];
      [exists w, n, r, q, g, bs|exists w, n, r, q, g, 0%nat]; by destruct (w =? 0).
  - intros (w & n & a & r & g & bs & ->). split; cbn; try done; [by destruct (w =? 0)|].
    destruct has_backdrop; [by exists bs|done].
Qed.

(** The padding of the body that is locked. *)
Definition locked (w : Z) : option Z := if w =? 0 then None else Some (base_padding opts + w).

(** Showing from rest locks the body and then adds the backdrop. *)
Lemma show_start w n a r g : exists w',
  show opts false (Modal false false false true false None w [] None n 0 0 0 false a r [] g) =
  backdrop opts CbShow (Modal true false false true true (locked w') w' [] None n 1 0 (Nat.b2n (keyboard opts)) false
                          0 (r + a) [] (g ++ [EShow])).
Proof.
  unfold show, trigger_show, checkScrollbar, setScrollbar, escape, locked. cbn [isShown orb write set_restorers set_isShown restorers armed].
  destruct (overflows opts).
  - exists (if w =? 0 then measured opts else w). cbn. destruct (_ =? 0) eqn:E; cbn; by destruct (keyboard opts).
  - exists w. cbn. destruct (w =? 0) eqn:E; cbn; by destruct (keyboard opts).
Qed.

Lemma show_callback_settles w n a r g bs :
  let m := Modal true false false true true (locked w) w (if has_backdrop then [bs] else []) (if has_backdrop then Some bs else None) n
             1 (Nat.b2n has_backdrop) (Nat.b2n (keyboard opts)) false a r [] g in
  let m' := end_first (show_callback opts m) in
  at_rest true m' /\ log m' = g ++ [EFocus; EShown].
Proof.
  cbv zeta. rewrite at_rest_true. unfold show_callback, shown. cbn [enforceFocus set_looks set_focusin].
  destruct (transition opts) eqn:Et; cbn; (split; [|done]); by exists w, n, a, r, (g ++ [EFocus; EShown]), bs.
Qed.

Lemma end_first_rest m : tasks m = [] -> end_first m = m.
Proof. intros E. unfold end_first. by rewrite E. Qed.

Lemma end_first_one on t m : tasks m = [(on, t)] -> end_first m = run_task opts t (set_tasks [] m).
Proof.
  intros E. unfold end_first. rewrite E. unfold transition_end. rewrite E.
  rewrite (filter_cons_True (fun t => t.1 = on)) by done. rewrite (filter_cons_False (fun t => t.1 <> on)) by (by intros []).
  done.
Qed.

(** Ends the only transition that is waited for. *)
Ltac end_wait := repeat match goal with |- context [end_first (wait ?a ?b ?m)] => rewrite (end_first_one a b (wait a b m) eq_refl) end.

Lemma show_settles m : at_rest false m ->
  let m' := end_first (end_first (show opts false m)) in at_rest true m' /\ ends m' = ends m ++ [EShown].
Proof.
  intros (w & n & a & r & g & ->)%at_rest_false. cbv zeta. destruct (show_start w n a r g) as [w' ->].
  unfold backdrop. cbn [isShown andb]. fold has_backdrop.
  pose proof (show_callback_settles w' (if has_backdrop then S n else n) 0 (r + a)%nat (g ++ [EShow]) n) as H.
  cbv zeta in H. unfold ends at 2. cbn [log]. revert H. destruct has_backdrop; cbn [call Nat.b2n]; intros [H1 H2].
  - destruct (transition opts) eqn:Et.
    + end_wait. split; [exact H1|].
      etransitivity; [exact (ends_log _ _ _ H2)|]. by rewrite filter_app, app_nil_r.
    + cbn [set_backdrops set_dismiss dismiss_buttons dismiss_backdrop backdrops next_backdrop app].
      rewrite (end_first_rest (end_first _)) by apply H1. split; [exact H1|]. etransitivity; [exact (ends_log _ _ _ H2)|]. by rewrite filter_app, app_nil_r.
  - rewrite (end_first_rest (end_first _)) by apply H1. split; [exact H1|]. etransitivity; [exact (ends_log _ _ _ H2)|]. by rewrite filter_app, app_nil_r.
Qed.

Lemma hideModal_settles w n a r g bs :
  let m := Modal false true false true false None w (if has_backdrop then [bs] else []) (if has_backdrop then Some bs else None) n
             0 0 0 false a r [] g in
  let m' := end_first (hideModal opts m) in
  at_rest false m' /\ log m' = g ++ EHidden :: replicate r ERestoreFocus.
Proof.
  cbv zeta. rewrite at_rest_false. unfold hideModal, backdrop. cbn [set_looks isShown andb negb current class_in aria_hidden].
  destruct has_backdrop; cbn [call].
  - assert (forall x, remove_callback opts CbHidden (Modal false false false true false None w [bs] (Some bs) n 0 0 0 false a r [] g) = x ->
      (exists w n a r g, x = Modal false false false true false None w [] None n 0 0 0 false a r [] g) /\
      log x = g ++ EHidden :: replicate r ERestoreFocus /\ tasks x = []) as H.
    { intros x <-. unfold remove_callback, removeBackdrop. cbn [current backdrops tasks]. rewrite filter_ids.
      cbn. split; [by eexists _, _, _, _, _|done]. }
    destruct (transition opts).
    + end_wait. cbn [run_task]. destruct (H _ eq_refl) as (H1 & H2 & _). done.
    + destruct (H _ eq_refl) as (H1 & H2 & H3). rewrite end_first_rest by done. done.
  - unfold hidden. cbn. split; [by eexists _, _, _, _, _|done].
Qed.

Lemma hide_settles m : at_rest true m ->
  let m' := end_first (end_first (hide opts false m)) in at_rest false m' /\ ends m' = ends m ++ [EHidden].
Proof.
  intros (w & n & a & r & g & bs & ->)%at_rest_true. cbv zeta.
  pose proof (hideModal_settles w n a r (g ++ [EHide]) bs) as [H1 H2]. unfold hide.
  cbn [write isShown negb orb set_isShown set_body resetScrollbar escape keyboard].
  assert (forall x, escape opts (Modal false true true false false None w x (if has_backdrop then Some bs else None) n 1
      (Nat.b2n has_backdrop) (Nat.b2n (keyboard opts)) true a r [] (g ++ [EHide])) =
    Modal false true true false false None w x (if has_backdrop then Some bs else None) n 1 (Nat.b2n has_backdrop) 0 true a r [] (g ++ [EHide])) as Ee by done.
  unfold resetScrollbar. cbn [set_body body_open padding scrollbarWidth]. rewrite Ee. cbn [set_focusin set_looks set_dismiss visible].
  assert (ends (end_first (hideModal opts (Modal false true false true false None w (if has_backdrop then [bs] else [])
     (if has_backdrop then Some bs else None) n 0 0 0 false a r [] (g ++ [EHide])))) = filter (fun e => e = EShown \/ e = EHidden) g ++ [EHidden]) as He.
  { unfold ends. rewrite H2, !filter_app. cbn. rewrite ends_restores. by rewrite app_nil_r. }
  destruct (transition opts) eqn:Et.
  - end_wait. by split.
  - rewrite (end_first_rest (end_first _)) by apply H1. by split.
Qed.

(** What is announced when a modal goes from [b] to [b']. *)
Definition announced (b b' : bool) : list event := if Bool.eqb b b' then [] else [if b' then EShown else EHidden].

Definition becomes (b : bool) (m : modal) (b' : bool) (m' : modal) : Prop :=
  at_rest b' m' /\ ends m' = ends m ++ announced b b'.

Lemma rest_write b m g : at_rest b m -> at_rest b (write g m).
Proof. intros []. by destruct m. Qed.

Lemma rest_restorers b m r q : at_rest b m -> at_rest b (set_restorers r q m).
Proof. intros []. by destruct m. Qed.

Lemma ends_write m g : ends (write g m) = ends m ++ filter (fun e => e = EShown \/ e = EHidden) g.
Proof. apply ends_log. by destruct m. Qed.

Lemma ends_restorers m r q : ends (set_restorers r q m) = ends m.
Proof. by destruct m. Qed.

(** A call that does nothing but log. *)
Lemma stays b m m' : at_rest b m' -> ends m' = ends m -> becomes b m b (end_first (end_first m')).
Proof.
  intros Hr He. rewrite !end_first_rest by (try apply Hr; rewrite end_first_rest by apply Hr; apply Hr).
  split; [done|]. unfold announced. rewrite eqb_reflx, app_nil_r. done.
Qed.

Lemma show_nothing p m : isShown m || p = true -> show opts p m = trigger_show p m.
Proof.
  intros E. unfold show. assert (isShown (trigger_show p m) = isShown m) as -> by (by destruct m). cbv zeta. by rewrite E.
Qed.

Lemma hide_nothing p m : negb (isShown m) || p = true -> hide opts p m = write [EHide] m.
Proof.
  intros E. unfold hide. assert (isShown (write [EHide] m) = isShown m) as -> by (by destruct m). cbv zeta. by rewrite E.
Qed.

Lemma show_becomes b p m : at_rest b m -> becomes b m (b || negb p) (end_first (end_first (show opts p m))).
Proof.
  intros Hr. destruct (b || p) eqn:E.
  - rewrite show_nothing by (by rewrite (ar_shown _ _ Hr)). assert (b || negb p = b) as -> by (by destruct b, p).
    apply stays; unfold trigger_show; [by apply rest_restorers, rest_write|]. rewrite ends_restorers, ends_write. by rewrite app_nil_r.
  - destruct b, p; try done. destruct (show_settles m Hr) as [H1 H2]. by split.
Qed.

Lemma hide_becomes b p m : at_rest b m -> becomes b m (b && p) (end_first (end_first (hide opts p m))).
Proof.
  intros Hr. destruct (negb b || p) eqn:E.
  - rewrite hide_nothing by (by rewrite (ar_shown _ _ Hr)). assert (b && p = b) as -> by (by destruct b, p).
    apply stays; [by apply rest_write|]. rewrite ends_write. by rewrite app_nil_r.
  - destruct b, p; try done. destruct (hide_settles m Hr) as [H1 H2]. by split.
Qed.

Lemma settle_becomes b h m : at_rest b m -> becomes b m (next b h) (settle h m).
Proof.
  intros Hr. unfold settle. pose proof Hr as [E1 E2 E3 E4 E5 [E6 E7] [E8 E9]]. destruct h; cbn [happen next].
  - pose proof (rest_restorers b m (S (armed m)) (restorers m) Hr) as Hr'. pose proof (ends_restorers m (S (armed m)) (restorers m)) as Ee.
    unfold toggle. rewrite (ar_shown _ _ Hr'). unfold becomes. rewrite <- Ee. fold (becomes b (set_restorers (S (armed m)) (restorers m) m)).
    destruct b; [pose proof (hide_becomes true prevented _ Hr') as H|pose proof (show_becomes false prevented _ Hr') as H];
      by destruct prevented.
  - by apply show_becomes.
  - by apply hide_becomes.
  - rewrite E6. destruct b; cbn [Nat.b2n times]; [by apply hide_becomes|]. by apply stays.
  - rewrite E7. destruct (bool_decide (backdrop_of opts = BackdropStatic)) eqn:Es.
    + apply bool_decide_eq_true in Es. rewrite (bool_decide_false (backdrop_of opts = BackdropTrue)) by (by rewrite Es).
      destruct (b && has_backdrop); cbn [Nat.b2n times]; [|by apply stays].
      apply stays; [by apply rest_write|]. rewrite ends_write. by rewrite app_nil_r.
    + apply bool_decide_eq_false in Es. unfold has_backdrop. destruct (backdrop_of opts); [|done|];
        rewrite ?(bool_decide_true (BackdropTrue = BackdropTrue)), ?(bool_decide_false (BackdropTrue = BackdropFalse)),
          ?(bool_decide_false (BackdropFalse = BackdropTrue)), ?(bool_decide_true (BackdropFalse = BackdropFalse)) by done; cbn [negb];
        rewrite ?andb_true_r, ?andb_false_r; [|by apply stays].
      destruct b; cbn [Nat.b2n times]; [by apply hide_becomes|]. by apply stays.
  - rewrite E8. destruct (keyboard opts); rewrite ?andb_true_r, ?andb_false_r; [|by apply stays].
    destruct b; cbn [Nat.b2n times]; [by apply hide_becomes|]. by apply stays.
  - unfold transition_end. rewrite E2. cbn [filter list_filter foldl]. apply stays; [|by destruct m].
    destruct Hr. by destruct m.
Qed.

End spec.

Lemma new_at_rest opts : at_rest opts false new_modal.
Proof. by split. Qed.

(** The modal shows or not. *)
Definition shows (opts : options) (hs : list happening) : bool := foldl (next opts) false hs.

(** C21: the modal.  When each call is left the time of its transitions, a modal is one boolean, whatever the
    options, the buttons, keys and clicks: shown or not, with the element, the
    lock and the padding of the body, one backdrop or none, the handlers of Escape, of the backdrop
    and of focus, and the announcements in agreement; a listener can prevent each change. *)
Theorem modal_settles (opts : options) (hs : list happening) :
  let m := foldl (fun m h => settle opts h m) new_modal hs in
  at_rest opts (shows opts hs) m /\
  forall h, ends (settle opts h m) = ends m ++ announced (shows opts hs) (shows opts (hs ++ [h])).
Proof.
  assert (forall hs b m, at_rest opts b m -> at_rest opts (foldl (next opts) b hs) (foldl (fun m h => settle opts h m) m hs)) as H.
  { clear hs. induction hs as [|h hs IH]; intros b m Hr; [done|]. apply IH. by apply settle_becomes. }
  cbv zeta. pose proof (H hs false new_modal (new_at_rest opts)) as Hr. split; [done|].
  intros h. unfold shows. rewrite foldl_app. by apply settle_becomes.
Qed.

(** A modal shown again while it fades out gets three backdrops, two of which no later
    call removes. *)
Lemma shown_while_closing :
  let opts := Options BackdropTrue true true true 0 false 0 in
  let ends := [HEnd OnElement; HEnd (OnBackdrop 1); HEnd (OnBackdrop 2); HEnd OnDialog] in
  let m := happens opts ([HShow false; HEnd (OnBackdrop 0); HEnd OnDialog; HHide false; HShow false] ++ ends) new_modal in
  isShown m = true /\ visible m = true /\ backdrops m = [0; 1; 2]%nat /\
  backdrops (happens opts [HHide false; HEnd OnElement; HEnd (OnBackdrop 2)] m) = [0; 1]%nat.
Proof. vm_compute. repeat split. Qed.
