(* ===== verification/Doubles.v ===== *)
(** * Doubles: the numbers of the language where they are not integers

    Operations are those of IEEE 754 ([SpecFloat]), [floor] and [round] those of [Math].  The lemmas bound the
    error of quotients and products of integers, and of the integers next to them. *)

From S2P Require Import Prelude JsString.
From Stdlib Require Import ZArith Lia SpecFloat Reals Lra.

Local Open Scope Z_scope.

Definition double : Type := spec_float.
Definition of_Z (z : Z) : double := binary_normalize 53 1024 z 0 false.
Definition add : double -> double -> double := SFadd 53 1024.
Definition mul : double -> double -> double := SFmul 53 1024.
Definition div : double -> double -> double := SFdiv 53 1024.

Inductive integral := Int (z : Z) | Infinity (negative : bool) | NaN.

Definition floor (x : double) : integral :=
  match x with
  | S754_zero _ => Int 0
  | S754_infinity s => Infinity s
  | S754_nan => NaN
  | S754_finite s m e => Int (Z.shiftl (if s then Zneg m else Zpos m) e)
  end.

(** The nearest integer, the upper one of two. *)
Definition round (x : double) : integral :=
  match x with
  | S754_finite s m e =>
      let m := if s then Zneg m else Zpos m in
      Int (if 0 <=? e then Z.shiftl m e else Z.shiftl (m + Z.shiftl 1 (- e - 1)) e)
  | _ => floor x
  end.

(** The text of a number below 10^21. *)
Definition num_text (x : integral) : text :=
  match x with
  | Int z => print_Z z
  | Infinity s => (if s then txt "-" else []) ++ txt "Infinity"
  | NaN => txt "NaN"
  end.

(** ** Powers of two *)

Definition p2 (e : Z) : R := powerRZ 2 e.

Lemma p2_pos e : (0 < p2 e)%R.
Proof. apply powerRZ_lt. lra. Qed.

Lemma p2_add a b : p2 (a + b) = (p2 a * p2 b)%R.
Proof. apply powerRZ_add. lra. Qed.

Lemma p2_0 : p2 0 = 1%R.
Proof. done. Qed.

Lemma p2_1 : p2 1 = 2%R.
Proof. apply powerRZ_1. Qed.

Lemma p2_succ a : p2 (a + 1) = (2 * p2 a)%R.
Proof. rewrite p2_add, p2_1. lra. Qed.

Lemma p2_opp a : (p2 a * p2 (- a) = 1)%R.
Proof. rewrite <- p2_add, Z.add_opp_diag_r. apply p2_0. Qed.

Lemma p2_IZR n : 0 <= n -> p2 n = IZR (2 ^ n).
Proof.
  revert n. apply natlike_ind; [done|]. intros n Hn IH. unfold Z.succ. rewrite p2_succ, IH, Z.pow_add_r by lia.
  rewrite mult_IZR. change (2 ^ 1) with 2. lra.
Qed.

Lemma digits2_bounds p : 2 ^ (Zpos (digits2_pos p) - 1) <= Zpos p < 2 ^ Zpos (digits2_pos p).
Proof.
  induction p as [p IH|p IH|]; cbn [digits2_pos]; [| |cbn; lia]; rewrite !Pos2Z.inj_succ;
    replace (Z.succ (Zpos (digits2_pos p)) - 1) with (Z.succ (Zpos (digits2_pos p) - 1)) by lia;
    rewrite !Z.pow_succ_r by lia; lia.
Qed.

Lemma digits2_unique m d : 0 < m -> 2 ^ (d - 1) <= m < 2 ^ d -> Zdigits2 m = d.
Proof.
  intros Hm H. destruct m as [|p|p]; try lia. cbn [Zdigits2]. pose proof (digits2_bounds p) as B.
  assert (0 < d) by (destruct (Z.lt_ge_cases 0 d); [done|rewrite (Z.pow_neg_r 2 (d - 1)) in H by lia;
    assert (2 ^ d <= 1) by (destruct (Z.eq_dec d 0) as [->|]; [done|rewrite Z.pow_neg_r; lia]); lia]).
  assert (Zpos (digits2_pos p) - 1 < d) by (apply (Z.pow_lt_mono_r_iff 2); lia).
  assert (d - 1 < Zpos (digits2_pos p)) by (apply (Z.pow_lt_mono_r_iff 2); lia). lia.
Qed.

(** ** What a mantissa with its two further bits stands for *)

Definition repr (mrs : shr_record) (x : R) : Prop :=
  let 'Build_shr_record m r s := mrs in
  match r, s with
  | false, false => x = IZR m
  | false, true => (IZR m < x < IZR m + / 2)%R
  | true, false => x = (IZR m + / 2)%R
  | true, true => (IZR m + / 2 < x < IZR m + 1)%R
  end.

Lemma shr_1_repr mrs x : 0 <= shr_m mrs -> repr mrs x -> repr (shr_1 mrs) (x / 2) /\ shr_m (shr_1 mrs) = shr_m mrs / 2.
Proof.
  destruct mrs as [m r s]. cbn [shr_m]. intros Hm Hx.
  assert (m = 2 * (m / 2) + (if Z.odd m then 1 else 0)) as Em by (pose proof (Z.div_mod m 2 ltac:(lia)) as E; rewrite Zmod_odd in E; exact E).
  assert (shr_1 (Build_shr_record m r s) = Build_shr_record (m / 2) (Z.odd m) (r || s)) as ->.
  { destruct m as [|[p|p|]|p]; try lia; cbn -[Z.div]; f_equal; [|].
    - cbn in Em. symmetry. rewrite Pos2Z.inj_xI, Z.mul_comm, Z.div_add_l, Z.add_0_r by lia. done.
    - rewrite Pos2Z.inj_xO, Z.mul_comm, Z.div_mul; lia. }
  split; [|done]. set (q := m / 2) in *. clearbody q.
  assert (IZR m = 2 * IZR q + if Z.odd m then 1 else 0)%R as Er.
  { rewrite Em at 1. rewrite plus_IZR, mult_IZR. by destruct (Z.odd m). }
  unfold repr in *. rewrite Er in Hx. destruct (Z.odd m), r, s; cbn [orb]; lra.
Qed.

Lemma shr_repr p : forall mrs x, 0 <= shr_m mrs -> repr mrs x ->
  repr (SpecFloat.iter_pos shr_1 p mrs) (x / p2 (Zpos p)) /\ shr_m (SpecFloat.iter_pos shr_1 p mrs) = shr_m mrs / 2 ^ Zpos p.
Proof.
  assert (forall a b, 0 <= a -> 0 <= b -> forall m, m / 2 ^ a / 2 ^ b = m / 2 ^ (a + b)) as Hd
    by (intros a b Ha Hb m; rewrite Z.div_div, <- Z.pow_add_r by lia; done).
  induction p as [p IH|p IH|]; intros mrs x Hm Hx; cbn [SpecFloat.iter_pos].
  - destruct (shr_1_repr mrs x Hm Hx) as [H1 E1].
    destruct (IH (shr_1 mrs) (x / 2)%R) as [H2 E2]; [rewrite E1; by apply Z.div_pos|done|].
    destruct (IH _ _ ltac:(rewrite E2, E1; apply Z.div_pos; [by apply Z.div_pos|lia]) H2) as [H3 E3].
    replace (Zpos p~1) with (1 + (Zpos p + Zpos p)) by lia. rewrite !p2_add, p2_1. split.
    + replace (x / (2 * (p2 (Zpos p) * p2 (Zpos p))))%R with (x / 2 / p2 (Zpos p) / p2 (Zpos p))%R; [done|].
      pose proof (p2_pos (Zpos p)). field. lra.
    + rewrite E3, E2, E1. change (shr_m mrs / 2) with (shr_m mrs / 2 ^ 1). rewrite !Hd by lia. f_equal.
  - destruct (IH mrs x Hm Hx) as [H2 E2].
    destruct (IH _ _ ltac:(rewrite E2; apply Z.div_pos; [done|lia]) H2) as [H3 E3].
    replace (Zpos p~0) with (Zpos p + Zpos p) by lia. rewrite !p2_add. split.
    + replace (x / (p2 (Zpos p) * p2 (Zpos p)))%R with (x / p2 (Zpos p) / p2 (Zpos p))%R; [done|].
      pose proof (p2_pos (Zpos p)). field. lra.
    + rewrite E3, E2, Hd by lia. done.
  - destruct (shr_1_repr mrs x Hm Hx) as [H1 E1]. rewrite p2_1. by split.
Qed.

Lemma repr_loc mrs : shr_record_of_loc (shr_m mrs) (loc_of_shr_record mrs) = mrs.
Proof. by destruct mrs as [m [] []]. Qed.

Lemma round_repr mrs x : repr mrs x -> let m := round_nearest_even (shr_m mrs) (loc_of_shr_record mrs) in
  (Rabs (IZR m - x) <= / 2)%R /\ (m = shr_m mrs \/ m = shr_m mrs + 1).
Proof.
  destruct mrs as [m r s]. cbn. intros Hx. assert (IZR (m + 1) = IZR m + 1)%R as E by apply plus_IZR.
  destruct r, s; cbn in *; [| destruct (Z.even m)| |]; rewrite ?E; (split; [apply Rabs_le; lra|tauto]).
Qed.

(** ** Rounding to 53 bits *)

Lemma fexp_normal n : -1000 <= n -> fexp 53 1024 n = n - 53.
Proof. intros Hn. unfold fexp, emin. lia. Qed.

Lemma shr_fexp_repr m e l x : 0 < m -> 53 <= Zdigits2 m -> -1000 <= Zdigits2 m + e -> repr (shr_record_of_loc m l) x ->
  exists mrs, shr_fexp 53 1024 m e l = (mrs, Zdigits2 m + e - 53) /\ repr mrs (x / p2 (Zdigits2 m - 53)) /\
    shr_m mrs = m / 2 ^ (Zdigits2 m - 53).
Proof.
  intros Hm Hd He Hx. unfold shr_fexp. rewrite fexp_normal by done.
  replace (Zdigits2 m + e - 53 - e) with (Zdigits2 m - 53) by lia.
  assert (shr_m (shr_record_of_loc m l) = m) as Em by (by destruct l as [|[]]).
  destruct (Zdigits2 m - 53) as [|p|p] eqn:E; [| |lia]; cbn [shr].
  - exists (shr_record_of_loc m l). split; [f_equal; lia|]. rewrite p2_0, Rdiv_1_r. change (2 ^ 0) with 1. by rewrite Z.div_1_r.
  - destruct (shr_repr p (shr_record_of_loc m l) x ltac:(lia) Hx) as [H1 H2]. eexists. split; [f_equal; lia|]. by rewrite H2, Em.
Qed.

Lemma repr_below mrs x : repr mrs x -> (IZR (shr_m mrs) <= x)%R.
Proof. destruct mrs as [m [] []]; cbn; lra. Qed.

(** A mantissa of 53 bits that was rounded, perhaps up to the next power of two, is put in its place. *)
Lemma finish m e : 2 ^ 52 <= m <= 2 ^ 53 -> -1000 <= 53 + e <= 1000 ->
  exists m' e' mrs, shr_fexp 53 1024 m e loc_Exact = (mrs, e') /\ shr_m mrs = Zpos m' /\ (e' <=? 1024 - 53) = true /\
    Zdigits2 (Zpos m') = 53 /\ e <= e' <= e + 1 /\ (IZR (Zpos m') * p2 e' = IZR m * p2 e)%R.
Proof.
  intros Hm He. destruct (Z.eq_dec m (2 ^ 53)) as [->|Hne].
  - exists (2 ^ 52)%positive, (e + 1). eexists. unfold shr_fexp. change (Zdigits2 (2 ^ 53)) with 54.
    rewrite fexp_normal by lia. replace (54 + e - 53 - e) with 1 by lia. split; [reflexivity|].
    split; [reflexivity|]. split; [apply Z.leb_le; lia|]. split; [reflexivity|]. split; [lia|].
    rewrite p2_succ. change (2 ^ 53) with (2 * 2 ^ 52). rewrite mult_IZR. change (Zpos (2 ^ 52)) with (2 ^ 52). lra.
  - assert (Zdigits2 m = 53) as Hd by (apply digits2_unique; change (53 - 1) with 52; lia).
    destruct m as [|p|p]; try lia. exists p, e, (Build_shr_record (Zpos p) false false).
    unfold shr_fexp. rewrite Hd, fexp_normal by lia. replace (53 + e - 53 - e) with 0 by lia.
    split; [done|]. split; [done|]. split; [apply Z.leb_le; lia|]. split; [done|]. split; [lia|done].
Qed.

Lemma round_aux m e l x : 0 < m -> 53 <= Zdigits2 m -> -1000 <= Zdigits2 m + e <= 1000 -> repr (shr_record_of_loc m l) x ->
  exists m' e', binary_round_aux 53 1024 false m e l = S754_finite false m' e' /\ Zdigits2 (Zpos m') = 53 /\
    Zdigits2 m + e - 53 <= e' <= Zdigits2 m + e - 52 /\
    (Rabs (IZR (Zpos m') * p2 e' - x * p2 e) <= p2 (-53) * (x * p2 e))%R.
Proof.
  intros Hm Hd He Hx. set (d := Zdigits2 m) in *.
  assert (2 ^ (d - 1) <= m < 2 ^ d) as Hb by (subst d; destruct m as [|p|p]; try lia; apply digits2_bounds).
  destruct (shr_fexp_repr m e l x Hm Hd ltac:(lia) Hx) as (mrs & E1 & H1 & H2). fold d in E1, H1, H2.
  destruct (round_repr mrs _ H1) as [Hr Hm1]. set (m1 := round_nearest_even _ _) in *.
  assert (2 ^ 52 <= m / 2 ^ (d - 53) < 2 ^ 53) as Hq.
  { split; [apply Z.div_le_lower_bound; [lia|]|apply Z.div_lt_upper_bound; [lia|]]; rewrite <- Z.pow_add_r by lia.
    - replace (d - 53 + 52) with (d - 1); lia.
    - replace (d - 53 + 53) with d; lia. }
  destruct (finish m1 (d + e - 53)) as (m' & e' & mrs' & E2 & E3 & E4 & E5 & E6 & E7); [lia|lia|].
  exists m', e'. unfold binary_round_aux. rewrite E1. fold m1. rewrite E2, E3, E4. split_and!; try done; try lia.
  rewrite E7. replace (d + e - 53) with ((d - 53) + e) by lia. rewrite p2_add.
  pose proof (p2_pos (d - 53)) as P1. pose proof (p2_pos e) as P2.
  replace (IZR m1 * (p2 (d - 53) * p2 e) - x * p2 e)%R with ((IZR m1 - x / p2 (d - 53)) * (p2 (d - 53) * p2 e))%R by (field; lra).
  rewrite Rabs_mult, (Rabs_pos_eq (p2 (d - 53) * p2 e)) by nra.
  assert (IZR (2 ^ (d - 1)) <= x)%R as Hlow.
  { apply (Rle_trans _ (IZR m)); [apply IZR_le; lia|]. pose proof (repr_below _ _ Hx) as H. by destruct l as [|[]]. }
  rewrite <- p2_IZR in Hlow by lia. replace (d - 1) with ((d - 53) + 52) in Hlow by lia. rewrite p2_add in Hlow.
  assert (p2 (-53) * p2 52 = / 2)%R as Hh by (rewrite <- p2_add; change (-53 + 52) with (-1); pose proof (p2_opp 1) as H; rewrite p2_1 in H; change (- (1)) with (-1) in H; lra).
  pose proof (p2_pos (-53)) as P3. pose proof (p2_pos 52) as P4.
  apply (Rle_trans _ (/ 2 * (p2 (d - 53) * p2 e))); [apply Rmult_le_compat_r; nra|]. rewrite <- Hh.
  replace (p2 (-53) * p2 52 * (p2 (d - 53) * p2 e))%R with (p2 (-53) * (p2 (d - 53) * p2 52 * p2 e))%R by ring.
  apply Rmult_le_compat_l; [lra|]. apply Rmult_le_compat_r; lra.
Qed.

(** ** Integers as doubles *)

Lemma round_exact m e : Zdigits2 (Zpos m) = 53 -> -1000 <= 53 + e <= 1000 ->
  binary_round_aux 53 1024 false (Zpos m) e loc_Exact = S754_finite false m e.
Proof.
  intros Hd He. unfold binary_round_aux, shr_fexp. rewrite Hd, fexp_normal by lia.
  replace (53 + e - 53 - e) with 0 by lia. cbn [shr shr_record_of_loc loc_of_shr_record shr_m round_nearest_even].
  rewrite Hd, fexp_normal by lia. replace (53 + e - 53 - e) with 0 by lia. cbn [shr shr_m shr_record_of_loc].
  by rewrite (proj2 (Z.leb_le _ _)) by lia.
Qed.

Lemma iter_xO p k : Zpos (Pos.iter xO p k) = Zpos p * 2 ^ Zpos k.
Proof.
  induction k as [|k IH] using Pos.peano_ind; [cbn; lia|]. rewrite Pos.iter_succ, Pos2Z.inj_xO, IH, Pos2Z.inj_succ, Z.pow_succ_r; lia.
Qed.

(** A double that is not too large or too small. *)
Definition normal (x : double) (m : positive) (e : Z) : Prop := x = S754_finite false m e /\ Zdigits2 (Zpos m) = 53.

Lemma of_Z_normal n : 0 < n < 2 ^ 53 -> exists m e, normal (of_Z n) m e /\ -52 <= e <= 0 /\ Zpos m = n * 2 ^ (- e).
Proof.
  intros Hn. destruct n as [|p|p]; try lia. set (d := Zpos (digits2_pos p)).
  pose proof (digits2_bounds p) as Hb. fold d in Hb.
  assert (1 <= d <= 53) as Hd by (assert (d - 1 < 53); [apply (Z.pow_lt_mono_r_iff 2); lia|unfold d in *; lia]).
  exists (fst (shl_align p 0 (d - 53))), (d - 53).
  assert (Zpos (fst (shl_align p 0 (d - 53))) = Zpos p * 2 ^ (53 - d) /\ (shl_align p 0 (d - 53)).2 = d - 53) as [E1 E2].
  { unfold shl_align. rewrite Z.sub_0_r. replace (53 - d) with (- (d - 53)) by lia.
    destruct (d - 53) as [|k|k] eqn:E; [cbn; lia|lia|]. split; [apply iter_xO|done]. }
  assert (Zdigits2 (Zpos (fst (shl_align p 0 (d - 53)))) = 53) as Hm.
  { apply digits2_unique; [lia|]. rewrite E1. replace (53 - 1) with ((d - 1) + (53 - d)) by lia.
    replace 53 with (d + (53 - d)) at 4 by lia. rewrite !Z.pow_add_r by lia. nia. }
  split; [split; [|done]|split; [lia|rewrite E1; f_equal; f_equal; lia]].
  unfold of_Z, binary_normalize, binary_round. rewrite fexp_normal by lia.
  fold d. replace (d + 0 - 53) with (d - 53) by lia. rewrite (surjective_pairing (shl_align p 0 (d - 53))), E2.
  apply round_exact; [done|lia].
Qed.

(** ** Quotients and products *)

Lemma new_location_repr q r n : 0 <= r < n ->
  repr (shr_record_of_loc q (new_location n r)) (IZR q + IZR r / IZR n)%R.
Proof.
  intros Hr. assert (0 < IZR n)%R as Hn by (apply (IZR_lt 0); lia).
  set (t := (IZR r / IZR n)%R). assert (IZR r = t * IZR n)%R as Et by (unfold t; field; lra).
  assert (r = 0 -> (t = 0)%R) as H0 by (intros ->; unfold t; field; lra).
  assert (0 < r -> (0 < t)%R) as Hpos by (intros H; apply (IZR_lt 0) in H; rewrite Et in H; nra).
  assert (t < 1)%R as H1 by (assert (IZR r < IZR n)%R by (apply IZR_lt; lia); nra).
  assert (2 * r < n -> (t < / 2)%R) as Hlt by (intros H; apply IZR_lt in H; rewrite mult_IZR in H; nra).
  assert (2 * r = n -> (t = / 2)%R) as Heq by (intros H; apply (f_equal IZR) in H; rewrite mult_IZR in H; nra).
  assert (n < 2 * r -> (/ 2 < t)%R) as Hgt by (intros H; apply IZR_lt in H; rewrite mult_IZR in H; nra).
  clearbody t. assert (new_location n r = if r =? 0 then loc_Exact else loc_Inexact (if Z.even n then 2 * r ?= n
    else match 2 * r + 1 ?= n with Gt => Gt | _ => Lt end)) as ->.
  { unfold new_location, new_location_even, new_location_odd. destruct r; [by destruct (Z.even n)| |]; cbn [Z.eqb];
      (destruct (Z.even n); [done|]; cbn; by destruct (_ ?= _)). }
  destruct (Z.eqb_spec r 0) as [->|Hne]; [cbn; rewrite H0 by done; lra|].
  assert (0 < t)%R as Ht by (apply Hpos; lia). destruct (Z.even n) eqn:En.
  - destruct (Z.compare_spec (2 * r) n) as [E|E|E]; cbn; [rewrite (Heq E); lra|specialize (Hlt E); lra|specialize (Hgt E); lra].
  - assert (Z.odd n = true) as Eo by (by rewrite <- Z.negb_even, En). apply Z.odd_spec in Eo as [k Ek].
    destruct (Z.compare_spec (2 * r + 1) n) as [E|E|E]; cbn; [specialize (Hlt ltac:(lia))|specialize (Hlt ltac:(lia))|specialize (Hgt ltac:(lia))]; lra.
Qed.

Lemma pos_digits m : Zdigits2 (Zpos m) = 53 -> 2 ^ 52 <= Zpos m < 2 ^ 53.
Proof. intros H. pose proof (digits2_bounds m) as B. cbn [Zdigits2] in H. rewrite H in B. done. Qed.

Lemma div_normal x m1 e1 y m2 e2 : normal x m1 e1 -> normal y m2 e2 -> -200 <= e1 <= 200 -> -200 <= e2 <= 200 ->
  let v := (IZR (Zpos m1) * p2 e1 / (IZR (Zpos m2) * p2 e2))%R in
  exists m e, normal (div x y) m e /\ e1 - e2 - 60 <= e <= e1 - e2 + 10 /\
    (Rabs (IZR (Zpos m) * p2 e - v) <= p2 (-53) * v)%R.
Proof.
  intros [-> D1] [-> D2] He1 He2 v. unfold div. cbn [SFdiv xorb]. unfold SFdiv_core_binary. rewrite D1, D2.
  replace (53 + e1 - (53 + e2)) with (e1 - e2) by lia. rewrite fexp_normal by lia.
  replace (Z.min (e1 - e2 - 53) (e1 - e2)) with (e1 - e2 - 53) by lia.
  replace (e1 - e2 - (e1 - e2 - 53)) with 53 by lia. rewrite Z.shiftl_mul_pow2 by lia.
  pose proof (pos_digits m1 D1) as B1. pose proof (pos_digits m2 D2) as B2.
  pose proof (Z.div_mod (Zpos m1 * 2 ^ 53) (Zpos m2) ltac:(lia)) as Eq. unfold Z.div, Z.modulo in Eq.
  pose proof (Z_div_mod (Zpos m1 * 2 ^ 53) (Zpos m2) ltac:(lia)) as Er.
  destruct (Z.div_eucl (Zpos m1 * 2 ^ 53) (Zpos m2)) as [q r]. destruct Er as [Er Hr]. clear Eq.
  assert (2 ^ 52 <= q < 2 ^ 54) as Hq.
  { split; apply Z.nlt_ge || apply Z.nle_gt; intros Hc.
    - assert (Zpos m2 * (q + 1) <= (2 ^ 53 - 1) * 2 ^ 52) by (apply Z.mul_le_mono_nonneg; lia). lia.
    - assert (2 ^ 52 * 2 ^ 54 <= Zpos m2 * q) by (apply Z.mul_le_mono_nonneg; lia). lia. }
  assert (Zdigits2 q = 53 \/ Zdigits2 q = 54) as Hdq.
  { destruct (Z.lt_ge_cases q (2 ^ 53)); [left|right]; apply digits2_unique; lia. }
  pose proof (new_location_repr q r (Zpos m2) ltac:(lia)) as Hrep.
  destruct (round_aux q (e1 - e2 - 53) _ _ ltac:(lia) ltac:(lia) ltac:(lia) Hrep) as (m & e & E & Hm & He & Hv).
  exists m, e. split; [by split|]. split; [lia|].
  assert ((IZR q + IZR r / IZR (Zpos m2)) * p2 (e1 - e2 - 53) = v)%R as <-; [|exact Hv].
  assert (IZR (Zpos m1) * p2 53 = IZR (Zpos m2) * IZR q + IZR r)%R as Ei
    by (rewrite p2_IZR, <- mult_IZR, Er, plus_IZR, mult_IZR by lia; done).
  assert (0 < IZR (Zpos m2))%R as Hp by (apply (IZR_lt 0); lia).
  unfold v. replace e1 with ((e1 - e2 - 53) + 53 + e2) at 2 by lia. rewrite !p2_add.
  pose proof (p2_pos e2) as P2. pose proof (p2_pos 53) as P53.
  replace (IZR (Zpos m1) * (p2 (e1 - e2 - 53) * p2 53 * p2 e2))%R with ((IZR (Zpos m1) * p2 53) * p2 (e1 - e2 - 53) * p2 e2)%R by ring.
  rewrite Ei. field. lra.
Qed.

Lemma mul_normal x m1 e1 y m2 e2 : normal x m1 e1 -> normal y m2 e2 -> -300 <= e1 <= 300 -> -300 <= e2 <= 300 ->
  let v := (IZR (Zpos m1) * p2 e1 * (IZR (Zpos m2) * p2 e2))%R in
  exists m e, normal (mul x y) m e /\ (Rabs (IZR (Zpos m) * p2 e - v) <= p2 (-53) * v)%R.
Proof.
  intros [-> D1] [-> D2] He1 He2 v. unfold mul. cbn [SFmul xorb].
  pose proof (pos_digits m1 D1) as B1. pose proof (pos_digits m2 D2) as B2.
  assert (2 ^ 104 <= Zpos (m1 * m2) < 2 ^ 106) as B.
  { rewrite Pos2Z.inj_mul. change (2 ^ 104) with (2 ^ 52 * 2 ^ 52). change (2 ^ 106) with (2 ^ 53 * 2 ^ 53). nia. }
  assert (Zdigits2 (Zpos (m1 * m2)) = 105 \/ Zdigits2 (Zpos (m1 * m2)) = 106) as Hd.
  { destruct (Z.lt_ge_cases (Zpos (m1 * m2)) (2 ^ 105)); [left|right]; apply digits2_unique; lia. }
  destruct (round_aux (Zpos (m1 * m2)) (e1 + e2) loc_Exact (IZR (Zpos (m1 * m2))) ltac:(lia) ltac:(lia) ltac:(lia) eq_refl)
    as (m & e & E & Hm & He & Hv).
  exists m, e. split; [by split|]. assert (IZR (Zpos (m1 * m2)) * p2 (e1 + e2) = v)%R as <-; [|exact Hv].
  unfold v. rewrite Pos2Z.inj_mul, mult_IZR, p2_add. ring.
Qed.

(** ** The integers next to a double *)

Lemma round_normal x m e : normal x m e -> exists z, round x = Int z /\ (Rabs (IZR z - IZR (Zpos m) * p2 e) <= / 2)%R.
Proof.
  intros [-> _]. unfold round. destruct (Z.leb_spec 0 e) as [He|He]; eexists; (split; [reflexivity|]).
  - rewrite Z.shiftl_mul_pow2, mult_IZR, <- p2_IZR by done. apply Rabs_le. lra.
  - assert (exists k, e = - (k + 1) /\ 0 <= k) as (k & -> & Hk) by (exists (- e - 1); lia).
    replace (- - (k + 1) - 1) with k by lia.
    rewrite (Z.shiftl_mul_pow2 1 k), Z.mul_1_l, Z.shiftl_div_pow2, Z.opp_involutive by lia.
    set (n := Zpos m + 2 ^ k). assert (0 < 2 ^ (k + 1)) as H2 by (by apply Z.pow_pos_nonneg; lia).
    pose proof (Z.div_mod n (2 ^ (k + 1)) ltac:(lia)) as Ed. pose proof (Z.mod_pos_bound n (2 ^ (k + 1)) H2) as Hd.
    set (z := n / 2 ^ (k + 1)) in *. assert (2 ^ (k + 1) * z <= n < 2 ^ (k + 1) * z + 2 ^ (k + 1)) as [Ha Hb] by lia.
    clearbody z. clear Ed Hd. unfold n in Ha, Hb. apply IZR_le in Ha. apply IZR_lt in Hb.
    rewrite ?plus_IZR, ?mult_IZR, <- !p2_IZR in * by lia. rewrite p2_succ in Ha, Hb.
    pose proof (p2_opp (k + 1)) as Ho. rewrite p2_succ in Ho. pose proof (p2_pos k) as Pk. pose proof (p2_pos (- (k + 1))) as Po.
    set (t := p2 k) in *. set (u := p2 (- (k + 1))) in *. apply Rabs_le.
    assert (IZR z = 2 * t * IZR z * u)%R as Ez by (transitivity (IZR z * (2 * t * u))%R; [rewrite Ho; lra|ring]).
    assert (t * u = / 2)%R as Eh by lra. split; nra.
Qed.

Lemma floor_of_Z n : 0 <= n < 2 ^ 53 -> floor (of_Z n) = Int n.
Proof.
  intros Hn. destruct (Z.eq_dec n 0) as [->|Hne]; [done|].
  destruct (of_Z_normal n ltac:(lia)) as (m & e & [-> _] & He & Em). cbn [floor]. rewrite Em.
  rewrite Z.shiftl_div_pow2 by lia. rewrite Z.div_mul; [done|]. lia.
Qed.

Lemma Rabs_between x y : (Rabs x <= y)%R -> (- y <= x <= y)%R.
Proof. unfold Rabs. destruct (Rcase_abs x); lra. Qed.

(** [n / d] rounded. *)
Definition nearest (z n d : Z) : Prop := 2 * Z.abs (d * z - n) <= d.

(** A size scaled by a quotient is rounded to the nearest integer, in spite of the two
    roundings before. *)
Lemma scale_nearest c w x : 0 < c < 2 ^ 10 -> 0 < w < 2 ^ 40 -> 0 <= x < 2 ^ 40 ->
  exists z, round (mul (div (of_Z c) (of_Z w)) (of_Z x)) = Int z /\ nearest z (c * x) w.
Proof.
  intros Hc Hw Hx.
  destruct (of_Z_normal c ltac:(lia)) as (mc & ec & Nc & Hec & Ec).
  destruct (of_Z_normal w ltac:(lia)) as (mw & ew & Nw & Hew & Ew).
  assert (forall n m e, -52 <= e <= 0 -> Zpos m = n * 2 ^ (- e) -> (IZR (Zpos m) * p2 e = IZR n)%R) as Hval.
  { intros n m e He ->. rewrite mult_IZR, <- p2_IZR by lia. pose proof (p2_opp e) as H.
    transitivity (IZR n * (p2 e * p2 (- e)))%R; [ring|rewrite H; ring]. }
  destruct (div_normal _ _ _ _ _ _ Nc Nw ltac:(lia) ltac:(lia)) as (ma & ea & Na & Hea & Ha).
  destruct (Z.eq_dec x 0) as [->|Hx0].
  { exists 0. destruct Na as [-> _]. split; [done|]. unfold nearest. lia. }
  destruct (of_Z_normal x ltac:(lia)) as (mx & ex & Nx & Hex & Ex).
  destruct (mul_normal _ _ _ _ _ _ Na Nx ltac:(lia) ltac:(lia)) as (mb & eb & Nb & Hb).
  destruct (round_normal _ _ _ Nb) as (z & -> & Hz). exists z. split; [done|].
  rewrite (Hval c mc ec Hec Ec), (Hval w mw ew Hew Ew) in Ha. rewrite (Hval x mx ex Hex Ex) in Hb.
  set (a := (IZR (Zpos ma) * p2 ea)%R) in *. set (b := (IZR (Zpos mb) * p2 eb)%R) in *.
  assert (0 < IZR c < 1024)%R as Rc by (split; [apply (IZR_lt 0)|apply IZR_lt]; lia).
  assert (0 < IZR w)%R as Rw by (apply (IZR_lt 0); lia).
  assert (0 < IZR x)%R as Rx by (apply (IZR_lt 0); lia).
  assert (p2 (-53) * IZR x <= / 8192)%R as Re.
  { apply (Rle_trans _ (p2 (-53) * p2 40)).
    - apply Rmult_le_compat_l; [apply Rlt_le, p2_pos|]. rewrite p2_IZR by lia. apply IZR_le. lia.
    - rewrite <- p2_add. change (-53 + 40) with (- (13)). pose proof (p2_opp 13) as H. rewrite (p2_IZR 13) in H by lia.
      change (2 ^ 13) with 8192 in H. lra. }
  set (ep := p2 (-53)) in *. assert (0 < ep)%R as Pe by apply p2_pos. clearbody ep a b.
  set (v := (IZR c / IZR w)%R) in *. assert (v * IZR w = IZR c)%R as Ev by (unfold v; field; lra). clearbody v.
  assert (0 < v)%R as Pv by nra.
  apply Rabs_between in Ha, Hb, Hz.
  assert (1 <= IZR x)%R as Rx1 by (apply IZR_le; lia). assert (ep <= 1)%R as Re1 by nra.
  assert (0 < ep * IZR x)%R as Pex by nra.
  assert (- (ep * IZR c) <= IZR w * a - IZR c <= ep * IZR c)%R as Hwa by (rewrite <- Ev; nra).
  assert (- (ep * IZR x * (IZR w * a)) <= IZR w * (b - a * IZR x) <= ep * IZR x * (IZR w * a))%R as Hwb by nra.
  assert (ep * IZR x * (IZR w * a) <= ep * IZR x * (2 * IZR c))%R as Hw2 by nra.
  assert (- (ep * IZR x * IZR c) <= (IZR w * a - IZR c) * IZR x <= ep * IZR x * IZR c)%R as Hwx by nra.
  assert (3 * (ep * IZR x) * IZR c < / 2)%R as Hs by nra.
  assert (- (IZR w * / 2) <= IZR w * (IZR z - b) <= IZR w * / 2)%R as Hwz by nra.
  assert (- (IZR w + 1) < 2 * (IZR w * IZR z - IZR c * IZR x) < IZR w + 1)%R as [Hr1 Hr2] by nra.
  rewrite <- (mult_IZR w z), <- (mult_IZR c x), <- minus_IZR, <- (mult_IZR 2), <- (plus_IZR w 1) in Hr2.
  rewrite <- (mult_IZR w z), <- (mult_IZR c x), <- minus_IZR, <- (mult_IZR 2), <- (plus_IZR w 1), <- opp_IZR in Hr1.
  apply lt_IZR in Hr1, Hr2. unfold nearest. lia.
Qed.
