(* ===== verification/PersonalProfile.v ===== *)
(** * The picture of a profile (app/assets/javascripts/personal_profile.js, bundle lines 12813-12899)

    The script runs when a page is ready: it reads the attributes of #picture_form,
    starts the crop of the picture, makes one of two dialogs, and binds the buttons that open them.
    The two dialogs are in global variables, which outlive the page: Turbolinks loads pages into
    one document, and puts a page back as it was left. *)

From Stdlib Require Import ZArith Lia Ascii.
From S2P Require Import Prelude JsString Doubles.

Local Open Scope Z_scope.

Module PersonalProfile.

(** ** Data attributes *)

(** Texts that read as 1 without being its numeral, and texts in JSON, are not considered. *)
Inductive data_value := VUndefined | VNull | VBool (b : bool) | VNum (z : Z) | VStr (s : text).

Definition numeral (s : text) : option Z :=
  let z := match s with c :: s' => if decide (c = "-"%char) then - parse_digits s' else parse_digits s | [] => 0 end in
  if decide (print_Z z = s) then Some z else None.

Definition dataAttr (a : option text) : data_value :=
  match a with
  | None => VUndefined
  | Some s =>
      if decide (s = txt "true") then VBool true
      else if decide (s = txt "false") then VBool false
      else if decide (s = txt "null") then VNull
      else match numeral s with Some z => VNum z | None => VStr s end
  end.

(** [v != "null"] *)
Definition neq_null (v : data_value) : bool :=
  match v with VStr s => negb (bool_decide (s = txt "null")) | _ => true end.
(** [v == true] *)
Definition eq_true (v : data_value) : bool :=
  match v with VBool b => b | VNum z => z =? 1 | _ => false end.
(** [typeof v != "undefined"] *)
Definition defined (v : data_value) : bool := match v with VUndefined => false | _ => true end.

(** ** Pages *)

(** What the script looks for: the attributes of #picture_form, the size of #cropbox, and whether the
    others are there. *)
Record page := Page {
  picture_form : option (option text * option text);
  cropbox : option (Z * Z);
  preview : bool; broker_crop : bool; user_crop : bool;
  change_form : bool; upload_form : bool; btn_change : bool; btn_upload : bool
}.

Inductive owner := Broker | User.

(** A page that was loaded: its dialogs open or not, the selection its crop starts from, the sizes given to
    the preview, the fields that are sent. *)
Record loaded := Loaded {
  l_page : page; l_change : bool; l_upload : bool;
  l_jcrop : option (list double); l_preview : list text; l_fields : option (owner * list text)
}.

Definition new_page (p : page) : loaded := Loaded p false false None [] None.
Definition set_change b (l : loaded) := let 'Loaded p _ u j v f := l in Loaded p b u j v f.
Definition set_upload b (l : loaded) := let 'Loaded p c _ j v f := l in Loaded p c b j v f.
Definition set_jcrop j (l : loaded) := let 'Loaded p c u _ v f := l in Loaded p c u j v f.
Definition set_preview v (l : loaded) := let 'Loaded p c u j _ f := l in Loaded p c u j v f.
Definition set_fields f (l : loaded) := let 'Loaded p c u j v _ := l in Loaded p c u j v f.

(** The pages of the document in the order they were loaded, and the globals: pages whose
    dialogs they hold. *)
Record program := Program {
  pages : list loaded; current : nat; change_dialog : option nat; upload_dialog : option nat
}.

Definition set_pages ps (s : program) := let 'Program _ n c u := s in Program ps n c u.
Definition set_current n (s : program) := let 'Program ps _ c u := s in Program ps n c u.
Definition set_change_dialog c (s : program) := let 'Program ps n _ u := s in Program ps n c u.
Definition set_upload_dialog u (s : program) := let 'Program ps n c _ := s in Program ps n c u.
Definition on_page (n : nat) (f : loaded -> loaded) : st_ex program unit := smodify (fun s => set_pages (alter f n (pages s)) s).

Definition here {A} (d : A) (f : loaded -> A) (s : program) : A := match pages s !! current s with Some l => f l | None => d end.

Local Open Scope js_scope.

(** ** The crop *)

Record coords := Coords { c_x : double; c_y : double; c_w : double; c_h : double }.

(** [$('#cropbox').width()], null when there is none. *)
Definition box (p : page) : Z * Z := default (0, 0) (cropbox p).

Definition px (x : integral) : text := num_text x ++ txt "px".

(** The sizes and margins of the preview. *)
Definition preview_of (width height : Z) (c : coords) : list text :=
  let rx := div (of_Z 100) (c_w c) in
  let ry := div (of_Z 100) (c_h c) in
  [px (round (mul rx (of_Z width))); px (round (mul ry (of_Z height)));
   txt "-" ++ px (round (mul rx (c_x c))); txt "-" ++ px (round (mul ry (c_y c)))].

Definition fields_of (c : coords) : list text :=
  [num_text (floor (c_x c)); num_text (floor (c_y c)); num_text (floor (c_w c)); num_text (floor (c_h c))].

Definition update_crop (width height : Z) (c : coords) (l : loaded) : loaded :=
  let p := l_page l in
  let l := if preview p then set_preview (preview_of width height c) l else l in
  if broker_crop p then set_fields (Some (Broker, fields_of c)) l
  else if user_crop p then set_fields (Some (User, fields_of c)) l
  else l.

(** The selection at the start. *)
Definition setSelect (p : page) : list double :=
  let at_ z := add (div (of_Z z) (of_Z 2)) (of_Z 100) in
  [at_ (box p).1; at_ (box p).2; of_Z 100; of_Z 100].

(** ** The dialogs *)

(** [open] on the dialogs of a page: nothing when it has none. *)
Definition open_change (l : loaded) : loaded := if change_form (l_page l) then set_change true l else l.
Definition open_upload (l : loaded) : loaded := if upload_form (l_page l) then set_upload true l else l.

(** The callback of [$(function)], on the page that is ready. *)
Definition ready (p : page) : st_ex program unit :=
  let! n := sget current in
  let name := match picture_form p with Some (a, _) => dataAttr a | None => VUndefined end in
  let crop := match picture_form p with Some (_, a) => dataAttr a | None => VUndefined end in
  swhen (neq_null name)
    (on_page n (fun l => match cropbox p with Some _ => set_jcrop (Some (setSelect p)) l | None => l end)) ;!
  if defined name && negb (eq_true crop) then smodify (set_change_dialog (Some n))
  else if defined name && eq_true crop then
    smodify (set_change_dialog (Some n)) ;! on_page n open_change
  else smodify (set_upload_dialog (Some n)).

Definition open_by (name : string) (global : program -> option nat) (open : loaded -> loaded) : st_ex program unit :=
  let! d := sget global in
  match d with
  | Some n => on_page n open
  | None => sthrow (name ++ " is not defined")%string
  end.

(** ** What happens to the document *)

Inductive happening :=
| Load (p : page)
| Restore (n : nat)
| ClickChange
| ClickUpload
| Close
| Select (c : coords).

Definition happen (h : happening) : st_ex program unit :=
  match h with
  | Load p => smodify (fun s => set_current (length (pages s)) (set_pages (pages s ++ [new_page p]) s)) ;! ready p
  | Restore n => smodify (fun s => if decide (n < length (pages s))%nat then set_current n s else s)
  | ClickChange =>
      let! b := sget (here false (fun l => btn_change (l_page l))) in
      swhen b (open_by "change_dialog" change_dialog open_change)
  | ClickUpload =>
      let! b := sget (here false (fun l => btn_upload (l_page l))) in
      swhen b (open_by "upload_dialog" upload_dialog open_upload)
  | Close => let! n := sget current in on_page n (fun l => set_change false (set_upload false l))
  | Select c =>
      let! n := sget current in
      on_page n (fun l => match l_jcrop l with Some _ => update_crop (box (l_page l)).1 (box (l_page l)).2 c l | None => l end)
  end.

Definition start : program := Program [] 0 None None.
Definition session (hs : list happening) : program := foldl (fun s h => (happen h s).1) start hs.

Definition ex_user : page := Page (Some (Some (txt "http://cdn/a.png"), Some (txt "null"))) (Some (400, 300)) true false true true false true false.
Definition ex_empty : page := Page (Some (None, None)) None false false false false true false true.
Definition ex_other : page := Page None None false false false false false false false.

(** ** Properties *)

Definition has_image (p : page) : bool := match picture_form p with Some (Some _, _) => true | _ => false end.
(** The attribute crop is true: the picture was posted just now. *)
Definition posted (p : page) : bool := match picture_form p with Some (_, a) => eq_true (dataAttr a) | None => false end.

(** Pages as the views render them: a profile with a picture has the crop, its dialog and its button; a profile
    without, the upload; other pages, nothing. *)
Definition rendered (p : page) : Prop :=
  change_form p = has_image p /\ btn_change p = has_image p /\ (has_image p = true <-> is_Some (cropbox p)) /\
  match picture_form p with
  | Some (a, _) => upload_form p = negb (has_image p) /\ btn_upload p = negb (has_image p)
  | None => upload_form p = false /\ btn_upload p = false
  end.

Definition loads_rendered (h : happening) : Prop := match h with Load p => rendered p | _ => True end.

(** The last of the pages loaded that have a picture, or that have none. *)
Definition is_latest (image : bool) (n : nat) (ps : list page) : Prop :=
  (exists p, ps !! n = Some p /\ has_image p = image) /\
  forall m p, (n < m)%nat -> ps !! m = Some p -> has_image p = negb image.

Definition global_ok (image : bool) (d : option nat) (ps : list page) : Prop :=
  match d with
  | Some n => is_latest image n ps
  | None => forall m p, ps !! m = Some p -> has_image p = negb image
  end.

Definition kinds (s : program) : list page := l_page <$> pages s.

Record inv (s : program) : Prop := {
  inv_rendered : Forall rendered (kinds s);
  inv_change : global_ok true (change_dialog s) (kinds s);
  inv_upload : global_ok false (upload_dialog s) (kinds s)
}.

(** *** Pages stay what they are *)

Lemma kinds_alter f n s : (forall l, l_page (f l) = l_page l) -> kinds (set_pages (alter f n (pages s)) s) = kinds s.
Proof.
  intros Hf. unfold kinds. destruct s as [ps c g u]. cbn. apply list_eq. intros i. rewrite !list_lookup_fmap.
  destruct (decide (n = i)) as [->|Hne]; [rewrite list_lookup_alter_eq|by rewrite list_lookup_alter_ne].
  destruct (ps !! i); cbn; by rewrite ?Hf.
Qed.

Lemma inv_alter f n s : (forall l, l_page (f l) = l_page l) -> inv s -> inv (set_pages (alter f n (pages s)) s).
Proof. intros Hf []. split; rewrite ?kinds_alter by done; by destruct s. Qed.

Lemma open_change_page l : l_page (open_change l) = l_page l.
Proof. unfold open_change. destruct (change_form _); [by destruct l|done]. Qed.

Lemma open_upload_page l : l_page (open_upload l) = l_page l.
Proof. unfold open_upload. destruct (upload_form _); [by destruct l|done]. Qed.

Lemma update_crop_page w h c l : l_page (update_crop w h c l) = l_page l.
Proof. unfold update_crop. destruct l as [p ch u j v f]. cbn. by destruct (preview p), (broker_crop p), (user_crop p). Qed.

(** *** Loading a page *)

Lemma latest_new p ps : is_latest (has_image p) (length ps) (ps ++ [p]).
Proof.
  split; [exists p; split; [|done]; by rewrite lookup_app_r, Nat.sub_diag by lia|].
  intros m q Hm E. apply lookup_lt_Some in E. rewrite length_app in E. cbn in E. lia.
Qed.

Lemma global_other image d p ps : has_image p = negb image -> global_ok image d ps -> global_ok image d (ps ++ [p]).
Proof.
  intros Hp. assert (forall m q, (ps ++ [p]) !! m = Some q -> ps !! m = Some q \/ q = p) as H.
  { intros m q [E|[_ E]]%lookup_app_Some; [by left|right]. by apply list_lookup_singleton_Some in E as [_ <-]. }
  destruct d as [n|]; cbn.
  - intros [(q & E & Hq) Hl]. split; [exists q; split; [by apply lookup_app_l_Some|done]|].
    intros m r Hm [Er|Er]%H; [by eapply Hl|by subst].
  - intros Hl m r [Er|Er]%H; [by eapply Hl|by subst].
Qed.

(** The attribute that says a picture is there. *)
Lemma defined_image p : match picture_form p with Some (a, _) => defined (dataAttr a) | None => false end = has_image p.
Proof.
  unfold has_image. destruct (picture_form p) as [[[a|] b]|]; [|done|done]. unfold dataAttr.
  repeat (case_decide; [done|]). by destruct (numeral a).
Qed.

(** The text null is never the value of an attribute. *)
Lemma neq_null_always a : neq_null (dataAttr a) = true.
Proof.
  destruct a as [s|]; [|done]. unfold dataAttr. repeat (case_decide; [done|]).
  destruct (numeral s); [done|]. cbn. by rewrite bool_decide_false.
Qed.

(** What the script makes of the page that is ready. *)
Definition started (p : page) : loaded :=
  Loaded p (has_image p && posted p && change_form p) false ((fun _ => setSelect p) <$> cropbox p) [] None.

Lemma load_run p s : happen (Load p) s =
  (Program (pages s ++ [started p]) (length (pages s))
     (if has_image p then Some (length (pages s)) else change_dialog s)
     (if has_image p then upload_dialog s else Some (length (pages s))), Ok tt).
Proof.
  cbn [happen]. rewrite (sbind_run _ _ s _ tt eq_refl). unfold ready. rewrite (sbind_run (sget current) _ _ _ _ eq_refl).
  rewrite <- (defined_image p). destruct s as [ps n c u]. cbn [pages current set_pages set_current].
  assert (neq_null (match picture_form p with Some (a, _) => dataAttr a | None => VUndefined end) = true) as En
    by (destruct (picture_form p) as [[a b]|]; [apply neq_null_always|done]).
  rewrite En. cbn [swhen]. unfold on_page. rewrite (sbind_run (smodify _) _ _ _ tt eq_refl).
  cbn [pages set_pages]. rewrite (alter_app_r_alt) by lia. rewrite Nat.sub_diag. cbn [alter list_alter].
  unfold started. rewrite <- defined_image. unfold posted, new_page.
  destruct (picture_form p) as [[a b]|]; cbn [defined andb]; [|unfold smodify; cbn; by destruct (cropbox p)].
  destruct (defined (dataAttr a)); cbn [andb]; [|unfold smodify; cbn; by destruct (cropbox p)].
  destruct (eq_true (dataAttr b)); cbn [andb negb]; [|unfold smodify; cbn; by destruct (cropbox p)].
  rewrite (sbind_run (smodify _) _ _ _ tt eq_refl). unfold smodify. cbn [pages set_pages set_change_dialog].
  rewrite (alter_app_r_alt) by lia. rewrite Nat.sub_diag. cbn. unfold open_change.
  by destruct (cropbox p); cbn; destruct (change_form p).
Qed.

Lemma load_inv p s : rendered p -> inv s -> inv (happen (Load p) s).1.
Proof.
  intros Hp [H1 H2 H3]. rewrite load_run. unfold kinds in *.
  assert (length (pages s) = length (l_page <$> pages s)) as El by (by rewrite length_fmap).
  split; cbn; rewrite fmap_app; cbn; [apply Forall_app; split; [done|by apply Forall_singleton]| |].
  - destruct (has_image p) eqn:E; [|by apply global_other]. cbn. rewrite El, <- E. apply latest_new.
  - destruct (has_image p) eqn:E; [by apply global_other|]. cbn. rewrite El, <- E. apply latest_new.
Qed.

(** *** Clicks *)

Lemma global_some image d ps n p : global_ok image d ps -> ps !! n = Some p -> has_image p = image -> exists m, d = Some m /\ is_latest image m ps.
Proof. destruct d as [m|]; [by eauto|]. intros H E Hp. specialize (H n p E). destruct image; cbn in H; congruence. Qed.

Lemma here_page {A} (d : A) f s x : here d f s = x -> x <> d -> exists l, pages s !! current s = Some l /\ f l = x.
Proof. unfold here. destruct (pages s !! current s) as [l|]; [by eauto|congruence]. Qed.

Lemma rendered_at s n l : inv s -> pages s !! n = Some l -> rendered (l_page l) /\ kinds s !! n = Some (l_page l).
Proof.
  intros [H _ _] E. assert (kinds s !! n = Some (l_page l)) as Ek by (unfold kinds; by rewrite list_lookup_fmap, E).
  split; [|done]. by apply (Forall_lookup_1 _ _ n _ H).
Qed.

Lemma click_change_run s : inv s ->
  if here false (fun l => btn_change (l_page l)) s then
  exists m, is_latest true m (kinds s) /\ happen ClickChange s = (set_pages (alter open_change m (pages s)) s, Ok tt)
  else happen ClickChange s = (s, Ok tt).
Proof.
  intros Hi. cbn [happen]. rewrite (sbind_run (sget _) _ s s _ eq_refl).
  destruct (here false _ s) eqn:E; [|done]. apply here_page in E as (l & E & Hb); [|done].
  destruct (rendered_at s _ l Hi E) as [(_ & Hc & _) Ek].
  destruct (global_some _ _ _ _ _ (inv_change s Hi) Ek) as (m & Em & Hm); [congruence|].
  exists m. split; [done|]. cbn [swhen]. unfold open_by. rewrite (sbind_run (sget _) _ s s _ eq_refl). by rewrite Em.
Qed.

Lemma click_upload_run s : inv s ->
  if here false (fun l => btn_upload (l_page l)) s then
  exists m, is_latest false m (kinds s) /\ happen ClickUpload s = (set_pages (alter open_upload m (pages s)) s, Ok tt)
  else happen ClickUpload s = (s, Ok tt).
Proof.
  intros Hi. cbn [happen]. rewrite (sbind_run (sget _) _ s s _ eq_refl).
  destruct (here false _ s) eqn:E; [|done]. apply here_page in E as (l & E & Hb); [|done].
  destruct (rendered_at s _ l Hi E) as [(_ & _ & _ & Hc) Ek].
  assert (has_image (l_page l) = false) as Hl.
  { destruct (picture_form (l_page l)) as [[a b]|]; destruct Hc as [_ Hc]; [destruct (has_image (l_page l))|]; cbn in Hc; congruence. }
  destruct (global_some _ _ _ _ _ (inv_upload s Hi) Ek Hl) as (m & Em & Hm).
  exists m. split; [done|]. cbn [swhen]. unfold open_by. rewrite (sbind_run (sget _) _ s s _ eq_refl). by rewrite Em.
Qed.

Lemma profile_step_inv h s : loads_rendered h -> inv s -> inv (happen h s).1 /\ (happen h s).2 = Ok tt.
Proof.
  intros Hh Hi. destruct h as [p|n| | | |c].
  - split; [by apply load_inv|by rewrite load_run].
  - split; [|done]. cbn. destruct (decide _); [|done]. destruct Hi. by destruct s.
  - pose proof (click_change_run s Hi) as H. destruct (here false _ s); [destruct H as (m & _ & ->)|by rewrite H]. split; [|done]. by apply inv_alter; [apply open_change_page|].
  - pose proof (click_upload_run s Hi) as H. destruct (here false _ s); [destruct H as (m & _ & ->)|by rewrite H]. split; [|done]. by apply inv_alter; [apply open_upload_page|].
  - split; [|done]. cbn. apply inv_alter; [|done]. by intros [].
  - split; [|done]. cbn. apply inv_alter; [|done]. intros l. destruct (l_jcrop l); [apply update_crop_page|done].
Qed.

Lemma profile_session_inv hs : Forall loads_rendered hs -> inv (session hs).
Proof.
  unfold session. intros Hh. assert (inv start) as Hi by by split.
  revert Hi. generalize start as s. induction hs as [|h hs IH]; intros s Hi; [done|].
  apply Forall_cons in Hh as [Hh Hhs]. cbn. apply IH; [done|]. by apply profile_step_inv.
Qed.

Lemma is_latest_unique image m n ps : is_latest image m ps -> is_latest image n ps -> m = n.
Proof.
  intros [(p & Ep & Hp) Hm] [(q & Eq & Hq) Hn]. destruct (lt_eq_lt_dec m n) as [[Hlt|]|Hlt]; [|done|].
  - specialize (Hm n q Hlt Eq). destruct image; cbn in *; congruence.
  - specialize (Hn m p Hlt Ep). destruct image; cbn in *; congruence.
Qed.

(** What a click that opens the dialog of the page [m] shows of the dialogs here. *)
Lemma opened_here (f : loaded -> loaded) (g : loaded -> bool) m s l : pages s !! current s = Some l -> g (f l) = true ->
  let s' := set_pages (alter f m (pages s)) s in
  here false g s' = true <-> g l = true \/ m = current s.
Proof.
  intros E Hg. unfold here. destruct s as [ps n c u]. cbn in *. destruct (decide (m = n)) as [->|Hne].
  - rewrite list_lookup_alter_eq, E. cbn. rewrite Hg. tauto.
  - rewrite list_lookup_alter_ne, E by done. tauto.
Qed.

(** C25: the dialogs of a profile.  In any session of pages as the views render them, no handler throws; a
    profile opens with the crop when its picture was posted just now; and a click on a button, whose handler
    reads a global variable, opens the dialog of its page when no later page of its kind was loaded, and
    otherwise leaves it as it was. *)
Theorem profile_dialogs (hs : list happening) : Forall loads_rendered hs ->
  let s := session hs in
  (forall h, loads_rendered h -> (happen h s).2 = Ok tt) /\
  (forall p, rendered p ->
     let s' := (happen (Load p) s).1 in
     here false l_change s' = has_image p && posted p /\ here false l_upload s' = false) /\
  (here false (fun l => btn_change (l_page l)) s = true ->
     (here false l_change (happen ClickChange s).1 = true <->
      here false l_change s = true \/ is_latest true (current s) (kinds s))) /\
  (here false (fun l => btn_upload (l_page l)) s = true ->
     (here false l_upload (happen ClickUpload s).1 = true <->
      here false l_upload s = true \/ is_latest false (current s) (kinds s))).
Proof.
  intros Hh s. pose proof (profile_session_inv hs Hh) as Hi. fold s in Hi. split; [intros h Hl; by apply (profile_step_inv h s)|].
  split; [|split].
  - intros p (Hc & _). rewrite load_run. unfold here. cbn. rewrite lookup_app_r, Nat.sub_diag by lia. cbn. rewrite Hc.
    split; [by destruct (has_image p), (posted p)|done].
  - intros Hb. pose proof (click_change_run s Hi) as H. rewrite Hb in H. destruct H as (m & Hm & ->).
    apply here_page in Hb as (l & E & Hb); [|done]. destruct (rendered_at s _ l Hi E) as [(Hf & Hc & _) _].
    cbn [fst]. rewrite (opened_here open_change l_change m s l E) by (unfold open_change; rewrite Hf, <- Hc, Hb; by destruct l).
    unfold here. rewrite E. split; (intros [|H]; [by left|right]); [by subst|by eapply is_latest_unique].
  - intros Hb. pose proof (click_upload_run s Hi) as H. rewrite Hb in H. destruct H as (m & Hm & ->).
    apply here_page in Hb as (l & E & Hb); [|done]. destruct (rendered_at s _ l Hi E) as [(_ & _ & _ & Hf) _].
    assert (upload_form (l_page l) = true) as Hu by (destruct (picture_form (l_page l)) as [[a b]|]; destruct Hf; congruence).
    cbn [fst]. rewrite (opened_here open_upload l_upload m s l E) by (unfold open_upload; rewrite Hu; by destruct l).
    unfold here. rewrite E. split; (intros [|H]; [by left|right]); [by subst|by eapply is_latest_unique].
Qed.

Lemma profile_dialogs_witness :
  let s := session [Load ex_user; Load ex_other; Restore 0] in
  (happen ClickChange s).2 = Ok tt /\ here false l_change (happen ClickChange s).1 = true.
Proof.
  destruct (profile_dialogs [Load ex_user; Load ex_other; Restore 0]) as (H1 & _ & H2 & _).
  - assert (forall p, rendered p -> loads_rendered (Load p)) as Hr by (intros p Hp; exact Hp).
    apply List.Forall_cons; [|apply List.Forall_cons; [|apply List.Forall_cons; [exact I|apply List.Forall_nil]]]; apply Hr;
      vm_compute; repeat split; try (intros _; eexists; reflexivity); try (intros [? ?]; discriminate); discriminate.
  - split; [apply (H1 ClickChange I)|]. apply H2; [vm_compute; reflexivity|]. right. split.
    + exists ex_user. split; reflexivity.
    + intros [|[|m]] p Hm E; [lia| |]; vm_compute in E; [injection E as <-; reflexivity|discriminate].
Defined.

(** Any page without a picture takes the variable of the upload: back on a profile without
    picture, its button opens nothing. *)
Lemma upload_button_dead :
  here true l_upload (session [Load ex_empty; Load ex_other; Restore 0; ClickUpload]) = false /\
  here false l_upload (session [Load ex_empty; ClickUpload]) = true.
Proof. by vm_compute. Qed.

(** The test of the name is always true, even on pages that have no picture. *)
Lemma name_never_null a : neq_null (dataAttr a) = true /\ neq_null VUndefined = true.
Proof. split; [apply neq_null_always|done]. Qed.

(** ** The crop *)

(** C24: the crop.  A selection of whole pixels, which are doubles in the handler, is kept as it is in the fields that
    are sent, in those of a broker first; and the preview is scaled and moved so that the selection fills its
    100 pixels, each size and margin being the nearest number of pixels. *)
Theorem crop_preview (l : loaded) (x y w h : Z) :
  let p := l_page l in
  preview p = true -> broker_crop p || user_crop p = true ->
  Forall (fun z => 0 <= z < 2 ^ 40) [x; y; (box p).1; (box p).2] -> 0 < w < 2 ^ 40 -> 0 < h < 2 ^ 40 ->
  let l' := update_crop (box p).1 (box p).2 (Coords (of_Z x) (of_Z y) (of_Z w) (of_Z h)) l in
  l_fields l' = Some (if broker_crop p then Broker else User, print_Z <$> [x; y; w; h]) /\
  exists width height left top : Z,
    l_preview l' = [px (Int width); px (Int height); txt "-" ++ px (Int left); txt "-" ++ px (Int top)] /\
    nearest width (100 * (box p).1) w /\ nearest height (100 * (box p).2) h /\
    nearest left (100 * x) w /\ nearest top (100 * y) h.
Proof.
  intros p Hp Hf Hz Hw Hh l'. apply Forall_cons in Hz as [Hx Hz]. apply Forall_cons in Hz as [Hy Hz].
  apply Forall_cons in Hz as [Hbw Hz]. apply Forall_cons in Hz as [Hbh _].
  destruct (scale_nearest 100 w (box p).1) as (width & E1 & N1); [lia..|].
  destruct (scale_nearest 100 h (box p).2) as (height & E2 & N2); [lia..|].
  destruct (scale_nearest 100 w x) as (left & E3 & N3); [lia..|].
  destruct (scale_nearest 100 h y) as (top & E4 & N4); [lia..|].
  assert (fields_of (Coords (of_Z x) (of_Z y) (of_Z w) (of_Z h)) = print_Z <$> [x; y; w; h]) as Ef
    by (unfold fields_of; cbn [c_x c_y c_w c_h]; by rewrite !floor_of_Z by lia).
  unfold l', update_crop. fold p. rewrite Hp, Ef. split.
  - destruct (broker_crop p); [by destruct l|]. cbn in Hf. rewrite Hf. by destruct l.
  - exists width, height, left, top. split_and!; [|done..]. unfold preview_of. cbn [c_x c_y c_w c_h].
    rewrite E1, E2, E3, E4. destruct (broker_crop p), (user_crop p); by destruct l.
Qed.

Lemma crop_preview_witness : exists width : Z, l_preview (update_crop 400 300 (Coords (of_Z 13) (of_Z 7) (of_Z 24) (of_Z 24)) (new_page ex_user)) !! 0%nat =
    Some (px (Int width)) /\ nearest width 40000 24.
Proof.
  destruct (crop_preview (new_page ex_user) 13 7 24 24) as (_ & a & b & c & d & E & N & _).
  - reflexivity.
  - reflexivity.
  - cbn. repeat (apply List.Forall_cons; [lia|]). apply List.Forall_nil.
  - lia.
  - lia.
  - exists a. split; [|exact N]. exact (f_equal (lookup 0%nat) E).
Defined.

End PersonalProfile.
