(* ===== verification/AjaxConvert.v ===== *)
(** * jQuery: the data of an answer (application bundle, lines 8676-8820)

    An answer comes as one or more data of known types ([ajaxHandleResponses] chooses one), and is
    converted along the list of types asked for ([ajaxConvert]).  Keys of converters are pairs of types, in
    the order of the object; they are in lower case. *)

From S2P Require Import Prelude.
From Stdlib Require Import Lia.

Local Open Scope string_scope.

(** Data: [None] is undefined. *)
Definition value : Type := option string.

(** [true], or a function, which can throw. *)
Inductive converter := Same | Convert (f : value -> option value).

Record table := Table {
  contents : list (string * (string -> bool));
  converters : list (string * string * converter);
  dataFilter : option (value -> value)
}.

Section tables.
Context (s : table).

(** ** [ajaxHandleResponses] *)

Definition content_type (ct : string) : option string := fst <$> head (filter (fun c => c.2 ct = true) (contents s)).

(** Types that are automatic are removed; the type of the content is in front when it is known. *)
Fixpoint skip_auto (dataTypes : list string) : list string :=
  match dataTypes with
  | "*" :: l => skip_auto l
  | l => l
  end.

Definition known_type (ct : string) (dataTypes : list string) : list string :=
  match dataTypes with
  | "*" :: _ =>
      let l := skip_auto dataTypes in
      if decide (ct = "") then l else match content_type ct with Some t => t :: l | None => l end
  | l => l
  end.

Definition lookup_converter (a b : string) : option converter :=
  snd <$> head (filter (fun c => c.1 = (a, b)) (converters s)).

Definition response_of (t : string) (responses : list (string * value)) : option value :=
  snd <$> head (filter (fun r => r.1 = t) responses).

Definition final_type (dataTypes : list string) (responses : list (string * value)) : option string :=
  match head dataTypes with
  | Some t =>
      match response_of t responses with
      | Some _ => Some t
      | None =>
          match head (filter (fun r => is_Some (lookup_converter r.1 t)) responses) with
          | Some r => Some r.1
          | None => fst <$> head responses
          end
      end
  | None => fst <$> head responses
  end.

Definition ajaxHandleResponses (ct : string) (dataTypes : list string) (responses : list (string * value)) : list string * value :=
  let dataTypes := known_type ct dataTypes in
  match final_type dataTypes responses with
  | Some t =>
      (if decide (head dataTypes = Some t) then dataTypes else t :: dataTypes, default None (response_of t responses))
  | None => (dataTypes, None)
  end.

(** ** [ajaxConvert] *)

Inductive result := Success (v : value) | ParserError (prev current : string) (thrown : bool).

(** A converter from [a], of its type or of any. *)
Definition converts (a b : string) : option converter :=
  match lookup_converter a b with
  | Some c => Some c
  | None => lookup_converter "*" b
  end.

(** A pair of converters that leads to [b]. *)
Definition seek_pair (a b : string) : option (string * converter * converter) :=
  head (omap (fun '(t, b', c2) => if decide (b' = b) then (fun c => (t, c, c2)) <$> converts a t else None) (converters s)).

(** The next type, the converter and the types that are left, when [prev] is to become [current]. *)
Definition seek (prev current : string) (rest : list string) : string * option converter * list string :=
  match converts prev current with
  | Some c => (current, Some c, rest)
  | None =>
      match seek_pair prev current with
      | Some (_, Same, c2) => (current, Some c2, rest)
      | Some (_, c, Same) => (current, Some c, rest)
      | Some (t, c, _) => (t, Some c, current :: rest)
      | None => (current, None, rest)
      end
  end.

(** The loop after the first type. *)
Fixpoint convert (n : nat) (prev : string) (dataTypes : list string) (v : value) : option result :=
  match dataTypes with
  | [] => Some (Success v)
  | current :: rest =>
      match n with
      | O => None
      | S n =>
          if decide (current = "*") then convert n prev rest v
          else if decide (prev = "*" \/ prev = current) then convert n current rest v
          else
            match seek prev current rest with
            | (current, Some Same, rest) => convert n current rest v
            | (current, Some (Convert f), rest) =>
                match f v with
                | Some v => convert n current rest v
                | None => Some (ParserError prev current true)
                end
            | (current, None, _) => Some (ParserError prev current false)
            end
      end
  end.

Definition ajaxConvert (dataTypes : list string) (isSuccess : bool) (response : value) : option result :=
  match dataTypes with
  | [] => Some (Success response)
  | t :: rest =>
      let response := match dataFilter s with Some f => if isSuccess then f response else response | None => response end in
      convert (2 * length rest) t rest response
  end.

(** ** What a conversion is *)

(** A step of the table: the same type, any type taken as another, or a converter. *)
Inductive step : string -> value -> string -> value -> Prop :=
| step_auto t v : step "*" v t v
| step_refl t v : step t v t v
| step_same a b v : converts a b = Some Same -> step a v b v
| step_convert a b f v v' : converts a b = Some (Convert f) -> f v = Some v' -> step a v b v'.

(** From the first of a list of types and its data to a type and its data: two steps at most
    lead from one type of the list to the next. *)
Inductive chain : string -> value -> list string -> string -> value -> Prop :=
| chain_nil t v : chain t v [] t v
| chain_auto t v l t' v' : chain t v l t' v' -> chain t v ("*" :: l) t' v'
| chain_one t v u v1 l t' v' : u <> "*" -> step t v u v1 -> chain u v1 l t' v' -> chain t v (u :: l) t' v'
| chain_two t v m v1 u v2 l t' v' :
    u <> "*" -> step t v m v1 -> step m v1 u v2 -> chain u v2 l t' v' -> chain t v (u :: l) t' v'.

(** No step, and no pair of steps, leads from [a] to [b]. *)
Definition no_way (a b : string) : Prop :=
  a <> b /\ converts a b = None /\ forall m, lookup_converter m b = None \/ converts a m = None.

(** The converter from [a] to [b] throws on [v]. *)
Definition fails (a b : string) (v : value) : Prop := exists f, converts a b = Some (Convert f) /\ f v = None.

(** On the way from [t], with the data [v], to [u] a converter throws, and the error names [a] and [b]: it is the one
    converter there is, or the first of two, or the second, which gets what the first gives. *)
Inductive broken (t : string) (v : value) (u : string) : string -> string -> Prop :=
| broken_one : fails t u v -> broken t v u t u
| broken_first m : converts t u = None -> fails t m v -> is_Some (converts m u) ->
    forall b, b = m \/ b = u -> broken t v u t b
| broken_second m v' : converts t u = None -> step t v m v' -> fails m u v' ->
    forall a, a = m \/ a = t -> broken t v u a u.

(** A success is the data at the end of a chain along the whole list.  An error comes after a
    chain along the types before one of the list, [u], to which a converter throws or there is no way. *)
Definition result_ok (t : string) (v : value) (l : list string) (r : result) : Prop :=
  match r with
  | Success v' => exists t', chain t v l t' v'
  | ParserError a b thrown =>
      exists l1 u l2 t1 v1, l = (l1 ++ u :: l2)%list /\ chain t v l1 t1 v1 /\ u <> "*" /\
        if thrown then broken t1 v1 u a b else a = t1 /\ b = u /\ no_way a b
  end.

Lemma lookup_converter_elem a b c : (a, b, c) ∈ converters s -> exists c', lookup_converter a b = Some c'.
Proof.
  intros H. unfold lookup_converter. destruct (filter _ _) as [|x l] eqn:E; [|cbn; eauto].
  assert ((a, b, c) ∈ filter (fun c => c.1 = (a, b)) (converters s)) as Hf by (by apply list_elem_of_filter).
  rewrite E in Hf. by apply not_elem_of_nil in Hf.
Qed.

Lemma lookup_converter_in a b c : lookup_converter a b = Some c -> (a, b, c) ∈ converters s.
Proof.
  unfold lookup_converter. destruct (filter _ _) as [|[k c'] l] eqn:E; [done|]. intros [= <-].
  assert ((k, c') ∈ filter (fun c => c.1 = (a, b)) (converters s)) as H by (rewrite E; apply list_elem_of_here).
  apply list_elem_of_filter in H as [Hk H]. cbn in Hk. by subst.
Qed.

Lemma seek_pair_Some a b t c c2 : seek_pair a b = Some (t, c, c2) -> converts a t = Some c /\ (t, b, c2) ∈ converters s.
Proof.
  unfold seek_pair. intros H. apply head_Some_elem_of, list_elem_of_omap in H as ([[t' b'] c'] & Hin & H).
  destruct (decide _) as [->|]; [|done]. destruct (converts a t') eqn:E; [|done]. by injection H as -> -> ->.
Qed.

Lemma seek_pair_None a b m c : seek_pair a b = None -> lookup_converter m b = Some c -> converts a m = None.
Proof.
  unfold seek_pair. intros H Hl%lookup_converter_in. apply head_None in H.
  destruct (converts a m) as [c1|] eqn:E; [|done].
  assert ((m, c1, c) ∈ omap (fun '(t, b', c2) => if decide (b' = b) then (fun c => (t, c, c2)) <$> converts a t else None) (converters s)) as Hin.
  { apply list_elem_of_omap. exists (m, b, c). split; [done|]. by rewrite decide_True, E by done. }
  rewrite H in Hin. by apply not_elem_of_nil in Hin.
Qed.

(** A converter that is in the table is found, and does what the first of its pair does. *)
Hypothesis keys_unique : NoDup (fst <$> converters s).

Lemma lookup_unique a b c : (a, b, c) ∈ converters s -> lookup_converter a b = Some c.
Proof.
  intros H. destruct (lookup_converter_elem a b c H) as [c' E]. rewrite E. f_equal.
  apply lookup_converter_in in E. clear -H E keys_unique. induction (converters s) as [|[k x] l IH]; [by apply not_elem_of_nil in H|].
  cbn in keys_unique. apply NoDup_cons in keys_unique as [Hk Hl].
  assert (forall y, ((a, b), y) ∈ l -> (a, b) ∈ fst <$> l) as Hf by (intros y Hy; apply list_elem_of_fmap; by exists (a, b, y)).
  apply elem_of_cons in H as [H|H]; apply elem_of_cons in E as [E|E]; simplify_eq; try done;
    try (by destruct Hk; eapply Hf). by apply IH.
Qed.

Lemma converts_step a b c v : converts a b = Some c ->
  match c with
  | Same => step a v b v
  | Convert f => match f v with Some v' => step a v b v' | None => fails a b v end
  end.
Proof. intros E. destruct c as [|f]; [by apply step_same|]. destruct (f v) eqn:Ef; [by eapply step_convert|by exists f]. Qed.

Lemma lookup_converts a b c : (a, b, c) ∈ converters s -> converts a b = Some c.
Proof. intros H%lookup_unique. unfold converts. by rewrite H. Qed.

(** The types that are left, after a link of the chain. *)
Lemma result_ok_link t v u w v1 l r :
  (forall l' t' v', chain w v1 l' t' v' -> chain t v (u :: l') t' v') -> result_ok w v1 l r -> result_ok t v (u :: l) r.
Proof.
  intros Hc. destruct r as [v'|a b thrown]; cbn.
  - intros [t' H]. exists t'. by apply Hc.
  - intros (l1 & x & l2 & t1 & v2 & -> & H & Hx). exists (u :: l1), x, l2, t1, v2. split; [done|]. split; [by apply Hc|done].
Qed.

(** An error on the way to the next type. *)
Lemma result_ok_error t v u l a b (thrown : bool) : u <> "*" ->
  (if thrown then broken t v u a b else a = t /\ b = u /\ no_way a b) -> result_ok t v (u :: l) (ParserError a b thrown).
Proof. intros Hu H. exists [], u, l, t, v. split; [done|]. split; [constructor|done]. Qed.

(** One turn, or two, of the loop, to a type that differs from the one before. *)
Lemma convert_seek l n prev current v : current <> "*" -> ~ (prev = "*" \/ prev = current) ->
  (forall t w, exists r, convert n t l w = Some r /\ result_ok t w l r) ->
  (forall t w, exists r, convert (S n) t l w = Some r /\ result_ok t w l r) ->
  exists r, convert (S (S n)) prev (current :: l) v = Some r /\ result_ok prev v (current :: l) r.
Proof.
  intros Ha Hp IH0 IH. cbn [convert]. rewrite decide_False by done. rewrite decide_False by done.
  assert (forall w v1, (forall l' t' v', chain w v1 l' t' v' -> chain prev v (current :: l') t' v') ->
    exists r, convert (S n) w l v1 = Some r /\ result_ok prev v (current :: l) r) as Hnext.
  { intros w v1 Hc. destruct (IH w v1) as (r & E & Hr). exists r. split; [done|]. by eapply result_ok_link. }
  unfold seek. destruct (converts prev current) as [c|] eqn:E.
  { pose proof (converts_step _ _ _ v E) as Hs. destruct c as [|f]; [apply Hnext; intros; by eapply chain_one|].
    destruct (f v); [apply Hnext; intros; by eapply chain_one|].
    eexists. split; [done|]. apply result_ok_error; [done|]. by apply broken_one. }
  destruct (seek_pair prev current) as [[[t c] c2]|] eqn:Es.
  2: { eexists. split; [done|]. apply result_ok_error; [done|]. split_and!; [done..|]. split; [naive_solver|]. split; [done|]. intros m.
       destruct (lookup_converter m current) as [c|] eqn:El; [right|by left]. by eapply seek_pair_None. }
  apply seek_pair_Some in Es as [E1 E2%lookup_converts]. pose proof (converts_step _ _ _ v E1) as Hs1.
  destruct c as [|f].
  { pose proof (converts_step _ _ _ v E2) as Hs2. destruct c2 as [|g]; [apply Hnext; intros; by eapply chain_two|].
    destruct (g v); [apply Hnext; intros; by eapply chain_two|]. eexists. split; [done|]. apply result_ok_error; [done|].
    eapply broken_second; [done|exact Hs1|done|by right]. }
  destruct (f v) as [v1|] eqn:Ef.
  2: { destruct c2; rewrite Ef; (eexists; split; [done|]; apply result_ok_error; [done|];
       eapply broken_first; [done|exact Hs1|by rewrite E2|auto]). }
  destruct c2 as [|g]; rewrite Ef.
  { apply Hnext. intros. eapply chain_two; [done|exact Hs1|by apply step_same|done]. }
  cbn [convert]. rewrite decide_False by done.
  assert (forall w, step t v1 current w -> exists r, convert n current l w = Some r /\ result_ok prev v (current :: l) r) as Hlast.
  { intros w Hw. destruct (IH0 current w) as (r & Er & Hr). exists r. split; [done|]. eapply result_ok_link; [|exact Hr].
    intros. by eapply chain_two. }
  case_decide as Ht; [apply Hlast; destruct Ht as [->| ->]; [apply step_auto|apply step_refl]|].
  unfold seek. rewrite E2. pose proof (converts_step _ _ _ v1 E2) as Hs2. cbn in Hs2. destruct (g v1) as [v2|]; [by apply Hlast|].
  eexists. split; [done|]. apply result_ok_error; [done|]. eapply broken_second; [done|exact Hs1|done|by left].
Qed.

(** With two turns for each type the loop ends, along the list of types. *)
Lemma convert_ok l : forall n prev v, 2 * length l <= n -> exists r, convert n prev l v = Some r /\ result_ok prev v l r.
Proof.
  induction l as [|current l IH]; intros n prev v Hn; [exists (Success v); split; [by destruct n|eexists; constructor]|].
  cbn in Hn. destruct n as [|[|n]]; [lia|lia|].
  destruct (decide (current = "*")) as [Ha|Ha].
  { cbn [convert]. rewrite decide_True by done. destruct (IH (S n) prev v) as (r & E & Hr); [lia|]. exists r. split; [done|].
    subst. eapply result_ok_link; [|exact Hr]. intros. by constructor. }
  destruct (decide (prev = "*" \/ prev = current)) as [Hp|Hp]; [|apply convert_seek; try done; intros; apply IH; lia].
  cbn [convert]. rewrite decide_False, decide_True by done. destruct (IH (S n) current v) as (r & E & Hr); [lia|]. exists r. split; [done|].
  eapply result_ok_link; [|exact Hr]. intros. eapply chain_one; [done| |done]. destruct Hp as [->| ->]; [apply step_auto|apply step_refl].
Qed.

End tables.

(** ** The table of [ajaxSettings] *)

Definition matches (p ct : string) : bool := match String.index 0 p ct with Some _ => true | None => false end.

Definition to_string (v : value) : option value := Some (Some (default "undefined" v)).

Definition ajaxSettings (parseJSON parseXML : value -> option value) : table :=
  Table [("xml", matches "xml"); ("html", matches "html"); ("json", matches "json")]
    [("*", "text", Convert to_string); ("text", "html", Same); ("text", "json", Convert parseJSON); ("text", "xml", Convert parseXML)]
    None.



(** With the table of the page an answer in JSON, or a text asked for as JSON, is parsed. *)
Lemma json_parsed (parseJSON parseXML : value -> option value) (v w : value) : parseJSON v = Some w ->
  let s := ajaxSettings parseJSON parseXML in
  let (dataTypes, response) := ajaxHandleResponses s "application/json; charset=utf-8" ["*"] [("text", v)] in
  dataTypes = ["text"; "json"] /\ ajaxConvert s dataTypes true response = Some (Success w).
Proof.
  intros E s. assert (ajaxHandleResponses s "application/json; charset=utf-8" ["*"] [("text", v)] = (["text"; "json"], v)) as -> by reflexivity.
  split; [done|]. assert (ajaxConvert s ["text"; "json"] true v =
    match parseJSON v with Some w => Some (Success w) | None => Some (ParserError "text" "json" true) end) as -> by reflexivity.
  by rewrite E.
Qed.
