(* ===== verification/Ajax.v ===== *)
(** * jQuery: requests (application bundle, lines 8822-9303 and 9577-9710)

    Requests are numbered in the order they are made.  What callbacks and listeners do is a script, a finite tree of
    calls of the library: scripts make requests, abort them, add callbacks to them, throw.  The functions of the
    library call one another through the scripts they run; the recursion takes fuel, and a call without
    fuel throws.  Headers, addresses and caches are left out. *)

From S2P Require Import Prelude AjaxConvert.
From Stdlib Require Import ZArith Lia.

Local Open Scope Z_scope.

(** ** Scripts and settings *)

(** The callbacks of a request, and the global events. *)
Inductive kind := KDone | KFail | KComplete.
Inductive moment := MStart | MSend | MSuccess | MError | MComplete | MStop.

(** The request whose callback runs, or one by its number. *)
Inductive target := Self | Req (id : nat).

(** The answer of a transport: status, its text, the content type, the data. *)
Record answer := Answer { a_status : Z; a_text : string; a_type : string; a_responses : option (list (string * value)) }.

(** What inspecting the transports gives: none; one that answers later, at once, or whose [send] throws. *)
Inductive transport := NoTransport | Later | AtOnce (a : answer) | Throws (msg : string).

(** The settings of a request; [beforeSend] does something and returns [false] or not. *)
Record settings_ (script : Type) := Settings {
  s_global : bool;
  s_prefilter : script;
  s_beforeSend : option (script * bool);
  s_success : script; s_error : script; s_complete : script;
  s_statusCode : list (Z * script);
  s_transport : transport;
  s_timeout : bool;
  s_head : bool;
  s_dataTypes : list string;
  s_table : table
}.
Arguments Settings {script}.
Arguments s_global {script}. Arguments s_prefilter {script}. Arguments s_beforeSend {script}.
Arguments s_success {script}. Arguments s_error {script}. Arguments s_complete {script}.
Arguments s_statusCode {script}. Arguments s_transport {script}. Arguments s_timeout {script}.
Arguments s_head {script}. Arguments s_dataTypes {script}. Arguments s_table {script}.

Inductive action :=
| AAjax (s : settings_ (list action))
| AAbort (r : target) (statusText : option string)
| AOn (r : target) (k : kind) (f : list action)
| AStatusCode (r : target) (map : list (Z * list action))
| AThrow (msg : string)
| ALog (n : nat).

Definition script : Type := list action.
Definition settings : Type := settings_ script.

(** ** State *)

(** A list of callbacks that fires once and remembers: waiting, firing those that are left, fired, disabled. *)
Inductive callbacks := Waiting (l : list script) | Firing (l : list script) | Fired | Disabled.

(** The variable [state]: 0, 1, 2. *)
Inductive phase := Idle | Sent | Over.
#[export] Instance phase_eq : EqDecision phase.
Proof. solve_decision. Defined.

(** What a call of [ajax] keeps: [q_transport] and [q_timer] are whether the variables are set, [q_waiting] whether the
    transport has a callback to call. *)
Record request := Request {
  q_set : settings; q_state : phase; q_transport : bool; q_timer : bool; q_waiting : bool; q_fire : bool;
  q_strAbort : string; q_done : callbacks; q_fail : callbacks; q_complete : callbacks;
  q_codes : option (list (Z * script)); q_status : Z; q_statusText : string
}.

Inductive event :=
| LLog (n : nat) | LStart | LStop | LSend (id : nat) | LTransport (id : nat) | LAbort (id : nat)
| LSettled (id : nat) (ok : bool) | LGlobal (id : nat) (ok : bool) | LCompleted (id : nat) | LGlobalComplete (id : nat).

Record world := World { requests : list request; active : Z; log : list event }.

Definition set_requests l (w : world) := let 'World _ a g := w in World l a g.
Definition set_active a (w : world) := let 'World l _ g := w in World l a g.
Definition write g' (w : world) := let 'World l a g := w in World l a (g ++ g').
Definition on (id : nat) (f : request -> request) (w : world) : world := set_requests (alter f id (requests w)) w.

Definition set_state x (q : request) := let 'Request s _ t m w f c d e k o u v := q in Request s x t m w f c d e k o u v.
Definition set_transport x (q : request) := let 'Request s p _ m w f c d e k o u v := q in Request s p x m w f c d e k o u v.
Definition set_timer x (q : request) := let 'Request s p t _ w f c d e k o u v := q in Request s p t x w f c d e k o u v.
Definition set_waiting x (q : request) := let 'Request s p t m _ f c d e k o u v := q in Request s p t m x f c d e k o u v.
Definition set_fire x (q : request) := let 'Request s p t m w _ c d e k o u v := q in Request s p t m w x c d e k o u v.
Definition set_strAbort x (q : request) := let 'Request s p t m w f _ d e k o u v := q in Request s p t m w f x d e k o u v.
Definition set_codes x (q : request) := let 'Request s p t m w f c d e k _ u v := q in Request s p t m w f c d e k x u v.
Definition set_status x y (q : request) := let 'Request s p t m w f c d e k o _ _ := q in Request s p t m w f c d e k o x y.

Definition get_list (k : kind) (q : request) : callbacks :=
  match k with KDone => q_done q | KFail => q_fail q | KComplete => q_complete q end.
Definition set_list (k : kind) (x : callbacks) (q : request) :=
  let 'Request s p t m w f c d e l o u v := q in
  match k with
  | KDone => Request s p t m w f c x e l o u v
  | KFail => Request s p t m w f c d x l o u v
  | KComplete => Request s p t m w f c d e x o u v
  end.

(** A call of the library that runs scripts. *)
Inductive call :=
| CScript (self : option nat) (l : script)
| CFire (id : nat) (k : kind)
| CDone (id : nat) (a : answer)
| CAbort (id : nat) (statusText : option string)
| CAjax (s : settings).

Section library.
Context (listeners : moment -> script).
Context (go : call -> st_ex world unit).

Local Open Scope js_scope.

Definition with_request (id : nat) (f : request -> st_ex world unit) : st_ex world unit :=
  let! r := sget (fun w => requests w !! id) in
  match r with Some q => f q | None => sret tt end.

(** ** Callbacks *)

(** One turn of the loop of [fire]. *)
Definition fire (id : nat) (k : kind) : st_ex world unit :=
  with_request id (fun q =>
    match get_list k q with
    | Firing (f :: l) => smodify (on id (set_list k (Firing l))) ;! go (CScript (Some id) f) ;! go (CFire id k)
    | Firing [] => smodify (on id (set_list k Fired))
    | _ => sret tt
    end).

(** [add], of several callbacks. *)
Definition add (id : nat) (k : kind) (fs : list script) : st_ex world unit :=
  with_request id (fun q =>
    match get_list k q with
    | Waiting l => smodify (on id (set_list k (Waiting (l ++ fs))))
    | Firing l => smodify (on id (set_list k (Firing (l ++ fs))))
    | Fired => smodify (on id (set_list k (Firing fs))) ;! go (CFire id k)
    | Disabled => sret tt
    end).

(** [fireWith], on a list that has not fired. *)
Definition fireWith (id : nat) (k : kind) : st_ex world unit :=
  with_request id (fun q =>
    match get_list k q with
    | Waiting l => smodify (on id (set_list k (Firing l))) ;! go (CFire id k)
    | _ => sret tt
    end).

(** [resolveWith] or [rejectWith]: the other list is disabled first. *)
Definition settle (id : nat) (ok : bool) : st_ex world unit :=
  let k := if ok then KDone else KFail in
  let other := if ok then KFail else KDone in
  with_request id (fun q =>
    match get_list k q with
    | Waiting _ => smodify (on id (set_list other Disabled)) ;! fireWith id k
    | _ => sret tt
    end).

Definition always (id : nat) (fs : list script) : st_ex world unit := add id KDone fs ;! add id KFail fs.

(** [jqXHR.statusCode(map)] *)
Definition codes_at (status : Z) (map : list (Z * script)) : list script := snd <$> filter (fun c => c.1 = status) map.

Definition statusCode (id : nat) (map : option (list (Z * script))) : st_ex world unit :=
  match map with
  | None => sret tt
  | Some map =>
      with_request id (fun q =>
        if decide (q_state q = Over) then always id (codes_at (q_status q) map)
        else
          match q_codes q with
          | Some c => smodify (on id (set_codes (Some (c ++ map))))
          | None => sthrow "TypeError: statusCode is undefined"
          end)
  end.

(** ** Global events *)

Definition trigger (m : moment) (self : option nat) (e : event) : st_ex world unit :=
  smodify (write [e]) ;! go (CScript self (listeners m)).

(** ** [done] *)

Definition is_success (status : Z) : bool := ((200 <=? status) && (status <? 300)) || (status =? 304).

(** Whether the request succeeded, and the text of its status. *)
Definition outcome (s : settings) (a : answer) : bool * string :=
  let '(dataTypes, response) :=
    match a_responses a with
    | Some r => ajaxHandleResponses (s_table s) (a_type a) (s_dataTypes s) r
    | None => (s_dataTypes s, None)
    end in
  let converted := ajaxConvert (s_table s) dataTypes (is_success (a_status a)) response in
  if is_success (a_status a) then
    if (a_status a =? 204) || s_head s then (true, "nocontent"%string)
    else if a_status a =? 304 then (true, "notmodified"%string)
    else match converted with Some (Success _) => (true, "success"%string) | _ => (false, "parsererror"%string) end
  else (false, if negb (a_status a =? 0) || bool_decide (a_text a = ""%string) then "error"%string else a_text a).

(** ajaxComplete, and the counter. *)
Definition count_down (id : nat) : st_ex world unit :=
  trigger MComplete (Some id) (LGlobalComplete id) ;!
  smodify (fun w => set_active (active w - 1) w) ;!
  let! n := sget active in
  swhen (n =? 0) (trigger MStop None LStop).

(** What a request that is over calls. *)
Definition conclude (id : nat) (fireGlobals ok : bool) : st_ex world unit :=
  smodify (write [LSettled id ok]) ;!
  settle id ok ;!
  let! codes := sget (fun w => match requests w !! id with Some q => q_codes q | None => None end) in
  statusCode id codes ;!
  smodify (on id (set_codes None)) ;!
  swhen fireGlobals (trigger (if ok then MSuccess else MError) (Some id) (LGlobal id ok)) ;!
  smodify (write [LCompleted id]) ;!
  fireWith id KComplete ;!
  swhen fireGlobals (count_down id).

Definition done (id : nat) (a : answer) : st_ex world unit :=
  with_request id (fun q =>
    if decide (q_state q = Over) then sret tt
    else
      smodify (on id (fun q => set_transport false (set_timer false (set_state Over q)))) ;!
      let '(ok, statusText) := outcome (q_set q) a in
      let status := if is_success (a_status a) then a_status a else if a_status a <? 0 then 0 else a_status a in
      smodify (on id (set_status status (if bool_decide (a_text a = ""%string) then statusText else a_text a))) ;!
      conclude id (q_fire q) ok).

(** ** [jqXHR.abort] *)

Definition abort (id : nat) (statusText : option string) : st_ex world unit :=
  with_request id (fun q =>
    let finalText := default (q_strAbort q) statusText in
    swhen (q_transport q && q_waiting q) (smodify (write [LAbort id]) ;! smodify (on id (set_waiting false))) ;!
    go (CDone id (Answer 0 finalText "" None))).

(** ** [ajax] *)

Definition new_request (s : settings) : request :=
  Request s Idle false false false false "canceled" (Waiting []) (Waiting []) (Waiting []) (Some (s_statusCode s)) 0 "".

Definition state_of (id : nat) (w : world) : phase := match requests w !! id with Some q => q_state q | None => Idle end.

(** [transport.send(requestHeaders, done)], when there is a transport still. *)
Definition send (id : nat) (s : settings) : st_ex world unit :=
  let! t := sget (fun w => match requests w !! id with Some q => q_transport q | None => false end) in
  if t then
    smodify (write [LTransport id]) ;!
    match s_transport s with
    | AtOnce a => go (CDone id a)
    | Throws msg => sthrow msg
    | _ => smodify (on id (set_waiting true))
    end
  else sthrow "TypeError: transport is undefined".

(** The part after [beforeSend]. *)
Definition ajax_send (id : nat) (s : settings) : st_ex world unit :=
  smodify (on id (set_strAbort "abort")) ;!
  add id KDone [s_success s] ;! add id KFail [s_error s] ;! add id KComplete [s_complete s] ;!
  match s_transport s with
  | NoTransport => go (CDone id (Answer (-1) "No Transport" "" None))
  | _ =>
      smodify (on id (set_transport true)) ;!
      swhen (s_global s) (trigger MSend (Some id) (LSend id)) ;!
      swhen (s_timeout s) (smodify (on id (set_timer true))) ;!
      smodify (on id (set_state Sent)) ;!
      fun w =>
        match send id s w with
        | (w, Throw msg) =>
            if decide (state_of id w = Over) then (w, Throw msg) else go (CDone id (Answer (-1) msg "" None)) w
        | r => r
        end
  end.

(** [beforeSend], which may abort the request or refuse it. *)
Definition ajax_before (id : nat) (s : settings) : st_ex world unit :=
  match s_beforeSend s with
  | Some (f, refused) =>
      go (CScript (Some id) f) ;!
      let! state := sget (state_of id) in
      if refused || bool_decide (state = Over) then go (CAbort id None) else ajax_send id s
  | None => ajax_send id s
  end.

Definition ajax (s : settings) : st_ex world unit :=
  let! id := sget (fun w => length (requests w)) in
  smodify (fun w => set_requests (requests w ++ [new_request s]) w) ;!
  go (CScript (Some id) (s_prefilter s)) ;!
  let! state := sget (state_of id) in
  if decide (state = Over) then sret tt
  else
    smodify (on id (set_fire (s_global s))) ;!
    swhen (s_global s)
      (let! n := sget active in
       smodify (fun w => set_active (active w + 1) w) ;!
       swhen (n =? 0) (trigger MStart None LStart)) ;!
    ajax_before id s.

(** ** Scripts *)

Definition target_of (self : option nat) (r : target) : option nat :=
  match r with Self => self | Req id => Some id end.

Definition act (self : option nat) (a : action) : st_ex world unit :=
  let on_target r f := match target_of self r with Some id => f id | None => sret tt end in
  match a with
  | AAjax s => go (CAjax s)
  | AAbort r t => on_target r (fun id => go (CAbort id t))
  | AOn r k f => on_target r (fun id => add id k [f])
  | AStatusCode r map => on_target r (fun id => statusCode id (Some map))
  | AThrow msg => sthrow msg
  | ALog n => smodify (write [LLog n])
  end.

Fixpoint run_script (self : option nat) (l : script) : st_ex world unit :=
  match l with
  | [] => sret tt
  | a :: l => act self a ;! run_script self l
  end.

Definition perform (c : call) : st_ex world unit :=
  match c with
  | CScript self l => run_script self l
  | CFire id k => fire id k
  | CDone id a => done id a
  | CAbort id t => abort id t
  | CAjax s => ajax s
  end.

End library.

Fixpoint exec (listeners : moment -> script) (n : nat) (c : call) : st_ex world unit :=
  match n with
  | O => sthrow "out of fuel"
  | S n => perform listeners (exec listeners n) c
  end.

(** ** What happens from outside *)

Inductive happening :=
| HRun (l : script)
| HAnswer (id : nat) (a : answer)
| HTimeout (id : nat).

Section sessions.
Context (listeners : moment -> script) (n : nat).

Local Open Scope js_scope.

(** A script of the page, an answer that comes, a timer that fires. *)
Definition happen (h : happening) : st_ex world unit :=
  match h with
  | HRun l => exec listeners n (CScript None l)
  | HAnswer id a =>
      with_request id (fun q =>
        swhen (q_waiting q) (smodify (on id (set_waiting false)) ;! exec listeners n (CDone id a)))
  | HTimeout id =>
      with_request id (fun q =>
        swhen (q_timer q) (smodify (on id (set_timer false)) ;! exec listeners n (CAbort id (Some "timeout"%string))))
  end.

End sessions.

Definition new_world : world := World [] 0 [].
