(* ===== verification/AjaxRuns.v ===== *)
(** * jQuery: what the runs of requests preserve

    For scripts that do not throw, [spent] is the fuel that the scripts of a call take, and [potential] what is left to
    run in the requests.  The invariant [Inv] holds wherever a script runs, with the requests whose [done] is on its way
    ([P]) and the lists that are firing ([F]); [runs] says that a call returns, within its fuel, and leaves it. *)

From S2P Require Import Prelude AjaxConvert Ajax.
From Stdlib Require Import ZArith Lia.

(** ** Scripts *)

Definition before_script (s : settings) : script := match s_beforeSend s with Some (f, _) => f | None => [] end.

(** Scripts that do not throw. *)
Inductive good : action -> Prop :=
| good_ajax s : Forall good (s_prefilter s) -> Forall good (before_script s) ->
    Forall good (s_success s) -> Forall good (s_error s) -> Forall good (s_complete s) ->
    Forall (fun c => Forall good c.2) (s_statusCode s) -> good (AAjax s)
| good_abort r t : good (AAbort r t)
| good_on r k f : Forall good f -> good (AOn r k f)
| good_status r m : Forall (fun c => Forall good c.2) m -> good (AStatusCode r m)
| good_log n : good (ALog n).

Definition is_log (a : action) : Prop := match a with ALog _ => True | _ => False end.
Definition logs (l : script) : list event := omap (fun a => match a with ALog n => Some (LLog n) | _ => None end) l.

(** ** Fuel *)

Section fuel.
(** The fuel of the listeners of one event. *)
Context (L : nat).

Definition in_done : nat := 10 + 3 * L.

Fixpoint spent (a : action) : nat :=
  match a with
  | AAjax (Settings _ pf bs su er co sc _ _ _ _ _) =>
      in_done + 2 * L + 30 + sum_list (map spent pf) +
      match bs with Some (f, _) => sum_list (map spent f) | None => 0 end +
      sum_list (map spent su) + sum_list (map spent er) + sum_list (map spent co) +
      sum_list (map (fun '(_, f) => 2 * (sum_list (map spent f) + 2)) sc)
  | AAbort _ _ => 2
  | AOn _ _ f => 3 + sum_list (map spent f)
  | AStatusCode _ m => 2 + sum_list (map (fun '(_, f) => 2 * (sum_list (map spent f) + 2)) m)
  | AThrow _ | ALog _ => 0
  end.

Definition spends (l : script) : nat := sum_list (map spent l).
Definition spends_list (l : list script) : nat := sum_list (map (fun f => spends f + 2) l).
Definition spends_codes (m : list (Z * script)) : nat := sum_list (map (fun c => 2 * (spends c.2 + 2)) m).

Definition list_potential (l : callbacks) : nat :=
  match l with Waiting l | Firing l => spends_list l | Fired | Disabled => 0 end.

(** What is left to run in a request. *)
Definition request_potential (_ : nat) (q : request) : nat :=
  list_potential (q_done q) + list_potential (q_fail q) + list_potential (q_complete q) +
  match q_state q with
  | Over => 0
  | _ => in_done + spends_codes (default [] (q_codes q))
  end.

Definition potential (w : world) : nat := total request_potential (requests w).

(** The fuel of a call, beyond the potential. *)
Definition cost (c : call) : nat :=
  match c with
  | CScript _ l => 1 + spends l
  | CFire _ _ | CDone _ _ => 1
  | CAbort _ _ => 2
  | CAjax s => spent (AAjax s)
  end.

End fuel.

(** ** The invariant *)

(** What the log says of a request. *)
Definition concerns (id : nat) (e : event) : Prop :=
  match e with
  | LSettled i _ | LGlobal i _ | LCompleted i | LGlobalComplete i => i = id
  | _ => False
  end.
#[export] Instance concerns_dec id e : Decision (concerns id e).
Proof. destruct e; cbn; apply _. Defined.
Definition about (id : nat) (g : list event) : list event := filter (concerns id) g.

(** A request that is over: settled, announced, completed, announced. *)
Definition story (id : nat) (ok fire : bool) : list event :=
  LSettled id ok :: (if fire then [LGlobal id ok] else []) ++ LCompleted id :: (if fire then [LGlobalComplete id] else []).

(** ajaxStart and ajaxStop alternate: whether the last was a start. *)
Definition gate (o : option bool) (e : event) : option bool :=
  match e, o with
  | LStart, Some false => Some true
  | LStop, Some true => Some false
  | LStart, _ | LStop, _ => None
  | _, o => o
  end.
Definition gates (g : list event) : option bool := foldl gate (Some false) g.

Inductive class := Waits | Fires | Off.
Definition class_of (l : callbacks) : class :=
  match l with Waiting _ => Waits | Firing _ | Fired => Fires | Disabled => Off end.
Definition is_firing (l : callbacks) : Prop := match l with Firing _ => True | _ => False end.
Definition scripts (l : callbacks) : list script := match l with Waiting l | Firing l => l | Fired | Disabled => [] end.

(** The lists of a request that is settled. *)
Definition settled_classes (ok : bool) (k : kind) : class :=
  match k with KDone => if ok then Fires else Off | KFail => if ok then Off else Fires | KComplete => Fires end.

Definition good_script (l : script) : Prop := Forall good l.
Definition good_codes (m : list (Z * script)) : Prop := Forall (fun c => good_script c.2) m.

Record request_ok (P : list nat) (F : nat -> kind -> Prop) (g : list event) (id : nat) (q : request) : Prop := {
  rq_firing : forall k, is_firing (get_list k q) <-> F id k;
  rq_good : forall k, Forall good_script (scripts (get_list k q));
  rq_codes : good_codes (default [] (q_codes q));
  rq_phase :
    if decide (q_state q = Over) then
      id ∈ P \/ exists ok, about id g = story id ok (q_fire q) /\ forall k, class_of (get_list k q) = settled_classes ok k
    else id ∉ P /\ about id g = [] /\ is_Some (q_codes q) /\ forall k, class_of (get_list k q) = Waits
}.

(** A request counted in [jQuery.active]. *)
Definition counted (P : list nat) (id : nat) (q : request) : nat :=
  if q_fire q && (bool_decide (q_state q <> Over) || bool_decide (id ∈ P)) then 1 else 0.

Record Inv (P : list nat) (F : nat -> kind -> Prop) (w : world) : Prop := {
  inv_requests : forall id q, requests w !! id = Some q -> request_ok P F (log w) id q;
  inv_bound : forall id, id ∈ P -> exists q, requests w !! id = Some q /\ q_state q = Over;
  inv_active : active w = Z.of_nat (total (counted P) (requests w));
  inv_gates : gates (log w) = Some (bool_decide (0 < active w)%Z);
  inv_new : forall id, requests w !! id = None -> about id (log w) = [];
  inv_firing : forall id k, F id k -> is_Some (requests w !! id)
}.

(** What a call leaves of the requests there are. *)
Record keeps_request (P : list nat) (g g' : list event) (id : nat) (q q' : request) : Prop := {
  kp_fire : q_fire q' = q_fire q;
  kp_set : q_set q' = q_set q;
  kp_state : q_state q' = q_state q \/ q_state q' = Over;
  kp_transport : q_state q' <> Over -> q_transport q' = q_transport q;
  kp_about : id ∈ P -> about id g' = about id g;
  kp_class : id ∈ P -> forall k, class_of (get_list k q') = class_of (get_list k q);
  kp_codes : id ∈ P -> q_codes q' = q_codes q
}.

Definition keeps (P : list nat) (w w' : world) : Prop :=
  forall id q, requests w !! id = Some q -> exists q', requests w' !! id = Some q' /\ keeps_request P (log w) (log w') id q q'.

Lemma keeps_refl P w : keeps P w w.
Proof. intros id q E. exists q. split; [done|]. split; auto. Qed.

Lemma keeps_after P w1 w2 w3 : keeps P w1 w2 -> keeps P w2 w3 -> keeps P w1 w3.
Proof.
  intros H1 H2 id q E. destruct (H1 id q E) as (q2 & E2 & [A1 A2 A3 A4 A5 A6 A7]). destruct (H2 id q2 E2) as (q3 & E3 & [B1 B2 B3 B4 B5 B6 B7]).
  exists q3. split; [done|]. split; [congruence..| | | | |].
  - destruct B3 as [B3|B3]; [rewrite B3; destruct A3; auto|auto].
  - intros H. rewrite B4 by done. apply A4. intros H2'. destruct B3 as [B3|B3]; congruence.
  - intros Hp. rewrite B5, A5; done.
  - intros Hp k. rewrite B6, A6; done.
  - intros Hp. rewrite B7, A7; done.
Qed.

Lemma keeps_fewer P P' w w' : (forall id, id ∈ P -> id ∈ P') -> keeps P' w w' -> keeps P w w'.
Proof.
  intros Hp H id q E. destruct (H id q E) as (q' & E' & []). exists q'. split; [done|]. split; auto.
Qed.

Lemma total_counted l : total (counted []) l = length (filter (fun q => q_fire q = true /\ q_state q <> Over) l).
Proof.
  unfold total. generalize 0. induction l as [|q l IH]; intros i; cbn -[filter]; [done|]. rewrite IH, filter_cons. unfold counted.
  rewrite (bool_decide_eq_false_2 (i ∈ [])), orb_false_r by (by intros ?%elem_of_nil).
  destruct (decide (_ /\ _)) as [[-> ?]|Hn]; [by rewrite bool_decide_eq_true_2|].
  destruct (q_fire q); [|done]. by rewrite bool_decide_eq_false_2 by tauto.
Qed.

(** *** Changes of the state *)

Lemma on_lookup id f w i : requests (on id f w) !! i = if decide (i = id) then f <$> requests w !! i else requests w !! i.
Proof.
  destruct w as [l a g]. cbn. case_decide as H; [subst; apply list_lookup_alter_eq|by rewrite list_lookup_alter_ne].
Qed.

Lemma on_log id f w : log (on id f w) = log w.
Proof. by destruct w. Qed.

Lemma inv_on P F F' w id q f :
  Inv P F w -> requests w !! id = Some q -> request_ok P F' (log w) id (f q) ->
  (forall i k, i <> id -> F' i k <-> F i k) -> counted P id (f q) = counted P id q -> (id ∈ P -> q_state (f q) = Over) ->
  Inv P F' (on id f w).
Proof.
  intros [H1 H2 H3 H4 H5 H6] E Hq HF Hc HP. split.
  - intros i q' Ei. rewrite on_lookup in Ei. rewrite on_log. destruct (decide (i = id)) as [Hi|Hi].
    + subst. rewrite E in Ei. by injection Ei as <-.
    + destruct (H1 i q' Ei). split; try done. intros k. by rewrite HF.
  - intros i Hi. rewrite on_lookup. destruct (H2 i Hi) as (q' & E' & S'). destruct (decide (i = id)) as [Hd|Hd]; [|by exists q'].
    subst. rewrite E. eexists. split; [done|]. by apply HP.
  - pose proof (total_alter (counted P) f id (requests w) q E) as Ht. rewrite Hc in Ht.
    destruct w as [l a g]. unfold on. cbn [requests active set_requests] in *. rewrite H3. f_equal. lia.
  - by destruct w.
  - intros i Hi. rewrite on_log. apply H5. rewrite on_lookup in Hi.
    destruct (decide (i = id)); [subst; by rewrite E in Hi|done].
  - intros i k Hf. rewrite on_lookup. destruct (decide (i = id)) as [->|Hi]; [rewrite E; by eexists|]. apply (H6 i k). by apply HF.
Qed.

Lemma keeps_on P w id q f : requests w !! id = Some q -> keeps_request P (log w) (log w) id q (f q) -> keeps P w (on id f w).
Proof.
  intros E Hq i q' Ei. rewrite on_lookup, on_log. destruct (decide (i = id)) as [Hi|Hi].
  - subst. rewrite E in Ei |- *. injection Ei as <-. by eexists.
  - exists q'. split; [done|]. split; auto.
Qed.

Lemma potential_on L w id q f : requests w !! id = Some q ->
  potential L (on id f w) + request_potential L id q = potential L w + request_potential L id (f q).
Proof. intros E. unfold potential. destruct w as [l a g]. apply (total_alter (request_potential L) f id l q E). Qed.

Lemma inv_F P F F' w : (forall i k, is_Some (requests w !! i) -> F' i k <-> F i k) -> (forall i k, F' i k -> F i k) ->
  Inv P F w -> Inv P F' w.
Proof.
  intros HF HF' [H1 H2 H3 H4 H5 H6]. split; try done; [|naive_solver]. intros i q E. destruct (H1 i q E) as [A1 A2 A3 A4]. split; try done.
  intros k. rewrite (A1 k). symmetry. apply HF. by exists q.
Qed.

(** Events that are of no request, and not a start or a stop. *)
Definition plain (e : event) : Prop := match e with LLog _ | LSend _ | LTransport _ | LAbort _ => True | _ => False end.

Lemma about_plain id g e : plain e -> about id (g ++ [e]) = about id g.
Proof. intros He. unfold about. rewrite filter_app, filter_cons_False by (destruct e; cbn in *; tauto). apply app_nil_r. Qed.

Lemma gates_app g e : gates (g ++ [e]) = gate (gates g) e.
Proof. unfold gates. by rewrite foldl_app. Qed.

Lemma gates_plain g e : plain e -> gates (g ++ [e]) = gates g.
Proof. intros He. rewrite gates_app. destruct (gates g) as [[]|]; by destruct e. Qed.

Lemma write_requests g w : requests (write g w) = requests w.
Proof. by destruct w. Qed.
Lemma write_log g w : log (write g w) = log w ++ g.
Proof. by destruct w. Qed.

Lemma inv_plain P F w e : plain e -> Inv P F w -> Inv P F (write [e] w).
Proof.
  intros He [H1 H2 H3 H4 H5 H6]. split; rewrite ?write_requests, ?write_log; try (by destruct w).
  - intros i q E. destruct (H1 i q E) as [A1 A2 A3 A4]. split; try done. by rewrite about_plain.
  - rewrite gates_plain by done. by destruct w.
  - intros i E. rewrite about_plain by done. by apply H5.
Qed.

Lemma keeps_plain P w e : plain e -> keeps P w (write [e] w).
Proof.
  intros He i q E. rewrite write_requests, write_log. exists q. split; [done|]. split; auto. intros _. by apply about_plain.
Qed.

Lemma potential_write L g w : potential L (write g w) = potential L w.
Proof. by destruct w. Qed.

(** ** Runs: a call returns, and leaves the invariant *)

Section runs.
Context (L N : nat).

Definition runs_at (P : list nat) (F F' : nat -> kind -> Prop) (c : nat) (w : world) (e : st_ex world unit) : Prop :=
  Inv P F w -> potential L w + c <= N ->
  exists w', e w = (w', Ok tt) /\ Inv P F' w' /\ potential L w' <= potential L w + c /\ keeps P w w'.

Definition runs P F F' c (e : st_ex world unit) : Prop := forall w, runs_at P F F' c w e.

Lemma runs_ret P F c : runs P F F c (sret tt).
Proof. intros w Hi Hn. exists w. split_and!; [done..|lia|apply keeps_refl]. Qed.

Lemma runs_less P F F' c c' e : c <= c' -> runs P F F' c e -> runs P F F' c' e.
Proof. intros Hc H w Hi Hn. destruct (H w Hi) as (w' & E & H1 & H2 & H3); [lia|]. exists w'. split_and!; [done..|lia|done]. Qed.

Lemma runs_at_bind P F F1 F2 c1 c2 w e k :
  runs_at P F F1 c1 w e -> runs P F1 F2 c2 k -> runs_at P F F2 (c1 + c2) w (sbind e (fun _ => k)).
Proof.
  intros He Hk Hi Hn. destruct He as (w1 & E1 & I1 & B1 & K1); [done|lia|].
  destruct (Hk w1) as (w2 & E2 & I2 & B2 & K2); [done|lia|]. exists w2. rewrite (sbind_run _ _ _ _ _ E1).
  split_and!; [done..|lia|by eapply keeps_after].
Qed.

Lemma runs_bind P F F1 F2 c1 c2 e k : runs P F F1 c1 e -> runs P F1 F2 c2 k -> runs P F F2 (c1 + c2) (sbind e (fun _ => k)).
Proof. intros He Hk w. by eapply runs_at_bind. Qed.

Lemma runs_get {A} P F F' c (f : world -> A) k : (forall w, runs_at P F F' c w (k (f w))) -> runs P F F' c (sbind (sget f) k).
Proof. intros H w Hi Hn. by apply H. Qed.

(** A change, and what follows with the potential it gives. *)
Lemma runs_change P F F1 F2 c c' w f k :
  (Inv P F w -> Inv P F1 (f w) /\ potential L (f w) + c' <= potential L w + c /\ keeps P w (f w)) ->
  runs P F1 F2 c' k -> runs_at P F F2 c w (sbind (smodify f) (fun _ => k)).
Proof.
  intros Hf Hk Hi Hn. destruct (Hf Hi) as (I1 & B1 & K1). destruct (Hk (f w)) as (w2 & E2 & I2 & B2 & K2); [done|lia|].
  exists w2. split_and!; [done..|lia|by eapply keeps_after].
Qed.

Lemma runs_modify P F F1 c w f :
  (Inv P F w -> Inv P F1 (f w) /\ potential L (f w) <= potential L w + c /\ keeps P w (f w)) ->
  runs_at P F F1 c w (smodify f).
Proof. intros Hf Hi Hn. destruct (Hf Hi) as (I1 & B1 & K1). by exists (f w). Qed.

Lemma runs_with P F F' c id f :
  (forall q w, requests w !! id = Some q -> runs_at P F F' c w (f q)) -> (forall i k, i <> id -> F' i k <-> F i k) ->
  (forall k, F' id k -> F id k) -> runs P F F' c (with_request id f).
Proof.
  intros Hf HF HF' w Hi Hn. unfold with_request. rewrite (sbind_run (sget _) _ w w _ eq_refl).
  destruct (requests w !! id) as [q|] eqn:E; [by apply Hf|]. exists w. split_and!; [done| |lia|apply keeps_refl].
  eapply inv_F; [| |done]; [intros i k [q Eq]; apply HF; intros ->; by rewrite E in Eq|].
  intros i k. destruct (decide (i = id)) as [->|Hi']; [apply HF'|by apply HF].
Qed.

End runs.

(** ** Lists of callbacks *)

#[export] Instance kind_eq : EqDecision kind.
Proof. solve_decision. Defined.

Lemma get_set_list k k' x q : get_list k' (set_list k x q) = if decide (k' = k) then x else get_list k' q.
Proof. by destruct q, k, k'. Qed.

Lemma set_list_fields k x q : q_state (set_list k x q) = q_state q /\ q_fire (set_list k x q) = q_fire q /\
  q_set (set_list k x q) = q_set q /\ q_transport (set_list k x q) = q_transport q /\ q_codes (set_list k x q) = q_codes q.
Proof. by destruct q, k. Qed.

Lemma set_list_potential L i k x q :
  request_potential L i (set_list k x q) + list_potential L (get_list k q) = request_potential L i q + list_potential L x.
Proof. unfold request_potential. destruct q as [? [] ? ? ? ? ? ? ? ? ? ? ?], k; cbn -[list_potential spends_codes in_done]; lia. Qed.

(** The lists that fire, and one more. *)
Definition plus (F : nat -> kind -> Prop) (id : nat) (k : kind) : nat -> kind -> Prop :=
  fun i k' => F i k' \/ (i = id /\ k' = k).

(** A list changes its callbacks, or starts or ends firing. *)
Lemma set_list_inv L P F F' w id q k x : requests w !! id = Some q -> Inv P F w ->
  (is_firing x <-> F' id k) -> (forall i k', (i, k') <> (id, k) -> F' i k' <-> F i k') ->
  Forall good_script (scripts x) -> class_of x = class_of (get_list k q) ->
  Inv P F' (on id (set_list k x) w) /\
  potential L (on id (set_list k x) w) + list_potential L (get_list k q) = potential L w + list_potential L x /\
  keeps P w (on id (set_list k x) w).
Proof.
  intros E Hi Hx HF Hg Hc. destruct (set_list_fields k x q) as (S1 & S2 & S3 & S4 & S5).
  assert (forall k', class_of (get_list k' (set_list k x q)) = class_of (get_list k' q)) as Hcl
    by (intros k'; rewrite get_set_list; destruct (decide (k' = k)); [by subst|done]).
  split; [|split].
  - eapply inv_on; [done|done| | | |].
    + destruct (inv_requests _ _ _ Hi id q E) as [A1 A2 A3 A4]. split.
      * intros k'. rewrite get_set_list. destruct (decide (k' = k)) as [->|Hk]; [done|]. rewrite HF by congruence. apply A1.
      * intros k'. rewrite get_set_list. destruct (decide (k' = k)); [done|]. apply A2.
      * by rewrite S5.
      * rewrite S1, S2, S5. destruct (decide (q_state q = Over)).
        -- destruct A4 as [A4|(ok & A4 & A5)]; [by left|right]. exists ok. split; [done|]. intros k'. by rewrite Hcl.
        -- destruct A4 as (A4 & A5 & A6 & A7). split_and!; [done..|]. intros k'. by rewrite Hcl.
    + intros i k' Hik. apply HF. congruence.
    + unfold counted. by rewrite S1, S2.
    + rewrite S1. intros Hp. destruct (inv_bound _ _ _ Hi id Hp) as (q' & E' & S'). congruence.
  - pose proof (potential_on L w id q (set_list k x) E). pose proof (set_list_potential L id k x q). lia.
  - eapply keeps_on; [done|]. split; auto.
Qed.

Lemma spends_list_app L a b : spends_list L a + spends_list L b = spends_list L (a ++ b).
Proof. unfold spends_list. by rewrite map_app, sum_list_with_app. Qed.
