(* ===== verification/AjaxSpec.v ===== *)
(** * jQuery: every request settles once

    For scripts that do not throw, and listeners of the global events that make no requests, those of ajaxStart and
    ajaxSend only looking on: a request is settled once, its callbacks and events come in the order they should, and
    [jQuery.active] counts the requests that are on. *)

From S2P Require Import Prelude AjaxConvert Ajax AjaxRuns.
From Stdlib Require Import ZArith Lia.

(** ** The library *)

Record go_ok (L N : nat) (go : call -> st_ex world unit) : Prop := {
  go_script P F self l : good_script l -> runs L N P F F (1 + spends L l) (go (CScript self l));
  go_fire P F id k : ~ F id k -> runs L N P (plus F id k) F 1 (go (CFire id k));
  go_done P F id a : runs L N P F F 1 (go (CDone id a));
  go_abort P F id t : runs L N P F F 2 (go (CAbort id t));
  go_ajax P F s : good (AAjax s) -> runs L N P F F (spent L (AAjax s)) (go (CAjax s));
  go_logs self l w : Forall is_log l -> 1 <= N -> go (CScript self l) w = (write (logs l) w, Ok tt)
}.

Section library.
Context (L N : nat) (listeners : moment -> script) (go : call -> st_ex world unit) (Hgo : go_ok L N go).

(** One turn of [fire], with the rest of the loop. *)
Lemma fire_runs P F id k : ~ F id k -> runs L N P (plus F id k) F 0 (fire go id k).
Proof.
  intros HF. apply runs_with; [|intros i k' Hi; unfold plus; naive_solver|by left]. intros q w E.
  assert (forall (Hi : Inv P (plus F id k) w), is_firing (get_list k q)) as Hfi
    by (intros Hi; apply (inv_requests _ _ _ Hi id q E); by right).
  destruct (get_list k q) as [l|[|f l]| |] eqn:El; try (intros Hi; by destruct (Hfi Hi)).
  - apply runs_modify. intros Hi.
    destruct (set_list_inv L P (plus F id k) F w id q k Fired E Hi) as (H1 & H2 & H3); [by cbn; naive_solver| |done|by rewrite El|].
    { intros i k' Hik. unfold plus. split; [auto|intros [?|[-> ->]]; [done|by destruct Hik]]. }
    split; [done|]. rewrite El in H2. cbn in H2. split; [lia|done].
  - intros Hi Hn. pose proof (rq_good _ _ _ _ _ (inv_requests _ _ _ Hi id q E) k) as Hg. rewrite El in Hg. cbn in Hg.
    apply Forall_cons in Hg as [Hgf Hg]. revert Hi Hn. apply (runs_change L N P _ (plus F id k) F 0 (1 + spends L f + 1)).
    + intros Hi. destruct (set_list_inv L P (plus F id k) (plus F id k) w id q k (Firing l) E Hi) as (H1 & H2 & H3);
        [by cbn; unfold plus; naive_solver|done|done|by rewrite El|].
      split; [done|]. split; [|done]. rewrite El in H2. cbn in H2. unfold spends_list in H2. cbn in H2. lia.
    + apply (runs_bind L N P _ (plus F id k) F (1 + spends L f) 1); [|by apply (go_fire L N go Hgo)].
      by apply (go_script L N go Hgo).
Qed.

Lemma add_runs P F id k fs : Forall good_script fs -> runs L N P F F (1 + spends_list L fs) (add go id k fs).
Proof.
  intros Hfs. apply runs_with; [|done|done]. intros q w E. destruct (get_list k q) as [l|l| |] eqn:El.
  - apply runs_modify. intros Hi. pose proof (inv_requests _ _ _ Hi id q E) as [A1 A2 A3 A4].
    destruct (set_list_inv L P F F w id q k (Waiting (l ++ fs)) E Hi) as (H1 & H2 & H3); [|done| |by rewrite El|].
    + rewrite <- A1, El. done.
    + apply Forall_app. specialize (A2 k). rewrite El in A2. done.
    + split; [done|]. split; [|done]. rewrite El in H2. cbn in H2. rewrite <- spends_list_app in H2. lia.
  - apply runs_modify. intros Hi. pose proof (inv_requests _ _ _ Hi id q E) as [A1 A2 A3 A4].
    destruct (set_list_inv L P F F w id q k (Firing (l ++ fs)) E Hi) as (H1 & H2 & H3); [|done| |by rewrite El|].
    + rewrite <- A1, El. done.
    + apply Forall_app. specialize (A2 k). rewrite El in A2. done.
    + split; [done|]. split; [|done]. rewrite El in H2. cbn in H2. rewrite <- spends_list_app in H2. lia.
  - intros Hi Hn. assert (~ F id k) as HF.
    { intros H. apply (inv_requests _ _ _ Hi id q E) in H. by rewrite El in H. }
    revert Hi Hn. apply (runs_change L N P F (plus F id k) F _ 1); [|by apply (go_fire L N go Hgo)]. intros Hi.
    destruct (set_list_inv L P F (plus F id k) w id q k (Firing fs) E Hi) as (H1 & H2 & H3); [| |done|by rewrite El|].
    + cbn. unfold plus. naive_solver.
    + intros i k' Hik. unfold plus. split; [intros [?|[-> ->]]; [done|by destruct Hik]|auto].
    + split; [done|]. split; [|done]. rewrite El in H2. cbn in H2. lia.
  - apply runs_ret.
Qed.

Lemma always_runs P F id fs : Forall good_script fs -> runs L N P F F (2 + 2 * spends_list L fs) (always go id fs).
Proof.
  intros Hfs. eapply runs_less; [|apply (runs_bind L N P F F F); by apply add_runs]. lia.
Qed.

Lemma codes_at_good st m : good_codes m -> Forall good_script (codes_at st m).
Proof.
  intros Hm. unfold codes_at. apply Forall_fmap. apply Forall_forall. intros c [_ Hc]%list_elem_of_filter.
  by apply (proj1 (Forall_forall _ _) Hm).
Qed.

Lemma codes_at_spends st m : 2 * spends_list L (codes_at st m) <= spends_codes L m.
Proof.
  unfold codes_at, spends_list, spends_codes. induction m as [|[c f] m IH]; [cbn; lia|].
  rewrite filter_cons. case_decide; cbn -[Nat.mul filter] in *; lia.
Qed.

Lemma spends_codes_app a b : spends_codes L (a ++ b) = spends_codes L a + spends_codes L b.
Proof. unfold spends_codes. by rewrite map_app, sum_list_with_app. Qed.

Lemma statusCode_runs P F id m : good_codes m -> runs L N P F F (2 + spends_codes L m) (statusCode go id (Some m)).
Proof.
  intros Hm. apply runs_with; [|done|done]. intros q w E. destruct (decide (q_state q = Over)) as [Ho|Ho].
  - eapply runs_less; [|by apply always_runs, codes_at_good]. pose proof (codes_at_spends (q_status q) m). lia.
  - intros Hi Hn. pose proof (inv_requests _ _ _ Hi id q E) as [A1 A2 A3 A4]. rewrite decide_False in A4 by done.
    destruct A4 as (A4 & A5 & (c & Ec) & A7). rewrite Ec. revert Hi Hn. apply runs_modify. intros Hi.
    assert (forall k, get_list k (set_codes (Some (c ++ m)) q) = get_list k q) as Hl by (by destruct q; intros []).
    assert (q_state (set_codes (Some (c ++ m)) q) = q_state q /\ q_fire (set_codes (Some (c ++ m)) q) = q_fire q /\
      q_set (set_codes (Some (c ++ m)) q) = q_set q /\ q_transport (set_codes (Some (c ++ m)) q) = q_transport q) as (S1 & S2 & S3 & S4)
      by (by destruct q).
    split; [|split].
    + eapply inv_on; [done|done| |done| |].
      * split; [intros k; by rewrite Hl|intros k; by rewrite Hl| |].
        -- destruct q. cbn in *. rewrite Ec in A3. cbn in A3. by apply Forall_app.
        -- rewrite S1, decide_False by done. split_and!; [done..|by destruct q|]. intros k. by rewrite Hl.
      * unfold counted. by rewrite S1, S2.
      * done.
    + pose proof (potential_on L w id q (set_codes (Some (c ++ m))) E) as Hp. unfold request_potential in Hp.
      destruct q as [? st ? ? ? ? ? ? ? ? ? ? ?]. cbn -[list_potential spends_codes in_done] in *. subst.
      destruct st; [| |done]; cbn -[list_potential spends_codes in_done] in *; rewrite spends_codes_app in Hp; lia.
    + eapply keeps_on; [done|]. split; try done; auto.
Qed.

(** ** Scripts *)

Lemma spends_codes_map m : sum_list (map (fun '(_, f) => 2 * (sum_list (map (spent L) f) + 2)) m) = spends_codes L m.
Proof. unfold spends_codes. induction m as [|[c f] m IH]; [done|]. cbn -[Nat.mul]. by rewrite IH. Qed.

Lemma act_runs P F self a : good a -> runs L N P F F (spent L a) (act go self a).
Proof.
  intros Ha. destruct Ha as [s H1 H2 H3 H4 H5 H6|r t|r k f Hf|r m Hm|n]; cbn [act].
  - apply (go_ajax L N go Hgo). by apply good_ajax.
  - destruct (target_of self r); [apply (go_abort L N go Hgo)|apply runs_ret].
  - destruct (target_of self r); [|apply runs_ret]. eapply runs_less; [|apply add_runs; by apply Forall_singleton].
    unfold spends_list. cbn. unfold spends. lia.
  - destruct (target_of self r); [|apply runs_ret]. cbn [spent]. rewrite spends_codes_map. by apply statusCode_runs.
  - intros w. apply runs_modify. intros Hi. split; [by apply inv_plain|]. split; [rewrite potential_write; lia|by apply keeps_plain].
Qed.

Lemma script_runs P F self l : good_script l -> runs L N P F F (spends L l) (run_script go self l).
Proof.
  intros Hl. induction Hl as [|a l Ha Hl IH]; cbn [run_script]; [apply runs_ret|].
  apply (runs_bind L N P F F F (spent L a) (spends L l)); [by apply act_runs|done].
Qed.

Lemma script_logs self l w : Forall is_log l -> run_script go self l w = (write (logs l) w, Ok tt).
Proof.
  intros Hl. revert w. induction Hl as [|a l Ha Hl IH]; intros w; cbn [run_script]; [by destruct w as [? ? g]; cbn; rewrite app_nil_r|].
  destruct a; try done. cbn [act]. rewrite (sbind_run _ _ w _ tt eq_refl), IH. destruct w as [? ? g]. cbn. by rewrite <- app_assoc.
Qed.

(** ** A request that is being done *)

Section doing.
Context (P : list nat) (w0 : world) (id : nat) (fi : bool) (Hid : id ∉ P).

(** Between the steps of [done]: what the log says so far, and the lists. *)
Definition mid (F' : nat -> kind -> Prop) (tr : list event) (cl : kind -> class) (cd : option (list (Z * script))) (b : nat) (w : world) : Prop :=
  Inv (id :: P) F' w /\ keeps P w0 w /\ potential L w <= b /\
  exists q, requests w !! id = Some q /\ q_state q = Over /\ q_fire q = fi /\ about id (log w) = tr /\ q_codes q = cd /\
    forall k, class_of (get_list k q) = cl k.

Lemma mid_go F1 F2 tr cl cd b c e : runs L N (id :: P) F1 F2 c e -> b + c <= N ->
  hoare (mid F1 tr cl cd b) e (fun _ => mid F2 tr cl cd (b + c)).
Proof.
  intros He Hn w (Hi & Hk & Hb & q & E & Hs & Hf & Ht & Hcd & Hc). destruct (He w) as (w' & Ew & Hi' & Hb' & Hk'); [done|lia|].
  exists w', tt. split; [done|]. split; [done|]. split; [|split; [lia|]].
  - eapply keeps_after; [done|]. eapply keeps_fewer; [|done]. intros i Hp. by right.
  - destruct (Hk' id q E) as (q' & E' & [K1 K2 K3 K4 K5 K6 K7]). assert (id ∈ id :: P) as Hin by left.
    exists q'. split; [done|]. split; [destruct K3; congruence|]. split; [congruence|]. split; [by rewrite K5|]. split; [by rewrite K7|].
    intros k. by rewrite K6.
Qed.

Lemma mid_less F1 tr cl cd b b' w : b <= b' -> mid F1 tr cl cd b w -> mid F1 tr cl cd b' w.
Proof. intros Hb (H1 & H2 & H3 & H4). split_and!; [done..|lia|done]. Qed.

(** A change of the request itself. *)
Lemma mid_on F1 F2 tr cl cl' cd cd' b b' f w : mid F1 tr cl cd b w ->
  (forall q, requests w !! id = Some q -> q_state q = Over -> request_ok (id :: P) F1 (log w) id q ->
    (forall k, class_of (get_list k q) = cl k) ->
    q_state (f q) = Over /\ q_fire (f q) = q_fire q /\ q_set (f q) = q_set q /\
    (forall k, is_firing (get_list k (f q)) <-> F2 id k) /\ (forall k, Forall good_script (scripts (get_list k (f q)))) /\
    (q_codes q = cd -> q_codes (f q) = cd' /\ good_codes (default [] cd')) /\ (forall k, class_of (get_list k (f q)) = cl' k) /\
    request_potential L id (f q) + b <= request_potential L id q + b') ->
  (forall i k, i <> id -> F2 i k <-> F1 i k) -> mid F2 tr cl' cd' b' (on id f w).
Proof.
  intros (Hi & Hk & Hb & q & E & Hs & Hf & Ht & Hcd & Hc) H HF.
  destruct (H q E Hs (inv_requests _ _ _ Hi id q E) Hc) as (S1 & S2 & S3 & S4 & S5 & S6 & S7 & S8).
  destruct (S6 Hcd) as [S6a S6b].
  split; [|split; [|split]].
  - eapply inv_on; [done|done| |done| |done].
    + split; [done|done|by rewrite S6a|]. rewrite S1, decide_True by done. left. by left.
    + unfold counted. by rewrite S1, S2, Hs.
  - intros i qi Ei. destruct (Hk i qi Ei) as (q' & Eq' & [K1 K2 K3 K4 K5 K6 K7]). rewrite on_lookup, on_log.
    destruct (decide (i = id)) as [->|Hne]; [|by exists q'].
    rewrite Eq' in E. injection E as ->. rewrite Eq'. eexists. split; [done|]. split; [congruence..| | | | |]; [by right|congruence|done|done|done].
  - pose proof (potential_on L w id q f E). lia.
  - exists (f q). rewrite on_lookup, decide_True, E by done. split; [done|]. rewrite on_log. split_and!; [done|congruence|done|done|done].
Qed.

(** An event of the request. *)
Lemma mid_write F1 tr cl cd b e w : concerns id e -> mid F1 tr cl cd b w -> mid F1 (tr ++ [e]) cl cd b (write [e] w).
Proof.
  intros He (Hi & Hk & Hb & q & E & Hs & Hf & Ht & Hcd & Hc).
  assert (forall g, about id (g ++ [e]) = about id g ++ [e]) as Ha
    by (intros g; unfold about; rewrite filter_app; by rewrite filter_cons_True).
  assert (forall i g, i <> id -> about i (g ++ [e]) = about i g) as Hb'.
  { intros i g Hne. unfold about. rewrite filter_app, filter_cons_False; [apply app_nil_r|]. destruct e; cbn in *; congruence. }
  assert (forall g, gates (g ++ [e]) = gates g) as Hg by (intros g; rewrite gates_app; destruct (gates g) as [[]|]; by destruct e).
  split; [|split; [|split; [by rewrite potential_write|]]].
  - destruct Hi as [H1 H2 H3 H4 H5 H6]. split; rewrite ?write_requests, ?write_log; try (by destruct w).
    + intros i q' Ei. destruct (H1 i q' Ei) as [A1 A2 A3 A4]. split; try done.
      destruct (decide (i = id)) as [->|Hne]; [|by rewrite Hb'].
      assert (q' = q) as -> by congruence. rewrite decide_True by done. left. by left.
    + rewrite Hg. by destruct w.
    + intros i Ei. rewrite Hb'; [by apply H5|]. intros ->. congruence.
  - intros i qi Ei. destruct (Hk i qi Ei) as (q' & Eq' & [K1 K2 K3 K4 K5 K6 K7]). rewrite write_requests, write_log. exists q'.
    split; [done|]. split; try done. intros Hp. rewrite Hb'; [by apply K5|]. by intros ->.
  - exists q. rewrite write_requests, write_log, Ha, Ht. split_and!; done.
Qed.

(** [fireWith] on a list that waits. *)
Lemma mid_fireWith F1 tr cl cd b k : cl k = Waits -> b + 1 <= N ->
  hoare (mid F1 tr cl cd b) (fireWith go id k) (fun _ => mid F1 tr (fun k' => if decide (k' = k) then Fires else cl k') cd (b + 1)).
Proof.
  intros Hk Hn w Hw. pose proof Hw as (Hi & _ & _ & q & E & Hs & _ & _ & Hcd & Hc). unfold fireWith, with_request.
  rewrite (sbind_run (sget _) _ w w _ eq_refl), E. specialize (Hc k) as Hck. rewrite Hk in Hck.
  destruct (get_list k q) as [l|l| |] eqn:El; try done. rewrite (sbind_run (smodify _) _ w _ tt eq_refl).
  assert (~ F1 id k) as HF by (intros H; apply (inv_requests _ _ _ Hi id q E) in H; by rewrite El in H).
  apply (mid_go (plus F1 id k)); [by apply (go_fire L N go Hgo)|done|].
  eapply mid_on; [done| |unfold plus; naive_solver]. intros q' E' Hs' [A1 A2 A3 A4] Hc'. assert (q' = q) as -> by congruence.
  destruct (set_list_fields k (Firing l) q) as (S1 & S2 & S3 & S4 & S5). rewrite S1, S2, S3, S5. split_and!; try done.
  - intros k'. rewrite get_set_list. unfold plus. destruct (decide (k' = k)) as [->|Hne]; [cbn; naive_solver|].
    rewrite A1. naive_solver.
  - intros k'. rewrite get_set_list. destruct (decide (k' = k)); [|done]. specialize (A2 k). by rewrite El in A2.
  - intros Hq. split; [done|by rewrite <- Hq].
  - intros k'. rewrite get_set_list. by destruct (decide (k' = k)).
  - pose proof (set_list_potential L id k (Firing l) q) as Hp. rewrite El in Hp. cbn in Hp. cbn. lia.
Qed.

(** [resolveWith] and [rejectWith] of a deferred that is pending. *)
Lemma mid_settle F1 tr cd b ok : b + 1 <= N ->
  hoare (mid F1 tr (fun _ => Waits) cd b) (settle go id ok)
    (fun _ => mid F1 tr (fun k => match k with KComplete => Waits | _ => settled_classes ok k end) cd (b + 1)).
Proof.
  intros Hn w Hw. pose proof Hw as (Hi & _ & _ & q & E & Hs & _ & _ & Hcd & Hc). unfold settle, with_request.
  rewrite (sbind_run (sget _) _ w w _ eq_refl), E. set (k := if ok then KDone else KFail). set (other := if ok then KFail else KDone).
  specialize (Hc k) as Hck. destruct (get_list k q) as [l|l| |] eqn:El; try done. rewrite (sbind_run (smodify _) _ w _ tt eq_refl).
  assert (mid F1 tr (fun k' => if decide (k' = other) then Off else Waits) cd b (on id (set_list other Disabled) w)) as Hw1.
  { eapply mid_on; [done| |done]. intros q' E' Hs' [A1 A2 A3 A4] Hc'. assert (q' = q) as -> by congruence.
    destruct (set_list_fields other Disabled q) as (S1 & S2 & S3 & S4 & S5). rewrite S1, S2, S3, S5. split_and!; try done.
    - intros k'. rewrite get_set_list. destruct (decide (k' = other)) as [->|Hne]; [|by apply A1].
      rewrite <- A1. specialize (Hc' other). by destruct (get_list other q).
    - intros k'. rewrite get_set_list. by destruct (decide (k' = other)).
    - intros Hq. split; [done|by rewrite <- Hq].
    - intros k'. rewrite get_set_list. destruct (decide (k' = other)); [done|by apply Hc'].
    - pose proof (set_list_potential L id other Disabled q) as Hp. cbn in Hp. lia. }
  assert (k <> other) as Hne by (unfold k, other; by destruct ok).
  assert ((if decide (k = other) then Off else Waits) = Waits) as Hkw by (by rewrite decide_False).
  destruct (mid_fireWith F1 tr (fun k' => if decide (k' = other) then Off else Waits) cd b k Hkw Hn _ Hw1) as (w' & [] & E' & H'). exists w', tt. split; [done|].
  destruct H' as (H1 & H2 & H3 & q' & H4 & H5 & H6 & H7 & Hcd' & H8). split_and!; [done..|]. exists q'. split_and!; [done..|].
  intros k'. rewrite H8. unfold k, other. by destruct ok, k'.
Qed.

(** The request is over; its [done] is on its way. *)
Lemma mid_start F w q : w0 = w -> Inv P F w -> requests w !! id = Some q -> q_state q <> Over -> q_fire q = fi ->
  let w' := on id (fun q => set_transport false (set_timer false (set_state Over q))) w in
  mid F [] (fun _ => Waits) (q_codes q) (potential L w') w' /\
  potential L w' + in_done L + spends_codes L (default [] (q_codes q)) = potential L w.
Proof.
  intros Hw Hi E Hs Hf w'. set (f := fun q => set_transport false (set_timer false (set_state Over q))).
  assert (q_state (f q) = Over /\ q_fire (f q) = q_fire q /\ q_set (f q) = q_set q /\ q_codes (f q) = q_codes q /\
    forall k, get_list k (f q) = get_list k q) as (S1 & S2 & S3 & S4 & S5) by (split_and!; [by destruct q..|by destruct q; intros []]).
  pose proof (inv_requests _ _ _ Hi id q E) as [A1 A2 A3 A4]. rewrite decide_False in A4 by done. destruct A4 as (_ & A5 & A6 & A7).
  split; [split; [|split; [|split]]|].
  - assert (forall i q', (i = id -> q' = q) -> counted (id :: P) i q' = counted P i q') as Hc.
    { intros i q' Hq. unfold counted. destruct (decide (i = id)) as [->|Hne].
      - rewrite (Hq eq_refl), (bool_decide_eq_true_2 (q_state q <> Over)) by done. by rewrite !orb_true_l.
      - f_equal. by rewrite (bool_decide_ext (i ∈ id :: P) (i ∈ P)) by (rewrite elem_of_cons; naive_solver). }
    destruct Hi as [H1 H2 H3 H4 H5 H6]. split.
    + intros i q' Ei. unfold w' in *. rewrite on_lookup in Ei. rewrite on_log. destruct (decide (i = id)) as [->|Hne].
      * rewrite E in Ei. injection Ei as <-. change (request_ok (id :: P) F (log w) id (f q)).
        split; [intros k; by rewrite S5..|by rewrite S4|]. rewrite S1, decide_True by done. left. by left.
      * destruct (H1 i q' Ei) as [B1 B2 B3 B4]. split; try done. destruct (decide (q_state q' = Over)).
        -- destruct B4; [left; by right|by right].
        -- rewrite elem_of_cons. naive_solver.
    + intros i Hp. unfold w'. rewrite on_lookup. destruct (decide (i = id)) as [->|Hne]; [rewrite E; by eexists|].
      apply elem_of_cons in Hp as [?|Hp]; [done|]. by apply H2.
    + pose proof (total_alter (counted (id :: P)) f id (requests w) q E) as Ht.
      rewrite (total_ext (counted (id :: P)) (counted P) (requests w)) in Ht by (intros i q' Ei; apply Hc; intros ->; congruence).
      assert (counted (id :: P) id (f q) = counted (id :: P) id q) as Hq.
      { unfold counted. rewrite S1, S2, (bool_decide_eq_true_2 (id ∈ id :: P)) by left.
        rewrite (bool_decide_eq_true_2 (q_state q <> Over)) by done. by rewrite orb_true_r. }
      assert (requests w' = alter f id (requests w) /\ active w' = active w) as [-> ->] by (unfold w', f; by destruct w).
      rewrite H3. f_equal. lia.
    + unfold w'. by destruct w.
    + intros i Ei. unfold w' in *. rewrite on_log. rewrite on_lookup in Ei. apply H5.
      destruct (decide (i = id)) as [->|Hne]; [by rewrite E in Ei|done].
    + intros i k HFi. unfold w'. rewrite on_lookup. destruct (decide (i = id)) as [->|Hne]; [rewrite E; by eexists|by apply (H6 i k)].
  - rewrite Hw. apply (keeps_on P w id q f E). split; [done|done|by right|done|done|intros _ k; by rewrite S5|done].
  - done.
  - exists (f q). unfold w'. rewrite on_lookup, decide_True, E, on_log by done. split_and!; [done|done|congruence|done|done|].
    intros k. by rewrite S5.
  - pose proof (potential_on L w id q f E) as Hp. fold w' f in Hp. unfold w' in *. fold f in Hp |- *. unfold request_potential in Hp.
    rewrite S1 in Hp. pose proof (S5 KDone) as D1. pose proof (S5 KFail) as D2. pose proof (S5 KComplete) as D3. cbn in D1, D2, D3.
    rewrite D1, D2, D3 in Hp. destruct (q_state q); [lia|lia|done].
Qed.

(** The request leaves those that are on their way, and ajaxStop is sent when it is the last. *)
Lemma mid_leave F ok cd b w : mid F (story id ok fi) (settled_classes ok) cd b w ->
  let n := (active w - (if fi then 1 else 0))%Z in
  let w' := if fi && (n =? 0)%Z then write [LStop] (set_active n w) else set_active n w in
  Inv P F w' /\ keeps P w0 w' /\ potential L w' <= b.
Proof.
  intros (Hi & Hk & Hb & q & E & Hs & Hf & Ht & Hcd & Hc) n w'.
  assert (requests w' = requests w) as Hr by (unfold w'; destruct w; by destruct (fi && (n =? 0)%Z)).
  assert (active w' = n) as Ha by (unfold w'; destruct w; by destruct (fi && (n =? 0)%Z)).
  assert (forall i, about i (log w') = about i (log w)) as Hab.
  { intros i. unfold w'. destruct (fi && (n =? 0)%Z); [|by destruct w]. destruct w as [l a g]. cbn. unfold about. rewrite filter_app. apply app_nil_r. }
  destruct Hi as [H1 H2 H3 H4 H5 H6].
  assert (n = Z.of_nat (total (counted P) (requests w))) as Hn.
  { pose proof (total_alter (counted P) (fun q => set_fire false q) id (requests w) q E) as T1.
    pose proof (total_alter (counted (id :: P)) (fun q => set_fire false q) id (requests w) q E) as T2.
    assert (total (counted (id :: P)) (alter (fun q => set_fire false q) id (requests w)) =
      total (counted P) (alter (fun q => set_fire false q) id (requests w))) as T3.
    { apply total_ext. intros i q' Ei. unfold counted. destruct (decide (i = id)) as [->|Hne].
      - rewrite list_lookup_alter_eq, E in Ei. injection Ei as <-. by destruct q.
      - f_equal. by rewrite (bool_decide_ext (i ∈ id :: P) (i ∈ P)) by (rewrite elem_of_cons; naive_solver). }
    assert (forall P', counted P' id (set_fire false q) = 0) as T4 by (intros; by destruct q).
    assert (counted P id q = 0) as T5.
    { unfold counted. rewrite Hs, !bool_decide_eq_false_2 by (done || tauto). by rewrite andb_false_r. }
    assert (counted (id :: P) id q = if fi then 1 else 0) as T6.
    { unfold counted. rewrite (bool_decide_eq_true_2 (id ∈ id :: P)) by left. by rewrite orb_true_r, andb_true_r, Hf. }
    rewrite !T4 in *. rewrite T5 in T1. rewrite T6 in T2. unfold n. rewrite H3. destruct fi; lia. }
  split; [|split].
  - split; rewrite ?Hr, ?Ha.
    + intros i q' Ei. destruct (H1 i q' Ei) as [A1 A2 A3 A4]. split; try done. rewrite Hab.
      destruct (decide (i = id)) as [->|Hne].
      * assert (q' = q) as -> by congruence. rewrite decide_True in * by done. right. exists ok. by rewrite Hf.
      * destruct (decide (q_state q' = Over)); rewrite elem_of_cons in A4; naive_solver.
    + intros i Hp. apply H2. by right.
    + done.
    + unfold w'. destruct fi; cbn [andb]; [|unfold n; rewrite Z.sub_0_r; by destruct w].
      assert (gates (log w) = Some true) as Hg by (rewrite H4; f_equal; apply bool_decide_eq_true_2; lia).
      destruct (Z.eqb_spec n 0) as [Hz|Hz].
      * rewrite write_log, gates_app. destruct w as [l a g]. cbn in Hg |- *. rewrite Hg. cbn. by rewrite Hz.
      * destruct w as [l a g]. cbn in Hg |- *. rewrite Hg. f_equal. symmetry. apply bool_decide_eq_true_2. lia.
    + intros i Ei. rewrite Hab. by apply H5.
    + done.
  - intros i qi Ei. destruct (Hk i qi Ei) as (q' & Eq' & [K1 K2 K3 K4 K5 K6 K7]). rewrite Hr. exists q'. split; [done|].
    split; try done. intros Hp. by rewrite Hab, K5.
  - unfold potential in *. by rewrite Hr.
Qed.

End doing.

(** ** [done] and [abort] *)

(** A step that leads from one state of [mid] to the next. *)
Ltac mid_step R := apply (hoare_bind _ _ (fun _ => R)); [|intros _].

Context (Hgood : forall m, good_script (listeners m)) (HL : forall m, spends L (listeners m) <= L).

Lemma mid_trigger P w0 id fi F tr cl cd b m self e : id ∉ P -> concerns id e -> b + (1 + L) <= N ->
  hoare (mid P w0 id fi F tr cl cd b) (trigger listeners go m self e) (fun _ => mid P w0 id fi F (tr ++ [e]) cl cd (b + (1 + L))).
Proof.
  intros Hid He Hn. unfold trigger. mid_step (mid P w0 id fi F (tr ++ [e]) cl cd b);
    [apply hoare_modify; intros w Hw; by apply mid_write|].
  apply mid_go; [|done]. eapply runs_less; [|apply (go_script L N go Hgo), Hgood]. specialize (HL m). lia.
Qed.

(** What [done] leaves. *)
Definition left_by (P : list nat) (F : nat -> kind -> Prop) (w0 : world) (b : nat) (w : world) : Prop :=
  Inv P F w /\ keeps P w0 w /\ potential L w <= b.

Lemma mid_reset P w0 id fi F tr cl cd b w : mid P w0 id fi F tr cl cd b w ->
  keeps P w0 w /\ (exists q, requests w !! id = Some q /\ q_state q = Over) /\ mid P w id fi F tr cl cd b w.
Proof.
  intros (H1 & H2 & H3 & q & E & S & H4). split; [done|]. split; [by exists q|]. split; [done|]. split; [apply keeps_refl|].
  split; [done|]. by exists q.
Qed.

(** The last steps of [done]. *)
Lemma mid_finish P w0 id fi F ok cd b : id ∉ P -> b + (2 + 2 * L) <= N ->
  hoare (mid P w0 id fi F ((LSettled id ok :: if fi then [LGlobal id ok] else []) ++ [LCompleted id]) (settled_classes ok) cd b)
    (swhen fi (count_down listeners go id))
    (fun _ => left_by P F w0 (b + (2 + 2 * L))).
Proof.
  intros Hid Hn. destruct fi; cbn [swhen].
  - mid_step (mid P w0 id true F (story id ok true) (settled_classes ok) cd (b + (1 + L)));
      [apply (mid_trigger P w0 id true F [LSettled id ok; LGlobal id ok; LCompleted id]); [done|done|lia]|].
    intros w Hw. destruct (mid_leave P w0 id true Hid F ok cd _ w Hw) as (H1 & H2 & H3).
    rewrite (sbind_run (smodify (fun w => set_active (active w - 1) w)) _ w _ tt eq_refl). cbn [andb] in *.
    rewrite (sbind_run (sget _) _ _ _ _ eq_refl).
    replace (active (set_active (active w - 1) w)) with (active w - 1)%Z by (by destruct w).
    destruct (Z.eqb (active w - 1) 0); cbn [swhen]; [|exists (set_active (active w - 1) w), tt; split; [done|split_and!; [done..|lia]]].
    unfold trigger. rewrite (sbind_run (smodify _) _ _ _ tt eq_refl).
    destruct (go_script L N go Hgo P F None (listeners MStop) (Hgood MStop) _ H1) as (w' & E & I & B & K); [specialize (HL MStop); lia|].
    exists w', tt. split; [done|]. split; [done|]. split; [by eapply keeps_after|]. specialize (HL MStop). lia.
  - intros w Hw. destruct (mid_leave P w0 id false Hid F ok cd _ w Hw) as (H1 & H2 & H3). cbn [andb] in *.
    replace (set_active (active w - 0) w) with w in * by (destruct w; cbn; by rewrite Z.sub_0_r).
    exists w, tt. split; [done|]. split_and!; [done..|lia].
Qed.

Lemma conclude_runs P w0 id fi F ok cs b : id ∉ P -> good_codes cs -> b + (8 + 3 * L) + spends_codes L cs <= N ->
  hoare (mid P w0 id fi F [] (fun _ => Waits) (Some cs) b) (conclude listeners go id fi ok)
    (fun _ => left_by P F w0 (b + (8 + 3 * L) + spends_codes L cs)).
Proof.
  intros Hid Hcs Hn. unfold conclude. set (M := fun tr cl cd c => mid P w0 id fi F tr cl cd (b + c)).
  mid_step (M [LSettled id ok] (fun _ => Waits) (Some cs) 0).
  { apply hoare_modify. intros w2 Hw2. unfold M. rewrite Nat.add_0_r. by apply (mid_write P w0 id _ Hid F []). }
  mid_step (M [LSettled id ok] (fun k => match k with KComplete => Waits | _ => settled_classes ok k end) (Some cs) 1).
  { unfold M. rewrite Nat.add_0_r. apply mid_settle; [exact Hid|lia]. }
  set (cl := fun k => match k with KComplete => Waits | _ => settled_classes ok k end).
  apply (hoare_bind _ _ (fun codes w => codes = Some cs /\ M [LSettled id ok] cl (Some cs) 1 w)).
  { intros w2 Hw2. eexists w2, _. split; [done|]. split; [|done]. destruct Hw2 as (_ & _ & _ & q2 & -> & _ & _ & _ & -> & _). done. }
  intros codes w2 [-> Hw2]. revert w2 Hw2.
  refine (_ : hoare (M [LSettled id ok] cl (Some cs) 1) _ _).
  mid_step (M [LSettled id ok] cl (Some cs) (1 + (2 + spends_codes L cs))).
  { unfold M. replace (b + (1 + (2 + spends_codes L cs))) with (b + 1 + (2 + spends_codes L cs)) by lia.
    apply mid_go; [by apply statusCode_runs|lia]. }
  mid_step (M [LSettled id ok] cl None (1 + (2 + spends_codes L cs))).
  { apply hoare_modify. intros w2 Hw2. unfold M. eapply mid_on; [exact Hid|exact Hw2| |done]. intros q' E' S' [B1 B2 B3 B4] B5.
    destruct q'. cbn in S'. subst. split_and!; try done.
    intros _. split; [done|by apply List.Forall_nil]. }
  set (tr := LSettled id ok :: (if fi then [LGlobal id ok] else [])).
  mid_step (M tr cl None (4 + L + spends_codes L cs)).
  { apply hoare_when; intros Hf; unfold M, tr; rewrite Hf.
    - replace (b + (4 + L + spends_codes L cs)) with (b + (1 + (2 + spends_codes L cs)) + (1 + L)) by lia.
      apply (mid_trigger P w0 id true F [LSettled id ok]); [done|done|lia].
    - intros w2. apply mid_less. lia. }
  mid_step (M (tr ++ [LCompleted id]) cl None (4 + L + spends_codes L cs)).
  { apply hoare_modify. intros w2 Hw2. by apply mid_write. }
  mid_step (M (tr ++ [LCompleted id]) (settled_classes ok) None (5 + L + spends_codes L cs)).
  { intros w2 Hw2. destruct (mid_fireWith P w0 id fi Hid F _ cl None (b + (4 + L + spends_codes L cs))
      KComplete eq_refl ltac:(lia) w2 Hw2) as (w3 & [] & E3 & H3).
    exists w3, tt. split; [done|]. unfold M. replace (b + (5 + L + spends_codes L cs)) with (b + (4 + L + spends_codes L cs) + 1) by lia.
    destruct H3 as (H31 & H32 & H33 & q3 & H34 & H35 & H36 & H37 & H38 & H39). split_and!; [done..|]. exists q3. split_and!; [done..|].
    intros k. rewrite H39. by destruct k. }
  eapply hoare_post; [apply mid_finish; [done|lia]|]. intros [] w2 (I2 & K2 & B2). split_and!; [done..|lia].
Qed.

(** A change of a request that its lists, its state and its place in the count do not feel. *)
Record same_course (f : request -> request) (q : request) : Prop := {
  sc_over : q_state (f q) = Over <-> q_state q = Over;
  sc_fire : q_fire (f q) = q_fire q;
  sc_set : q_set (f q) = q_set q;
  sc_codes : q_codes (f q) = q_codes q;
  sc_list k : get_list k (f q) = get_list k q
}.

Lemma set_waiting_course q : same_course (set_waiting false) q.
Proof. split; destruct q; first [done|by intros []]. Qed.
Lemma set_timer_course q : same_course (set_timer false) q.
Proof. split; destruct q; first [done|by intros []]. Qed.

Lemma same_potential f q i : same_course f q -> request_potential L i (f q) = request_potential L i q.
Proof.
  intros Hf. unfold request_potential. rewrite (sc_codes _ _ Hf). pose proof (sc_list _ _ Hf KDone) as D1.
  pose proof (sc_list _ _ Hf KFail) as D2. pose proof (sc_list _ _ Hf KComplete) as D3. cbn in D1, D2, D3. rewrite D1, D2, D3.
  pose proof (sc_over _ _ Hf). destruct (q_state (f q)), (q_state q); naive_solver.
Qed.

Lemma inv_same P F f w id q : same_course f q -> requests w !! id = Some q -> Inv P F w ->
  Inv P F (on id f w) /\ potential L (on id f w) = potential L w.
Proof.
  intros Hf E Hi. pose proof (sc_over _ _ Hf) as Ho. split.
  - eapply inv_on; [done|done| |done| |].
    + destruct (inv_requests _ _ _ Hi id q E) as [A1 A2 A3 A4]. split; [intros k; by rewrite (sc_list _ _ Hf)..|by rewrite (sc_codes _ _ Hf)|].
      rewrite (sc_fire _ _ Hf), (sc_codes _ _ Hf).
      destruct (decide (q_state q = Over)); destruct (decide (q_state (f q) = Over)); try tauto.
      * destruct A4 as [A4|(ok & A4 & A5)]; [by left|right]. exists ok. split; [done|]. intros k. by rewrite (sc_list _ _ Hf).
      * destruct A4 as (A4 & A5 & A6 & A7). split_and!; [done..|]. intros k. by rewrite (sc_list _ _ Hf).
    + unfold counted. rewrite (sc_fire _ _ Hf). by rewrite (bool_decide_ext (q_state (f q) <> Over) (q_state q <> Over)) by (by rewrite Ho).
    + intros Hp. apply Ho. destruct (inv_bound _ _ _ Hi id Hp) as (q' & E' & S'). congruence.
  - pose proof (potential_on L w id q f E) as Hp. rewrite (same_potential f q id Hf) in Hp. lia.
Qed.

Lemma done_ends P F id a w q : requests w !! id = Some q -> Inv P F w -> potential L w <= N ->
  exists w', done listeners go id a w = (w', Ok tt) /\ left_by P F w (potential L w) w' /\
    exists q', requests w' !! id = Some q' /\ q_state q' = Over.
Proof.
  intros E Hi Hn. unfold done, with_request. rewrite (sbind_run (sget _) _ w w _ eq_refl), E.
  destruct (decide (q_state q = Over)) as [Ho|Ho]; [exists w; split; [done|]; split; [split_and!; [done|apply keeps_refl|lia]|by exists q]|].
  pose proof (inv_requests _ _ _ Hi id q E) as [A1 A2 A3 A4]. rewrite decide_False in A4 by done. destruct A4 as (Hid & _ & (cs & Ec) & _).
  destruct (mid_start P w id (q_fire q) F w q eq_refl Hi E Ho eq_refl) as [Hw Hb]. rewrite Ec in *. cbn [from_option Datatypes.id] in Hb.
  rewrite (sbind_run (smodify _) _ w _ tt eq_refl). apply mid_reset in Hw as (Hk & (q1 & E1 & S1) & Hw).
  set (w1 := on id _ w) in *. set (b := potential L w1) in *. clearbody w1. destruct (outcome (q_set q) a) as [ok text].
  pose proof (inv_requests _ _ _ Hi id q E) as [_ _ Hcs _]. rewrite Ec in Hcs. cbn [from_option Datatypes.id] in Hcs. unfold in_done in *.
  set (f := set_status _ _). assert (mid P w1 id (q_fire q) F [] (fun _ => Waits) (Some cs) b (on id f w1)) as Hw2.
  { eapply mid_on; [exact Hid|exact Hw| |done]. intros q' E' S' [B1 B2 B3 B4] B5. unfold f.
    destruct q'. split_and!; [done..|intros <-; done|done|]. cbn -[Nat.add request_potential].
    match goal with |- ?x + _ <= ?y + _ => change x with y end. lia. }
  rewrite (sbind_run (smodify _) _ _ _ tt eq_refl).
  destruct (conclude_runs P w1 id (q_fire q) F ok cs b Hid Hcs ltac:(lia) _ Hw2) as (w2 & [] & E2 & H2 & H3 & H4). exists w2. split; [done|].
  split; [split_and!; [done|by eapply keeps_after|lia]|]. destruct (H3 id q1 E1) as (q2 & E3 & K). exists q2. split; [done|].
  destruct (kp_state _ _ _ _ _ _ K); congruence.
Qed.

Lemma done_runs P F id a : runs L N P F F 0 (done listeners go id a).
Proof.
  intros w Hi Hn. destruct (requests w !! id) as [q|] eqn:E.
  - destruct (done_ends P F id a w q E Hi) as (w' & Ew & (H1 & H2 & H3) & _); [lia|]. exists w'. split_and!; [done..|lia|done].
  - unfold done, with_request. rewrite (sbind_run (sget _) _ w w _ eq_refl), E. by apply (runs_ret L N P F 0 w).
Qed.

Lemma abort_runs P F id t : runs L N P F F 1 (abort go id t).
Proof.
  apply runs_with; [|done|done]. intros q w E. destruct (q_transport q && q_waiting q); cbn [swhen].
  - intros Hi Hn. revert Hi Hn. rewrite <- (Nat.add_0_l 1). apply (runs_at_bind L N P F F F 0 1); [|apply (go_done L N go Hgo)].
    intros Hi Hn. set (w1 := write [LAbort id] w). assert (Inv P F w1) as Hi1 by (by apply inv_plain).
    assert (requests w1 !! id = Some q) as E1 by (unfold w1; by rewrite write_requests).
    pose proof (set_waiting_course q) as Hs.
    destruct (inv_same P F _ w1 id q Hs E1 Hi1) as [H1 H2]. exists (on id (set_waiting false) w1).
    split; [done|]. split; [done|]. split; [rewrite H2; unfold w1; rewrite potential_write; lia|].
    eapply keeps_after; [by apply (keeps_plain P w (LAbort id))|]. eapply keeps_on; [done|]. destruct q; split; auto.
  - apply (runs_bind L N P F F F 0 1); [apply runs_ret|apply (go_done L N go Hgo)].
Qed.

(** ** [ajax] *)

Lemma write_app g g' w : write (g ++ g') w = write g' (write g w).
Proof. destruct w. cbn. by rewrite app_assoc. Qed.

Lemma plain_logs l : Forall plain (logs l).
Proof. unfold logs. induction l as [|[] l IH]; cbn; [by apply List.Forall_nil|..]; try done. by apply List.Forall_cons. Qed.

Lemma inv_plains P F g w : Forall plain g -> Inv P F w -> Inv P F (write g w) /\ keeps P w (write g w).
Proof.
  intros Hg. revert w. induction Hg as [|e g He Hg IH]; intros w Hi.
  - replace (write [] w) with w by (destruct w; cbn; by rewrite app_nil_r). split; [done|apply keeps_refl].
  - rewrite (write_app [e] g). destruct (IH (write [e] w)) as [H1 H2]; [by apply inv_plain|]. split; [done|].
    eapply keeps_after; [by apply keeps_plain|done].
Qed.

Lemma spends_list_one f : spends_list L [f] = spends L f + 2.
Proof. unfold spends_list. cbn. lia. Qed.

Context (Hstart : Forall is_log (listeners MStart)) (Hsend : Forall is_log (listeners MSend)).

Section making.
Context (P : list nat) (F : nat -> kind -> Prop) (w0 : world) (id : nat) (Hnew : requests w0 !! id = None).

(** A request that [ajax] makes: whether it is known to be not over, [fireGlobals], and [transport]. *)
Definition made (alive g t : bool) (b : nat) (w : world) : Prop :=
  left_by P F w0 b w /\
  exists q, requests w !! id = Some q /\ q_fire q = g /\ (q_state q <> Over -> q_transport q = t) /\ (alive = true -> q_state q <> Over).

Lemma made_go alive g t b c e : runs L N P F F c e -> b + c <= N ->
  hoare (made alive g t b) e (fun _ => made false g t (b + c)).
Proof.
  intros He Hn w [(Hi & Hk & Hb) (q & E & Hf & Ht & Ha)]. destruct (He w) as (w' & Ew & Hi' & Hb' & Hk'); [done|lia|].
  exists w', tt. split; [done|]. split; [split; [done|]; split; [by eapply keeps_after|lia]|].
  destruct (Hk' id q E) as (q' & E' & [K1 K2 K3 K4 K5 K6 K7]). exists q'. split; [done|]. split; [congruence|]. split; [|done].
  intros Hs. rewrite K4 by done. apply Ht. destruct K3; congruence.
Qed.

Lemma made_alive alive g t b w : made alive g t b w -> state_of id w <> Over -> made true g t b w.
Proof. intros [Hl (q & E & Hf & Ht & Ha)] Hs. split; [done|]. exists q. unfold state_of in Hs. rewrite E in Hs. by split_and!. Qed.

Lemma made_less alive g t b b' w : b <= b' -> made alive g t b w -> made alive g t b' w.
Proof. intros Hb [(H1 & H2 & H3) H4]. split; [split; [done|split; [done|lia]]|done]. Qed.

Lemma keeps_new f w : keeps P w0 w -> keeps P w0 (on id f w).
Proof.
  intros Hk i q Ei. destruct (Hk i q Ei) as (q' & E' & K). exists q'. rewrite on_lookup, on_log. split; [|done].
  destruct (decide (i = id)) as [->|]; [by rewrite Hnew in Ei|done].
Qed.

Lemma made_on alive g t t' b f w : made alive g t b w ->
  (forall q, q_fire q = g -> (alive = true -> q_state q <> Over) -> same_course f q /\ (q_transport q = t -> q_transport (f q) = t')) ->
  made alive g t' b (on id f w).
Proof.
  intros [(Hi & Hk & Hb) (q & E & Hf & Ht & Ha)] H. destruct (H q Hf Ha) as [Hs Ht'].
  destruct (inv_same P F f w id q Hs E Hi) as [H1 H2]. split; [split; [done|split; [by apply keeps_new|lia]]|].
  exists (f q). rewrite on_lookup, decide_True, E by done. split; [done|]. split; [by rewrite (sc_fire _ _ Hs)|].
  pose proof (sc_over _ _ Hs). split; [|tauto]. intros Ho. apply Ht', Ht. tauto.
Qed.

Lemma made_plains alive g t b l w : Forall plain l -> made alive g t b w -> made alive g t b (write l w).
Proof.
  intros Hl [(Hi & Hk & Hb) (q & E & H)]. destruct (inv_plains P F l w Hl Hi) as [H1 H2].
  split; [split; [done|split; [by eapply keeps_after|by rewrite potential_write]]|]. exists q. by rewrite write_requests.
Qed.

(** Callbacks added to a request that is not over wait. *)
Lemma made_add g t b k f : good_script f ->
  hoare (made true g t b) (add go id k [f]) (fun _ => made true g t (b + (spends L f + 2))).
Proof.
  intros Hgf w [(Hi & Hk & Hb) (q & E & Hf & Ht & Ha)]. unfold add, with_request. rewrite (sbind_run (sget _) _ w w _ eq_refl), E.
  pose proof (inv_requests _ _ _ Hi id q E) as [A1 A2 A3 A4]. rewrite decide_False in A4 by auto. destruct A4 as (A4 & A5 & A6 & A7).
  specialize (A7 k). specialize (A1 k). specialize (A2 k). destruct (get_list k q) as [l|l| |] eqn:El; try done.
  destruct (set_list_inv L P F F w id q k (Waiting (l ++ [f])) E Hi) as (H1 & H2 & H3);
    [done|done|by apply Forall_app; split; [|apply Forall_singleton]|by rewrite El|].
  eexists _, tt. split; [done|]. rewrite El in H2. cbn [list_potential] in H2. rewrite <- spends_list_app, spends_list_one in H2.
  split; [split; [done|split; [by eapply keeps_after|lia]]|]. exists (set_list k (Waiting (l ++ [f])) q).
  rewrite on_lookup, decide_True, E by done. destruct (set_list_fields k (Waiting (l ++ [f])) q) as (S1 & S2 & S3 & S4 & S5).
  rewrite S1, S2, S4. by split_and!.
Qed.

Lemma made_logs alive g t b self l : 1 <= N -> Forall is_log l ->
  hoare (made alive g t b) (go (CScript self l)) (fun _ => made alive g t b).
Proof.
  intros Hn Hl w Hw. rewrite (go_logs L N go Hgo) by done. eexists _, tt. split; [done|]. apply made_plains; [apply plain_logs|done].
Qed.

Lemma made_new s : Inv P F w0 -> id = length (requests w0) -> good_codes (s_statusCode s) ->
  made true false false (potential L w0 + in_done L + spends_codes L (s_statusCode s)) (set_requests (requests w0 ++ [new_request s]) w0).
Proof.
  intros Hi Hid Hs. pose proof Hi as [H1 H2 H3 H4 H5 H6]. set (w := set_requests _ w0).
  assert (requests w = requests w0 ++ [new_request s] /\ log w = log w0 /\ active w = active w0) as (Er & El & Ea) by (by unfold w; destruct w0).
  assert (forall i q, requests w0 !! i = Some q -> requests w !! i = Some q) as Hold by (intros; rewrite Er; by apply lookup_app_l_Some).
  assert (requests w !! id = Some (new_request s)) as E by (rewrite Er, Hid; by apply list_lookup_middle).
  split; [split; [|split]|].
  - split.
    + intros i q Ei. rewrite El. rewrite Er in Ei. apply lookup_app_Some in Ei as [Ei|[Hle Ei]]; [by apply H1|].
      apply list_lookup_singleton_Some in Ei as [Hl <-]. assert (i = id) as -> by lia.
      split; [|by intros []; apply List.Forall_nil|done|].
      * intros k. split; [by destruct k|]. intros HF. apply H6 in HF. rewrite Hnew in HF. by destruct HF.
      * rewrite decide_False by done. split; [|split; [by apply H5|split; [by eexists|by intros []]]].
        intros Hp. destruct (H2 id Hp) as (q & Eq & _). by rewrite Hnew in Eq.
    + intros i Hp. destruct (H2 i Hp) as (q & Eq & ?). exists q. auto.
    + rewrite Er, Ea, total_app, H3. unfold counted at 3. cbn. by rewrite Nat.add_0_r.
    + by rewrite El, Ea.
    + intros i Ei. rewrite El. apply H5. rewrite Er in Ei. apply lookup_ge_None in Ei. rewrite length_app in Ei. apply lookup_ge_None. lia.
    + intros i k Hk. destruct (H6 i k Hk) as [q Eq]. exists q. auto.
  - intros i q Ei. exists q. split; [auto|]. rewrite El. split; auto.
  - unfold potential at 1. rewrite Er, total_app. unfold request_potential at 2. cbn -[in_done spends_codes]. unfold potential. lia.
  - exists (new_request s). by split_and!.
Qed.

(** The request is counted, and ajaxStart is sent when it is the first. *)
Lemma made_open b w : made true false false b w ->
  let w' := set_active (active w + 1) (on id (set_fire true) w) in
  made true true false b (if (active w =? 0)%Z then write [LStart] w' else w').
Proof.
  intros [(Hi & Hk & Hb) (q & E & Hf & Ht & Ha)] w'. specialize (Ha eq_refl). set (w2 := if (active w =? 0)%Z then write [LStart] w' else w').
  assert (requests w2 = requests (on id (set_fire true) w) /\ active w2 = (active w + 1)%Z) as [Er Ea]
    by (unfold w2, w'; destruct w; by destruct (Z.eqb _ 0)).
  assert (forall i, about i (log w2) = about i (log w)) as Hab.
  { intros i. unfold w2, w'. destruct w as [l a g]. destruct (Z.eqb _ 0); [|done]. cbn. unfold about. rewrite filter_app. apply app_nil_r. }
  assert (forall i q', requests w2 !! i = Some q' -> exists q0, requests w !! i = Some q0 /\ q' = if decide (i = id) then set_fire true q0 else q0) as Hr.
  { intros i q' Ei. rewrite Er, on_lookup in Ei. destruct (decide (i = id)); [|by exists q']. apply fmap_Some in Ei as (q0 & -> & ->). by exists q0. }
  assert (forall i q0, requests w !! i = Some q0 -> requests w2 !! i = Some (if decide (i = id) then set_fire true q0 else q0)) as Hr'.
  { intros i q0 Ei. rewrite Er, on_lookup, Ei. by destruct (decide (i = id)). }
  destruct Hi as [H1 H2 H3 H4 H5 H6]. split; [split; [|split]|].
  - split.
    + intros i q' Ei. destruct (Hr i q' Ei) as (q0 & E0 & ->). destruct (H1 i q0 E0) as [A1 A2 A3 A4].
      destruct (decide (i = id)) as [->|Hne]; [|split; try done; by rewrite Hab].
      assert (q0 = q) as -> by congruence. rewrite decide_False in A4 by done.
      split; [intros k; rewrite <- (A1 k)|intros k; specialize (A2 k)|by destruct q|rewrite decide_False by (by destruct q)].
      * destruct q; by destruct k.
      * destruct q; by destruct k.
      * rewrite Hab. destruct A4 as (B1 & B2 & B3 & B4). destruct q. split_and!; [done..|]. intros k. rewrite <- (B4 k). by destruct k.
    + intros i Hp. destruct (H2 i Hp) as (q0 & E0 & S0). eexists. split; [by apply Hr'|]. destruct (decide (i = id)) as [->|]; [congruence|done].
    + rewrite Er, Ea, H3. pose proof (total_alter (counted P) (set_fire true) id (requests w) q E) as T.
      assert (counted P id q = 0) as T1 by (unfold counted; by rewrite Hf).
      assert (counted P id (set_fire true q) = 1) as T2.
      { unfold counted. destruct q. cbn in *. by rewrite bool_decide_eq_true_2. }
      rewrite T1, T2 in T. destruct w as [l a g]. unfold on. cbn [requests set_requests] in *. lia.
    + rewrite Ea. assert (0 <= active w)%Z as Hp by lia. rewrite (bool_decide_eq_true_2 (0 < active w + 1)%Z) by lia.
      unfold w2, w'. destruct w as [l a g]. cbn -[gates] in *. destruct (Z.eqb_spec a 0) as [->|Hz]; cbn -[gates].
      * by rewrite gates_app, H4.
      * rewrite H4. by rewrite bool_decide_eq_true_2 by lia.
    + intros i Ei. rewrite Hab. apply H5. rewrite Er, on_lookup in Ei. destruct (decide (i = id)); [by apply fmap_None in Ei|done].
    + intros i k HF. destruct (H6 i k HF) as [q0 E0]. eexists. by apply Hr'.
  - intros i qi Ei. destruct (Hk i qi Ei) as (q' & E' & [K1 K2 K3 K4 K5 K6 K7]). exists q'.
    assert (i <> id) as Hne by (intros ->; by rewrite Hnew in Ei). split; [rewrite (Hr' i q' E'); by rewrite decide_False|].
    split; try done. intros Hp. rewrite Hab. auto.
  - unfold potential. rewrite Er. change (potential L (on id (set_fire true) w) <= b). pose proof (potential_on L w id q (set_fire true) E) as Hp.
    assert (request_potential L id (set_fire true q) = request_potential L id q) as Hq by (by destruct q). lia.
  - exists (set_fire true q). rewrite (Hr' id q E), decide_True by done. destruct q. split_and!; done.
Qed.

Lemma made_left alive g t b c e : runs L N P F F c e -> b + c <= N ->
  hoare (made alive g t b) e (fun _ => left_by P F w0 (b + c)).
Proof. intros He Hn. eapply hoare_post; [by apply made_go|]. by intros _ w [H _]. Qed.

Ltac same := let q := fresh "q" in intros q ? ?; destruct q; split; [split; try done; intros []; done|done].

(** [transport.send], and what [ajax] catches. *)
Lemma send_runs s b : b + 1 <= N ->
  hoare (made true (s_global s) true b)
    (fun w => match send go id s w with
              | (w, Throw msg) => if decide (state_of id w = Over) then (w, Throw msg) else go (CDone id (Answer (-1) msg "" None)) w
              | r => r
              end)
    (fun _ => left_by P F w0 (b + 1)).
Proof.
  intros Hn w Hw. pose proof Hw as [_ (q & E & _ & Ht & Ha)]. unfold send. rewrite (sbind_run (sget _) _ w w _ eq_refl), E, (Ht (Ha eq_refl)).
  rewrite (sbind_run (smodify _) _ w _ tt eq_refl). apply (made_plains _ _ _ _ [LTransport id]) in Hw; [|by apply Forall_singleton].
  set (w1 := write _ w) in *. clearbody w1. clear q E Ht Ha w.
  assert (forall a, exists w' (u : unit), go (CDone id a) w1 = (w', Ok u) /\ left_by P F w0 (b + 1) w') as Hdone
    by (intros a; apply (made_left true (s_global s) true b 1); [apply (go_done L N go Hgo)|done|done]).
  assert (made true (s_global s) true b (on id (set_waiting true) w1)) as Hwait
    by (eapply made_on; [done|]; same).
  destruct (s_transport s) as [| |a|msg].
  1, 2: eexists _, tt; split; [done|]; destruct Hwait as [(H1 & H2 & H3) _]; split; [done|split; [done|lia]].
  - destruct (Hdone a) as (w' & u & E & H). rewrite E. by exists w', u.
  - cbn [sthrow]. destruct Hw as [Hl (q & E & Hf & Ht & Ha)]. rewrite decide_False; [apply Hdone|]. unfold state_of. rewrite E. auto.
Qed.

Lemma ajax_send_runs s b : good_script (s_success s) -> good_script (s_error s) -> good_script (s_complete s) ->
  let c := spends L (s_success s) + spends L (s_error s) + spends L (s_complete s) + 7 in b + c <= N ->
  hoare (made true (s_global s) false b) (ajax_send listeners go id s) (fun _ => left_by P F w0 (b + c)).
Proof.
  intros G1 G2 G3 c Hn. unfold ajax_send. set (g := s_global s) in *.
  mid_step (made true g false b); [apply hoare_modify; intros w Hw; eapply made_on; [done|]; same|].
  mid_step (made true g false (b + (spends L (s_success s) + 2))); [by apply made_add|].
  mid_step (made true g false (b + (spends L (s_success s) + 2) + (spends L (s_error s) + 2))); [by apply made_add|].
  mid_step (made true g false (b + (c - 1))).
  { replace (b + (c - 1)) with (b + (spends L (s_success s) + 2) + (spends L (s_error s) + 2) + (spends L (s_complete s) + 2)) by lia.
    by apply made_add. }
  replace (b + c) with (b + (c - 1) + 1) by lia.
  destruct (s_transport s) eqn:Et; [apply (made_left true g false); [apply (go_done L N go Hgo)|lia]|..].
  all: mid_step (made true g true (b + (c - 1)));
    [apply hoare_modify; intros w Hw; eapply made_on; [done|]; same|].
  all: mid_step (made true g true (b + (c - 1)));
    [apply hoare_when; [intros _|done]; unfold trigger; mid_step (made true g true (b + (c - 1)));
       [apply hoare_modify; intros w; apply made_plains; by apply Forall_singleton|by apply made_logs; [lia|]]|].
  all: mid_step (made true g true (b + (c - 1)));
    [apply hoare_when; [intros _|done]; apply hoare_modify; intros w Hw; eapply made_on; [done|]; same|].
  all: mid_step (made true g true (b + (c - 1)));
    [apply hoare_modify; intros w Hw; eapply made_on; [done|]; intros q Hf Ho; specialize (Ho eq_refl); destruct q; cbn in Ho;
       split; [split; try done; intros []; done|done]|].
  all: apply send_runs; lia.
Qed.

(** [fireGlobals] is set, and the request counted. *)
Lemma opening_runs g b {B} (k : st_ex world B) Q : 1 <= N -> hoare (made true g false b) k Q ->
  hoare (made true false false b)
    (sbind (smodify (on id (set_fire g))) (fun _ =>
     sbind (swhen g (sbind (sget active) (fun n => sbind (smodify (fun w => set_active (active w + 1) w)) (fun _ =>
       swhen (n =? 0)%Z (trigger listeners go MStart None LStart))))) (fun _ => k))) Q.
Proof.
  intros Hn Hk. destruct g; cbn [swhen].
  - intros w Hw. rewrite (sbind_run (smodify _) _ w _ tt eq_refl).
    assert (exists w', (sbind (sget active) (fun n => sbind (smodify (fun w => set_active (active w + 1) w)) (fun _ =>
       swhen (n =? 0)%Z (trigger listeners go MStart None LStart)))) (on id (set_fire true) w) = (w', Ok tt) /\ made true true false b w') as (w' & E & Hw').
    { apply made_open in Hw. rewrite (sbind_run (sget _) _ _ _ _ eq_refl), (sbind_run (smodify (fun w => set_active (active w + 1) w)) _ _ _ tt eq_refl).
      replace (active (on id (set_fire true) w)) with (active w) by (by destruct w). destruct (Z.eqb (active w) 0); cbn [swhen]; [|by eexists].
      unfold trigger. rewrite (sbind_run (smodify _) _ _ _ tt eq_refl).
      destruct (made_logs true true false b None (listeners MStart) Hn Hstart _ Hw) as (w' & [] & E & H). by exists w'. }
    rewrite (sbind_run _ _ _ _ _ E). by apply Hk.
  - mid_step (made true false false b).
    { apply hoare_modify. intros w Hw. eapply made_on; [done|]. intros q Hf ?. destruct q. cbn in Hf. subst. split; [split; try done; intros []; done|done]. }
    mid_step (made true false false b); [by apply hoare_ret|done].
Qed.

End making.

Lemma left_less P F w0 b b' w : b <= b' -> left_by P F w0 b w -> left_by P F w0 b' w.
Proof. intros Hb (H1 & H2 & H3). split_and!; [done..|lia]. Qed.

Lemma spent_ajax (s : settings) : spent L (AAjax s) =
  in_done L + 2 * L + 30 + spends L (s_prefilter s) + spends L (before_script s) +
  spends L (s_success s) + spends L (s_error s) + spends L (s_complete s) + spends_codes L (s_statusCode s).
Proof. destruct s as [? ? [[]|] ? ? ? ? ? ? ? ? ?]; cbn -[in_done Nat.mul Nat.add]; rewrite spends_codes_map; done. Qed.

Lemma ajax_runs P F (s : settings) : good (AAjax s) -> runs L N P F F (spent L (AAjax s) - 1) (ajax listeners go s).
Proof.
  intros Hs w Hi Hn. rewrite spent_ajax in *. inversion Hs as [s' G1 G2 G3 G4 G5 G6| | | |]; subst s'. unfold ajax.
  rewrite (sbind_run (sget _) _ w w _ eq_refl), (sbind_run (smodify _) _ w _ tt eq_refl). set (id := length (requests w)).
  assert (requests w !! id = None) as Hnew by (by apply lookup_ge_None).
  pose proof (made_new P F w id Hnew s Hi eq_refl G6) as Hw. set (w1 := set_requests _ w) in *. clearbody w1.
  set (b := potential L w + in_done L + spends_codes L (s_statusCode s)) in *.
  set (C := potential L w + (in_done L + 2 * L + 30 + spends L (s_prefilter s) + spends L (before_script s) +
    spends L (s_success s) + spends L (s_error s) + spends L (s_complete s) + spends_codes L (s_statusCode s) - 1)) in *.
  match goal with |- exists w', ?e w1 = _ /\ _ => enough (hoare (made P F w id true false false b) e (fun _ => left_by P F w C)) as Hh end.
  { destruct (Hh w1 Hw) as (w' & [] & E & H1 & H2 & H3). exists w'. split_and!; [done..|unfold C in H3; lia|done]. }
  assert (potential L w <= N) as Hn' by lia.
  set (b1 := b + (1 + spends L (s_prefilter s))). set (g := s_global s) in *.
  mid_step (made P F w id false false false b1); [apply (made_go P F w id true); [by apply (go_script L N go Hgo)|unfold b1, b, C in *; lia]|].
  intros w2 Hw2. rewrite (sbind_run (sget _) _ w2 w2 _ eq_refl). destruct (decide (state_of id w2 = Over)) as [Ho|Ho].
  { exists w2, tt. split; [done|]. destruct Hw2 as [Hl _]. eapply left_less; [|done]. unfold b1, b, C. lia. }
  apply made_alive in Hw2; [|done]. clear Ho. revert w2 Hw2. refine (_ : hoare _ _ _).
  apply opening_runs; [done|unfold in_done in *; lia|].
  assert (forall b', b1 <= b' <= b1 + (1 + spends L (before_script s)) -> hoare (made P F w id true g false b') (ajax_send listeners go id s) (fun _ => left_by P F w C)) as Hrest.
  { intros b' Hb'. eapply hoare_post; [apply ajax_send_runs; [done..|]; unfold b1, b, C in *; lia|]. intros u w3 Hw3.
    eapply left_less; [|exact Hw3]. unfold b1, b, C in *. lia. }
  unfold ajax_before, before_script in *. destruct (s_beforeSend s) as [[f refused]|]; [|apply Hrest; lia].
  mid_step (made P F w id false g false (b1 + (1 + spends L f))); [apply (made_go P F w id true); [by apply (go_script L N go Hgo)|unfold b1, b, C in *; lia]|].
  intros w3 Hw3. rewrite (sbind_run (sget _) _ w3 w3 _ eq_refl). destruct (refused || bool_decide (state_of id w3 = Over)) eqn:R.
  - assert (b1 + (1 + spends L f) + 2 <= N) as Hc by (unfold b1, b, C in *; lia).
    destruct (made_left P F w id false g false _ 2 (go (CAbort id None)) (go_abort L N go Hgo P F id None) Hc w3 Hw3) as (w4 & u & E & H). exists w4, u. split; [done|]. eapply left_less; [|done]. unfold b1, b, C. lia.
  - apply orb_false_iff in R as [_ R%bool_decide_eq_false]. apply made_alive in Hw3; [|done]. eapply Hrest; [|done]. lia.
Qed.

End library.

(** ** [exec] *)

(** Listeners that do not throw and take at most [L] fuel, so that they make no requests; those of ajaxStart and
    ajaxSend only write to the log. *)
Record quiet (L : nat) (listeners : moment -> script) : Prop := {
  qt_good m : good_script (listeners m);
  qt_spends m : spends L (listeners m) <= L;
  qt_start : Forall is_log (listeners MStart);
  qt_send : Forall is_log (listeners MSend)
}.

Lemma runs_step L n P F F' c e : runs L n P F F' c e -> runs L (S n) P F F' (S c) e.
Proof. intros H w Hi Hn. destruct (H w Hi) as (w' & E & H1 & H2 & H3); [lia|]. exists w'. split_and!; [done..|lia|done]. Qed.

Lemma runs_none L P F F' c e : 1 <= c -> runs L 0 P F F' c e.
Proof. intros Hc w Hi Hn. lia. Qed.

Lemma exec_ok L listeners n : quiet L listeners -> go_ok L n (exec listeners n).
Proof.
  intros [Q1 Q2 Q3 Q4]. induction n as [|n IH].
  - split; intros; try (apply runs_none; lia); [|lia]. apply runs_none. rewrite spent_ajax. lia.
  - split; cbn [exec perform].
    + intros P F self l Hl. apply runs_step. by apply script_runs.
    + intros P F id k HF. apply runs_step. by apply fire_runs.
    + intros P F id a. apply runs_step. by apply done_runs.
    + intros P F id t. apply runs_step. by apply (abort_runs L).
    + intros P F s Hs. apply (runs_less L (S n) P F F (S (spent L (AAjax s) - 1))); [rewrite spent_ajax; unfold in_done; lia|].
      apply runs_step. by apply ajax_runs.
    + intros self l w Hl _. by apply script_logs.
Qed.

(** ** Sessions *)

Definition good_happening (h : happening) : Prop := match h with HRun l => good_script l | _ => True end.

(** The fuel of what happens. *)
Definition needs (L : nat) (h : happening) : nat :=
  match h with HRun l => 1 + spends L l | HAnswer _ _ => 1 | HTimeout _ => 2 end.

Fixpoint session (listeners : moment -> script) (n : nat) (hs : list happening) : st_ex world unit :=
  match hs with
  | [] => sret tt
  | h :: hs => sbind (happen listeners n h) (fun _ => session listeners n hs)
  end.

Definition no_list : nat -> kind -> Prop := fun _ _ => False.

Lemma happen_runs L listeners n h : quiet L listeners -> good_happening h ->
  runs L n [] no_list no_list (needs L h) (happen listeners n h).
Proof.
  intros Hq Hh. pose proof (exec_ok L listeners n Hq) as Hgo. destruct h as [l|id a|id]; cbn [happen needs good_happening] in *.
  - by apply (go_script L n _ Hgo).
  - apply runs_with; [|done|done]. intros q w E. destruct (q_waiting q); cbn [swhen]; [|apply runs_ret].
    apply (runs_change L n [] no_list no_list no_list _ 1); [|apply (go_done L n _ Hgo)]. intros Hi.
    pose proof (set_waiting_course q) as Hs.
    destruct (inv_same L [] no_list _ w id q Hs E Hi) as [H1 H2]. split; [done|]. split; [lia|].
    eapply keeps_on; [done|]. destruct q; split; auto.
  - apply runs_with; [|done|done]. intros q w E. destruct (q_timer q); cbn [swhen]; [|apply runs_ret].
    apply (runs_change L n [] no_list no_list no_list _ 2); [|apply (go_abort L n _ Hgo)]. intros Hi.
    pose proof (set_timer_course q) as Hs.
    destruct (inv_same L [] no_list _ w id q Hs E Hi) as [H1 H2]. split; [done|]. split; [lia|].
    eapply keeps_on; [done|]. destruct q; split; auto.
Qed.

Lemma session_runs L listeners n hs : quiet L listeners -> Forall good_happening hs ->
  runs L n [] no_list no_list (sum_list (map (needs L) hs)) (session listeners n hs).
Proof.
  intros Hq Hhs. induction Hhs as [|h hs Hh Hhs IH]; cbn [session map]; [apply runs_ret|].
  apply (runs_bind L n [] no_list no_list no_list (needs L h) (sum_list (map (needs L) hs))); [by apply happen_runs|done].
Qed.

Lemma new_world_inv : Inv [] no_list new_world.
Proof. split; try done. intros id Hid. by apply elem_of_nil in Hid. Qed.

(** C7: when the functions of the page do not throw ([throwing_callback] shows what happens otherwise), and the listeners
    of global events make no requests, those of ajaxStart and ajaxSend only looking on ([abort_in_ajaxSend] shows
    what happens otherwise), then, in whatever order answers and timers come, every request settles at most once, fires the callbacks of the side it settles on, and then its completion, with the global events around them, and its
    lists are fired or disabled; a request that is not over has fired nothing; [jQuery.active] is the number of
    requests with global events that are not over; ajaxStart and ajaxStop alternate, and the last was a start when
    some request is on. *)
Theorem requests_settle_once L listeners n hs : quiet L listeners -> Forall good_happening hs ->
  sum_list (map (needs L) hs) <= n ->
  exists w, session listeners n hs new_world = (w, Ok tt) /\
    (forall id q, requests w !! id = Some q ->
       (forall k, ~ is_firing (get_list k q)) /\
       if decide (q_state q = Over) then
         exists ok, about id (log w) = story id ok (q_fire q) /\ forall k, class_of (get_list k q) = settled_classes ok k
       else about id (log w) = [] /\ forall k, class_of (get_list k q) = Waits) /\
    active w = Z.of_nat (length (filter (fun q => q_fire q = true /\ q_state q <> Over) (requests w))) /\
    gates (log w) = Some (bool_decide (0 < active w)%Z).
Proof.
  intros Hq Hhs Hn. destruct (session_runs L listeners n hs Hq Hhs new_world new_world_inv) as (w & E & [H1 H2 H3 H4 H5 H6] & _); [cbn; lia|].
  exists w. split; [done|]. split; [|split; [|done]].
  - intros id q Eq. destruct (H1 id q Eq) as [A1 A2 A3 A4]. split; [intros k Hk; by apply A1 in Hk|].
    destruct (decide (q_state q = Over)); [|naive_solver]. destruct A4 as [A4|A4]; [by apply elem_of_nil in A4|done].
  - rewrite H3. f_equal. by apply total_counted.
Qed.

Lemma same_lookup f w id q : requests w !! id = Some q -> requests (on id f w) !! id = Some (f q).
Proof. intros E. by rewrite on_lookup, decide_True, E. Qed.

Section ends.
Context (L n : nat) (listeners : moment -> script) (Hq : quiet L listeners) (id : nat).

Definition ends (e : st_ex world unit) (w : world) : Prop :=
  exists w' q', e w = (w', Ok tt) /\ requests w' !! id = Some q' /\ q_state q' = Over.

Lemma exec_done_ends a w q : requests w !! id = Some q -> Inv [] no_list w -> potential L w <= n ->
  ends (exec listeners (S n) (CDone id a)) w.
Proof.
  intros E Hi Hn. pose proof (exec_ok L listeners n Hq) as Hgo. destruct Hq as [Q1 Q2 Q3 Q4].
  destruct (done_ends L n listeners _ Hgo Q1 Q2 [] no_list id a w q E Hi Hn) as (w' & Ew & _ & q' & H). by exists w', q'.
Qed.

Lemma exec_abort_ends t w q : requests w !! id = Some q -> Inv [] no_list w -> potential L w <= n ->
  ends (exec listeners (S (S n)) (CAbort id t)) w.
Proof.
  intros E Hi Hn. change (exec listeners (S (S n)) (CAbort id t)) with (abort (exec listeners (S n)) id t).
  unfold ends, abort, with_request. rewrite (sbind_run (sget _) _ w w _ eq_refl), E. destruct (q_transport q && q_waiting q); cbn [swhen].
  - assert (requests (write [LAbort id] w) !! id = Some q) as E1 by (by rewrite write_requests).
    destruct (inv_same L [] no_list _ _ id q (set_waiting_course q) E1 (inv_plain [] no_list w (LAbort id) I Hi)) as [H1 H2].
    eapply exec_done_ends; [by apply same_lookup|done|]. by rewrite H2, potential_write.
  - by apply (exec_done_ends _ w q).
Qed.

End ends.

(** C34: a request whose transport has an answer to give, or whose timer runs, is over once the answer comes or the timer
    fires. *)
Theorem answers_end_requests L listeners n hs w id q a : quiet L listeners -> Forall good_happening hs ->
  sum_list (map (needs L) hs) + 2 <= n -> session listeners n hs new_world = (w, Ok tt) ->
  requests w !! id = Some q ->
  (q_waiting q = true -> ends id (happen listeners n (HAnswer id a)) w) /\
  (q_timer q = true -> ends id (happen listeners n (HTimeout id)) w).
Proof.
  intros Hq Hhs Hn E Eq. destruct (session_runs L listeners n hs Hq Hhs new_world new_world_inv) as (w1 & E1 & Hi & Hp & _); [cbn; lia|].
  rewrite E in E1. injection E1 as <-. cbn in Hp. destruct n as [|[|n]]; [lia|lia|].
  unfold ends, happen, with_request. rewrite !(sbind_run (sget _) _ w w _ eq_refl), !Eq. split; intros ->; cbn [swhen].
  - destruct (inv_same L [] no_list _ w id q (set_waiting_course q) Eq Hi) as [H1 H2].
    apply (exec_done_ends L (S n) listeners Hq id a _ (set_waiting false q)); [by apply same_lookup|done|lia].
  - destruct (inv_same L [] no_list _ w id q (set_timer_course q) Eq Hi) as [H1 H2].
    apply (exec_abort_ends L n listeners Hq id (Some "timeout"%string) _ (set_timer false q)); [by apply same_lookup|done|lia].
Qed.

(** ** Instances *)

Definition example_table : table := ajaxSettings (fun v => Some v) (fun _ => None).

(** A request with global events over an asynchronous transport, whose callbacks log 1, 2 and 3. *)
Definition example_settings : settings :=
  Settings true [] None [ALog 1] [ALog 2] [ALog 3] [] Later true false ["json"%string] example_table.

Definition example_listeners (m : moment) : script :=
  match m with MStart => [ALog 10] | MSend => [ALog 11] | MStop => [ALog 12] | _ => [] end.

Lemma example_quiet : quiet 0 example_listeners.
Proof.
  assert (forall n, Forall good [ALog n]) as H by (intros; apply Forall_singleton; constructor).
  split; [intros []; (apply H || constructor)|by intros []|by apply Forall_singleton|by apply Forall_singleton].
Qed.

Lemma example_good s : s = example_settings -> good (AAjax s).
Proof.
  assert (forall n, Forall good [ALog n]) as H by (intros; apply Forall_singleton; constructor).
  intros ->. constructor; (apply H || constructor).
Qed.

Definition example_answer : answer := Answer 200 "OK" "text/plain" None.

(** One request and one more from outside, an abort, an answer, a timer. *)
Definition example_session : list happening :=
  [HRun [AAjax example_settings; AAjax example_settings]; HRun [AAbort (Req 0) None]; HAnswer 1 example_answer; HTimeout 1].

Lemma requests_settle_once_witness : exists w, session example_listeners 200 example_session new_world = (w, Ok tt) /\
  gates (log w) = Some (bool_decide (0 < active w)%Z).
Proof.
  destruct (requests_settle_once 0 example_listeners 200 example_session) as (w & E & _ & _ & H).
  - apply example_quiet.
  - repeat first [apply List.Forall_nil|apply List.Forall_cons]; try exact I; first [by apply example_good|apply good_abort].
  - vm_compute. lia.
  - exists w. exact (conj E H).
Defined.

Lemma answers_end_requests_witness :
  let w := fst (session example_listeners 200 [HRun [AAjax example_settings]] new_world) in
  ends 0 (happen example_listeners 200 (HAnswer 0 example_answer)) w /\ ends 0 (happen example_listeners 200 (HTimeout 0)) w.
Proof.
  intros w. edestruct (answers_end_requests 0 example_listeners 200 [HRun [AAjax example_settings]] w 0) as [H1 H2].
  - apply example_quiet.
  - repeat first [apply List.Forall_nil|apply List.Forall_cons]. by apply example_good.
  - vm_compute. lia.
  - vm_compute. reflexivity.
  - vm_compute. reflexivity.
  - split; [apply H1|apply H2]; vm_compute; reflexivity.
Defined.

(** A listener of ajaxSend that aborts the request: [state] becomes 1 again, there is no transport to send, and [done] runs
    twice. *)
Lemma abort_in_ajaxSend :
  let w := fst (exec (fun m => match m with MSend => [AAbort (Req 0) None] | _ => [] end) 60 (CAjax example_settings) new_world) in
  active w = (-1)%Z /\ about 0 (log w) = story 0 false true ++ story 0 false true.
Proof. split; vm_compute; reflexivity. Qed.

(** A callback that throws: the request stays counted, and no ajaxStop is sent. *)
Lemma throwing_callback :
  let s := Settings true [] None [AThrow "error"] [] [] [] (AtOnce example_answer) false false ["text"%string] example_table in
  let w := fst (exec example_listeners 60 (CAjax s) new_world) in
  active w = 1%Z /\ gates (log w) = Some true /\ state_of 0 w = Over.
Proof. split_and!; vm_compute; reflexivity. Qed.
