(* ===== verification/Events.v ===== *)
(** * jQuery: events (application bundle, lines 4254-4709, 4807-4890, 4909-5027 and 5135-5270)

    Elements are numbers, in a document where a parent comes before its children.  Functions are numbers too:
    objects with a guid, whose bodies are scripts that call the library, or the wrapper of [one].  What selectors find
    is a parameter.  The functions of the library call one another through the scripts they run; the recursion
    takes fuel, and a call without fuel throws, as a call too deep does in the browser.  Whether focusin bubbles
    in the browser is part of the state; where it does not, the document captures focus and blur for it.  The methods of elements that
    [trigger] calls in the end or, by the hooks of focus, blur and click, at once, the hook of beforeunload, the on*
    attributes, types that Bootstrap adds and what is for browsers without submit and change events that bubble are left out. *)

From S2P Require Import Prelude JsString Callbacks Params.
From Stdlib Require Import ZArith Lia Ascii.
From stdpp Require Import gmap.

Local Open Scope Z_scope.

(** ** Types and namespaces *)

(** [rtypenamespace.exec(t)]: the type, and what follows the dot. *)
Definition is_dot (c : ascii) : bool := bool_decide (c = "."%char).

Definition rtypenamespace (t : text) : option (text * option text) :=
  let ty := take_while (fun c => negb (is_dot c)) t in
  match drop (length ty) t with
  | [] => Some (ty, None)
  | [_] => None
  | _ :: ns => Some (ty, Some ns)
  end.

(** The order of [sort()]: by code units. *)
Fixpoint text_cmp (a b : text) : Z :=
  match a, b with
  | [], [] => 0
  | [], _ => -1
  | _, [] => 1
  | x :: a, y :: b => if code x =? code y then text_cmp a b else code x - code y
  end.

Definition sorted_names (ns : text) : list text := js_sort text_cmp (split_on "."%char ns).

(** The regular expression of names [n1], ..., [nk]: [(^|\.)n1\.(?:.*\.|)n2...nk(\.|$)]; the names are taken as they are.
    [match_names] is from the end of its first group. *)
Definition ends (t : text) : bool := match t with [] => true | c :: _ => is_dot c end.

Fixpoint after_dots (t : text) : list text :=
  match t with
  | [] => []
  | c :: t => (if is_dot c then [t] else []) ++ after_dots t
  end.

Fixpoint match_names (names : list text) (t : text) : bool :=
  match names with
  | [] => ends t
  | n :: names' =>
      match JsString.strip_prefix n t, names' with
      | None, _ => false
      | Some r, [] => ends r
      | Some (c :: r), _ => is_dot c && existsb (match_names names') (r :: after_dots r)
      | Some [], _ => false
      end
  end.

Definition namespace_re (names : list text) (t : text) : bool := existsb (match_names names) (t :: after_dots t).

(** [jQuery.event.special]: the types that stand for others. *)
Record special_ := Special { sp_delegateType : option text; sp_bindType : option text; sp_noBubble : bool; sp_enter : bool }.

Definition special_table : list (string * special_) :=
  [("load", Special None None true false);
   ("focus", Special (Some (txt "focusin")) None false false);
   ("blur", Special (Some (txt "focusout")) None false false);
   ("mouseenter", Special (Some (txt "mouseover")) (Some (txt "mouseover")) false true);
   ("mouseleave", Special (Some (txt "mouseout")) (Some (txt "mouseout")) false true);
   ("pointerenter", Special (Some (txt "pointerover")) (Some (txt "pointerover")) false true);
   ("pointerleave", Special (Some (txt "pointerout")) (Some (txt "pointerout")) false true)]%string.

Definition special (type : text) : special_ :=
  match head (filter (fun s => txt s.1 = type) special_table) with Some (_, s) => s | None => Special None None false false end.

(** An empty selector is none. *)
Definition selector_of (s : option text) : option text := match s with Some [] => None | s => s end.

Definition mapped_type (selector : option text) (type : text) : text :=
  default type (match selector with Some _ => sp_delegateType (special type) | None => sp_bindType (special type) end).

(** Where focusin and focusout do not bubble, the events that stand for them; and back. *)
Definition orig_of (fix_ : text) : option text :=
  if decide (fix_ = txt "focusin") then Some (txt "focus") else if decide (fix_ = txt "focusout") then Some (txt "blur") else None.
Definition fix_of (orig : text) : option text :=
  if decide (orig = txt "focus") then Some (txt "focusin") else if decide (orig = txt "blur") then Some (txt "focusout") else None.

(** ** State *)

(** What the browser is: [support.focusinBubbles] and [ownerDocument]. *)
Record browser := Browser { focusinBubbles : bool; ownerDocument : nat -> option nat }.

(** A function: its guid, and the function that a wrapper of [one] calls. *)
Record func := Func { f_guid : option nat; f_once : option nat }.

Record handleObj := HandleObj {
  h_origType : text; h_namespace : text; h_guid : nat; h_selector : option text; h_handler : nat
}.
#[export] Instance handleObj_eq : EqDecision handleObj.
Proof. solve_decision. Defined.

(** The handlers of a type, with [delegateCount]. *)
Record handlers_ := Handlers { hs_list : list handleObj; delegateCount : Z }.

(** A [jQuery.Event]. *)
Record event := Event {
  e_type : text; e_target : nat; e_namespaces : list text; e_button : Z; e_related : option nat;
  e_result : option bool; e_prevented : bool; e_stopped : bool; e_immediate : bool;
  e_delegateTarget : nat; e_handleObj : option handleObj
}.

(** What is seen: a handler called for an event on an element, a note. *)
Inductive entry := LCall (e el : nat) (h : handleObj) | LNote (n : nat).
#[export] Instance entry_eq : EqDecision entry.
Proof. solve_decision. Defined.

(** [w_listening] are the listeners of elements, [w_capturing] those of documents that capture focus and blur;
    [w_attaches] is the data of documents that counts why. *)
Record world := World {
  w_funcs : list func; w_guid : nat; w_data : gmap nat (list (text * handlers_)); w_listening : gset (nat * text);
  w_events : list event; w_log : list entry;
  w_browser : browser; w_capturing : gset (nat * text); w_attaches : gmap (nat * text) Z
}.

Definition set_funcs x (w : world) := let 'World _ g d l e o b c a := w in World x g d l e o b c a.
Definition set_guid x (w : world) := let 'World f _ d l e o b c a := w in World f x d l e o b c a.
Definition set_data x (w : world) := let 'World f g _ l e o b c a := w in World f g x l e o b c a.
Definition set_listening x (w : world) := let 'World f g d _ e o b c a := w in World f g d x e o b c a.
Definition set_events x (w : world) := let 'World f g d l _ o b c a := w in World f g d l x o b c a.
Definition write x (w : world) := let 'World f g d l e o b c a := w in World f g d l e (o ++ [x]) b c a.
Definition set_capturing x (w : world) := let 'World f g d l e o b _ a := w in World f g d l e o b x a.
Definition set_attaches x (w : world) := let 'World f g d l e o b c _ := w in World f g d l e o b c x.

Definition set_type x (e : event) := let 'Event _ a n b r u p s i d h := e in Event x a n b r u p s i d h.
Definition set_result x (e : event) := let 'Event t a n b r _ p s i d h := e in Event t a n b r x p s i d h.
Definition set_prevented (e : event) := let 'Event t a n b r u _ s i d h := e in Event t a n b r u true s i d h.
Definition set_stopped (e : event) := let 'Event t a n b r u p _ i d h := e in Event t a n b r u p true i d h.
Definition set_immediate (e : event) := let 'Event t a n b r u p s _ d h := e in Event t a n b r u p s true d h.
Definition set_delegateTarget x (e : event) := let 'Event t a n b r u p s i _ h := e in Event t a n b r u p s i x h.
Definition set_handleObj x (e : event) := let 'Event t a n b r u p s i d _ := e in Event t a n b r u p s i d x.

Definition on_event (e : nat) (f : event -> event) (w : world) : world := set_events (alter f e (w_events w)) w.

(** ** The document *)

Inductive nodekind := Element | Document | Window | Other.
#[export] Instance nodekind_eq : EqDecision nodekind.
Proof. solve_decision. Defined.

Record node := Node { n_kind : nodekind; n_parent : option nat; n_disabled : bool }.

Section document.
Context (dom : list node).

Definition kind_of (el : nat) : nodekind := default Other (n_kind <$> dom !! el).
Definition parent (el : nat) : option nat := dom !! el ≫= n_parent.

(** [el] and what is above it. *)
Fixpoint lineage (n : nat) (el : nat) : list nat :=
  match n with
  | O => []
  | S n => el :: match parent el with Some p => lineage n p | None => [] end
  end.
Definition ancestors (el : nat) : list nat := lineage (S el) el.

(** [jQuery.contains(a, b)] *)
Definition contains (a b : nat) : bool := bool_decide (a ∈ tail (ancestors b)).

End document.

(** ** Binding *)

Local Open Scope js_scope.

Fixpoint each {A} (f : A -> st_ex world unit) (l : list A) : st_ex world unit :=
  match l with
  | [] => sret tt
  | x :: l => f x ;! each f l
  end.

Definition events_of (el : nat) (w : world) : list (text * handlers_) := default [] (w_data w !! el).
Definition handlers_of (el : nat) (type : text) (w : world) : option handlers_ :=
  snd <$> head (filter (fun e => e.1 = type) (events_of el w)).

(** [events[type] = h], and [delete events[type]] *)
Fixpoint assoc_set (type : text) (h : handlers_) (l : list (text * handlers_)) : list (text * handlers_) :=
  match l with
  | [] => [(type, h)]
  | (t, h') :: l => if decide (t = type) then (t, h) :: l else (t, h') :: assoc_set type h l
  end.
Definition assoc_delete (type : text) (l : list (text * handlers_)) : list (text * handlers_) := filter (fun e => e.1 <> type) l.

Definition set_handlers (el : nat) (type : text) (h : handlers_) (w : world) : world :=
  set_data (<[el := assoc_set type h (events_of el w)]> (w_data w)) w.
Definition delete_handlers (el : nat) (type : text) (w : world) : world :=
  set_data (<[el := assoc_delete type (events_of el w)]> (w_data w)) w.

(** [l.splice(i, 0, x)] *)
Definition splice_in {A} (i : Z) (x : A) (l : list A) : list A :=
  let n := Z.of_nat (length l) in
  let i := Z.to_nat (if i <? 0 then Z.max 0 (n + i) else i) in
  take i l ++ x :: drop i l.

(** The words of [types]; none are one that is empty. *)
Definition tokens (types : text) : list text := match words [] types with [] => [[]] | l => l end.

(** [handler.guid], given when there is none. *)
Definition guid_of (f : nat) : st_ex world nat :=
  let! g := sget (fun w => w_funcs w !! f ≫= f_guid) in
  match g with
  | Some g => sret g
  | None =>
      let! g := sget w_guid in
      smodify (fun w => set_guid (S g) (set_funcs (alter (fun x => Func (Some g) (f_once x)) f (w_funcs w)) w)) ;!
      sret g
  end.

(** The types with [setup] and [teardown], and the event the document captures for them. *)
Definition fixed (w : world) (type : text) : option text := if focusinBubbles (w_browser w) then None else orig_of type.

(** [this.ownerDocument || this] *)
Definition doc_of (w : world) (el : nat) : nat := default el (ownerDocument (w_browser w) el).

Definition setup (fix_ orig : text) (el : nat) : st_ex world unit :=
  let! doc := sget (fun w => doc_of w el) in
  let! attaches := sget (fun w => default 0 (w_attaches w !! (doc, fix_))) in
  swhen (attaches =? 0) (smodify (fun w => set_capturing ({[(doc, orig)]} ∪ w_capturing w) w)) ;!
  smodify (fun w => set_attaches (<[(doc, fix_) := attaches + 1]> (w_attaches w)) w).

(** A count that is not there is not a number less one, which is false too. *)
Definition teardown (fix_ orig : text) (el : nat) : st_ex world unit :=
  let! doc := sget (fun w => doc_of w el) in
  let! attaches := sget (fun w => default 0 ((fun n => n - 1) <$> w_attaches w !! (doc, fix_))) in
  if attaches =? 0 then
    smodify (fun w => set_capturing (w_capturing w ∖ {[(doc, orig)]}) w) ;!
    smodify (fun w => set_attaches (delete (doc, fix_) (w_attaches w)) w)
  else smodify (fun w => set_attaches (<[(doc, fix_) := attaches]> (w_attaches w)) w).

(** [addEventListener], or what [special.setup] does instead; and the same for [remove]. *)
Definition listen (type : text) (el : nat) : st_ex world unit :=
  let! fix_ := sget (fun w => fixed w type) in
  match fix_ with
  | Some orig => setup type orig el
  | None => smodify (fun w => set_listening ({[(el, type)]} ∪ w_listening w) w)
  end.

(** [special] is that of the type asked for. *)
Definition unlisten (origType type : text) (el : nat) : st_ex world unit :=
  let! fix_ := sget (fun w => fixed w origType) in
  match fix_ with
  | Some orig => teardown origType orig el
  | None => smodify (fun w => set_listening (w_listening w ∖ {[(el, type)]}) w)
  end.

(** One type of [add]. *)
Definition add_type (el : nat) (f guid : nat) (selector : option text) (t : text) : st_ex world unit :=
  match rtypenamespace t with
  | None | Some ([], _) => sret tt
  | Some (origType, ns) =>
      let type := mapped_type selector origType in
      let obj := HandleObj origType (Params.join (txt ".") (sorted_names (default [] ns))) guid selector f in
      let! hs := sget (handlers_of el type) in
      swhen (bool_decide (hs = None)) (listen type el) ;!
      let '(Handlers l n) := default (Handlers [] 0) hs in
      smodify (set_handlers el type
        (match selector with Some _ => Handlers (splice_in n obj l) (n + 1) | None => Handlers (l ++ [obj]) n end))
  end.

Definition add (el : nat) (types : text) (f : nat) (selector : option text) : st_ex world unit :=
  let selector := selector_of selector in
  let! guid := guid_of f in
  smodify (fun w => set_data (<[el := events_of el w]> (w_data w)) w) ;!
  each (add_type el f guid selector) (rev (tokens types)).

(** The handlers that [remove] takes away. *)
Definition removes (mapped : bool) (origType : text) (guid : option (option nat)) (names : option (list text)) (selector : option text)
  (h : handleObj) : bool :=
  (mapped || bool_decide (origType = h_origType h)) &&
  match guid with Some g => bool_decide (g = Some (h_guid h)) | None => true end &&
  match names with Some names => namespace_re names (h_namespace h) | None => true end &&
  match selector with
  | Some s => bool_decide (Some s = h_selector h) || bool_decide (s = txt "**") && bool_decide (is_Some (h_selector h))
  | None => true
  end.

(** The loop of [remove] on the handlers, from the last. *)
Definition remove_one (p : handleObj -> bool) (hs : handlers_) (h : handleObj) : handlers_ :=
  let 'Handlers l n := hs in
  if p h then Handlers l (if bool_decide (is_Some (h_selector h)) then n - 1 else n) else Handlers (h :: l) n.

Definition remove_all (p : handleObj -> bool) (hs : handlers_) : handlers_ :=
  foldl (remove_one p) (Handlers [] (delegateCount hs)) (rev (hs_list hs)).

(** One type of [remove]; [again] is the call for each type when there is none. *)
Definition remove_type (again : text -> st_ex world unit) (el : nat) (guid : option (option nat)) (selector : option text) (mapped : bool) (t : text) :
  st_ex world unit :=
  let tmp := rtypenamespace t in
  match tmp with
  | None | Some ([], _) =>
      let! keys := sget (fun w => (events_of el w).*1) in
      each (fun type => again (type ++ t)) keys
  | Some (origType, ns) =>
      let type := mapped_type selector origType in
      let! hs := sget (handlers_of el type) in
      match hs with
      | None => sret tt
      | Some hs =>
          let hs' := remove_all (removes mapped origType guid (sorted_names <$> ns) selector) hs in
          smodify (set_handlers el type hs') ;!
          swhen (bool_decide (hs_list hs <> []) && bool_decide (hs_list hs' = []))
            (unlisten origType type el ;! smodify (delete_handlers el type))
      end
  end.

Fixpoint remove_ (n : nat) (el : nat) (types : text) (guid : option (option nat)) (selector : option text) (mapped : bool) : st_ex world unit :=
  match n with
  | O => sthrow "RangeError: too much recursion"
  | S n =>
      let! events := sget (fun w => w_data w !! el) in
      match events with
      | None => sret tt
      | Some _ =>
          each (remove_type (fun t => remove_ n el t guid selector true) el guid selector mapped) (rev (tokens types)) ;!
          let! events := sget (events_of el) in
          swhen (bool_decide (events = [])) (smodify (fun w => set_data (delete el (w_data w)) w))
      end
  end.

(** [depth] is how deep calls may be. *)
Definition remove (depth : nat) (el : nat) (types : text) (f : option nat) (selector : option text) : st_ex world unit :=
  let! guid := sget (fun w => (fun f => w_funcs w !! f ≫= f_guid) <$> f) in
  remove_ depth el types guid (selector_of selector) false.

(** [on] with one of its functions, and [one]. *)
Definition on (el : nat) (types : text) (selector : option text) (f : nat) (one : bool) : st_ex world unit :=
  if one then
    let! guid := guid_of f in
    let! f' := sget (fun w => length (w_funcs w)) in
    smodify (fun w => set_funcs (w_funcs w ++ [Func (Some guid) (Some f)]) w) ;!
    add el types f' selector
  else add el types f selector.

(** [off(event)], of an event that is dispatched. *)
Definition off_event (depth : nat) (e : nat) : st_ex world unit :=
  let! ev := sget (fun w => w_events w !! e) in
  match ev with
  | Some ev =>
      match e_handleObj ev with
      | Some h =>
          let types := match h_namespace h with [] => h_origType h | ns => h_origType h ++ txt "." ++ ns end in
          remove depth (e_delegateTarget ev) types (Some (h_handler h)) (h_selector h)
      | None => sret tt
      end
  | None => sret tt
  end.

(** ** Scripts *)

(** What functions do: the event is the one they are called with. *)
Inductive action :=
| AOn (el : nat) (types : text) (selector : option text) (f : nat) (one : bool)
| AOff (el : nat) (types : text) (selector : option text) (f : option nat)
| AOffEvent
| ATrigger (el : nat) (type : text) (onlyHandlers : bool)
| APrevent
| AStop
| AStopImmediate
| ANote (n : nat).

Inductive call :=
| CFun (f : nat) (e : nat)
| CTrigger (el : nat) (type : text) (onlyHandlers : bool).

(** ** Dispatching *)

Section dispatching.
Context (dom : list node) (window : nat).
(** Whether a selector, from an element, finds another. *)
Context (finds : text -> nat -> nat -> bool).

(** What [handlers] walks through: from the target up, below [this]. *)
Definition below (this target : nat) : list nat :=
  (fix go (l : list nat) : list nat := match l with [] => [] | x :: l => if decide (x = this) then [] else x :: go l end) (ancestors dom target).

Definition selects (this cur : nat) (h : handleObj) : bool := match h_selector h with Some s => finds s this cur | None => false end.
Definition matching (this cur : nat) (ds : list handleObj) : list handleObj := filter (fun h => selects this cur h = true) ds.

(** [jQuery.event.handlers] *)
Definition handlers (ev : event) (this : nat) (hs : handlers_) : list (nat * list handleObj) :=
  let n := Z.to_nat (delegateCount hs) in
  let ds := take n (hs_list hs) in
  let click := bool_decide (e_type ev = txt "click") in
  let delegates :=
    if negb (delegateCount hs =? 0) && bool_decide (kind_of dom (e_target ev) = Element \/ kind_of dom (e_target ev) = Document) &&
       ((e_button ev =? 0) || negb click)
    then
      omap (fun cur =>
        if bool_decide (kind_of dom cur = Element) && (negb (default false (n_disabled <$> dom !! cur)) || negb click) then
          match matching this cur ds with [] => None | l => Some (cur, l) end
        else None) (below this (e_target ev))
    else [] in
  delegates ++ (if (delegateCount hs <? Z.of_nat (length (hs_list hs))) then [(this, drop n (hs_list hs))] else []).

Context (depth : nat) (bodies : nat -> list action * option bool).
Context (go : call -> st_ex world (option bool)).

Definition event_is (p : event -> bool) (e : nat) (w : world) : bool := default false (p <$> w_events w !! e).

(** The function of a handler, between the hooks of mouseenter and its like. *)
Definition call_handler (e el : nat) (h : handleObj) : st_ex world (option bool) :=
  let sp := special (h_origType h) in
  if sp_enter sp then
    let! related := sget (fun w => w_events w !! e ≫= e_related) in
    if match related with None => true | Some r => negb (bool_decide (r = el)) && negb (contains dom el r) end then
      smodify (on_event e (set_type (h_origType h))) ;!
      let! r := go (CFun (h_handler h) e) in
      smodify (on_event e (set_type (default (h_origType h) (sp_bindType sp)))) ;!
      sret r
    else sret None
  else go (CFun (h_handler h) e).

(** What a handler returns. *)
Definition returned (e : nat) (r : option bool) : st_ex world unit :=
  match r with
  | None => sret tt
  | Some b =>
      smodify (on_event e (set_result (Some b))) ;!
      swhen (negb b) (smodify (on_event e (fun ev => set_stopped (set_prevented ev))))
  end.

Definition names_match (names : list text) (h : handleObj) : bool :=
  bool_decide (names = []) || namespace_re names (h_namespace h).

(** The loops of [dispatch]. *)
Fixpoint run_handlers (e el : nat) (hs : list handleObj) : st_ex world unit :=
  match hs with
  | [] => sret tt
  | h :: hs =>
      let! stop := sget (event_is e_immediate e) in
      if stop then sret tt
      else
        let! names := sget (fun w => default [] (e_namespaces <$> w_events w !! e)) in
        swhen (names_match names h)
          (smodify (on_event e (set_handleObj (Some h))) ;!
           smodify (write (LCall e el h)) ;!
           let! r := call_handler e el h in
           returned e r) ;!
        run_handlers e el hs
  end.

Fixpoint run_queue (e : nat) (queue : list (nat * list handleObj)) : st_ex world unit :=
  match queue with
  | [] => sret tt
  | (el, hs) :: queue =>
      let! stop := sget (event_is e_stopped e) in
      if stop then sret tt else run_handlers e el hs ;! run_queue e queue
  end.

Definition dispatch (e : nat) (this : nat) : st_ex world unit :=
  smodify (on_event e (set_delegateTarget this)) ;!
  let! queue := sget (fun w =>
    match w_events w !! e with
    | Some ev => handlers ev this (default (Handlers [] 0) (handlers_of this (e_type ev) w))
    | None => []
    end) in
  run_queue e queue.

(** ** [trigger] *)

Definition new_event (type : text) (target : nat) (names : list text) (button : Z) (related : option nat) (prevented : bool) : event :=
  Event type target names button related None prevented false false target None.

(** Where an event goes after its target. *)
Definition bubbles (el : nat) (type bubbleType : text) : list nat :=
  let up := if bool_decide (bubbleType ++ type = txt "focusinfocus" \/ bubbleType ++ type = txt "focusoutblur") then ancestors dom el
            else match parent dom el with Some p => ancestors dom p | None => [] end in
  up ++ (if bool_decide (kind_of dom (List.last up el) = Document) then [window] else []).

Definition event_path (el : nat) (type : text) (onlyHandlers : bool) : list nat :=
  let sp := special type in
  if onlyHandlers || sp_noBubble sp || bool_decide (kind_of dom el = Window) then []
  else bubbles el type (default type (sp_delegateType sp)).

(** The handlers of an element on the path. *)
Definition fire_at (e cur : nat) (type : text) : st_ex world unit :=
  let! stop := sget (event_is e_stopped e) in
  swhen (negb stop)
    (smodify (on_event e (set_type type)) ;!
     let! hs := sget (handlers_of cur type) in
     swhen (bool_decide (is_Some hs)) (dispatch e cur)).

(** The type and the names of a type with namespaces. *)
Definition triggered_type (t : text) : text * list text :=
  match split_on "."%char t with
  | [] | [_] => (t, [])
  | type :: names => let names := js_sort text_cmp names in (type, if decide (Params.join (txt ".") names = []) then [] else names)
  end.

(** An event along its path. *)
Definition trigger_event (e el : nat) (type : text) (onlyHandlers : bool) : st_ex world unit :=
  fire_at e el (default type (sp_bindType (special type))) ;!
  each (fun cur => fire_at e cur (default type (sp_delegateType (special type)))) (event_path el type onlyHandlers) ;!
  smodify (on_event e (set_type type)).

Definition trigger (el : nat) (t : text) (onlyHandlers : bool) : st_ex world (option bool) :=
  let '(type, names) := triggered_type t in
  let! e := sget (fun w => length (w_events w)) in
  smodify (fun w => set_events (w_events w ++ [new_event type el names 0 None false]) w) ;!
  trigger_event e el type onlyHandlers ;!
  sget (fun w => w_events w !! e ≫= e_result).

(** [simulate], of a type that bubbles; the result is whether the event it is made of is prevented. *)
Definition simulate (fix_ : text) (target : nat) (button : Z) (related : option nat) (prevented : bool) : st_ex world bool :=
  let! e := sget (fun w => length (w_events w)) in
  smodify (fun w => set_events (w_events w ++ [new_event fix_ target [] button related prevented]) w) ;!
  trigger_event e target fix_ false ;!
  sget (event_is e_prevented e).

(** A function of the page, or a wrapper of [one]. *)
Definition act (e : option nat) (a : action) : st_ex world unit :=
  let this f := match e with Some e => f e | None => sret tt end in
  match a with
  | AOn el types selector f one => on el types selector f one
  | AOff el types selector f => remove depth el types f selector
  | AOffEvent => this (off_event depth)
  | ATrigger el type onlyHandlers => let! _ := go (CTrigger el type onlyHandlers) in sret tt
  | APrevent => this (fun e => smodify (on_event e set_prevented))
  | AStop => this (fun e => smodify (on_event e set_stopped))
  | AStopImmediate => this (fun e => smodify (on_event e (fun ev => set_stopped (set_immediate ev))))
  | ANote n => smodify (write (LNote n))
  end.

Definition run_script (e : option nat) (l : list action) : st_ex world unit := each (act e) l.

Definition apply (f e : nat) : st_ex world (option bool) :=
  let! once := sget (fun w => w_funcs w !! f ≫= f_once) in
  match once with
  | Some f => off_event depth e ;! go (CFun f e)
  | None => let '(l, r) := bodies f in run_script (Some e) l ;! sret r
  end.

Definition perform (c : call) : st_ex world (option bool) :=
  match c with
  | CFun f e => apply f e
  | CTrigger el type onlyHandlers => trigger el type onlyHandlers
  end.

(** An event of the browser goes down to its target: a document that captures it simulates another. *)
Fixpoint capture (path : list nat) (target : nat) (type : text) (button : Z) (related : option nat) (prevented : bool) : st_ex world bool :=
  match path with
  | [] => sret prevented
  | el :: path =>
      let! capturing := sget (fun w => bool_decide ((el, type) ∈ w_capturing w)) in
      match (if capturing then fix_of type else None) with
      | Some fix_ =>
          let! prevented := simulate fix_ target button related prevented in
          capture path target type button related prevented
      | None => capture path target type button related prevented
      end
  end.

(** Then up: the elements that listen to it make an event of their own. *)
Fixpoint native (path : list nat) (target : nat) (type : text) (button : Z) (related : option nat) (prevented : bool) : st_ex world unit :=
  match path with
  | [] => sret tt
  | el :: path =>
      let! listening := sget (fun w => bool_decide ((el, type) ∈ w_listening w)) in
      if listening then
        let! e := sget (fun w => length (w_events w)) in
        smodify (fun w => set_events (w_events w ++ [new_event type target [] button related prevented]) w) ;!
        dispatch e el ;!
        let! stop := sget (event_is e_stopped e) in
        let! prevented := sget (event_is e_prevented e) in
        if stop then sret tt else native path target type button related prevented
      else native path target type button related prevented
  end.

End dispatching.

Section executing.
Context (dom : list node) (window : nat) (finds : text -> nat -> nat -> bool) (depth : nat) (bodies : nat -> list action * option bool).

Fixpoint exec (n : nat) (c : call) : st_ex world (option bool) :=
  match n with
  | O => sthrow "RangeError: too much recursion"
  | S n => perform dom window finds depth bodies (exec n) c
  end.

(** What happens: a script of the page runs, or an event of the browser comes to an element, and may go up from it. *)
Inductive happening := HScript (l : list action) | HNative (target : nat) (type : text) (up : bool) (button : Z) (related : option nat).

Definition happen (n : nat) (h : happening) : st_ex world unit :=
  match h with
  | HScript l => run_script depth (exec n) None l
  | HNative target type up button related =>
      let path := target :: bubbles dom window target type type in
      let! prevented := capture dom window finds (exec n) (rev path) target type button related false in
      native dom finds (exec n) (if up then path else [target]) target type button related prevented
  end.

End executing.

(** The functions of the page, before any is bound. *)
Definition new_world (b : browser) (n : nat) : world := World (replicate n (Func None None)) 1 ∅ ∅ [] [] b ∅ ∅.
