(* ===== verification/EventsSpec.v ===== *)
(** * jQuery: handlers are where they should be

    The regular expression of a namespace accepts the names it should; whatever scripts do, the handlers of a type are
    delegated ones first, and in the list of their type. *)

From Stdlib Require Import ZArith Lia Ascii Sorting.Sorted.
From stdpp Require Import gmap.
From S2P Require Import Prelude JsString Callbacks Params Events.

Local Open Scope Z_scope.

(** ** Namespaces *)

Definition text_le (a b : text) : Prop := text_cmp a b <= 0.

Lemma code_inj x y : code x = code y -> x = y.
Proof. unfold code. intros H. apply Nat2Z.inj in H. rewrite <- (ascii_nat_embedding x), <- (ascii_nat_embedding y). by rewrite H. Qed.

Lemma text_cmp_total a : forall b, text_le a b \/ text_le b a.
Proof.
  unfold text_le. induction a as [|x a IH]; intros [|y b]; cbn; try lia.
  destruct (Z.eqb_spec (code x) (code y)) as [->|Hne]; [rewrite Z.eqb_refl; apply IH|].
  destruct (Z.eqb_spec (code y) (code x)); lia.
Qed.

Lemma text_le_trans a : forall b c, text_le a b -> text_le b c -> text_le a c.
Proof.
  unfold text_le. induction a as [|x a IH]; intros [|y b] [|z c]; cbn; try lia.
  destruct (Z.eqb_spec (code x) (code y)), (Z.eqb_spec (code y) (code z)), (Z.eqb_spec (code x) (code z)); try lia. apply IH.
Qed.

Lemma text_le_antisym a : forall b, text_le a b -> text_le b a -> a = b.
Proof.
  unfold text_le. induction a as [|x a IH]; intros [|y b]; cbn; try lia; [done|].
  destruct (Z.eqb_spec (code x) (code y)) as [Hc|Hne].
  - rewrite Hc, Z.eqb_refl. intros H1 H2. by rewrite (code_inj _ _ Hc), (IH b H1 H2).
  - destruct (Z.eqb_spec (code y) (code x)); lia.
Qed.

Lemma insert_text_sorted x l : StronglySorted text_le l -> StronglySorted text_le (js_insert text_cmp x l).
Proof.
  induction 1 as [|y l Hs IH Hall]; cbn; [repeat constructor|].
  destruct (Z.leb_spec (text_cmp x y) 0) as [Hl|Hl].
  - repeat constructor; [done|done|done|]. eapply Forall_impl; [done|]. intros z. by apply text_le_trans.
  - constructor; [done|]. rewrite js_insert_perm. constructor; [|done].
    destruct (text_cmp_total x y) as [?|?]; [unfold text_le in *; lia|done].
Qed.

Lemma sort_text_sorted l : StronglySorted text_le (js_sort text_cmp l).
Proof. induction l; cbn; [constructor|by apply insert_text_sorted]. Qed.

(** Of sorted lists, one with no more of each text is a sublist. *)
Lemma sorted_sublist l : forall k, StronglySorted text_le l -> StronglySorted text_le k -> k ⊆+ l -> sublist k l.
Proof.
  induction l as [|x l IH]; intros k Hl Hk Hs.
  - apply submseteq_nil_r in Hs as ->. constructor.
  - apply StronglySorted_inv in Hl as [Hl Hx]. destruct k as [|y k]; [apply sublist_nil_l|]. apply StronglySorted_inv in Hk as [Hk Hy].
    assert (y ∈ x :: l) as Hin by (eapply elem_of_submseteq; [|done]; left).
    destruct (decide (y = x)) as [->|Hne].
    + apply sublist_skip. apply IH; [done|done|]. by apply (submseteq_app_inv_l _ _ [x]) in Hs.
    + apply sublist_cons. apply IH; [done|by constructor|]. apply elem_of_cons in Hin as [?|Hin]; [done|].
      assert (x ∉ y :: k) as Hx'.
      { intros [?|Hk']%elem_of_cons; [done|]. apply Hne. apply text_le_antisym.
        - by apply (proj1 (Forall_forall _ _) Hy).
        - by apply (proj1 (Forall_forall _ _) Hx). }
      apply submseteq_cons_r in Hs as [Hs|(k' & Hp & Hs)]; [done|]. exfalso. apply Hx'. rewrite Hp. left.
Qed.

Definition plain_name (n : text) : Prop := Forall (fun c => is_dot c = false) n.

Lemma split_plain t : Forall plain_name (split_on "."%char t).
Proof.
  induction t as [|c t IH]; cbn; [apply Forall_singleton; apply List.Forall_nil|].
  case_bool_decide as Hc; [constructor; [apply List.Forall_nil|done]|].
  assert (is_dot c = false) as Hd by (unfold is_dot; by rewrite bool_decide_eq_false_2).
  destruct (split_on "."%char t) as [|w ws]; inversion IH; repeat constructor; done.
Qed.

Lemma split_nonempty t : split_on "."%char t <> [].
Proof. destruct t as [|c t]; cbn; [done|]. case_bool_decide; [done|]. by destruct (split_on _ t). Qed.

Lemma strip_plain n : forall x r, plain_name n -> plain_name x -> ends r = true ->
  (exists s, JsString.strip_prefix n (x ++ r) = Some s /\ ends s = true) <-> n = x.
Proof.
  intros x r Hn Hx Hr. split.
  - intros (s & E & Hs). apply strip_prefix_Some in E. revert x Hx E. induction Hn as [|c n Hc Hn IH]; intros x Hx E.
    + destruct x as [|d x]; [done|]. cbn in E. subst s. inversion Hx; subst. cbn in Hs. congruence.
    + destruct x as [|d x]; cbn in E.
      * subst r. cbn in Hr. congruence.
      * injection E as <- E. inversion Hx; subst. f_equal. by apply IH.
  - intros ->. exists r. by rewrite strip_prefix_app.
Qed.

Abbreviation joined := (Params.join (txt ".")).

Lemma joined_cons x y l : joined (x :: y :: l) = x ++ "."%char :: joined (y :: l).
Proof. done. Qed.

Lemma after_dots_plain x r : plain_name x -> after_dots (x ++ r) = after_dots r.
Proof. induction 1 as [|c x Hc Hx IH]; cbn; [done|]. by rewrite Hc. Qed.

(** The places where a name may start. *)
Lemma starts_joined p x l : Forall plain_name (x :: l) ->
  existsb p (joined (x :: l) :: after_dots (joined (x :: l))) = true <-> exists l1 y l2, x :: l = l1 ++ y :: l2 /\ p (joined (y :: l2)) = true.
Proof.
  revert x. induction l as [|y l IH]; intros x Hx; apply Forall_cons in Hx as [Hx Hl].
  - cbn [Params.join]. rewrite <- (app_nil_r x) at 2. rewrite after_dots_plain by done. cbn. rewrite orb_false_r. split.
    + intros H. by exists [], x, [].
    + intros (l1 & z & l2 & E & H). destruct l1 as [|? [|]]; [|done..]. injection E as -> <-. done.
  - rewrite joined_cons at 2. rewrite after_dots_plain by done.
    change (after_dots ("."%char :: joined (y :: l))) with (joined (y :: l) :: after_dots (joined (y :: l))).
    change (existsb p (?a :: ?b)) with (p a || existsb p b). rewrite orb_true_iff, IH by done. split.
    + intros [H|(l1 & z & l2 & E & H)]; [by exists [], x, (y :: l)|]. exists (x :: l1), z, l2. by rewrite E.
    + intros (l1 & z & l2 & E & H). destruct l1 as [|w l1]; cbn in E; injection E as -> E; [subst; by left|]. right. by exists l1, z, l2.
Qed.

Lemma match_joined n ns x l : Forall plain_name (n :: ns) -> Forall plain_name (x :: l) ->
  match_names (n :: ns) (joined (x :: l)) = true <-> n = x /\ (ns = [] \/ l <> [] /\ namespace_re ns (joined l) = true).
Proof.
  intros [Hn Hns]%Forall_cons Hl. pose proof Hl as [Hx Hl']%Forall_cons.
  set (r := match l with [] => [] | _ => "."%char :: joined l end).
  assert (joined (x :: l) = x ++ r) as Ej by (destruct l; [by rewrite app_nil_r|done]).
  assert (ends r = true) as Hr by (by destruct l).
  rewrite Ej. cbn [match_names]. pose proof (strip_plain n x r Hn Hx Hr) as Hs.
  destruct (JsString.strip_prefix n (x ++ r)) as [s|] eqn:Es; [|split; [done|intros [-> _]; by rewrite strip_prefix_app in Es]].
  assert (n = x -> s = r) as Hsr by (intros ->; rewrite strip_prefix_app in Es; by injection Es).
  destruct ns as [|n2 ns].
  - assert (match s with [] | _ => ends s end = ends s) as -> by (by destruct s). split.
    + intros H. split; [|by left]. apply Hs. by exists s.
    + intros [Hnx _]. by rewrite (Hsr Hnx).
  - destruct s as [|c s].
    + split; [done|]. intros [-> [?|[Hne _]]]; [done|]. specialize (Hsr eq_refl). unfold r in Hsr. by destruct l.
    + rewrite andb_true_iff. split.
      * intros [Hc H]. assert (n = x) as -> by (apply Hs; by exists (c :: s)). split; [done|]. right. specialize (Hsr eq_refl).
        unfold r in Hsr. destruct l as [|y l]; [done|]. injection Hsr as -> ->. done.
      * intros [-> [?|[Hne H]]]; [done|]. specialize (Hsr eq_refl). unfold r in Hsr. destruct l as [|y l]; [done|]. injection Hsr as -> ->. done.
Qed.

Lemma namespace_sublist ns : forall n l, Forall plain_name (n :: ns) -> Forall plain_name l -> l <> [] ->
  namespace_re (n :: ns) (joined l) = true <-> sublist (n :: ns) l.
Proof.
  induction ns as [|n2 ns IH]; intros n l Hn Hl Hne.
  all: destruct l as [|x l]; [done|]; unfold namespace_re; rewrite starts_joined by done; rewrite sublist_cons_l.
  all: split; [intros (l1 & y & l2 & E & H)|intros (l1 & l2 & E & H)]; rewrite E in Hl; apply Forall_app in Hl as [Hl1 Hl2].
  - apply match_joined in H as [-> _]; [|done|done]. exists l1, l2. split; [done|apply sublist_nil_l].
  - exists l1, n, l2. split; [done|]. apply match_joined; [done|done|by auto].
  - apply match_joined in H as [-> [?|[Hne2 H]]]; [done| |done|done]. exists l1, l2. split; [done|].
    apply IH in H; [done|by inversion Hn|by inversion Hl2|done].
  - exists l1, n, l2. split; [done|]. apply match_joined; [done|done|]. split; [done|]. right.
    assert (l2 <> []) as Hne2 by (intros ->; by apply sublist_nil_r in H). split; [done|].
    apply IH; [by inversion Hn|by inversion Hl2|done|done].
Qed.

(** The names asked for are among those of a handler, whatever their orders. *)
Lemma names_among a b : Forall plain_name a -> Forall plain_name b -> a <> [] -> b <> [] ->
  namespace_re (js_sort text_cmp a) (joined (js_sort text_cmp b)) = true <-> a ⊆+ b.
Proof.
  intros Ha' Hb' Ha0 Hb0.
  assert (Forall plain_name (js_sort text_cmp a)) as Ha by (by rewrite js_sort_perm).
  assert (Forall plain_name (js_sort text_cmp b)) as Hb by (by rewrite js_sort_perm).
  assert (js_sort text_cmp b <> []) as Hne by (intros E; pose proof (js_sort_perm text_cmp b) as H; rewrite E in H; by apply Permutation_nil_l in H).
  pose proof (js_sort_perm text_cmp a) as Pa. pose proof (js_sort_perm text_cmp b) as Pb.
  destruct (js_sort text_cmp a) as [|n ns] eqn:Ea; [by apply Permutation_nil_l in Pa|].
  rewrite namespace_sublist by done. pose proof (sort_text_sorted a) as Sa. pose proof (sort_text_sorted b) as Sb. rewrite Ea in Sa.
  destruct (js_sort text_cmp b) as [|m ms]; [done|]. rewrite <- Pa, <- Pb. split; [apply sublist_submseteq|by apply sorted_sublist].
Qed.

Lemma split_on_plain k : plain_name k -> split_on "."%char k = [k].
Proof.
  induction 1 as [|c k Hc Hk IH]; cbn; [done|]. rewrite IH. unfold is_dot in Hc. by rewrite Hc.
Qed.

Lemma split_on_dot k t : plain_name k -> split_on "."%char (k ++ "."%char :: t) = k :: split_on "."%char t.
Proof. induction 1 as [|c k Hc Hk IH]; cbn; [done|]. rewrite IH. unfold is_dot in Hc. by rewrite Hc. Qed.

Lemma split_joined l : Forall plain_name l -> l <> [] -> split_on "."%char (joined l) = l.
Proof.
  induction 1 as [|x l Hx Hl IH]; intros Hne; [done|]. destruct l as [|y l]; [by apply split_on_plain|].
  rewrite joined_cons, split_on_dot by done. by rewrite IH.
Qed.

(** The regular expression that [trigger] and [off] make of names with dots between them accepts the namespaces of a
    handler exactly when each of the names is among them, as often as it is asked for, whatever the orders they were
    written in. *)
Theorem namespaces_subset (asked bound : text) :
  namespace_re (sorted_names asked) (joined (sorted_names bound)) = true <-> split_on "."%char asked ⊆+ split_on "."%char bound.
Proof. apply names_among; first [apply split_plain|apply split_nonempty]. Qed.

(** ** The handlers of an element *)

Definition assoc_get (k : text) (l : list (text * handlers_)) : option handlers_ := snd <$> head (filter (fun e => e.1 = k) l).

Lemma assoc_get_cons k k' h l : assoc_get k ((k', h) :: l) = if decide (k' = k) then Some h else assoc_get k l.
Proof. unfold assoc_get. rewrite filter_cons. cbn. by destruct (decide (k' = k)). Qed.

Lemma assoc_get_set k k' h l : assoc_get k (assoc_set k' h l) = if decide (k = k') then Some h else assoc_get k l.
Proof.
  induction l as [|[k2 h2] l IH]; cbn.
  - rewrite assoc_get_cons. by destruct (decide (k' = k)), (decide (k = k')); subst.
  - destruct (decide (k2 = k')) as [->|Hne]; rewrite !assoc_get_cons; [by destruct (decide (k' = k)), (decide (k = k')); subst|].
    rewrite IH. destruct (decide (k2 = k)), (decide (k = k')); congruence.
Qed.

Lemma assoc_get_delete k k' l : assoc_get k (assoc_delete k' l) = if decide (k = k') then None else assoc_get k l.
Proof.
  unfold assoc_delete. induction l as [|[k2 h2] l IH]; [by destruct (decide (k = k'))|].
  rewrite filter_cons. cbn [fst]. destruct (decide (k2 <> k')) as [Hne|Heq]; rewrite !assoc_get_cons, ?IH.
  - destruct (decide (k2 = k)), (decide (k = k')); congruence.
  - apply dec_stable in Heq as ->. destruct (decide (k = k')), (decide (k' = k)); congruence.
Qed.

Lemma assoc_get_key k l : is_Some (assoc_get k l) <-> k ∈ l.*1.
Proof.
  induction l as [|[k2 h2] l IH]; [cbn; split; [by intros []|by intros ?%elem_of_nil]|].
  rewrite assoc_get_cons. cbn [fmap list_fmap fst]. rewrite elem_of_cons. destruct (decide (k2 = k)) as [->|Hne].
  - split; [by left|by eexists].
  - rewrite IH. naive_solver.
Qed.

Lemma handlers_of_get el k w : handlers_of el k w = assoc_get k (events_of el w).
Proof. done. Qed.

Lemma events_of_set_data el el' d w : events_of el (set_data (<[el' := d]> (w_data w)) w) = if decide (el = el') then d else events_of el w.
Proof.
  unfold events_of. destruct w. cbn. destruct (decide (el = el')) as [->|Hne]; [by rewrite lookup_insert_eq|by rewrite lookup_insert_ne].
Qed.

Lemma handlers_of_set el k el' k' h w :
  handlers_of el k (set_handlers el' k' h w) = if decide (el = el' /\ k = k') then Some h else handlers_of el k w.
Proof.
  unfold set_handlers. rewrite !handlers_of_get, events_of_set_data. destruct (decide (el = el')) as [->|Hne].
  - rewrite assoc_get_set. by destruct (decide (k = k')), (decide (el' = el' /\ k = k')); try tauto.
  - by rewrite decide_False by naive_solver.
Qed.

Lemma handlers_of_delete el k el' k' w :
  handlers_of el k (delete_handlers el' k' w) = if decide (el = el' /\ k = k') then None else handlers_of el k w.
Proof.
  unfold delete_handlers. rewrite !handlers_of_get, events_of_set_data. destruct (decide (el = el')) as [->|Hne].
  - rewrite assoc_get_delete. by destruct (decide (k = k')), (decide (el' = el' /\ k = k')); try tauto.
  - by rewrite decide_False by naive_solver.
Qed.

(** The handlers of a type of an element: none when there is no list. *)
Definition bound (el : nat) (k : text) (w : world) : list handleObj := from_option hs_list [] (handlers_of el k w).

(** *** The loop of [remove] *)

Definition delegated (h : handleObj) : bool := bool_decide (is_Some (h_selector h)).

Lemma foldl_rev {A B} (f : B -> A -> B) b l : foldl f b (rev l) = foldr (fun x acc => f acc x) b l.
Proof. induction l as [|x l IH]; cbn; [done|]. by rewrite foldl_app, IH. Qed.

(** What is left, and [delegateCount] less the delegated handlers that go. *)
Lemma remove_all_spec p l n :
  remove_all p (Handlers l n) =
  Handlers (filter (fun h => p h = false) l) (n - Z.of_nat (length (filter (fun h => p h = true /\ delegated h = true) l))).
Proof.
  unfold remove_all. cbn [hs_list delegateCount]. rewrite foldl_rev.
  induction l as [|h l IH]; [cbn; f_equal; lia|]. cbn -[filter].
  rewrite IH, !filter_cons. unfold remove_one. change (bool_decide (is_Some (h_selector h))) with (delegated h).
  destruct (p h) eqn:Ep.
  - rewrite (decide_False (P := true = false)) by done.
    destruct (delegated h); [rewrite decide_True by done|rewrite decide_False by naive_solver]; cbn [length]; f_equal; lia.
  - rewrite decide_True, decide_False by naive_solver. done.
Qed.

Lemma remove_all_list p hs : hs_list (remove_all p hs) = filter (fun h => p h = false) (hs_list hs).
Proof. destruct hs as [l n]. by rewrite remove_all_spec. Qed.

(** Delegated handlers come first, and are counted. *)
Definition in_front (hs : handlers_) : Prop :=
  exists ds us, hs_list hs = ds ++ us /\ Forall (fun h => delegated h = true) ds /\ Forall (fun h => delegated h = false) us /\
    delegateCount hs = Z.of_nat (length ds).

Lemma filter_length_split {A} (P Q : A -> Prop) `{!forall x, Decision (P x), !forall x, Decision (Q x)} (l : list A) :
  (forall x : A, x ∈ l -> P x <-> ~ Q x) -> (length (filter P l) + length (filter Q l) = length l)%nat.
Proof.
  induction l as [|x l IH]; intros Hpq; [done|]. rewrite !filter_cons.
  assert (length (filter P l) + length (filter Q l) = length l)%nat as Hl by (apply IH; intros y Hy; apply Hpq; by right).
  assert (P x <-> ~ Q x) as Hx by (apply Hpq; left). destruct (decide (P x)), (decide (Q x)); cbn; lia || tauto.
Qed.

Lemma remove_all_front p hs : in_front hs -> in_front (remove_all p hs).
Proof.
  destruct hs as [l n]. intros (ds & us & E & Hd & Hu & Hn). cbn in E, Hn. subst. rewrite remove_all_spec.
  exists (filter (fun h => p h = false) ds), (filter (fun h => p h = false) us). cbn [hs_list delegateCount].
  rewrite !filter_app, length_app. split; [done|]. split; [by apply Forall_filtered|]. split; [by apply Forall_filtered|].
  assert (filter (fun h => p h = true /\ delegated h = true) us = []) as ->.
  { apply filter_none. eapply Forall_impl; [exact Hu|]. intros h Hh [_ ?]. congruence. }
  pose proof (filter_length_split (fun h => p h = true /\ delegated h = true) (fun h => p h = false) ds) as H. cbn [length].
  rewrite <- H; [lia|]. intros h Hin. apply (proj1 (Forall_forall _ _) Hd) in Hin. rewrite Hin. destruct (p h); intuition congruence.
Qed.

(** ** Worlds where the handlers are in their places *)

(** A type without dots and spaces. *)
Definition spaceless (t : text) : Prop := Forall (fun c => is_space c = false) t.
Definition plain_type (t : text) : Prop := t <> [] /\ plain_name t /\ spaceless t.

(** A handler of a list: its type stands for the one it was asked for, its namespaces are sorted. *)
Definition in_place (m : nat) (k : text) (h : handleObj) : Prop :=
  plain_type (h_origType h) /\ mapped_type (h_selector h) (h_origType h) = k /\ h_selector h <> Some [] /\ (h_guid h < m)%nat /\
  exists ns, h_namespace h = joined (sorted_names ns).

(** The namespaces of a handler that is in its place. *)
Lemma in_place_names m k h names : in_place m k h -> Forall plain_name names -> names <> [] ->
  namespace_re (js_sort text_cmp names) (h_namespace h) = true <-> names ⊆+ split_on "."%char (h_namespace h).
Proof.
  intros (_ & _ & _ & _ & ns & ->) Hp Hn. unfold sorted_names. rewrite names_among by first [done|apply split_plain|apply split_nonempty].
  pose proof (js_sort_perm text_cmp (split_on "."%char ns)) as P. rewrite split_joined; [by rewrite P|rewrite P; apply split_plain|].
  intros E. rewrite E in P. apply Permutation_nil_l in P. by apply (split_nonempty ns).
Qed.

Definition handlers_ok (m : nat) (k : text) (hs : handlers_) : Prop :=
  hs_list hs <> [] /\ in_front hs /\ Forall (in_place m k) (hs_list hs).

(** The elements of a document with a list for a type. *)
Definition wants (d : nat) (k : text) (w : world) : gset nat :=
  filter (fun el => doc_of w el = d /\ is_Some (handlers_of el k w)) (dom (w_data w)).

(** A document captures an event while its count is there; the count is no less than the elements that want it. *)
Record captures (w : world) : Prop := {
  cap_listening d k orig : fixed w k = Some orig -> (d, orig) ∈ w_capturing w <-> is_Some (w_attaches w !! (d, k));
  cap_positive d k n : w_attaches w !! (d, k) = Some n -> 0 < n;
  cap_count d k : is_Some (fixed w k) -> Z.of_nat (size (wants d k w)) <= default 0 (w_attaches w !! (d, k))
}.

Record WF (w : world) : Prop := {
  wf_handlers el k hs : handlers_of el k w = Some hs -> handlers_ok (w_guid w) k hs;
  wf_listening el k : (el, k) ∈ w_listening w <-> is_Some (handlers_of el k w) /\ fixed w k = None;
  wf_funcs f x g : w_funcs w !! f = Some x -> f_guid x = Some g -> (g < w_guid w)%nat;
  wf_captures : captures w
}.

Lemma elem_of_wants el d k w : el ∈ wants d k w <-> doc_of w el = d /\ is_Some (handlers_of el k w).
Proof.
  unfold wants. rewrite elem_of_filter. split; [tauto|]. intros [Hd Hh]. split; [done|]. apply elem_of_dom.
  unfold handlers_of, events_of in Hh. destruct (w_data w !! el); [by eexists|]. by destruct Hh.
Qed.

(** What listens, but for the handlers. *)
Definition same_ears (w w' : world) : Prop :=
  w_listening w' = w_listening w /\ w_browser w' = w_browser w /\ w_capturing w' = w_capturing w /\ w_attaches w' = w_attaches w.

Lemma fixed_browser w w' k : w_browser w' = w_browser w -> fixed w' k = fixed w k.
Proof. unfold fixed. by intros ->. Qed.

Lemma wants_same w w' d k : w_browser w' = w_browser w -> (forall el, is_Some (handlers_of el k w') <-> is_Some (handlers_of el k w)) ->
  wants d k w' = wants d k w.
Proof. intros Hb Hh. apply set_eq. intros el. rewrite !elem_of_wants, Hh. unfold doc_of. by rewrite Hb. Qed.

Lemma captures_same w w' : (forall el k, is_Some (handlers_of el k w') <-> is_Some (handlers_of el k w)) ->
  w_browser w' = w_browser w -> w_capturing w' = w_capturing w -> w_attaches w' = w_attaches w -> captures w -> captures w'.
Proof.
  intros Hh Hb Hc Ha [H1 H2 H3]. split; intros d k.
  - intros orig. rewrite (fixed_browser w w') by done. rewrite Hc, Ha. apply H1.
  - intros n. rewrite Ha. apply H2.
  - rewrite (fixed_browser w w'), Ha, (wants_same w w') by done. apply H3.
Qed.

Definition stable {A} (P : world -> Prop) (e : st_ex world A) : Prop := forall w, P w -> P (e w).1.

Section stability.
Context (P : world -> Prop).

Lemma stable_ret {A} (a : A) : stable P (sret a).
Proof. by intros w H. Qed.
Lemma stable_throw {A} msg : stable P (@sthrow world A msg).
Proof. by intros w H. Qed.
Lemma stable_get {A} (f : world -> A) : stable P (sget f).
Proof. by intros w H. Qed.
Lemma stable_modify f : (forall w, P w -> P (f w)) -> stable P (smodify f).
Proof. intros H w. apply H. Qed.
Lemma stable_bind {A B} (e : st_ex world A) (k : A -> st_ex world B) : stable P e -> (forall a, stable P (k a)) -> stable P (sbind e k).
Proof. intros He Hk w Hw. unfold sbind. specialize (He w Hw). destruct (e w) as [w' [a|m]]; [by apply Hk|done]. Qed.
Lemma stable_when b e : stable P e -> stable P (swhen b e).
Proof. intros H. destruct b; [done|apply stable_ret]. Qed.
Lemma stable_each {A} (f : A -> st_ex world unit) l : (forall x, stable P (f x)) -> stable P (each f l).
Proof. intros H. induction l as [|x l IH]; cbn [each]; [apply stable_ret|]. apply stable_bind; [done|]. by intros _. Qed.
End stability.

Create HintDb stable.
#[export] Hint Resolve stable_ret stable_throw stable_get stable_bind stable_when stable_each : stable.

(** Worlds with the same handlers. *)
Lemma WF_same w w' : (forall el k, handlers_of el k w' = handlers_of el k w) -> same_ears w w' -> w_guid w' = w_guid w ->
  (forall f x g, w_funcs w' !! f = Some x -> f_guid x = Some g -> (g < w_guid w)%nat) -> WF w -> WF w'.
Proof.
  intros Hh (Hl & Hb & Hc & Ha) Hg Hf [H1 H2 H3 H4]. split.
  - intros el k hs. rewrite Hh, Hg. apply H1.
  - intros el k. rewrite Hl, Hh, (fixed_browser w w') by done. apply H2.
  - intros f x g E Eg. rewrite Hg. by eapply Hf.
  - apply (captures_same w); try done. intros el k. by rewrite Hh.
Qed.

Lemma WF_set_events x w : WF w -> WF (set_events x w).
Proof. intros Hw. apply (WF_same w); [by destruct w..| |done]. destruct w. apply (wf_funcs _ Hw). Qed.
Lemma WF_on_event e f w : WF w -> WF (on_event e f w).
Proof. apply WF_set_events. Qed.
Lemma WF_write x w : WF w -> WF (write x w).
Proof. intros Hw. apply (WF_same w); [by destruct w..| |done]. destruct w. apply (wf_funcs _ Hw). Qed.

(** *** [add] *)

Lemma splice_front h hs : in_front hs -> delegated h = true ->
  in_front (Handlers (splice_in (delegateCount hs) h (hs_list hs)) (delegateCount hs + 1)).
Proof.
  destruct hs as [l n]. intros (ds & us & E & Hd & Hu & Hn) Hh. cbn in *. subst. exists (ds ++ [h]), us.
  cbn [hs_list delegateCount]. unfold splice_in. rewrite (proj2 (Z.ltb_ge _ _)) by lia. rewrite Nat2Z.id, take_app_length, drop_app_length.
  rewrite <- app_assoc, length_app. split; [done|]. split; [apply Forall_app; split; [done|by apply Forall_singleton]|]. split; [done|]. cbn. lia.
Qed.

Lemma push_front h hs : in_front hs -> delegated h = false -> in_front (Handlers (hs_list hs ++ [h]) (delegateCount hs)).
Proof.
  destruct hs as [l n]. intros (ds & us & E & Hd & Hu & Hn) Hh. cbn in *. subst. exists ds, (us ++ [h]). cbn.
  rewrite <- app_assoc. split_and!; [done|done|apply Forall_app; split; [done|by apply Forall_singleton]|done].
Qed.

(** A list with one handler more. *)
Definition insert_handler (h : handleObj) (hs : handlers_) : handlers_ :=
  match h_selector h with
  | Some _ => Handlers (splice_in (delegateCount hs) h (hs_list hs)) (delegateCount hs + 1)
  | None => Handlers (hs_list hs ++ [h]) (delegateCount hs)
  end.

Lemma splice_elem {A} i (x y : A) l : y ∈ splice_in i x l <-> y = x \/ y ∈ l.
Proof.
  unfold splice_in. set (n := Z.to_nat _). rewrite elem_of_app, elem_of_cons.
  rewrite <- (take_drop n l) at 3. rewrite elem_of_app. tauto.
Qed.

Lemma insert_elem h hs x : x ∈ hs_list (insert_handler h hs) <-> x = h \/ x ∈ hs_list hs.
Proof.
  unfold insert_handler. destruct (h_selector h); cbn [hs_list]; [apply splice_elem|].
  rewrite elem_of_app, list_elem_of_singleton. tauto.
Qed.

Lemma insert_ok m k h hs : (hs_list hs = [] \/ handlers_ok m k hs) -> in_front hs -> in_place m k h -> handlers_ok m k (insert_handler h hs).
Proof.
  intros Hhs Hf Hh. split; [|split].
  - intros E. assert (h ∈ hs_list (insert_handler h hs)) as Hin by (apply insert_elem; by left). rewrite E in Hin. by apply elem_of_nil in Hin.
  - unfold insert_handler. destruct (h_selector h) eqn:Es; [apply splice_front|apply push_front]; try done; unfold delegated; by rewrite Es.
  - apply Forall_forall. intros x [->|Hx]%insert_elem; [done|]. destruct Hhs as [Hhs|(_ & _ & Hhs)].
    + rewrite Hhs in Hx. by apply elem_of_nil in Hx.
    + by apply (proj1 (Forall_forall _ _) Hhs).
Qed.

(** *** What listens *)

(** [listen] and [unlisten], as functions. *)
Definition listened (k : text) (el : nat) (w : world) : world :=
  match fixed w k with
  | Some orig =>
      let d := doc_of w el in let n := default 0 (w_attaches w !! (d, k)) in
      let w1 := if n =? 0 then set_capturing ({[(d, orig)]} ∪ w_capturing w) w else w in
      set_attaches (<[(d, k) := n + 1]> (w_attaches w1)) w1
  | None => set_listening ({[(el, k)]} ∪ w_listening w) w
  end.

Definition unlistened (o k : text) (el : nat) (w : world) : world :=
  match fixed w o with
  | Some orig =>
      let d := doc_of w el in let n := default 0 ((fun n => n - 1) <$> w_attaches w !! (d, o)) in
      if n =? 0 then let w1 := set_capturing (w_capturing w ∖ {[(d, orig)]}) w in set_attaches (delete (d, o) (w_attaches w1)) w1
      else set_attaches (<[(d, o) := n]> (w_attaches w)) w
  | None => set_listening (w_listening w ∖ {[(el, k)]}) w
  end.

Lemma listen_run k el w : listen k el w = (listened k el w, Ok tt).
Proof.
  unfold listen, listened. rewrite (sbind_run (sget _) _ w w _ eq_refl). destruct (fixed w k) as [orig|]; [|done].
  unfold setup. rewrite (sbind_run (sget _) _ w w _ eq_refl), (sbind_run (sget _) _ w w _ eq_refl). by destruct (default 0 _ =? 0).
Qed.

Lemma unlisten_run o k el w : unlisten o k el w = (unlistened o k el w, Ok tt).
Proof.
  unfold unlisten, unlistened. rewrite (sbind_run (sget _) _ w w _ eq_refl). destruct (fixed w o) as [orig|]; [|done].
  unfold teardown. rewrite (sbind_run (sget _) _ w w _ eq_refl), (sbind_run (sget _) _ w w _ eq_refl). by destruct (default 0 _ =? 0).
Qed.

(** The rest of the world. *)
Definition same_but_ears (w w' : world) : Prop :=
  w_funcs w' = w_funcs w /\ w_guid w' = w_guid w /\ w_data w' = w_data w /\ w_events w' = w_events w /\ w_log w' = w_log w /\ w_browser w' = w_browser w.

Lemma listened_rest k el w : same_but_ears w (listened k el w).
Proof. unfold listened. destruct (fixed w k); [|by destruct w]. by destruct (default 0 _ =? 0), w. Qed.

Lemma unlistened_rest o k el w : same_but_ears w (unlistened o k el w).
Proof. unfold unlistened. destruct (fixed w o); [|by destruct w]. by destruct (default 0 _ =? 0), w. Qed.

Lemma rest_handlers w w' el k : same_but_ears w w' -> handlers_of el k w' = handlers_of el k w.
Proof. intros (_ & _ & E & _). unfold handlers_of, events_of. by rewrite E. Qed.

Lemma orig_of_inj a b o : orig_of a = Some o -> orig_of b = Some o -> a = b.
Proof. unfold orig_of. repeat case_decide; naive_solver. Qed.

Lemma fixed_inj w a b o : fixed w a = Some o -> fixed w b = Some o -> a = b.
Proof. unfold fixed. destruct (focusinBubbles _); [done|]. apply orig_of_inj. Qed.

(** One element more, and one less, that wants a type. *)
Lemma wants_more w w' el k d : w_browser w' = w_browser w -> handlers_of el k w = None ->
  (forall el', is_Some (handlers_of el' k w') <-> el' = el \/ is_Some (handlers_of el' k w)) ->
  Z.of_nat (size (wants d k w')) = Z.of_nat (size (wants d k w)) + (if decide (doc_of w el = d) then 1 else 0).
Proof.
  intros Hb Hn Hh. assert (forall e, doc_of w' e = doc_of w e) as Hd by (intros; unfold doc_of; by rewrite Hb).
  destruct (decide (doc_of w el = d)) as [E|E].
  - assert (wants d k w' = {[el]} ∪ wants d k w) as ->.
    { apply set_eq. intros x. rewrite elem_of_union, elem_of_singleton, !elem_of_wants, Hh, Hd. naive_solver. }
    rewrite size_union, size_singleton; [lia|]. intros x ->%elem_of_singleton [_ [? Hx]]%elem_of_wants. congruence.
  - assert (wants d k w' = wants d k w) as ->; [|lia].
    apply set_eq. intros x. rewrite !elem_of_wants, Hh, Hd. naive_solver.
Qed.

Lemma listened_captures k el w w' : captures w -> handlers_of el k w = None -> w_browser w' = w_browser w ->
  (forall el' k', is_Some (handlers_of el' k' w') <-> (el' = el /\ k' = k) \/ is_Some (handlers_of el' k' w)) ->
  w_capturing w' = w_capturing (listened k el w) -> w_attaches w' = w_attaches (listened k el w) -> captures w'.
Proof.
  intros [H1 H2 H3] Hn Hb Hh Hc Ha.
  assert (forall k', fixed w' k' = fixed w k') as Hf by (intros; by apply fixed_browser).
  assert (forall d k', k' <> k -> wants d k' w' = wants d k' w) as Hw by (intros d k' Hk; apply wants_same; [done|intros el'; rewrite Hh; naive_solver]).
  unfold listened in *. destruct (fixed w k) as [orig|] eqn:Ef.
  - set (d0 := doc_of w el) in *. set (n := default 0 (w_attaches w !! (d0, k))) in *.
    assert (w_attaches w' = <[(d0, k) := n + 1]> (w_attaches w)) as Ea by (rewrite Ha; by destruct (n =? 0), w).
    assert (0 <= n) as Hn0 by (unfold n; destruct (w_attaches w !! (d0, k)) as [m|] eqn:Em; [apply H2 in Em; cbn; lia|done]).
    assert (n = 0 <-> w_attaches w !! (d0, k) = None) as Hnn.
    { unfold n. destruct (w_attaches w !! (d0, k)) as [m|] eqn:Em; [apply H2 in Em; cbn; split; [lia|done]|done]. }
    split.
    + intros d k' o. rewrite Hf, Ea. intros Eo. assert ((d, o) ∈ w_capturing w' <-> ((d, o) = (d0, orig) /\ n = 0) \/ (d, o) ∈ w_capturing w) as ->.
      { rewrite Hc. destruct (Z.eqb_spec n 0); destruct w; cbn in *; [rewrite elem_of_union, elem_of_singleton; tauto|tauto]. }
      rewrite (H1 d k' o Eo). destruct (decide ((d, k') = (d0, k))) as [E|E].
      * injection E as -> ->. rewrite lookup_insert_eq. assert (o = orig) as -> by congruence. split; [by eexists|]. intros _.
        destruct (w_attaches w !! (d0, k)) as [m|] eqn:Em; [right; by eexists|left; split; [done|by apply Hnn]].
      * rewrite lookup_insert_ne by congruence. split; [|by right]. intros [[[= -> ->] _]|?]; [|done]. exfalso. apply E. f_equal. by eapply fixed_inj.
    + intros d k' m. rewrite Ea. destruct (decide ((d, k') = (d0, k))) as [->|E]; [rewrite lookup_insert_eq; intros [= <-]; lia|].
      rewrite lookup_insert_ne by congruence. apply H2.
    + intros d k'. rewrite Hf, Ea. intros Hk. specialize (H3 d k' Hk). destruct (decide (k' = k)) as [->|Ek].
      * rewrite (wants_more w w' el k d) by (done || (intros el'; rewrite Hh; naive_solver)). fold d0. destruct (decide (d0 = d)) as [<-|Ed].
        -- rewrite lookup_insert_eq. cbn. fold n in H3. lia.
        -- rewrite lookup_insert_ne by congruence. lia.
      * rewrite Hw, lookup_insert_ne by congruence. done.
  - assert (w_capturing w' = w_capturing w /\ w_attaches w' = w_attaches w) as [Ec Ea] by (rewrite Hc, Ha; by destruct w).
    split; [intros d k' o|intros d k' m|intros d k']; rewrite ?Hf, ?Ec, ?Ea; [apply H1|apply H2|].
    intros Hk. rewrite Hw; [by apply H3|]. intros ->. rewrite Ef in Hk. by destruct Hk.
Qed.

Lemma unlistened_captures o k el w w' : captures w -> is_Some (handlers_of el k w) -> (is_Some (fixed w o) -> o = k) -> w_browser w' = w_browser w ->
  (forall el' k', is_Some (handlers_of el' k' w') <-> ~ (el' = el /\ k' = k) /\ is_Some (handlers_of el' k' w)) ->
  w_capturing w' = w_capturing (unlistened o k el w) -> w_attaches w' = w_attaches (unlistened o k el w) -> captures w'.
Proof.
  intros [H1 H2 H3] Hn Hok Hb Hh Hc Ha.
  assert (forall k', fixed w' k' = fixed w k') as Hf by (intros; by apply fixed_browser).
  assert (forall d k', k' <> k -> wants d k' w' = wants d k' w) as Hw by (intros d k' Hk; apply wants_same; [done|intros el'; rewrite Hh; naive_solver]).
  assert (forall d, Z.of_nat (size (wants d k w)) = Z.of_nat (size (wants d k w')) + (if decide (doc_of w' el = d) then 1 else 0)) as Hless.
  { intros d. apply wants_more; [done| |].
    - apply eq_None_not_Some. rewrite Hh. naive_solver.
    - intros el'. rewrite Hh. destruct (decide (el' = el)); naive_solver. }
  assert (forall e, doc_of w' e = doc_of w e) as Hd by (intros; unfold doc_of; by rewrite Hb).
  unfold unlistened in *. destruct (fixed w o) as [orig|] eqn:Ef.
  - specialize (Hok ltac:(by eexists)). subst o. set (d0 := doc_of w el) in *.
    pose proof (H3 d0 k ltac:(by eexists)) as Hcount. rewrite Hless, Hd, decide_True in Hcount by done.
    destruct (w_attaches w !! (d0, k)) as [n|] eqn:En; cbn in *; [|lia].
    destruct (Z.eqb_spec (n - 1) 0) as [En1|En1].
    + assert (w_capturing w' = w_capturing w ∖ {[(d0, orig)]} /\ w_attaches w' = delete (d0, k) (w_attaches w)) as [Ec Ea] by (rewrite Hc, Ha; by destruct w).
      split.
      * intros d k' o. rewrite Hf, Ec, Ea. intros Eo. rewrite elem_of_difference, elem_of_singleton, (H1 d k' o Eo).
        destruct (decide ((d, k') = (d0, k))) as [E|E].
        -- injection E as -> ->. rewrite lookup_delete_eq. assert (o = orig) as -> by congruence. split; [tauto|by intros []].
        -- rewrite lookup_delete_ne by congruence. split; [tauto|]. intros ?. split; [done|]. intros [= -> ->]. apply E. f_equal. by eapply fixed_inj.
      * intros d k' m. rewrite Ea. intros [_ Hm]%lookup_delete_Some. by eapply H2.
      * intros d k'. rewrite Hf, Ea. intros Hk. specialize (H3 d k' Hk). destruct (decide (k' = k)) as [->|Ek].
        -- destruct (decide (d0 = d)) as [<-|Ed]; [rewrite lookup_delete_eq; cbn; lia|]. rewrite lookup_delete_ne by congruence.
           rewrite Hless, Hd, decide_False in H3 by done. lia.
        -- rewrite Hw, lookup_delete_ne by congruence. done.
    + assert (w_capturing w' = w_capturing w /\ w_attaches w' = <[(d0, k) := n - 1]> (w_attaches w)) as [Ec Ea] by (rewrite Hc, Ha; by destruct w).
      pose proof (H2 d0 k n En) as Hpos. split.
      * intros d k' o. rewrite Hf, Ec, Ea. intros Eo. rewrite (H1 d k' o Eo).
        destruct (decide ((d, k') = (d0, k))) as [E|E]; [injection E as -> ->; rewrite lookup_insert_eq, En; split; by eexists|by rewrite lookup_insert_ne by congruence].
      * intros d k' m. rewrite Ea. destruct (decide ((d, k') = (d0, k))) as [->|E]; [rewrite lookup_insert_eq; intros [= <-]; lia|].
        rewrite lookup_insert_ne by congruence. apply H2.
      * intros d k'. rewrite Hf, Ea. intros Hk. specialize (H3 d k' Hk). destruct (decide (k' = k)) as [->|Ek].
        -- destruct (decide (d0 = d)) as [<-|Ed]; [rewrite lookup_insert_eq; cbn; lia|]. rewrite lookup_insert_ne by congruence.
           rewrite Hless, Hd, decide_False in H3 by done. lia.
        -- rewrite Hw, lookup_insert_ne by congruence. done.
  - assert (w_capturing w' = w_capturing w /\ w_attaches w' = w_attaches w) as [Ec Ea] by (rewrite Hc, Ha; by destruct w).
    split; [intros d k' o'|intros d k' m|intros d k']; rewrite ?Hf, ?Ec, ?Ea; [apply H1|apply H2|].
    intros Hk. specialize (H3 d k' Hk). destruct (decide (k' = k)) as [->|]; [|by rewrite Hw]. rewrite Hless in H3. destruct (decide _); lia.
Qed.

(** What [add] does for one type. *)
Definition added (el : nat) (k : text) (h : handleObj) (w : world) : world :=
  set_handlers el k (insert_handler h (default (Handlers [] 0) (handlers_of el k w)))
    (if bool_decide (handlers_of el k w = None) then listened k el w else w).

Lemma set_handlers_rest el k hs w :
  let w' := set_handlers el k hs w in
  w_guid w' = w_guid w /\ w_funcs w' = w_funcs w /\ w_events w' = w_events w /\ w_log w' = w_log w /\ same_ears w w'.
Proof. by destruct w. Qed.

Lemma delete_handlers_rest el k w :
  let w' := delete_handlers el k w in
  w_guid w' = w_guid w /\ w_funcs w' = w_funcs w /\ w_events w' = w_events w /\ w_log w' = w_log w /\ same_ears w w'.
Proof. by destruct w. Qed.

(** Which elements listen to a type, once there is a list, and once there is none. *)
Lemma listened_elements k el w el' k' :
  (el', k') ∈ w_listening (listened k el w) <-> ((el' = el /\ k' = k) /\ fixed w k = None) \/ (el', k') ∈ w_listening w.
Proof.
  unfold listened. destruct (fixed w k) as [orig|].
  - cbn zeta. destruct (default 0 _ =? 0), w; cbn; naive_solver.
  - destruct w. cbn. rewrite elem_of_union, elem_of_singleton. naive_solver.
Qed.

Lemma unlistened_elements o k el w el' k' :
  (el', k') ∈ w_listening (unlistened o k el w) <-> ~ ((el' = el /\ k' = k) /\ fixed w o = None) /\ (el', k') ∈ w_listening w.
Proof.
  unfold unlistened. destruct (fixed w o) as [orig|].
  - cbn zeta. destruct (default 0 _ =? 0), w; cbn; naive_solver.
  - destruct w. cbn. rewrite elem_of_difference, elem_of_singleton. naive_solver.
Qed.

Lemma added_handlers el k h w el' k' : handlers_of el' k' (added el k h w) =
  if decide (el' = el /\ k' = k) then Some (insert_handler h (default (Handlers [] 0) (handlers_of el k w))) else handlers_of el' k' w.
Proof.
  unfold added. rewrite handlers_of_set. destruct (decide _); [done|]. case_bool_decide; [|done]. apply rest_handlers, listened_rest.
Qed.

Lemma added_guid el k h w : w_guid (added el k h w) = w_guid w /\ w_funcs (added el k h w) = w_funcs w /\ w_browser (added el k h w) = w_browser w.
Proof.
  unfold added. destruct (set_handlers_rest el k (insert_handler h (default (Handlers [] 0) (handlers_of el k w))) (if bool_decide (handlers_of el k w = None) then listened k el w else w))
    as (-> & -> & _ & _ & _ & -> & _).
  case_bool_decide; [|done]. by destruct (listened_rest k el w) as (-> & -> & _ & _ & _ & ->).
Qed.

Lemma added_wf el k h w : WF w -> in_place (w_guid w) k h -> WF (added el k h w).
Proof.
  intros [H1 H2 H3 H4] Hh. destruct (added_guid el k h w) as (E1 & E2 & E3).
  assert (handlers_ok (w_guid w) k (insert_handler h (default (Handlers [] 0) (handlers_of el k w)))) as Hok.
  { destruct (handlers_of el k w) as [hs0|] eqn:E0; cbn [from_option].
    - apply insert_ok; [right; by apply H1 in E0|by apply H1 in E0 as (_ & ? & _)|done].
    - apply insert_ok; [by left|by exists [], []|done]. }
  assert (forall el' k', is_Some (handlers_of el' k' (added el k h w)) <-> (el' = el /\ k' = k) \/ is_Some (handlers_of el' k' w)) as Hs.
  { intros el' k'. rewrite added_handlers. destruct (decide (el' = el /\ k' = k)); [split; [by left|by eexists]|naive_solver]. }
  destruct (set_handlers_rest el k (insert_handler h (default (Handlers [] 0) (handlers_of el k w))) (if bool_decide (handlers_of el k w = None) then listened k el w else w))
    as (_ & _ & _ & _ & L1 & _ & L2 & L3).
  fold (added el k h w) in L1, L2, L3. split.
  - intros el' k' hs'. rewrite added_handlers, E1. destruct (decide (el' = el /\ k' = k)) as [[-> ->]|Hne]; [|apply H1]. by intros [= <-].
  - intros el' k'. rewrite Hs, (fixed_browser w) by done. rewrite L1. case_bool_decide as Hn.
    + rewrite listened_elements, H2. naive_solver.
    + rewrite H2. split; [tauto|]. intros [[[-> ->]|?] ?]; [|done]. split; [|done]. destruct (handlers_of el k w); [by eexists|done].
  - intros f x g. rewrite E1, E2. apply H3.
  - case_bool_decide as Hn.
    + by apply (listened_captures k el w).
    + apply (captures_same w); try done. intros el' k'. rewrite Hs. split; [|by right]. intros [[-> ->]|?]; [|done]. destruct (handlers_of el k w); [by eexists|done].
Qed.

(** The handler that a type of [add] makes, and where. *)
Definition made_for (f guid : nat) (selector : option text) (t : text) : option (text * handleObj) :=
  match rtypenamespace t with
  | Some (c :: ty, ns) =>
      Some (mapped_type selector (c :: ty), HandleObj (c :: ty) (joined (sorted_names (default [] ns))) guid selector f)
  | _ => None
  end.

Lemma add_type_run el f guid selector t w :
  add_type el f guid selector t w = (match made_for f guid selector t with Some (k, h) => added el k h w | None => w end, Ok tt).
Proof.
  unfold add_type, made_for. destruct (rtypenamespace t) as [[[|c ty] ns]|]; [done| |done].
  set (k := mapped_type _ _). set (h := HandleObj _ _ _ _ _). unfold added.
  rewrite (sbind_run (sget _) _ w w _ eq_refl). destruct (handlers_of el k w) as [[l n]|]; cbn [from_option].
  - rewrite !bool_decide_eq_false_2 by done. cbn [swhen]. rewrite (sbind_run (sret tt) _ w w tt eq_refl). unfold insert_handler. by destruct selector.
  - rewrite !bool_decide_eq_true_2 by done. cbn [swhen]. rewrite (sbind_run _ _ _ _ _ (listen_run k el w)). unfold insert_handler. by destruct selector.
Qed.

Lemma take_while_sub p (t : text) : exists r, t = take_while p t ++ r.
Proof. induction t as [|c t [r IH]]; [by exists []|]. cbn. destruct (p c); [exists r; cbn; by rewrite <- IH|by exists (c :: t)]. Qed.

Lemma type_plain t ty ns : spaceless t -> rtypenamespace t = Some (ty, ns) -> plain_name ty /\ spaceless ty.
Proof.
  intros Ht E. assert (ty = take_while (fun c => negb (is_dot c)) t) as -> by (unfold rtypenamespace in E; destruct (drop _ t) as [|? [|]]; congruence).
  split.
  - eapply Forall_impl; [apply take_while_all|]. intros c Hc. by apply negb_true_iff in Hc.
  - destruct (take_while_sub (fun c => negb (is_dot c)) t) as [r Hr]. unfold spaceless in *. rewrite Hr in Ht. by apply Forall_app in Ht as [? _].
Qed.

Lemma made_in_place f guid selector t k h m : selector <> Some [] -> (guid < m)%nat -> spaceless t ->
  made_for f guid selector t = Some (k, h) -> in_place m k h.
Proof.
  unfold made_for. intros Hs Hg Ht. destruct (rtypenamespace t) as [[[|c ty] ns]|] eqn:E; [done| |done]. intros [= <- <-].
  apply type_plain in E as [E1 E2]; [|done]. split; [by split_and!|]. split; [done|]. split; [done|]. split; [done|]. by eexists.
Qed.

Lemma words_spaceless t : forall cur, spaceless cur -> Forall spaceless (words cur t).
Proof.
  induction t as [|c t IH]; intros cur Hc; cbn; [destruct (decide (cur = [])); [done|by apply Forall_singleton]|].
  destruct (is_space c) eqn:E.
  - apply Forall_app. split; [destruct (decide (cur = [])); [done|by apply Forall_singleton]|apply IH, List.Forall_nil].
  - apply IH. apply Forall_app. split; [done|by apply Forall_singleton].
Qed.

Lemma tokens_spaceless types : Forall spaceless (tokens types).
Proof.
  unfold tokens. pose proof (words_spaceless types [] (List.Forall_nil _)) as H. destruct (words [] types); [|done].
  apply Forall_singleton. apply List.Forall_nil.
Qed.

(** All the types of [add]. *)
Definition added_all (el f guid : nat) (selector : option text) (l : list text) (w : world) : world :=
  foldl (fun w t => match made_for f guid selector t with Some (k, h) => added el k h w | None => w end) w l.

Lemma add_types_run el f guid selector l w : each (add_type el f guid selector) l w = (added_all el f guid selector l w, Ok tt).
Proof. revert w. induction l as [|t l IH]; intros w; cbn [each]; [done|]. by rewrite (sbind_run _ _ _ _ _ (add_type_run _ _ _ _ _ _)), IH. Qed.

Lemma added_all_funcs el f guid selector l w : w_funcs (added_all el f guid selector l w) = w_funcs w.
Proof.
  revert w. induction l as [|t l IH]; intros w; [done|]. unfold added_all. cbn [foldl].
  destruct (made_for f guid selector t) as [[k h]|]; [|apply IH]. etransitivity; [apply IH|apply added_guid].
Qed.

Lemma added_all_wf el f guid selector l w : selector <> Some [] -> (guid < w_guid w)%nat -> Forall spaceless l -> WF w -> WF (added_all el f guid selector l w).
Proof.
  intros Hs. revert w. induction l as [|t l IH]; intros w Hg Hl Hw; [done|]. apply Forall_cons in Hl as [Ht Hl]. unfold added_all. cbn [foldl].
  destruct (made_for f guid selector t) as [[k h]|] eqn:Em; [|by apply IH]. apply IH; [by rewrite (proj1 (added_guid _ _ _ _))|done|].
  apply added_wf; [done|]. by eapply made_in_place.
Qed.

(** A function has a guid once it is bound. *)
Definition guided (f g : nat) (w w' : world) : Prop :=
  WF w' /\ (g < w_guid w')%nat /\ (w_guid w <= w_guid w')%nat /\ (forall el k, handlers_of el k w' = handlers_of el k w) /\
  (w_funcs w !! f ≫= f_guid = None -> g = w_guid w) /\
  ((f < length (w_funcs w))%nat -> w_funcs w' !! f ≫= f_guid = Some g).

Lemma in_place_mono m m' k h : (m <= m')%nat -> in_place m k h -> in_place m' k h.
Proof. intros Hm (H0 & H1 & H2 & H3 & H4). split; [done|]. split_and!; [done|done|lia|done]. Qed.

(** A new guid. *)
Definition give_guid (f : nat) (w : world) : world :=
  set_guid (S (w_guid w)) (set_funcs (alter (fun x => Func (Some (w_guid w)) (f_once x)) f (w_funcs w)) w).

Lemma give_guid_wf f w : WF w -> w_funcs w !! f ≫= f_guid = None -> guided f (w_guid w) w (give_guid f w).
Proof.
  intros Hw Hf. set (w' := give_guid f w).
  assert (w_guid w' = S (w_guid w) /\ w_funcs w' = alter (fun x => Func (Some (w_guid w)) (f_once x)) f (w_funcs w) /\
    same_ears w w' /\ forall el k, handlers_of el k w' = handlers_of el k w) as (E1 & E2 & (E3 & E5 & E6 & E7) & E4) by (unfold w'; by destruct w).
  split; [split|split; [lia|split; [lia|split; [done|split; [done|]]]]].
  - intros el k hs Eh. rewrite E4 in Eh. rewrite E1. apply (wf_handlers w Hw) in Eh as (A1 & A2 & A3). split; [done|]. split; [done|].
    eapply Forall_impl; [done|]. intros h. apply in_place_mono. lia.
  - intros el k. rewrite E3, E4, (fixed_browser w) by done. apply (wf_listening w Hw).
  - intros f' x g Ef Eg. rewrite E1. rewrite E2, list_lookup_alter in Ef. destruct (decide (f = f')) as [->|Hne].
    + destruct (w_funcs w !! f'); [|done]. injection Ef as <-. injection Eg as <-. lia.
    + pose proof (wf_funcs w Hw f' x g Ef Eg). lia.
  - apply (captures_same w); try done; [intros el k; by rewrite E4|apply (wf_captures w Hw)].
  - intros Hl. rewrite E2, list_lookup_alter_eq. apply lookup_lt_is_Some in Hl as [x ->]. done.
Qed.

Lemma guid_of_run f w : WF w -> exists g w', guid_of f w = (w', Ok g) /\ guided f g w w'.
Proof.
  intros Hw. unfold guid_of. rewrite (sbind_run (sget _) _ w w _ eq_refl). destruct (w_funcs w !! f ≫= f_guid) as [g|] eqn:E.
  - exists g, w. split; [done|]. unfold guided. rewrite E. split_and!; try done.
    destruct (w_funcs w !! f) as [x|] eqn:Ef; [|done]. by eapply (wf_funcs w Hw).
  - exists (w_guid w), (give_guid f w). split; [done|by apply give_guid_wf].
Qed.

Lemma add_run el types f selector w : WF w -> exists g w1, guided f g w w1 /\
  add el types f selector w = (added_all el f g (selector_of selector) (rev (tokens types)) (set_data (<[el := events_of el w1]> (w_data w1)) w1), Ok tt).
Proof.
  intros Hw. destruct (guid_of_run f w Hw) as (g & w1 & E & H). exists g, w1. split; [done|]. unfold add.
  rewrite (sbind_run _ _ _ _ _ E), (sbind_run (smodify (fun w => set_data (<[el := events_of el w]> (w_data w)) w)) _ w1 _ tt eq_refl).
  apply add_types_run.
Qed.

(** [events = {}] for an element that had none. *)
Lemma touch_handlers el w el' k : handlers_of el' k (set_data (<[el := events_of el w]> (w_data w)) w) = handlers_of el' k w.
Proof. rewrite !handlers_of_get, events_of_set_data. by destruct (decide (el' = el)) as [->|]. Qed.

Lemma WF_set_data x w : (forall el k, handlers_of el k (set_data x w) = handlers_of el k w) -> WF w -> WF (set_data x w).
Proof. intros Hx Hw. apply (WF_same w); [done|by destruct w..| |done]. destruct w. apply (wf_funcs _ Hw). Qed.

Lemma selector_of_nonempty s : selector_of s <> Some [].
Proof. by destruct s as [[]|]. Qed.

Lemma add_stable el types f selector : stable WF (add el types f selector).
Proof.
  intros w Hw. destruct (add_run el types f selector w Hw) as (g & w1 & H & ->). destruct H as (H1 & H2 & _). cbn [fst].
  apply added_all_wf; [apply selector_of_nonempty|by destruct w1|rewrite rev_alt; apply Forall_reverse, tokens_spaceless|]. by apply WF_set_data; [intros; apply touch_handlers|].
Qed.
#[export] Hint Resolve add_stable : stable.

Lemma on_stable el types selector f one : stable WF (on el types selector f one).
Proof.
  unfold on. destruct one; [|apply add_stable]. intros w Hw. destruct (guid_of_run f w Hw) as (g & w1 & E & H1 & H2 & _).
  rewrite (sbind_run _ _ _ _ _ E). revert w1 E H1 H2. intros w1 _ H1 H2. rewrite (sbind_run (sget _) _ w1 w1 _ eq_refl).
  rewrite (sbind_run (smodify _) _ w1 _ tt eq_refl). apply add_stable. apply (WF_same w1); [by destruct w1..| |done].
  intros f' x g' Ef Eg. destruct w1 as [fs ? ? ? ? ?]. cbn in Ef. apply lookup_app_Some in Ef as [Ef|[_ Ef]]; [by apply (wf_funcs _ H1 f' x g')|].
  apply list_lookup_singleton_Some in Ef as [_ <-]. by injection Eg as <-.
Qed.
#[export] Hint Resolve on_stable : stable.

(** *** [remove] *)

(** What [remove] does for a type of handlers; [o] is the type asked for. *)
Definition removed (el : nat) (o k : text) (p : handleObj -> bool) (w : world) : world :=
  match handlers_of el k w with
  | None => w
  | Some hs =>
      let hs' := remove_all p hs in
      let w1 := set_handlers el k hs' w in
      if bool_decide (hs_list hs <> []) && bool_decide (hs_list hs' = []) then delete_handlers el k (unlistened o k el w1) else w1
  end.

Lemma removed_rest el o k p w :
  w_guid (removed el o k p w) = w_guid w /\ w_funcs (removed el o k p w) = w_funcs w /\
  w_events (removed el o k p w) = w_events w /\ w_log (removed el o k p w) = w_log w /\ w_browser (removed el o k p w) = w_browser w.
Proof.
  unfold removed. destruct (handlers_of el k w) as [hs|]; [|done]. destruct (set_handlers_rest el k (remove_all p hs) w) as (A1 & A2 & A3 & A4 & _ & A5 & _).
  destruct (_ && _); [|done]. destruct (unlistened_rest o k el (set_handlers el k (remove_all p hs) w)) as (B1 & B2 & _ & B3 & B4 & B5).
  destruct (delete_handlers_rest el k (unlistened o k el (set_handlers el k (remove_all p hs) w))) as (C1 & C2 & C3 & C4 & _ & C5 & _).
  split_and!; congruence.
Qed.

Lemma removed_handlers el o k p w el' k' : WF w ->
  handlers_of el' k' (removed el o k p w) =
    (if decide (el' = el /\ k' = k) then
       hs ← handlers_of el' k' w; if bool_decide (hs_list (remove_all p hs) = []) then None else Some (remove_all p hs)
     else handlers_of el' k' w).
Proof.
  intros Hw. unfold removed. destruct (handlers_of el k w) as [hs|] eqn:E.
  - pose proof (wf_handlers w Hw el k hs E) as (Hne & _). rewrite (bool_decide_eq_true_2 (hs_list hs <> [])) by done. cbn [andb].
    destruct (decide (el' = el /\ k' = k)) as [[-> ->]|Hd].
    + rewrite E. cbn [mbind option_bind]. case_bool_decide; [by rewrite handlers_of_delete, decide_True|by rewrite handlers_of_set, decide_True].
    + case_bool_decide; [rewrite handlers_of_delete, decide_False by done|by rewrite handlers_of_set, decide_False].
      rewrite (rest_handlers _ _ el' k' (unlistened_rest o k el _)). by rewrite handlers_of_set, decide_False.
  - destruct (decide (el' = el /\ k' = k)) as [[-> ->]|Hd]; [by rewrite E|done].
Qed.

Lemma removed_bound el o k p w el' k' : WF w ->
  bound el' k' (removed el o k p w) = if decide (el' = el /\ k' = k) then filter (fun h => p h = false) (bound el' k' w) else bound el' k' w.
Proof.
  intros Hw. unfold bound. rewrite removed_handlers by done. destruct (decide (el' = el /\ k' = k)); [|done].
  destruct (handlers_of el' k' w) as [hs|]; cbn [mbind option_bind from_option]; [|done]. case_bool_decide as Hn; cbn [from_option].
  - by rewrite <- Hn, remove_all_list.
  - apply remove_all_list.
Qed.

(** The type asked for is the one of the handlers, where it has a [teardown]. *)
Lemma fixed_mapped w selector o : is_Some (fixed w o) -> mapped_type selector o = o.
Proof.
  unfold fixed, orig_of. destruct (focusinBubbles _); [by intros []|]. case_decide as E1; [by subst; destruct selector|].
  case_decide as E2; [by subst; destruct selector|by intros []].
Qed.

(** The last handlers of a type go. *)
Lemma removed_ears el o selector p w hs : let k := mapped_type selector o in
  WF w -> handlers_of el k w = Some hs -> hs_list (remove_all p hs) = [] ->
  let w' := delete_handlers el k (unlistened o k el (set_handlers el k (remove_all p hs) w)) in
  (forall el' k', is_Some (handlers_of el' k' w') <-> ~ (el' = el /\ k' = k) /\ is_Some (handlers_of el' k' w)) ->
  (forall el' k', (el', k') ∈ w_listening w' <-> is_Some (handlers_of el' k' w') /\ fixed w' k' = None) /\ captures w'.
Proof.
  intros k Hw E Hn w' Hh. set (w1 := set_handlers el k (remove_all p hs) w) in *.
  destruct (set_handlers_rest el k (remove_all p hs) w) as (_ & _ & _ & _ & L1 & L2 & L3 & L4). fold w1 in L1, L2, L3, L4.
  destruct (delete_handlers_rest el k (unlistened o k el w1)) as (_ & _ & _ & _ & M1 & M2 & M3 & M4). fold w' in M1, M2, M3, M4.
  destruct (unlistened_rest o k el w1) as (_ & _ & _ & _ & _ & B1).
  assert (w_browser w' = w_browser w) as Hb by congruence.
  assert (forall el' k', is_Some (handlers_of el' k' w1) <-> is_Some (handlers_of el' k' w)) as Hh1.
  { intros el' k'. unfold w1. rewrite handlers_of_set. destruct (decide (el' = el /\ k' = k)) as [[-> ->]|]; [|done]. rewrite E. split; by eexists. }
  assert (captures w1) as Hc1 by (apply (captures_same w); try done; apply (wf_captures w Hw)).
  assert (forall k', fixed w1 k' = fixed w k') as Hf1 by (intros; by apply fixed_browser).
  split.
  - intros el' k'. rewrite M1, unlistened_elements, L1, (wf_listening w Hw), Hh, (fixed_browser w w'), Hf1 by done.
    destruct (decide (el' = el /\ k' = k)) as [[-> ->]|]; [|tauto]. split; [|tauto]. intros [H1 [_ H2]]. exfalso. apply H1. split; [done|].
    destruct (fixed w o) eqn:Eo; [|done]. rewrite <- Eo. unfold k in H2. rewrite (fixed_mapped w) in H2 by (by rewrite Eo). done.
  - apply (unlistened_captures o k el w1); try done.
    + apply Hh1. rewrite E. by eexists.
    + rewrite Hf1. intros Ho. symmetry. by eapply fixed_mapped.
    + congruence.
    + intros el' k'. rewrite Hh, Hh1. done.
Qed.

Lemma removed_wf el o selector p w : WF w -> WF (removed el o (mapped_type selector o) p w).
Proof.
  intros Hw. set (k := mapped_type selector o). pose proof (removed_rest el o k p w) as (E1 & E2 & _ & _ & E3).
  assert (forall el' k', is_Some (handlers_of el' k' (removed el o k p w)) <->
    ~ ((el' = el /\ k' = k) /\ exists hs, handlers_of el k w = Some hs /\ hs_list (remove_all p hs) = []) /\ is_Some (handlers_of el' k' w)) as Hh.
  { intros el' k'. rewrite removed_handlers by done. destruct (decide (el' = el /\ k' = k)) as [[-> ->]|Hd]; [|tauto].
    destruct (handlers_of el k w) as [hs|]; cbn; [|split; [by intros []|by intros [_ []]]]. case_bool_decide as Hn.
    - split; [by intros []|]. intros [H _]. exfalso. apply H. split; [done|]. by exists hs.
    - split; [|by eexists]. intros _. split; [|by eexists]. intros [_ (hs' & [= <-] & ?)]. done. }
  assert ((forall el' k', (el', k') ∈ w_listening (removed el o k p w) <-> is_Some (handlers_of el' k' (removed el o k p w)) /\ fixed (removed el o k p w) k' = None) /\
    captures (removed el o k p w)) as [HL HC].
  { destruct (handlers_of el k w) as [hs|] eqn:E.
    - destruct (decide (hs_list (remove_all p hs) = [])) as [Hn|Hn].
      + pose proof (removed_ears el o selector p w hs Hw E Hn) as H. cbn zeta in H. fold k in H.
        assert (removed el o k p w = delete_handlers el k (unlistened o k el (set_handlers el k (remove_all p hs) w))) as Er.
        { unfold removed. rewrite E. pose proof (wf_handlers w Hw el k hs E) as (Hne & _). by rewrite !bool_decide_eq_true_2. }
        rewrite <- Er in H. apply H. intros el' k'. rewrite Hh. naive_solver.
      + assert (removed el o k p w = set_handlers el k (remove_all p hs) w) as Er by (unfold removed; by rewrite E, (bool_decide_eq_false_2 (_ = [])), andb_false_r).
        destruct (set_handlers_rest el k (remove_all p hs) w) as (_ & _ & _ & _ & L1 & L2 & L3 & L4). rewrite <- Er in *.
        assert (forall el' k', is_Some (handlers_of el' k' (removed el o k p w)) <-> is_Some (handlers_of el' k' w)) as Hs by (intros; rewrite Hh; naive_solver).
        split; [intros el' k'; by rewrite L1, (wf_listening w Hw), Hs, (fixed_browser w (removed el o k p w))|]. apply (captures_same w); try done. apply (wf_captures w Hw).
    - assert (removed el o k p w = w) as -> by (unfold removed; by rewrite E). split; [apply (wf_listening w Hw)|apply (wf_captures w Hw)]. }
  split; [|done| |done].
  - intros el' k' hs. rewrite removed_handlers, E1 by done. destruct (decide (el' = el /\ k' = k)); [|apply (wf_handlers w Hw)].
    destruct (handlers_of el' k' w) as [hs0|] eqn:E0; [|done]. cbn. case_bool_decide as Hn; [done|]. intros [= <-].
    apply (wf_handlers w Hw) in E0 as (A1 & A2 & A3). split; [done|]. split; [by apply remove_all_front|].
    rewrite remove_all_list. by apply Forall_filtered.
  - intros f x g. rewrite E1, E2. apply (wf_funcs w Hw).
Qed.

(** The types and the handlers that a word of [off] is about: those of a type, or all that have its namespaces. *)
Definition removes_at (mapped : bool) (guid : option (option nat)) (selector : option text) (t : text) : option (text * (handleObj -> bool)) :=
  match rtypenamespace t with
  | Some (c :: ty, ns) => Some (c :: ty, removes mapped (c :: ty) guid (sorted_names <$> ns) selector)
  | _ => None
  end.

Lemma remove_type_run again el guid selector mapped t w :
  remove_type again el guid selector mapped t w =
  match removes_at mapped guid selector t with
  | Some (o, p) => (removed el o (mapped_type selector o) p w, Ok tt)
  | None => each (fun type => again (type ++ t)) (events_of el w).*1 w
  end.
Proof.
  unfold remove_type, removes_at. destruct (rtypenamespace t) as [[[|c ty] ns]|]; [done| |done].
  set (k := mapped_type _ _). set (p := removes _ _ _ _ _). unfold removed. rewrite (sbind_run (sget _) _ w w _ eq_refl).
  destruct (handlers_of el k w) as [hs|]; [|done]. rewrite (sbind_run (smodify _) _ w _ tt eq_refl).
  destruct (bool_decide (hs_list hs <> []) && bool_decide (hs_list (remove_all p hs) = [])); cbn [swhen]; [|done].
  by rewrite (sbind_run _ _ _ _ _ (unlisten_run (c :: ty) k el _)).
Qed.

Lemma remove_type_stable again el guid selector mapped t : (forall t, stable WF (again t)) -> stable WF (remove_type again el guid selector mapped t).
Proof.
  intros Ha w Hw. rewrite remove_type_run. destruct (removes_at mapped guid selector t) as [[k p]|]; [by apply removed_wf|].
  by apply stable_each.
Qed.

(** [delete elemData.events], when there are none. *)
Lemma drop_handlers el w el' k : events_of el w = [] -> handlers_of el' k (set_data (delete el (w_data w)) w) = handlers_of el' k w.
Proof.
  rewrite !handlers_of_get. unfold events_of. destruct w as [? ? d ? ? ?]. cbn. intros E. destruct (decide (el' = el)) as [->|Hne].
  - by rewrite lookup_delete_eq, E.
  - by rewrite lookup_delete_ne.
Qed.

Lemma remove__stable n : forall el types guid selector mapped, stable WF (remove_ n el types guid selector mapped).
Proof.
  induction n as [|n IH]; intros; cbn [remove_]; [apply stable_throw|]. apply stable_bind; [apply stable_get|].
  intros [evs|]; [|apply stable_ret]. apply stable_bind; [apply stable_each; intros; apply remove_type_stable; auto|]. intros _.
  intros w Hw. rewrite (sbind_run (sget _) _ w w _ eq_refl). case_bool_decide as He; [|done].
  apply WF_set_data; [|done]. intros. by apply drop_handlers.
Qed.

Lemma remove_stable depth el types f selector : stable WF (remove depth el types f selector).
Proof. unfold remove. apply stable_bind; [apply stable_get|]. intros. apply remove__stable. Qed.
#[export] Hint Resolve remove_stable : stable.

Lemma off_event_stable depth e : stable WF (off_event depth e).
Proof. unfold off_event. apply stable_bind; [apply stable_get|]. intros [ev|]; [|apply stable_ret]. destruct (e_handleObj ev); auto with stable. Qed.
#[export] Hint Resolve off_event_stable : stable.

(** *** Everything else *)

Section runs.
Context (dom : list node) (window : nat) (finds : text -> nat -> nat -> bool) (depth : nat) (bodies : nat -> list action * option bool).

Lemma on_event_stable e f : stable WF (smodify (on_event e f)).
Proof. apply stable_modify. intros w. apply WF_on_event. Qed.
Lemma write_stable x : stable WF (smodify (write x)).
Proof. apply stable_modify. intros w. apply WF_write. Qed.
Hint Resolve on_event_stable write_stable : stable.

Section library.
Context (go : call -> st_ex world (option bool)) (Hgo : forall c, stable WF (go c)).
Hint Resolve Hgo : stable.

Lemma call_handler_stable e el h : stable WF (call_handler dom go e el h).
Proof. unfold call_handler. destruct (sp_enter _); [|done]. apply stable_bind; [apply stable_get|]. intros r. destruct (match r with None => true | _ => _ end); auto 10 with stable. Qed.
Hint Resolve call_handler_stable : stable.

Lemma returned_stable e r : stable WF (returned e r).
Proof. destruct r; cbn [returned]; auto 10 with stable. Qed.
Hint Resolve returned_stable : stable.

Lemma run_handlers_stable e el hs : stable WF (run_handlers dom go e el hs).
Proof.
  induction hs as [|h hs IH]; cbn [run_handlers]; [auto with stable|]. apply stable_bind; [apply stable_get|]. intros []; [apply stable_ret|].
  apply stable_bind; [apply stable_get|]. intros names. apply stable_bind; [|auto]. apply stable_when. auto 10 with stable.
Qed.

Lemma run_queue_stable e q : stable WF (run_queue dom go e q).
Proof.
  induction q as [|[el hs] q IH]; cbn [run_queue]; [apply stable_ret|]. apply stable_bind; [apply stable_get|]. intros []; [apply stable_ret|].
  apply stable_bind; [apply run_handlers_stable|auto].
Qed.

Lemma dispatch_stable e el : stable WF (dispatch dom finds go e el).
Proof. unfold dispatch. apply stable_bind; [auto with stable|]. intros _. apply stable_bind; [apply stable_get|]. intros. apply run_queue_stable. Qed.
Hint Resolve dispatch_stable : stable.

Lemma new_event_stable f : stable WF (smodify (fun w => set_events (f w) w)).
Proof. apply stable_modify. intros w. apply WF_set_events. Qed.
Hint Resolve new_event_stable : stable.

Lemma fire_at_stable e cur type : stable WF (fire_at dom finds go e cur type).
Proof. unfold fire_at. auto 10 with stable. Qed.
Hint Resolve fire_at_stable : stable.

Lemma trigger_event_stable e el type only : stable WF (trigger_event dom window finds go e el type only).
Proof. unfold trigger_event. auto 10 with stable. Qed.
Hint Resolve trigger_event_stable : stable.

Lemma trigger_stable el t only : stable WF (trigger dom window finds go el t only).
Proof.
  unfold trigger. destruct (triggered_type t) as [type names]. apply stable_bind; [apply stable_get|]. intros e.
  apply stable_bind; [apply new_event_stable|]. auto 10 with stable.
Qed.
Hint Resolve trigger_stable : stable.

Lemma act_stable e a : stable WF (act depth go e a).
Proof. destruct a, e; cbn [act]; auto 10 with stable. Qed.

Lemma run_script_stable e l : stable WF (run_script depth go e l).
Proof. apply stable_each. apply act_stable. Qed.

Lemma perform_stable c : stable WF (perform dom window finds depth bodies go c).
Proof.
  destruct c as [f e|el t only]; cbn [perform]; [|apply trigger_stable]. unfold apply. apply stable_bind; [apply stable_get|].
  intros [orig|]; [auto with stable|]. destruct (bodies f). apply stable_bind; [apply run_script_stable|auto with stable].
Qed.

Lemma capture_stable path target type button related : forall prevented, stable WF (capture dom window finds go path target type button related prevented).
Proof.
  induction path as [|el path IH]; intros; cbn [capture]; [apply stable_ret|]. apply stable_bind; [apply stable_get|]. intros capturing.
  destruct (if capturing then fix_of type else None) as [fix_|]; [|apply IH]. apply stable_bind; [|intros; apply IH].
  unfold simulate. apply stable_bind; [apply stable_get|]. intros e. apply stable_bind; [apply new_event_stable|]. auto 10 with stable.
Qed.

Lemma native_stable path target type button related : forall prevented, stable WF (native dom finds go path target type button related prevented).
Proof.
  induction path as [|el path IH]; intros; cbn [native]; [apply stable_ret|]. apply stable_bind; [apply stable_get|]. intros []; [|apply IH].
  apply stable_bind; [apply stable_get|]. intros e. apply stable_bind; [apply new_event_stable|]. intros _. apply stable_bind; [auto with stable|]. intros _.
  apply stable_bind; [apply stable_get|]. intros []; (apply stable_bind; [apply stable_get|]); auto with stable.
Qed.

End library.

Lemma exec_stable n c : stable WF (exec dom window finds depth bodies n c).
Proof. revert c. induction n as [|n IH]; intros c; cbn [exec]; [apply stable_throw|]. by apply perform_stable. Qed.

Lemma event_happen_stable n h : stable WF (happen dom window finds depth bodies n h).
Proof.
  destruct h; cbn [happen]; [apply run_script_stable; intros; apply exec_stable|].
  apply stable_bind; [apply capture_stable|intros; apply native_stable]; intros; apply exec_stable.
Qed.

(** What happens, one thing after the other, whatever is thrown. *)
Definition after (n : nat) (hs : list happening) (w : world) : world := foldl (fun w h => (happen dom window finds depth bodies n h w).1) w hs.

Lemma after_wf n hs w : WF w -> WF (after n hs w).
Proof. revert w. induction hs as [|h hs IH]; intros w Hw; [done|]. by apply IH, event_happen_stable. Qed.

End runs.

Lemma new_world_wf b n : WF (new_world b n).
Proof.
  split; [done|cbn; intros; split; [intros ?%elem_of_empty; done|by intros [[] _]]| |].
  - intros f x g Ef. apply list_elem_of_lookup_2 in Ef. apply elem_of_replicate in Ef as [-> _]. done.
  - split; [intros d k orig _; cbn; split; [intros ?%elem_of_empty; done|by intros []]|done|]. intros d k _. cbn.
    assert (wants d k (new_world b n) = ∅) as ->; [|done]. apply set_eq. intros el. rewrite elem_of_wants. cbn. split; [by intros [_ []]|by intros ?%elem_of_empty].
Qed.

(** C10: whatever the page and its functions do, in any order, thrown out of or not, with handlers bound and unbound while
    events are dispatched: every list of handlers has the delegated ones in front, [delegateCount] is their number, each
    handler is in the list of the type that stands for the one it was asked for, with sorted namespaces and a guid
    that was given, and no list is empty.  The element listens to the events of the browser for exactly the types it
    has a list for, but for focusin and focusout where the browser does not let them bubble: for these its document captures
    focus or blur, as long as there is a list. *)
Theorem handlers_in_place b dom window finds depth bodies n m hs el k :
  let w := after dom window finds depth bodies n hs (new_world b m) in
  ((el, k) ∈ w_listening w <-> is_Some (handlers_of el k w) /\ (focusinBubbles (w_browser w) = true \/ orig_of k = None)) /\
  forall l, handlers_of el k w = Some l ->
    hs_list l <> [] /\
    (exists ds us, hs_list l = ds ++ us /\ Forall (fun h => is_Some (h_selector h)) ds /\ Forall (fun h => h_selector h = None) us /\
       delegateCount l = Z.of_nat (length ds)) /\
    Forall (in_place (w_guid w) k) (hs_list l) /\
    forall orig, focusinBubbles (w_browser w) = false -> orig_of k = Some orig -> (doc_of w el, orig) ∈ w_capturing w.
Proof.
  intros w. assert (WF w) as Hw by (apply after_wf, new_world_wf). split.
  { rewrite (wf_listening w Hw). unfold fixed. destruct (focusinBubbles _); naive_solver. }
  intros l Hl. destruct (wf_handlers w Hw el k l Hl) as (H1 & (ds & us & H2 & H3 & H4 & H5) & H6). split; [done|]. split; [|split; [done|]].
  - exists ds, us. split; [done|]. unfold delegated in *. split; [|split; [|done]].
    + eapply Forall_impl; [exact H3|]. intros h Hh. by apply bool_decide_eq_true in Hh.
    + eapply Forall_impl; [exact H4|]. intros h Hh. apply bool_decide_eq_false in Hh. by apply eq_None_not_Some.
  - intros orig Hb Ho. assert (fixed w k = Some orig) as Hf by (unfold fixed; by rewrite Hb).
    destruct (wf_captures w Hw) as [C1 _ C3]. apply (C1 _ k); [done|]. specialize (C3 (doc_of w el) k ltac:(by eexists)).
    assert (el ∈ wants (doc_of w el) k w) as Hin by (apply elem_of_wants; split; [done|by eexists]).
    destruct (w_attaches w !! (doc_of w el, k)); [by eexists|]. cbn in C3.
    assert (size (wants (doc_of w el) k w) = 0%nat) as Hz%size_empty_inv by lia. set_solver.
Qed.

(** ** Instances *)

(** A document with a body, a list and an item; the selector "li" finds the item. *)
Definition example_dom : list node := [Node Document None false; Node Element (Some 0) false; Node Element (Some 1) false; Node Element (Some 2) false]%nat.
Definition example_finds (s : text) (this el : nat) : bool := bool_decide (s = txt "li" /\ el = 3%nat).
Definition example_bodies (f : nat) : list action * option bool :=
  match f with 0%nat => ([ANote 0], None) | 1%nat => ([AStop], Some false) | _ => ([], None) end.

(** A browser where focusin does not bubble; the elements are of the document. *)
Definition example_browser : browser := Browser false (fun el => match el with 1 | 2 | 3 => Some 0 | _ => None end)%nat.

(** Delegated handlers on the body, two handlers on the item, one of them with a namespace. *)
Definition example_page : list happening :=
  [HScript [AOn 1 (txt "click focus") (Some (txt "li")) 0 false; AOn 3 (txt "click.menu.list focus") None 0 false; AOn 3 (txt "click") None 2 false]].
Definition example_world : world := after example_dom 9 example_finds 5 example_bodies 9 example_page (new_world example_browser 4).

Lemma handlers_in_place_witness :
  exists l, handlers_of 1 (txt "focusin") example_world = Some l /\ Forall (in_place (w_guid example_world) (txt "focusin")) (hs_list l) /\
    (0%nat, txt "focus") ∈ w_capturing example_world.
Proof.
  destruct (handlers_of 1 (txt "focusin") example_world) as [l|] eqn:E; [|vm_compute in E; discriminate E].
  exists l. split; [reflexivity|].
  destruct (proj2 (handlers_in_place example_browser example_dom 9 example_finds 5 example_bodies 9 4 example_page 1 (txt "focusin")) l E) as (_ & _ & H & Hc).
  split; [exact H|]. apply (Hc (txt "focus")); vm_compute; reflexivity.
Defined.

(** A delegated handler of focus is bound to focusin, and the document captures focus; [off] looks for a [teardown] under the
    name it is given, finds none, and the document captures focus for ever. *)
Lemma delegated_focus_leaks :
  let page := [HScript [AOn 1 (txt "focus") (Some (txt "li")) 0 false; AOff 1 (txt "focus") (Some (txt "li")) None]] in
  let w := after example_dom 9 example_finds 5 example_bodies 9 page (new_world example_browser 4) in
  w_data w = ∅ /\ (0%nat, txt "focus") ∈ w_capturing w.
Proof.
  cbn zeta. set (w := after _ _ _ _ _ _ _ _). assert (w_data w = ∅ /\ bool_decide ((0%nat, txt "focus") ∈ w_capturing w) = true) as [H1 H2] by (split; vm_compute; reflexivity).
  split; [exact H1|]. by apply bool_decide_eq_true in H2.
Qed.
