(* ===== verification/EventsOff.v ===== *)
(** * jQuery: what [on] adds and [off] removes

    [off] removes the handlers that match its words and no other; it undoes [on]. *)

From Stdlib Require Import ZArith Lia Ascii Sorting.Sorted.
From stdpp Require Import gmap.
From S2P Require Import Prelude JsString Callbacks Params Events EventsSpec.

Local Open Scope Z_scope.

(** ** What [off] removes *)

(** An element loses the handlers that [S] says, and nothing else changes. *)
Definition sweeps (el : nat) (S : text -> handleObj -> bool) (w w' : world) : Prop :=
  WF w' /\ (w_guid w' = w_guid w /\ w_funcs w' = w_funcs w /\ w_events w' = w_events w /\ w_log w' = w_log w) /\
  forall el' k, bound el' k w' = if decide (el' = el) then filter (fun h => S k h = false) (bound el' k w) else bound el' k w.

Lemma filter_filter_or {A} (p q : A -> bool) (l : list A) :
  filter (fun x => q x = false) (filter (fun x => p x = false) l) = filter (fun x => (p x || q x) = false) l.
Proof.
  rewrite list_filter_filter. apply list_filter_iff. intros x. destruct (p x), (q x); naive_solver.
Qed.

Lemma sweeps_trans el S1 S2 w1 w2 w3 : sweeps el S1 w1 w2 -> sweeps el S2 w2 w3 -> sweeps el (fun k h => S1 k h || S2 k h) w1 w3.
Proof.
  intros (_ & (A1 & A2 & A3 & A4) & A5) (B0 & (B1 & B2 & B3 & B4) & B5). split; [done|]. split; [split_and!; congruence|].
  intros el' k. rewrite B5, A5. destruct (decide (el' = el)); [|done]. apply filter_filter_or.
Qed.

Lemma sweeps_ext el S S' w w' : (forall k h, h ∈ bound el k w -> S k h = S' k h) -> sweeps el S w w' -> sweeps el S' w w'.
Proof.
  intros HS (H0 & H1 & H2). split; [done|]. split; [done|]. intros el' k. rewrite H2. destruct (decide (el' = el)) as [->|]; [|done].
  apply filter_same. intros h Hh. by rewrite (HS k h Hh).
Qed.

Lemma sweeps_nothing el w : WF w -> sweeps el (fun _ _ => false) w w.
Proof. intros Hw. split; [done|]. split; [done|]. intros el' k. destruct (decide (el' = el)); [|done]. symmetry. apply filter_all. by apply Forall_forall. Qed.

Lemma removed_sweeps el o selector p w : let k := mapped_type selector o in
  WF w -> sweeps el (fun k' h => bool_decide (k' = k) && p h) w (removed el o k p w).
Proof.
  intros k Hw. split; [by apply removed_wf|]. split; [destruct (removed_rest el o k p w) as (? & ? & ? & ? & _); done|]. intros el' k'. rewrite removed_bound by done.
  destruct (decide (el' = el)) as [->|]; [|by rewrite decide_False by naive_solver].
  destruct (decide (k' = k)) as [->|].
  - rewrite decide_True by done. by rewrite bool_decide_eq_true_2.
  - rewrite decide_False by naive_solver. rewrite bool_decide_eq_false_2 by done. symmetry. apply filter_all. by apply Forall_forall.
Qed.

(** The types of the table, and others, which stand for themselves. *)
Lemma special_other o : o ∉ map (fun s => txt s.1) special_table -> special o = Special None None false false.
Proof.
  intros Ho. unfold special. rewrite filter_none; [done|]. apply Forall_forall. intros s Hs Heq. apply Ho. rewrite <- Heq.
  apply list_elem_of_In, (in_map (fun s : string * special_ => txt s.1)). by apply list_elem_of_In.
Qed.

Lemma special_case (P : text -> Prop) o : Forall P (map (fun s => txt s.1) special_table) ->
  (special o = Special None None false false -> P o) -> P o.
Proof.
  intros H1 H2. destruct (decide (o ∈ map (fun s => txt s.1) special_table)) as [Hin|Hn].
  - by apply (proj1 (Forall_forall _ _) H1).
  - by apply H2, special_other.
Qed.

Lemma mapped_twice (a b : option text) o : is_Some a \/ b = None -> mapped_type b (mapped_type a o) = mapped_type a o.
Proof.
  intros H. apply (special_case (fun o => mapped_type b (mapped_type a o) = mapped_type a o)).
  - destruct a, b, H as [[? ?]|?]; try done; repeat first [apply List.Forall_nil|apply List.Forall_cons; [vm_compute; reflexivity|]].
  - intros E. unfold mapped_type at 2 3. rewrite E. destruct a; cbn [sp_delegateType sp_bindType from_option]; unfold mapped_type; rewrite E; by destruct b.
Qed.

Lemma mapped_plain a o : plain_type o -> plain_type (mapped_type a o).
Proof.
  intros Ho. revert Ho. apply (special_case (fun o => plain_type o -> plain_type (mapped_type a o))).
  - destruct a; repeat first [apply List.Forall_nil|apply List.Forall_cons; [intros _; split_and!; [done|repeat constructor..]|]].
  - intros E Ho. unfold mapped_type. rewrite E. by destruct a.
Qed.

Lemma take_while_plain k c r : plain_name k -> is_dot c = true -> take_while (fun c => negb (is_dot c)) (k ++ c :: r) = k.
Proof. intros Hk Hc. induction Hk as [|d k Hd Hk IH]; cbn; [by rewrite Hc|]. by rewrite Hd, IH. Qed.

Lemma take_while_whole k : plain_name k -> take_while (fun c => negb (is_dot c)) k = k.
Proof. induction 1 as [|d k Hd Hk IH]; cbn; [done|]. by rewrite Hd, IH. Qed.

(** A word of namespaces alone, after a type. *)
Lemma type_of_all k t ns : plain_name k -> rtypenamespace t = Some ([], ns) -> rtypenamespace (k ++ t) = Some (k, ns).
Proof.
  intros Hk. unfold rtypenamespace. cbn zeta. destruct t as [|c t].
  - intros [= <-]. rewrite app_nil_r, take_while_whole by done. by rewrite drop_ge.
  - cbn [take_while]. destruct (is_dot c) eqn:Ec; cbn [negb].
    + cbn [length drop]. rewrite take_while_plain, drop_app_length by done. by destruct t; intros [= <-].
    + cbn [length drop]. destruct (drop _ t) as [|? [|]]; by intros [=].
Qed.

Lemma words_one t : forall cur, spaceless t -> cur ++ t <> [] -> words cur t = [cur ++ t].
Proof.
  induction t as [|c t IH]; intros cur Ht Hne; cbn; [rewrite app_nil_r in *; by rewrite decide_False|].
  apply Forall_cons in Ht as [-> Ht]. rewrite IH; [by rewrite <- app_assoc|done|]. by destruct cur.
Qed.

Lemma tokens_one t : spaceless t -> t <> [] -> tokens t = [t].
Proof. intros Ht Hne. unfold tokens. by rewrite words_one. Qed.

(** A key of the events of an element. *)
Lemma key_plain el w k : WF w -> k ∈ (events_of el w).*1 -> plain_type k /\ mapped_type None k = k.
Proof.
  intros Hw Hk. apply assoc_get_key in Hk as [hs E]. apply (wf_handlers w Hw) in E as (Hne & _ & Hh).
  destruct (hs_list hs) as [|h l]; [done|]. apply Forall_cons in Hh as [(H1 & <- & _) _]. split; [by apply mapped_plain|].
  apply mapped_twice. by right.
Qed.

Lemma bound_in_place el k w h : WF w -> h ∈ bound el k w -> in_place (w_guid w) k h.
Proof.
  intros Hw. unfold bound. destruct (handlers_of el k w) as [hs|] eqn:E; cbn [from_option]; [|by intros ?%elem_of_nil].
  apply (wf_handlers w Hw) in E as (_ & _ & Hh). by apply (proj1 (Forall_forall _ _) Hh).
Qed.

Lemma bound_key el k w h : h ∈ bound el k w -> k ∈ (events_of el w).*1.
Proof.
  unfold bound. intros Hh. apply assoc_get_key. rewrite <- handlers_of_get. destruct (handlers_of el k w); [by eexists|].
  by apply elem_of_nil in Hh.
Qed.

(** What a word of [off] takes away. *)
Definition gone (guid : option (option nat)) (selector : option text) (t k : text) (h : handleObj) : bool :=
  match rtypenamespace t with
  | Some ([], ns) => removes true [] guid (sorted_names <$> ns) selector h
  | Some (ty, ns) => bool_decide (k = mapped_type selector ty) && removes false ty guid (sorted_names <$> ns) selector h
  | None => false
  end.

Section removal.
Context (el : nat) (guid : option (option nat)) (selector : option text).

(** The end of [remove]. *)
Lemma drop_end w : WF w -> exists w',
  sbind (sget (events_of el)) (fun events => swhen (bool_decide (events = [])) (smodify (fun w => set_data (delete el (w_data w)) w))) w = (w', Ok tt) /\
  sweeps el (fun _ _ => false) w w'.
Proof.
  intros Hw. rewrite (sbind_run (sget _) _ w w _ eq_refl). case_bool_decide as He; cbn [swhen]; [|exists w; split; [done|by apply sweeps_nothing]].
  exists (set_data (delete el (w_data w)) w). split; [done|]. split; [by apply WF_set_data; [intros; by apply drop_handlers|]|].
  split; [by destruct w|]. intros el' k. unfold bound. rewrite drop_handlers by done.
  destruct (decide (el' = el)); [|done]. symmetry. apply filter_all. by apply Forall_forall.
Qed.

Lemma remove_key n k t ns w : WF w -> plain_type k -> spaceless t -> rtypenamespace t = Some ([], ns) ->
  exists w', remove_ (S n) el (k ++ t) guid selector true w = (w', Ok tt) /\
    sweeps el (fun k' h => bool_decide (k' = mapped_type selector k) && removes true [] guid (sorted_names <$> ns) selector h) w w'.
Proof.
  intros Hw (Hk & Hk1 & Hk2) Ht Et. cbn [remove_]. rewrite (sbind_run (sget _) _ w w _ eq_refl).
  destruct (w_data w !! el) as [evs|] eqn:Ed.
  - rewrite tokens_one; [|by apply Forall_app|by destruct k]. cbn [rev app each].
    destruct k as [|c k]; [done|]. pose proof (type_of_all (c :: k) t ns Hk1 Et) as Er.
    set (p := removes true [] guid (sorted_names <$> ns) selector).
    assert (remove_type (fun t => remove_ n el t guid selector true) el guid selector true ((c :: k) ++ t) w =
      (removed el (c :: k) (mapped_type selector (c :: k)) p w, Ok tt)) as E1 by (rewrite remove_type_run; unfold removes_at; by rewrite Er).
    pose proof (removed_sweeps el (c :: k) selector p w Hw) as S1. destruct S1 as [Hw1 S1].
    destruct (drop_end _ Hw1) as (w2 & E2 & S2). exists w2. split.
    + erewrite sbind_run; [exact E2|]. rewrite (sbind_run _ _ _ _ _ E1). done.
    + eapply sweeps_ext; [|eapply sweeps_trans; [split; [exact Hw1|exact S1]|exact S2]]. intros k' h _. cbn. by rewrite orb_false_r.
  - exists w. split; [done|]. eapply sweeps_ext; [|by apply sweeps_nothing]. intros k' h Hh. unfold bound in Hh. rewrite handlers_of_get in Hh.
    unfold events_of in Hh. rewrite Ed in Hh. by apply elem_of_nil in Hh.
Qed.

Lemma remove_keys n ks t ns : forall w, WF w -> Forall plain_type ks -> spaceless t -> rtypenamespace t = Some ([], ns) ->
  exists w', each (fun k => remove_ (S n) el (k ++ t) guid selector true) ks w = (w', Ok tt) /\
    sweeps el (fun k' h => bool_decide (k' ∈ mapped_type selector <$> ks) && removes true [] guid (sorted_names <$> ns) selector h) w w'.
Proof.
  induction ks as [|k ks IH]; intros w Hw Hks Ht Et; cbn [each].
  - exists w. split; [done|]. eapply sweeps_ext; [|by apply sweeps_nothing]. intros k h _. by rewrite bool_decide_eq_false_2 by (cbn; apply not_elem_of_nil).
  - apply Forall_cons in Hks as [Hk Hks]. destruct (remove_key n k t ns w Hw Hk Ht Et) as (w1 & E1 & S1).
    destruct (IH w1) as (w2 & E2 & S2); [apply S1|done..|]. exists w2. split; [by rewrite (sbind_run _ _ _ _ _ E1)|].
    eapply sweeps_ext; [|eapply sweeps_trans; [exact S1|exact S2]]. intros k' h _. cbn beta.
    rewrite <- andb_orb_distrib_l. f_equal. rewrite fmap_cons.
    destruct (decide (k' = mapped_type selector k)) as [->|Hne].
    + rewrite (bool_decide_eq_true_2 (_ = _)) by done. by rewrite (bool_decide_eq_true_2 (_ ∈ _ :: _)) by left.
    + rewrite bool_decide_eq_false_2 by done. cbn. apply bool_decide_ext. rewrite elem_of_cons. tauto.
Qed.

(** A word of [off], whether it has a type or not. *)
Lemma remove_word n t w : WF w -> spaceless t -> is_Some (rtypenamespace t) ->
  exists w', remove_type (fun t => remove_ (S n) el t guid selector true) el guid selector false t w = (w', Ok tt) /\ sweeps el (gone guid selector t) w w'.
Proof.
  intros Hw Ht [[ty ns] Et]. rewrite remove_type_run. unfold removes_at. destruct ty as [|c ty]; rewrite Et.
  - destruct (remove_keys n (events_of el w).*1 t ns w) as (w' & E & S); [done| |done..|].
    + apply Forall_forall. intros k Hk. by apply (key_plain el w k).
    + exists w'. split; [done|]. eapply sweeps_ext; [|exact S]. intros k h Hh. unfold gone. rewrite Et. cbn beta.
      destruct (removes true [] guid (sorted_names <$> ns) selector h) eqn:Er; [|by rewrite andb_false_r]. rewrite andb_true_r.
      apply bool_decide_eq_true_2. apply list_elem_of_fmap. exists k. split; [|by eapply bound_key].
      destruct (bound_in_place el k w h Hw Hh) as (_ & <- & _). symmetry. apply mapped_twice.
      destruct selector as [s|] eqn:Es; [left|by right]. unfold removes in Er.
      apply andb_true_iff in Er as [_ Er]. apply orb_true_iff in Er as [Er|Er]; [apply bool_decide_eq_true in Er as <-; by eexists|]. apply andb_true_iff in Er as [_ Er]. by apply bool_decide_eq_true in Er.
  - eexists. split; [reflexivity|]. eapply sweeps_ext; [|by apply removed_sweeps]. intros k h _. unfold gone. by rewrite Et.
Qed.

Lemma remove_words n ts : forall w, WF w -> Forall spaceless ts -> Forall (fun t => is_Some (rtypenamespace t)) ts ->
  exists w', each (remove_type (fun t => remove_ (S n) el t guid selector true) el guid selector false) ts w = (w', Ok tt) /\
    sweeps el (fun k h => existsb (fun t => gone guid selector t k h) ts) w w'.
Proof.
  induction ts as [|t ts IH]; intros w Hw H1 H2; cbn [each existsb]; [exists w; split; [done|by apply sweeps_nothing]|].
  apply Forall_cons in H1 as [Ht1 H1]. apply Forall_cons in H2 as [Ht2 H2]. destruct (remove_word n t w Hw Ht1 Ht2) as (w1 & E1 & S1).
  destruct (IH w1) as (w2 & E2 & S2); [apply S1|done..|]. exists w2. split; [by rewrite (sbind_run _ _ _ _ _ E1)|]. by eapply sweeps_trans.
Qed.

End removal.

(** By the words of [types], as the library reads them. *)
Definition off_removes (types : text) (guid : option (option nat)) (selector : option text) (k : text) (h : handleObj) : bool :=
  existsb (fun t => gone guid selector t k h) (tokens types).

Lemma remove_sweeps depth el types f selector w : WF w -> (2 <= depth)%nat -> Forall (fun t => is_Some (rtypenamespace t)) (tokens types) ->
  exists w', remove depth el types f selector w = (w', Ok tt) /\
    sweeps el (off_removes types ((fun f => w_funcs w !! f ≫= f_guid) <$> f) (selector_of selector)) w w'.
Proof.
  intros Hw Hd Ht. destruct depth as [|[|n]]; [lia|lia|]. unfold remove. rewrite (sbind_run (sget _) _ w w _ eq_refl).
  set (guid := (fun f => w_funcs w !! f ≫= f_guid) <$> f). set (sel := selector_of selector).
  change (remove_ (S (S n)) el types guid sel false w) with
    (sbind (sget (fun w => w_data w !! el)) (fun events =>
      match events with
      | None => sret tt
      | Some _ => sbind (each (remove_type (fun t => remove_ (S n) el t guid sel true) el guid sel false) (rev (tokens types))) (fun _ =>
          sbind (sget (events_of el)) (fun events => swhen (bool_decide (events = [])) (smodify (fun w => set_data (delete el (w_data w)) w))))
      end) w).
  rewrite (sbind_run (sget _) _ w w _ eq_refl). destruct (w_data w !! el) as [evs|] eqn:Ed.
  - destruct (remove_words el guid sel n (rev (tokens types)) w) as (w1 & E1 & S1);
      [done|rewrite rev_alt; apply Forall_reverse, tokens_spaceless|rewrite rev_alt; by apply Forall_reverse|].
    destruct (drop_end el w1) as (w2 & E2 & S2); [apply S1|]. exists w2. split; [by rewrite (sbind_run _ _ _ _ _ E1)|].
    eapply sweeps_ext; [|eapply sweeps_trans; [exact S1|exact S2]]. intros k h _. cbn beta. rewrite orb_false_r. unfold off_removes.
    apply eq_bool_prop_intro. rewrite !Is_true_true, !existsb_exists. setoid_rewrite <- in_rev. done.
  - exists w. split; [done|]. eapply sweeps_ext; [|by apply sweeps_nothing]. intros k h Hh. unfold bound in Hh. rewrite handlers_of_get in Hh.
    unfold events_of in Hh. rewrite Ed in Hh. by apply elem_of_nil in Hh.
Qed.

(** ** What [off] is said to remove *)

(** A word is a type, then names after dots; either may be missing.  It takes a handler that was bound for the type, with all of the
    names, whatever their order, by a function with the same guid, with the same selector, or with any for "**".  Handlers of focus and
    blur are in other lists when they are delegated: [off] finds them with a selector only, and those that are not without. *)
Definition takes (guid : option (option nat)) (selector : option text) (word : text) (h : handleObj) : bool :=
  match split_on "."%char word with
  | [] => false
  | type :: names =>
      bool_decide (type = [] \/ h_origType h = type /\ (type ∈ txt <$> ["focus"; "blur"]%string -> is_Some selector <-> is_Some (h_selector h))) &&
      bool_decide (names ⊆+ split_on "."%char (h_namespace h)) &&
      match guid with None => true | Some g => bool_decide (g = Some (h_guid h)) end &&
      match selector with None => true | Some s => bool_decide (h_selector h = Some s \/ s = txt "**" /\ h_selector h <> None) end
  end.

Definition off_takes (types : text) (guid : option (option nat)) (selector : option text) (h : handleObj) : bool :=
  existsb (fun word => takes guid selector word h) (tokens types).

(** A handler with one selector or none is in the list where [off] looks with another or none. *)
Lemma mapped_same (a b : option text) o :
  mapped_type a o = mapped_type b o <-> (o ∈ txt <$> ["focus"; "blur"]%string -> is_Some b <-> is_Some a).
Proof.
  apply (special_case (fun o => mapped_type a o = mapped_type b o <-> (o ∈ txt <$> ["focus"; "blur"]%string -> is_Some b <-> is_Some a))).
  - destruct a, b; repeat first [apply List.Forall_nil|apply List.Forall_cons; [apply (bool_decide_unpack _); vm_compute; exact I|]].
  - intros E. unfold mapped_type. rewrite E. split.
    + intros _ Ho. exfalso. assert (special o <> Special None None false false) as Hn; [|by rewrite E in Hn].
      apply list_elem_of_fmap in Ho as (s & -> & Hs). apply elem_of_cons in Hs as [->|Hs]; [done|]. by apply list_elem_of_singleton in Hs as ->.
    + intros _. by destruct a, b.
Qed.

Lemma split_word t ty ns : rtypenamespace t = Some (ty, ns) ->
  plain_name ty /\ split_on "."%char t = ty :: match ns with Some ns => split_on "."%char ns | None => [] end.
Proof.
  unfold rtypenamespace. cbn zeta. set (k := take_while _ t). intros E.
  assert (plain_name k) as Hk by (eapply Forall_impl; [apply take_while_all|]; intros c Hc; by apply negb_true_iff in Hc).
  assert (t = k ++ drop (length k) t) as Ht.
  { clear E Hk. subst k. induction t as [|c t IH]; [done|]. cbn. destruct (negb (is_dot c)); [cbn; by rewrite <- IH|done]. }
  assert (match drop (length k) t with [] => True | c :: _ => c = "."%char end) as Hd.
  { clear E Hk Ht. subst k. induction t as [|c t IH]; [done|]. cbn. destruct (is_dot c) eqn:Ec; [|exact IH]. cbn. unfold is_dot in Ec. by apply bool_decide_eq_true in Ec. }
  destruct (drop (length k) t) as [|c [|d r]]; [|done|]; injection E as <- <-; (split; [done|]); rewrite Ht.
  - rewrite app_nil_r. by apply split_on_plain.
  - subst c. by apply split_on_dot.
Qed.

Lemma gone_takes m guid selector t k h : in_place m k h -> is_Some (rtypenamespace t) -> gone guid selector t k h = takes guid selector t h.
Proof.
  intros Hh [[ty ns] Et]. destruct (split_word t ty ns Et) as [Hty Es]. unfold gone, takes. rewrite Et, Es.
  assert (match sorted_names <$> ns with Some names => namespace_re names (h_namespace h) | None => true end =
    bool_decide (match ns with Some ns => split_on "."%char ns | None => [] end ⊆+ split_on "."%char (h_namespace h))) as Hn.
  { destruct ns as [ns|]; cbn; [|symmetry; apply bool_decide_eq_true; apply submseteq_nil_l]. apply eq_bool_prop_intro. rewrite !Is_true_true, bool_decide_eq_true.
    by apply (in_place_names m k h); [|apply split_plain|apply split_nonempty]. }
  assert (match selector with Some s => bool_decide (Some s = h_selector h) || bool_decide (s = txt "**") && bool_decide (is_Some (h_selector h)) | None => true end =
    match selector with None => true | Some s => bool_decide (h_selector h = Some s \/ s = txt "**" /\ h_selector h <> None) end) as Hsel.
  { destruct selector as [s|]; [|done]. apply eq_bool_prop_intro. rewrite !Is_true_true, orb_true_iff, andb_true_iff, !bool_decide_eq_true, <- not_eq_None_Some. naive_solver. }
  unfold removes. rewrite Hn, Hsel. destruct Hh as (_ & Hk & _). destruct ty as [|c ty].
  - rewrite (bool_decide_eq_true_2 ([] = [] \/ _)) by by left. cbn [orb andb].
    destruct guid as [g|]; [destruct (bool_decide (g = _))|]; by rewrite ?andb_true_r, ?andb_false_r.
  - set (A := bool_decide (c :: ty = [] \/ _)).
    assert (bool_decide (k = mapped_type selector (c :: ty)) && bool_decide (c :: ty = h_origType h) = A) as <-.
    { unfold A. apply eq_bool_prop_intro. rewrite !Is_true_true, andb_true_iff, !bool_decide_eq_true. split.
      - intros [H1 H2]. right. split; [done|]. subst k. rewrite <- H2 in H1. by apply mapped_same.
      - intros [?|[H1 H2]]; [done|]. split; [|done]. rewrite <- Hk, H1. by apply mapped_same. }
    cbn [orb]. rewrite <- !andb_assoc. do 2 f_equal. destruct guid as [g|]; [destruct (bool_decide (g = _))|]; cbn [andb]; by rewrite ?andb_false_r.
Qed.

(** C12: [off] of types, none of which ends with a dot, ends, with calls at least two deep allowed, and removes exactly the handlers of
    the element that one of its words takes; all other handlers stay, in their order, on this element and others. *)
Theorem off_exact b dom window finds depth bodies n m hs el types f selector :
  let w := after dom window finds depth bodies n hs (new_world b m) in
  (2 <= depth)%nat -> Forall (fun t => is_Some (rtypenamespace t)) (tokens types) ->
  exists w', remove depth el types f selector w = (w', Ok tt) /\ w_log w' = w_log w /\
    forall el' k, bound el' k w' =
      if decide (el' = el) then
        filter (fun h => off_takes types ((fun f => w_funcs w !! f ≫= f_guid) <$> f) (selector_of selector) h = false) (bound el k w)
      else bound el' k w.
Proof.
  intros w Hd Ht. assert (WF w) as Hw by (apply after_wf, new_world_wf).
  destruct (remove_sweeps depth el types f selector w Hw Hd Ht) as (w' & E & _ & (_ & _ & _ & H1) & H2).
  exists w'. split; [done|]. split; [done|]. intros el' k. rewrite H2. destruct (decide (el' = el)) as [->|]; [|done].
  apply filter_same. intros h Hh. unfold off_removes, off_takes. f_equiv. apply eq_bool_prop_intro. rewrite !Is_true_true, !existsb_exists.
  rewrite Forall_forall in Ht. split; intros (t & Hin & E1); exists t; (split; [done|]); revert E1; rewrite (gone_takes _ _ _ _ k h (bound_in_place _ _ _ _ Hw Hh)); try done;
    by apply Ht, list_elem_of_In.
Qed.

(** ** What [on] adds *)

Lemma bound_added el k h w el' k' :
  bound el' k' (added el k h w) =
    if decide (el' = el /\ k' = k) then hs_list (insert_handler h (default (Handlers [] 0) (handlers_of el k w))) else bound el' k' w.
Proof. unfold bound. rewrite added_handlers. by destruct (decide (el' = el /\ k' = k)). Qed.

Lemma bound_added_elem el k h w el' k' x : x ∈ bound el' k' (added el k h w) -> x ∈ bound el' k' w \/ (el' = el /\ k' = k /\ x = h).
Proof.
  rewrite bound_added. destruct (decide (el' = el /\ k' = k)) as [[-> ->]|]; [|by left]. unfold bound. intros [->|Hx]%insert_elem; [by right|].
  left. by destruct (handlers_of el k w).
Qed.

Lemma splice_filter {A} (P : A -> Prop) `{!forall x, Decision (P x)} i x (l : list A) : ~ P x -> filter P (splice_in i x l) = filter P l.
Proof.
  intros Hx. unfold splice_in. set (n := Z.to_nat _). rewrite filter_app, filter_cons_False by done. rewrite <- filter_app. by rewrite take_drop.
Qed.

Lemma bound_added_filter el k h w el' k' (P : handleObj -> Prop) `{!forall x, Decision (P x)} : ~ P h ->
  filter P (bound el' k' (added el k h w)) = filter P (bound el' k' w).
Proof.
  intros Hh. rewrite bound_added. destruct (decide (el' = el /\ k' = k)) as [[-> ->]|]; [|done].
  unfold bound, insert_handler. destruct (h_selector h); cbn [hs_list].
  - rewrite splice_filter by done. by destruct (handlers_of el k w).
  - rewrite filter_app, filter_cons_False by done. cbn. rewrite app_nil_r. by destruct (handlers_of el k w).
Qed.

Lemma made_for_guid f g selector t k h : made_for f g selector t = Some (k, h) -> h_guid h = g.
Proof. unfold made_for. destruct (rtypenamespace t) as [[[|c ty] ns]|]; [done| |done]. by intros [= <- <-]. Qed.

Lemma added_all_elem el f g selector l el' k : forall w x, x ∈ bound el' k (added_all el f g selector l w) ->
  x ∈ bound el' k w \/ el' = el /\ exists t, t ∈ l /\ made_for f g selector t = Some (k, x).
Proof.
  induction l as [|t l IH]; intros w x Hx; [by left|]. apply IH in Hx as [Hx|(-> & t' & Ht' & Em)]; [|right; split; [done|]; exists t'; split; [by right|done]].
  destruct (made_for f g selector t) as [[k0 h]|] eqn:Em; [|by left]. apply bound_added_elem in Hx as [Hx|(-> & -> & ->)]; [by left|].
  right. split; [done|]. exists t. split; [by left|done].
Qed.

Lemma added_all_filter el f g selector l el' k w : filter (fun h => h_guid h <> g) (bound el' k (added_all el f g selector l w)) = filter (fun h => h_guid h <> g) (bound el' k w).
Proof.
  revert w. induction l as [|t l IH]; intros w; [done|]. unfold added_all. cbn [foldl].
  destruct (made_for f g selector t) as [[k0 h]|] eqn:Em; [|apply IH]. rewrite <- (bound_added_filter el k0 h w); [apply IH|].
  apply made_for_guid in Em. congruence.
Qed.

(** A handler is taken away by the words it was made for. *)
Lemma made_for_gone f g selector t k h : made_for f g selector t = Some (k, h) -> gone (Some (Some g)) selector t k h = true.
Proof.
  unfold made_for, gone. destruct (rtypenamespace t) as [[[|c ty] ns]|]; [done| |done]. intros [= <- <-].
  rewrite bool_decide_eq_true_2 by done. unfold removes. cbn [h_origType h_guid h_namespace h_selector orb]. rewrite !bool_decide_eq_true_2 by done.
  cbn [andb]. apply andb_true_iff. split.
  - destruct ns as [ns|]; cbn; [|done]. apply names_among; first [done|apply split_plain|apply split_nonempty].
  - destruct selector; [|done]. by rewrite bool_decide_eq_true_2.
Qed.

(** A function bound for the first time, and unbound with the same types and the same selector, leaves the handlers as they
    were, on this element and others. *)
Theorem on_off b dom window finds depth bodies n m hs el types f selector :
  let w := after dom window finds depth bodies n hs (new_world b m) in
  (2 <= depth)%nat -> Forall (fun t => is_Some (rtypenamespace t)) (tokens types) ->
  (f < length (w_funcs w))%nat -> w_funcs w !! f ≫= f_guid = None ->
  exists w1 w2, on el types selector f false w = (w1, Ok tt) /\ remove depth el types (Some f) selector w1 = (w2, Ok tt) /\
    forall el' k, bound el' k w2 = bound el' k w.
Proof.
  intros w Hd Ht Hf Hg. assert (WF w) as Hw by (apply after_wf, new_world_wf).
  pose proof (add_stable el types f selector w Hw) as Hs. unfold on.
  destruct (add_run el types f selector w Hw) as (g & w0 & (G1 & G2 & G3 & G4 & G5 & G6) & E1). specialize (G5 Hg) as ->. specialize (G6 Hf).
  rewrite E1 in *. set (w0' := set_data _ w0) in *. set (sel := selector_of selector) in *. set (w1 := added_all _ _ _ _ _ _) in *. cbn [fst] in Hs.
  destruct (remove_sweeps depth el types (Some f) selector w1 Hs Hd Ht) as (w2 & E2 & _ & _ & H2). exists w1, w2. split; [done|]. split; [done|].
  assert (w_funcs w1 !! f ≫= f_guid = Some (w_guid w)) as Hf1.
  { unfold w1. rewrite added_all_funcs. unfold w0'. by destruct w0. }
  assert (forall el' k, bound el' k w0' = bound el' k w) as Hb by (intros; unfold bound, w0'; by rewrite touch_handlers, G4).
  assert (forall el' k h, h ∈ bound el' k w -> h_guid h <> w_guid w) as Hfresh.
  { intros el' k h Hh. apply bound_in_place in Hh as (_ & _ & _ & Hh & _); [|done]. lia. }
  intros el' k. rewrite H2. rewrite <- Hb, <- (filter_all (fun h => h_guid h <> w_guid w) (bound el' k w0'))
    by (apply Forall_forall; intros h Hh; rewrite Hb in Hh; by eapply Hfresh).
  rewrite <- (added_all_filter el f (w_guid w) sel (rev (tokens types)) el' k w0'). fold w1.
  destruct (decide (el' = el)) as [->|Hne].
  - apply filter_same. intros h Hh. cbn [fmap option_fmap option_map]. rewrite Hf1.
    apply added_all_elem in Hh as [Hh|(_ & t & Hin & Em)].
    + rewrite Hb in Hh. apply Hfresh in Hh. split; [done|]. intros _. apply not_true_is_false. unfold off_removes. rewrite existsb_exists. intros (t & _ & Hgone).
      unfold gone in Hgone. destruct (rtypenamespace t) as [[[|c ty] ns]|]; [| |done]; unfold removes in Hgone; rewrite ?andb_true_iff in Hgone;
        destruct Hgone as (((_ & Hgone) & _) & _) || destruct Hgone as (_ & (((_ & Hgone) & _) & _)); apply bool_decide_eq_true in Hgone; congruence.
    + rewrite (made_for_guid _ _ _ _ _ _ Em). split; [|done]. intros Hfalse. exfalso. apply not_true_iff_false in Hfalse. apply Hfalse.
      unfold off_removes. apply existsb_exists. exists t. split; [by rewrite <- in_rev, <- list_elem_of_In in Hin || (apply list_elem_of_In in Hin; by apply in_rev)|by eapply made_for_gone].
  - symmetry. apply filter_all. apply Forall_forall. intros h Hh. apply added_all_elem in Hh as [Hh|(? & _)]; [|done]. rewrite Hb in Hh. by eapply Hfresh.
Qed.

(** ** Instances *)

Lemma off_exact_witness : exists w', remove 5 3 (txt ".menu click") None None example_world = (w', Ok tt) /\ w_log w' = w_log example_world.
Proof.
  destruct (off_exact example_browser example_dom 9 example_finds 5 example_bodies 9 4 example_page 3 (txt ".menu click") None None) as (w' & E & H & _).
  - lia.
  - vm_compute. repeat first [apply List.Forall_nil|apply List.Forall_cons]; eexists; reflexivity.
  - exists w'. exact (conj E H).
Defined.

Lemma on_off_witness : exists w1 w2, on 3 (txt "click.menu keyup") None 3 false example_world = (w1, Ok tt) /\
  remove 5 3 (txt "click.menu keyup") (Some 3%nat) None w1 = (w2, Ok tt).
Proof.
  destruct (on_off example_browser example_dom 9 example_finds 5 example_bodies 9 4 example_page 3 (txt "click.menu keyup") 3 None) as (w1 & w2 & E1 & E2 & _).
  - lia.
  - vm_compute. repeat first [apply List.Forall_nil|apply List.Forall_cons]; eexists; reflexivity.
  - vm_compute. lia.
  - vm_compute. reflexivity.
  - exists w1, w2. exact (conj E1 E2).
Defined.

(** [off] of a type that ends with a dot: its words are read as without a type, and so are the words it is called again with, for
    ever. *)
Lemma dotted_off_overflows depth el guid selector : forall s mapped w, WF w -> events_of el w <> [] -> plain_name s -> spaceless s ->
  remove_ depth el (s ++ txt ".") guid selector mapped w = (w, Throw "RangeError: too much recursion").
Proof.
  induction depth as [|n IH]; intros s mapped w Hw He Hs1 Hs2; cbn [remove_]; [done|]. rewrite (sbind_run (sget _) _ w w _ eq_refl).
  destruct (w_data w !! el) as [evs|] eqn:Ed; [|exfalso; apply He; unfold events_of; by rewrite Ed].
  rewrite tokens_one; [|apply Forall_app; split; [done|by repeat constructor]|by destruct s]. cbn [rev app each].
  assert (rtypenamespace (s ++ txt ".") = None) as Hr.
  { unfold rtypenamespace. cbn zeta. change (txt ".") with ["."%char]. rewrite take_while_plain by done. by rewrite drop_app_length. }
  assert (remove_type (fun t => remove_ n el t guid selector true) el guid selector mapped (s ++ txt ".") w = (w, Throw "RangeError: too much recursion")) as E.
  { rewrite remove_type_run. unfold removes_at. rewrite Hr. destruct (events_of el w) as [|[k hs] evs'] eqn:Ee; [done|]. cbn [fmap list_fmap each fst].
    unfold sbind. rewrite app_assoc, IH; [done|done|by rewrite Ee|..].
    - apply Forall_app. split; [|done]. apply (key_plain el w k Hw). rewrite Ee. by left.
    - apply Forall_app. split; [|done]. apply (key_plain el w k Hw). rewrite Ee. by left. }
  unfold sbind at 1 2. by rewrite E.
Qed.

(** [off("focus")] leaves the delegated handlers of the event, which are those of focusin. *)
Lemma off_leaves_delegated_focus :
  let page := [HScript [AOn 1 (txt "focus") (Some (txt "li")) 0 false; AOn 1 (txt "click") (Some (txt "li")) 0 false; AOff 1 (txt "focus click") None None]] in
  let w := after example_dom 9 example_finds 5 example_bodies 9 page (new_world example_browser 4) in
  length (bound 1 (txt "focusin") w) = 1%nat /\ bound 1 (txt "click") w = [].
Proof. split; vm_compute; reflexivity. Qed.
