(* ===== verification/EventsOrder.v ===== *)
(** * jQuery: the order of handlers

    When handlers only look on or stop the event, [trigger] calls those of a reference, in its order. *)

From Stdlib Require Import ZArith Lia Ascii Sorting.Sorted.
From stdpp Require Import gmap.
From S2P Require Import Prelude JsString Callbacks Params Events EventsSpec EventsOff.

Local Open Scope Z_scope.

(** ** The order of handlers *)

(** Actions that only look on, or stop the event. *)
Definition quiet_action (a : action) : Prop := match a with APrevent | AStop | AStopImmediate | ANote _ => True | _ => False end.

(** The calls of handlers for an event. *)
Definition calls (e : nat) (l : list entry) : list (nat * handleObj) :=
  omap (fun x => match x with LCall e' el h => if decide (e' = e) then Some (el, h) else None | LNote _ => None end) l.

Section order.
Context (dom : list node) (window : nat) (finds : text -> nat -> nat -> bool) (depth : nat) (bodies : nat -> list action * option bool).

(** *** The reference *)

(** Whether an event is stopped, and immediately. *)
Definition act_effect (st : bool * bool) (a : action) : bool * bool :=
  match a with AStop => (true, st.2) | AStopImmediate => (true, true) | _ => st end.
Definition effect (f : nat) (st : bool * bool) : bool * bool :=
  let st := foldl act_effect st (bodies f).1 in
  match (bodies f).2 with Some false => (true, st.2) | _ => st end.

(** The calls of a group of handlers, until one stops the others. *)
Fixpoint group_calls (el : nat) (hs : list handleObj) (st : bool * bool) : list (nat * handleObj) * (bool * bool) :=
  match hs with
  | [] => ([], st)
  | h :: hs =>
      if st.2 then ([], st)
      else let '(l, st) := group_calls el hs (effect (h_handler h) st) in ((el, h) :: l, st)
  end.

(** The calls of groups, until one stops the groups after it. *)
Fixpoint groups_calls (gs : list (nat * list handleObj)) (st : bool * bool) : list (nat * handleObj) * (bool * bool) :=
  match gs with
  | [] => ([], st)
  | (el, hs) :: gs =>
      if st.1 then ([], st)
      else let '(l1, st) := group_calls el hs st in let '(l2, st) := groups_calls gs st in (l1 ++ l2, st)
  end.

(** The elements from one to the root of its tree. *)
Inductive climbs : nat -> list nat -> Prop :=
| climbs_root el : (dom !! el ≫= n_parent) = None -> climbs el [el]
| climbs_up el p l : (dom !! el ≫= n_parent) = Some p -> climbs p l -> climbs el (el :: l).

(** Types that are handled as others: always, and when the handlers are delegated or of elements above. *)
Definition over_types : list (string * string) :=
  [("mouseenter", "mouseover"); ("mouseleave", "mouseout"); ("pointerenter", "pointerover"); ("pointerleave", "pointerout")]%string.
Definition focus_types : list (string * string) := [("focus", "focusin"); ("blur", "focusout")]%string.
Definition renamed (l : list (string * string)) (type : text) : text :=
  foldr (fun p rest => if decide (txt p.1 = type) then txt p.2 else rest) type l.

(** The elements an event on [el] comes to, with the type of their handlers: [el]; then, if it goes up, those above it, and the window
    above a document.  Handlers of focus and blur of elements above are of focusin and focusout, and so may be others of [el]. *)
Definition visited (up : list nat) (el : nat) (type : text) (onlyHandlers : bool) : list (nat * text) :=
  (el, renamed over_types type) ::
  if onlyHandlers || bool_decide (type = txt "load") || bool_decide (kind_of dom el = Window) then []
  else (fun cur => (cur, renamed (over_types ++ focus_types) type)) <$>
    (if decide (type ∈ txt <$> ["focus"; "blur"]%string) then up else tail up) ++ (if decide (kind_of dom (List.last up el) = Document) then [window] else []).

(** What a disabled element does not get. *)
Definition hears (type : text) (cur : nat) : bool :=
  match dom !! cur with
  | Some d => bool_decide (n_kind d = Element /\ ~ (type = txt "click" /\ n_disabled d = true))
  | None => false
  end.

Fixpoint before (this : nat) (l : list nat) : list nat :=
  match l with [] => [] | x :: l => if decide (x = this) then [] else x :: before this l end.

Definition selected (this cur : nat) (h : handleObj) : bool :=
  match h_selector h with Some s => finds s this cur | None => false end.

(** Of the handlers [l] of an element, those an event concerns whose target has the elements [up] above it: for each element of [up] before
    this one, the delegated handlers whose selector finds it; then those that are not delegated. *)
Definition heard (up : list nat) (target this : nat) (type : text) (l : list handleObj) : list (nat * list handleObj) :=
  (if decide (kind_of dom target = Element \/ kind_of dom target = Document) then
     (fun cur => (cur, filter (fun h => selected this cur h = true) l)) <$> filter (fun cur => hears type cur = true) (before this up)
   else []) ++ [(this, filter (fun h => h_selector h = None) l)].

(** The type and the namespaces asked for: a dot at the end asks for none. *)
Definition asked (t : text) : text * list text :=
  match split_on "."%char t with
  | [] => ([], [])
  | type :: names => (type, if decide (names = [[]]) then [] else names)
  end.

Definition reference (up : list nat) (el : nat) (t : text) (onlyHandlers : bool) (w : world) : list (nat * list handleObj) :=
  let '(type, names) := asked t in
  (fun g => (g.1, filter (fun h => names ⊆+ split_on "."%char (h_namespace h)) g.2)) <$>
    (visited up el type onlyHandlers ≫= fun s => heard up el s.1 s.2 (bound s.1 s.2 w)).

(** *** What the library goes through *)

(** The handlers of a list that an event on [target] concerns: for each element below, from the target up, the delegated ones
    whose selector finds it, then the others. *)
Definition clickable (ty : text) (cur : nat) : bool :=
  bool_decide (kind_of dom cur = Element) && (negb (default false (n_disabled <$> dom !! cur)) || negb (bool_decide (ty = txt "click"))).

Definition concerned (target this : nat) (ty : text) (l : list handleObj) : list (nat * list handleObj) :=
  (if bool_decide (kind_of dom target = Element \/ kind_of dom target = Document) then
     (fun cur => (cur, filter (fun h => selects finds this cur h = true /\ delegated h = true) l)) <$> filter (fun cur => clickable ty cur = true) (below dom this target)
   else []) ++ [(this, filter (fun h => delegated h = false) l)].

(** The elements that [trigger] goes through, with the type of their handlers. *)
Definition stops (el : nat) (type : text) (onlyHandlers : bool) : list (nat * text) :=
  (el, default type (sp_bindType (special type))) ::
  ((fun cur => (cur, default type (sp_delegateType (special type)))) <$> event_path dom window el type onlyHandlers).

Definition with_names (names : list text) (g : nat * list handleObj) : nat * list handleObj := (g.1, filter (fun h => names_match names h = true) g.2).

Definition trigger_groups (el : nat) (t : text) (onlyHandlers : bool) (w : world) : list (nat * list handleObj) :=
  let '(type, names) := triggered_type t in
  with_names names <$> (stops el type onlyHandlers ≫= (fun s => concerned el s.1 s.2 (bound s.1 s.2 w))).

(** *** The program *)

Context (Hquiet : forall f, Forall quiet_action (bodies f).1).
Context (e : nat) (d : gmap nat (list (text * handlers_))) (fs : list func) (target : nat) (names : list text).
Context (Honce : forall f, fs !! f ≫= f_once = None).

(** While an event is dispatched: nothing changes but the event and the log. *)
Definition during (st : bool * bool) (cl : list (nat * handleObj)) (w : world) : Prop :=
  w_data w = d /\ w_funcs w = fs /\ calls e (w_log w) = cl /\
  exists ev, w_events w !! e = Some ev /\ e_target ev = target /\ e_namespaces ev = names /\ e_button ev = 0 /\ e_related ev = None /\
    (e_stopped ev, e_immediate ev) = st.

Ltac event_same := intros []; split_and!; try done; by intros <-.

Lemma during_on f st st' cl w : during st cl w ->
  (forall ev, e_target (f ev) = e_target ev /\ e_namespaces (f ev) = e_namespaces ev /\ e_button (f ev) = e_button ev /\ e_related (f ev) = e_related ev /\
     ((e_stopped ev, e_immediate ev) = st -> (e_stopped (f ev), e_immediate (f ev)) = st')) ->
  during st' cl (on_event e f w).
Proof.
  intros (H1 & H2 & H3 & ev & H4 & H5 & H6 & H7 & H8 & H9) Hf. destruct (Hf ev) as (F1 & F2 & F3 & F4 & F5). destruct w as [fs' g d' l evs o]. cbn in *.
  split; [done|]. split; [done|]. split; [done|]. exists (f ev). cbn. rewrite list_lookup_alter_eq, H4. split; [done|]. split_and!; [congruence..|by apply F5].
Qed.

Lemma during_note st cl n w : during st cl w -> during st cl (write (LNote n) w).
Proof.
  intros (H1 & H2 & H3 & H4). destruct w. cbn in *. split; [done|]. split; [done|]. split; [|done]. unfold calls in *.
  cbn. rewrite omap_app. cbn. by rewrite app_nil_r.
Qed.

Lemma during_call st cl el h w : during st cl w -> during st (cl ++ [(el, h)]) (write (LCall e el h) w).
Proof.
  intros (H1 & H2 & H3 & H4). destruct w. cbn in *. split; [done|]. split; [done|]. split; [|done]. unfold calls in *.
  cbn. rewrite omap_app, H3. cbn. by rewrite decide_True.
Qed.

Lemma act_during go st cl a : quiet_action a -> hoare (during st cl) (act depth go (Some e) a) (fun _ => during (act_effect st a) cl).
Proof.
  intros Ha. destruct a; try done; cbn [act act_effect]; apply hoare_modify; intros w Hw;
    [|..|by apply during_note]; (eapply during_on; [done|]; event_same).
Qed.

Lemma script_during go l : forall st cl, Forall quiet_action l ->
  hoare (during st cl) (run_script depth go (Some e) l) (fun _ => during (foldl act_effect st l) cl).
Proof.
  unfold run_script. induction l as [|a l IH]; intros st cl Hl; cbn [each foldl]; [by apply hoare_ret|].
  apply Forall_cons in Hl as [Ha Hl]. eapply hoare_bind; [by apply act_during|]. intros u. by apply IH.
Qed.

Lemma apply_during go f st cl :
  hoare (during st cl) (apply depth bodies go f e) (fun r w => r = (bodies f).2 /\ during (foldl act_effect st (bodies f).1) cl w).
Proof.
  intros w Hw. unfold apply. rewrite (sbind_run (sget _) _ w w _ eq_refl). pose proof Hw as (_ & -> & _). rewrite Honce.
  specialize (Hquiet f). destruct (bodies f) as [l r]. destruct (script_during go l st cl Hquiet w Hw) as (w' & [] & E & H).
  rewrite (sbind_run _ _ _ _ _ E). by exists w', r.
Qed.

Section library.
Context (go : call -> st_ex world (option bool)).
Context (Hgo : forall f st cl, hoare (during st cl) (go (CFun f e)) (fun r w => r = (bodies f).2 /\ during (foldl act_effect st (bodies f).1) cl w)).

Lemma call_handler_during el h st cl :
  hoare (during st cl) (call_handler dom go e el h) (fun r w => r = (bodies (h_handler h)).2 /\ during (foldl act_effect st (bodies (h_handler h)).1) cl w).
Proof.
  intros w Hw. unfold call_handler. destruct (sp_enter _); [|by apply Hgo].
  rewrite (sbind_run (sget _) _ w w _ eq_refl). pose proof Hw as (_ & _ & _ & ev & Ee & _ & _ & _ & Hr & _). rewrite Ee. cbn [mbind option_bind]. rewrite Hr.
  rewrite (sbind_run (smodify _) _ w _ tt eq_refl).
  destruct (Hgo (h_handler h) st cl (on_event e (set_type (h_origType h)) w)) as (w1 & r & E1 & -> & H1).
  { eapply during_on; [done|]. event_same. }
  rewrite (sbind_run _ _ _ _ _ E1), (sbind_run (smodify _) _ w1 _ tt eq_refl). eexists _, _. split; [done|]. split; [done|].
  eapply during_on; [done|]. event_same.
Qed.

Lemma returned_during f st cl : hoare (during (foldl act_effect st (bodies f).1) cl) (returned e (bodies f).2) (fun _ => during (effect f st) cl).
Proof.
  unfold effect. destruct (bodies f).2 as [[]|]; cbn [returned negb swhen]; [| |by apply hoare_ret].
  - apply (hoare_bind _ _ (fun _ => during (foldl act_effect st (bodies f).1) cl)); [|intros u; by apply hoare_ret].
    apply hoare_modify. intros w Hw. eapply during_on; [done|]. event_same.
  - apply (hoare_bind _ _ (fun _ => during (foldl act_effect st (bodies f).1) cl)).
    + apply hoare_modify. intros w Hw. eapply during_on; [done|]. event_same.
    + intros u. apply hoare_modify. intros w Hw. eapply during_on; [done|]. event_same.
Qed.

Lemma run_handlers_during el hs : forall st cl,
  let r := group_calls el (filter (fun h => names_match names h = true) hs) st in
  hoare (during st cl) (run_handlers dom go e el hs) (fun _ => during r.2 (cl ++ r.1)).
Proof.
  induction hs as [|h hs IH]; intros st cl.
  - cbn. rewrite app_nil_r. by apply hoare_ret.
  - intros r w Hw. subst r. cbn [run_handlers]. rewrite (sbind_run (sget _) _ w w _ eq_refl). pose proof Hw as (_ & _ & _ & ev & Ee & _ & Hn & _ & _ & Hst).
    unfold event_is at 1. rewrite Ee. cbn [fmap option_fmap option_map from_option Datatypes.id]. assert (e_immediate ev = st.2) as -> by (by rewrite <- Hst).
    destruct (st.2) eqn:Ei.
    + exists w, tt. split; [done|]. clear -Hw Ei. revert Hw. generalize (filter (fun h => names_match names h = true) (h :: hs)). intros [|h' l] Hw; cbn; [by rewrite app_nil_r|].
      rewrite Ei. cbn. by rewrite app_nil_r.
    + cbn beta iota. rewrite (sbind_run (sget _) _ w w _ eq_refl), Ee. cbn [fmap option_fmap option_map from_option Datatypes.id]. rewrite Hn, filter_cons.
      destruct (names_match names h) eqn:Em.
      * rewrite decide_True by done. cbn [group_calls swhen]. rewrite Ei.
        pose proof (IH (effect (h_handler h) st) (cl ++ [(el, h)])) as H. cbn zeta in H. destruct (group_calls el _ _) as [l st']. cbn [fst snd] in *.
        rewrite <- app_assoc in H. cbn [app] in H. revert w Hw Ee. intros w Hw _. revert w Hw.
        refine (_ : hoare (during st cl) _ _). eapply hoare_bind; [|intros u; exact H].
        apply (hoare_bind _ _ (fun _ => during st cl)); [apply hoare_modify; intros w Hw; eapply during_on; [done|]; event_same|intros u1].
        apply (hoare_bind _ _ (fun _ => during st (cl ++ [(el, h)]))); [apply hoare_modify; intros w Hw; by apply during_call|intros u2].
        eapply hoare_bind; [apply call_handler_during|]. intros r' w' [-> Hw']. revert w' Hw'. apply returned_during.
      * rewrite decide_False by done. cbn [swhen]. rewrite (sbind_run (sret tt) _ w w tt eq_refl). by apply IH.
Qed.

Lemma run_queue_during q : forall st cl,
  let r := groups_calls (with_names names <$> q) st in
  hoare (during st cl) (run_queue dom go e q) (fun _ => during r.2 (cl ++ r.1)).
Proof.
  induction q as [|[el hs] q IH]; intros st cl.
  - cbn. rewrite app_nil_r. by apply hoare_ret.
  - intros r w Hw. subst r. cbn [run_queue]. rewrite (sbind_run (sget _) _ w w _ eq_refl). pose proof Hw as (_ & _ & _ & ev & Ee & _ & _ & _ & _ & Hst).
    unfold event_is at 1. rewrite Ee. cbn [fmap option_fmap option_map from_option Datatypes.id]. assert (e_stopped ev = st.1) as -> by (by rewrite <- Hst).
    rewrite fmap_cons. unfold with_names at 1 3. cbn [groups_calls fst snd]. destruct (st.1) eqn:Es.
    + exists w, tt. split; [done|]. cbn. by rewrite app_nil_r.
    + pose proof (run_handlers_during el hs st cl) as H1. cbn zeta in H1. destruct (group_calls el _ st) as [l1 st1].
      pose proof (IH st1 (cl ++ l1)) as H2. cbn zeta in H2. destruct (groups_calls _ st1) as [l2 st2]. cbn [fst snd] in *.
      rewrite <- app_assoc in H2. clear ev Ee Hst. revert w Hw. refine (_ : hoare _ _ _). eapply hoare_bind; [exact H1|]. intros u. exact H2.
Qed.

End library.

Lemma groups_calls_stopped gs st : st.1 = true -> groups_calls gs st = ([], st).
Proof. intros Hs. destruct gs as [|[el hs] gs]; cbn; [done|]. by rewrite Hs. Qed.

Lemma groups_calls_app gs1 gs2 : forall st,
  groups_calls (gs1 ++ gs2) st = (let '(l1, st1) := groups_calls gs1 st in let '(l2, st2) := groups_calls gs2 st1 in (l1 ++ l2, st2)).
Proof.
  induction gs1 as [|[el hs] gs1 IH]; intros st; cbn [app groups_calls]; [by destruct (groups_calls gs2 st)|].
  destruct (st.1) eqn:Es; [by rewrite groups_calls_stopped|]. destruct (group_calls el hs st) as [l st1]. rewrite IH.
  destruct (groups_calls gs1 st1) as [l1 st2]. destruct (groups_calls gs2 st2) as [l2 st3]. by rewrite app_assoc.
Qed.

(** Groups without handlers change nothing. *)
Definition inhabited_group (g : nat * list handleObj) : Prop := g.2 <> [].

Lemma groups_calls_inhabited gs : forall st,
  groups_calls (with_names names <$> filter inhabited_group gs) st = groups_calls (with_names names <$> gs) st.
Proof.
  induction gs as [|[el hs] gs IH]; intros st; [done|]. rewrite filter_cons. destruct (decide (inhabited_group (el, hs))) as [Hi|Hi].
  - rewrite !fmap_cons. cbn [groups_calls with_names fst snd]. destruct (st.1); [done|]. destruct (group_calls el _ st). by rewrite IH.
  - apply dec_stable in Hi. cbn in Hi. subst. rewrite IH, fmap_cons. cbn. destruct (st.1) eqn:Es; [by apply groups_calls_stopped|].
    by destruct (groups_calls _ st).
Qed.

Lemma front_filters hs : in_front hs -> take (Z.to_nat (delegateCount hs)) (hs_list hs) = filter (fun h => delegated h = true) (hs_list hs) /\
  drop (Z.to_nat (delegateCount hs)) (hs_list hs) = filter (fun h => delegated h = false) (hs_list hs).
Proof.
  intros (ds & us & -> & Hd & Hu & ->). rewrite Nat2Z.id, take_app_length, drop_app_length, !filter_app.
  rewrite (filter_all _ ds Hd), (filter_all _ us Hu). rewrite (filter_none _ us), (filter_none _ ds).
  - by rewrite app_nil_r.
  - eapply Forall_impl; [exact Hd|]. intros h ->. done.
  - eapply Forall_impl; [exact Hu|]. intros h ->. done.
Qed.

Lemma omap_groups (c : nat -> bool) (F : nat -> list handleObj) (l : list nat) :
  omap (fun cur => if c cur then match F cur with [] => None | hs => Some (cur, hs) end else None) l =
  filter inhabited_group ((fun cur => (cur, F cur)) <$> filter (fun cur => c cur = true) l).
Proof.
  induction l as [|x l IH]; [done|]. cbn [omap list_omap]. rewrite filter_cons. destruct (c x); cbn [decide].
  - rewrite decide_True by done. rewrite fmap_cons, filter_cons. destruct (F x) as [|h hs] eqn:Ef.
    + rewrite decide_False by (unfold inhabited_group; cbn; tauto). exact IH.
    + rewrite decide_True by done. by rewrite <- IH.
  - rewrite decide_False by done. exact IH.
Qed.

(** [jQuery.event.handlers] gives the groups of the reference. *)
Lemma handlers_concerned ev this hs : in_front hs -> e_button ev = 0 ->
  handlers dom finds ev this hs = filter inhabited_group (concerned (e_target ev) this (e_type ev) (hs_list hs)).
Proof.
  intros Hf Hb. destruct (front_filters hs Hf) as [Ht Hd]. unfold handlers, concerned. rewrite Ht, Hd, Hb, filter_app. f_equal.
  - set (click := bool_decide (e_type ev = txt "click")). cbn [Z.eqb orb]. rewrite andb_true_r.
    set (kind := bool_decide (kind_of dom (e_target ev) = Element \/ _)). destruct kind; [|by rewrite andb_false_r].
    rewrite andb_true_r. etransitivity; [|apply (omap_groups (clickable (e_type ev)) (fun cur => filter (fun h => selects finds this cur h = true /\ delegated h = true) (hs_list hs)))].
    destruct (Z.eqb_spec (delegateCount hs) 0) as [Hz|Hz]; cbn [negb].
    + symmetry. assert (filter (fun h => delegated h = true) (hs_list hs) = []) as Hn by (rewrite <- Ht, Hz; done).
      induction (below dom this (e_target ev)) as [|x l IH]; [done|]. cbn [omap list_omap].
      assert (filter (fun h => selects finds this x h = true /\ delegated h = true) (hs_list hs) = []) as ->; [|by destruct (clickable _ x)].
      rewrite <- (list_filter_filter (fun h => selects finds this x h = true) (fun h => delegated h = true)). by rewrite Hn.
    + induction (below dom this (e_target ev)) as [|x l IH]; [done|]. cbn [omap list_omap]. rewrite IH. unfold matching.
      by rewrite (list_filter_filter (fun h => selects finds this x h = true) (fun h => delegated h = true)).
  - rewrite filter_cons. pose proof Hf as (ds & us & El & Hds & Hus & Hn). rewrite <- Hd. rewrite Hn, Nat2Z.id, El, drop_app_length, length_app.
    destruct us as [|u us].
    + rewrite (proj2 (Z.ltb_ge _ _)) by (cbn; lia). by rewrite decide_False by (unfold inhabited_group; cbn; tauto).
    + rewrite (proj2 (Z.ltb_lt _ _)) by (cbn; lia). by rewrite decide_True.
Qed.

Lemma concerned_nil this ty st : groups_calls (with_names names <$> concerned target this ty []) st = ([], st).
Proof.
  rewrite <- groups_calls_inhabited. unfold concerned. rewrite filter_app, (filter_none inhabited_group [_]) by (apply Forall_singleton; unfold inhabited_group; cbn; tauto).
  rewrite app_nil_r. destruct (bool_decide _); [|done]. rewrite filter_none; [done|]. apply Forall_fmap, Forall_forall. intros x _ H. by apply H.
Qed.

Section path.
Context (go : call -> st_ex world (option bool)).
Context (Hgo : forall f st cl, hoare (during st cl) (go (CFun f e)) (fun r w => r = (bodies f).2 /\ during (foldl act_effect st (bodies f).1) cl w)).
Context (Hfront : forall el k hs, assoc_get k (default [] (d !! el)) = Some hs -> in_front hs).

Definition listed (el : nat) (k : text) : list handleObj := from_option hs_list [] (assoc_get k (default [] (d !! el))).
Definition calls_at (s : nat * text) : list (nat * list handleObj) := with_names names <$> concerned target s.1 s.2 (listed s.1 s.2).

Lemma dispatch_during this ty hs st cl w : during st cl w -> assoc_get ty (default [] (d !! this)) = Some hs ->
  (exists ev, w_events w !! e = Some ev /\ e_type ev = ty) ->
  exists w', dispatch dom finds go e this w = (w', Ok tt) /\
    (let r := groups_calls (calls_at (this, ty)) st in during r.2 (cl ++ r.1) w').
Proof.
  intros Hw Hhs (ev & Ee & Et). unfold dispatch. rewrite (sbind_run (smodify _) _ w _ tt eq_refl).
  set (w1 := on_event e (set_delegateTarget this) w). assert (during st cl w1) as Hw1 by (eapply during_on; [done|]; event_same).
  assert (exists ev1, w_events w1 !! e = Some ev1 /\ e_type ev1 = ty) as (ev1 & Ee1 & Et1).
  { exists (set_delegateTarget this ev). unfold w1. destruct w. cbn in *. rewrite list_lookup_alter_eq, Ee. by destruct ev. }
  rewrite (sbind_run (sget _) _ w1 w1 _ eq_refl), Ee1. pose proof Hw1 as (Hd & _ & _ & ev2 & Ee2 & Htg & _ & Hb & _).
  assert (ev2 = ev1) as -> by congruence. rewrite handlers_of_get. unfold events_of. rewrite Hd, Et1, Hhs. cbn [from_option Datatypes.id].
  destruct (run_queue_during go Hgo (handlers dom finds ev1 this hs) st cl w1 Hw1) as (w2 & [] & E2 & H2).
  exists w2. split; [done|]. cbn zeta in H2 |- *. rewrite handlers_concerned, groups_calls_inhabited in H2 by (done || by eapply Hfront).
  unfold calls_at, listed. cbn [fst snd]. rewrite Hhs. cbn [from_option]. by rewrite Htg, Et1 in H2.
Qed.

Lemma fire_at_during s st cl :
  hoare (during st cl) (fire_at dom finds go e s.1 s.2) (fun _ => let r := groups_calls (calls_at s) st in during r.2 (cl ++ r.1)).
Proof.
  destruct s as [cur ty]. cbn [fst snd]. intros w Hw. unfold fire_at. rewrite (sbind_run (sget _) _ w w _ eq_refl).
  pose proof Hw as (_ & _ & _ & ev & Ee & _ & _ & _ & _ & Hst). unfold event_is. rewrite Ee. cbn [fmap option_fmap option_map from_option Datatypes.id].
  assert (e_stopped ev = st.1) as -> by (by rewrite <- Hst). destruct (st.1) eqn:Es; cbn [negb swhen].
  - exists w, tt. split; [done|]. rewrite groups_calls_stopped by done. cbn. by rewrite app_nil_r.
  - rewrite (sbind_run (smodify _) _ w _ tt eq_refl). set (w1 := on_event e (set_type ty) w).
    assert (during st cl w1) as Hw1 by (eapply during_on; [done|]; event_same).
    rewrite (sbind_run (sget _) _ w1 w1 _ eq_refl). pose proof Hw1 as (Hd & _). rewrite handlers_of_get. unfold events_of. rewrite Hd.
    destruct (assoc_get ty (default [] (d !! cur))) as [hs|] eqn:Eh.
    + rewrite bool_decide_eq_true_2 by (by eexists). cbn [swhen].
      destruct (dispatch_during cur ty hs st cl w1 Hw1 Eh) as (w2 & E2 & H2); [|by exists w2, tt].
      exists (set_type ty ev). unfold w1. destruct w. cbn in *. rewrite list_lookup_alter_eq, Ee. by destruct ev.
    + rewrite bool_decide_eq_false_2 by (by intros []). exists w1, tt. split; [done|]. unfold calls_at, listed. cbn [fst snd]. rewrite Eh.
      cbn [from_option]. rewrite concerned_nil. cbn. by rewrite app_nil_r.
Qed.

Lemma path_during ty curs : forall st cl,
  hoare (during st cl) (each (fun cur => fire_at dom finds go e cur ty) curs)
    (fun _ => let r := groups_calls (curs ≫= (fun cur => calls_at (cur, ty))) st in during r.2 (cl ++ r.1)).
Proof.
  induction curs as [|cur curs IH]; intros st cl; cbn [each mbind list_bind]; [cbn; rewrite app_nil_r; by apply hoare_ret|].
  rewrite groups_calls_app. pose proof (fire_at_during (cur, ty) st cl) as H1. cbn zeta in H1. destruct (groups_calls (calls_at (cur, ty)) st) as [l1 st1].
  pose proof (IH st1 (cl ++ l1)) as H2. cbn zeta in H2. destruct (groups_calls _ st1) as [l2 st2]. cbn [fst snd] in *. rewrite <- app_assoc in H2.
  eapply hoare_bind; [exact H1|]. intros u. exact H2.
Qed.

End path.

End order.

(** [trigger] calls the handlers of what it goes through. *)
Lemma trigger_runs dom window finds depth bodies el t onlyHandlers k w :
  (forall f, Forall quiet_action (bodies f).1) -> WF w -> (forall f, w_funcs w !! f ≫= f_once = None) ->
  exists w' r, exec dom window finds depth bodies (S (S k)) (CTrigger el t onlyHandlers) w = (w', Ok r) /\ w_data w' = w_data w /\
    let e := length (w_events w) in
    calls e (w_log w') = calls e (w_log w) ++ (groups_calls bodies (trigger_groups dom window finds el t onlyHandlers w) (false, false)).1.
Proof.
  intros Hquiet Hw Honce. cbn [exec perform]. unfold trigger, trigger_groups.
  destruct (triggered_type t) as [type names]. rewrite (sbind_run (sget _) _ w w _ eq_refl), (sbind_run (smodify _) _ w _ tt eq_refl).
  set (e := length (w_events w)). set (w1 := set_events _ w).
  assert (during e (w_data w) (w_funcs w) el names (false, false) (calls e (w_log w)) w1) as Hw1.
  { unfold w1. split; [by destruct w|]. split; [by destruct w|]. split; [by destruct w|]. exists (new_event type el names 0 None false).
    split; [|done]. destruct w. by apply list_lookup_middle. }
  assert (forall el k hs, assoc_get k (default [] (w_data w !! el)) = Some hs -> in_front hs) as Hfront
    by (intros el' k' hs' E; by apply (wf_handlers w Hw el' k' hs')).
  assert (forall f st cl, hoare (during e (w_data w) (w_funcs w) el names st cl) (exec dom window finds depth bodies (S k) (CFun f e))
    (fun r w2 => r = (bodies f).2 /\ during e (w_data w) (w_funcs w) el names (foldl act_effect st (bodies f).1) cl w2)) as Hgo
    by (intros; by apply apply_during).
  set (ty := default type (sp_bindType (special type))). set (bubble := default type (sp_delegateType (special type))).
  destruct (fire_at_during dom window finds bodies e _ _ el names _ Hgo Hfront (el, ty) (false, false) _ w1 Hw1) as (w2 & [] & E2 & H2).
  unfold stops. cbn [mbind list_bind]. fold ty bubble. rewrite fmap_app, groups_calls_app. unfold calls_at in H2. cbn [fst snd] in H2, E2 |- *.
  change (listed (w_data w) el ty) with (bound el ty w) in H2.
  destruct (groups_calls bodies _ (false, false)) as [l1 st1]. cbn [fst snd] in H2.
  destruct (path_during dom window finds bodies e _ _ el names _ Hgo Hfront bubble (event_path dom window el type onlyHandlers) st1 _ w2 H2) as (w3 & [] & E3 & H3).
  assert (trigger_event dom window finds (exec dom window finds depth bodies (S k)) e el type onlyHandlers w1 = (on_event e (set_type type) w3, Ok tt)) as E4.
  { unfold trigger_event. fold ty bubble. by rewrite (sbind_run _ _ _ _ _ E2), (sbind_run _ _ _ _ _ E3). }
  rewrite (sbind_run _ _ _ _ _ E4). eexists _, _. split; [reflexivity|].
  destruct H3 as (D3 & _ & L3 & _). split; [by destruct w3|]. cbn zeta.
  replace (w_log (on_event e (set_type type) w3)) with (w_log w3) by (by destruct w3). rewrite L3, <- app_assoc.
  assert (forall l : list nat, (l ≫= fun cur => calls_at dom finds (w_data w) el names (cur, bubble)) =
    with_names names <$> (((fun cur => (cur, bubble)) <$> l) ≫= fun s => concerned dom finds el s.1 s.2 (bound s.1 s.2 w))) as Hc.
  { intros l. induction l as [|x l IH]; [done|]. rewrite fmap_cons. cbn [mbind list_bind]. rewrite fmap_app, <- IH. done. }
  rewrite Hc. clear. by destruct (groups_calls bodies _ st1).
Qed.

(** ** The library goes through the reference *)

Section reference.
Context (dom : list node) (window : nat) (finds : text -> nat -> nat -> bool).
Context (Hdom : forall el p, (dom !! el ≫= n_parent) = Some p -> (p < el)%nat).

Lemma lineage_climbs el up : climbs dom el up -> forall n, (el < n)%nat -> lineage dom n el = up.
Proof.
  induction 1 as [el E|el p l E _ IH]; intros [|n] Hn; try lia; cbn [lineage]; unfold parent; rewrite E; [done|].
  rewrite IH; [done|]. apply Hdom in E. lia.
Qed.

Lemma ancestors_climbs el up : climbs dom el up -> ancestors dom el = up.
Proof. intros H. apply lineage_climbs; [done|lia]. Qed.

Lemma climbs_head el up : climbs dom el up -> exists l, up = el :: l /\ match parent dom el with Some p => ancestors dom p = l | None => l = [] end.
Proof.
  intros H. unfold parent. inversion H as [? E|? p l E Hl]; subst; rewrite E; [by exists []|]. exists l. split; [done|]. by apply ancestors_climbs.
Qed.

Lemma bind_renamed type : default type (sp_bindType (special type)) = renamed over_types type.
Proof.
  apply (special_case (fun type => default type (sp_bindType (special type)) = renamed over_types type)).
  - repeat first [apply List.Forall_nil|apply List.Forall_cons; [vm_compute; reflexivity|]].
  - intros E. rewrite E. cbn. repeat case_decide; try done; subst type; vm_compute in E; discriminate E.
Qed.

Lemma delegate_renamed type : default type (sp_delegateType (special type)) = renamed (over_types ++ focus_types) type.
Proof.
  apply (special_case (fun type => default type (sp_delegateType (special type)) = renamed (over_types ++ focus_types) type)).
  - repeat first [apply List.Forall_nil|apply List.Forall_cons; [vm_compute; reflexivity|]].
  - intros E. rewrite E. cbn. repeat case_decide; try done; subst type; vm_compute in E; discriminate E.
Qed.

Lemma noBubble_load type : sp_noBubble (special type) = bool_decide (type = txt "load").
Proof.
  apply eq_bool_prop_intro. rewrite Is_true_true, bool_decide_spec.
  apply (special_case (fun type => sp_noBubble (special type) = true <-> type = txt "load")).
  - repeat first [apply List.Forall_nil|apply List.Forall_cons; [apply (bool_decide_unpack _); vm_compute; exact I|]].
  - intros E. rewrite E. cbn. split; [done|]. intros ->. vm_compute in E. discriminate E.
Qed.

(** Where [rfocusMorph] finds the type and what it is delegated as. *)
Lemma morphs type : default type (sp_delegateType (special type)) ++ type = txt "focusinfocus" \/
    default type (sp_delegateType (special type)) ++ type = txt "focusoutblur" <-> type ∈ txt <$> ["focus"; "blur"]%string.
Proof.
  apply (special_case (fun type => default type (sp_delegateType (special type)) ++ type = txt "focusinfocus" \/
    default type (sp_delegateType (special type)) ++ type = txt "focusoutblur" <-> type ∈ txt <$> ["focus"; "blur"]%string)).
  - repeat first [apply List.Forall_nil|apply List.Forall_cons; [apply (bool_decide_unpack _); vm_compute; exact I|]].
  - intros E. rewrite E. cbn [sp_delegateType from_option Datatypes.id]. split.
    + intros H. exfalso. assert (length (type ++ type) = 12%nat) as Hl by (by destruct H as [->| ->]). rewrite length_app in Hl.
      assert (take 6 (type ++ type) = drop 6 (type ++ type)) as Ht.
      { rewrite take_app_length', drop_app_length' by lia. done. }
      destruct H as [H|H]; rewrite H in Ht; by vm_compute in Ht.
    + intros Ho. exfalso. apply list_elem_of_fmap in Ho as (s & -> & Hs). apply elem_of_cons in Hs as [->|Hs]; [by vm_compute in E|].
      apply list_elem_of_singleton in Hs as ->. by vm_compute in E.
Qed.

Lemma stops_visited up el type onlyHandlers : climbs dom el up -> stops dom window el type onlyHandlers = visited dom window up el type onlyHandlers.
Proof.
  intros Hup. unfold stops, visited, event_path. rewrite bind_renamed, <- delegate_renamed, noBubble_load. f_equal.
  destruct (onlyHandlers || _ || _); [done|]. f_equal. unfold bubbles. rewrite (ancestors_climbs el up Hup).
  destruct (climbs_head el up Hup) as (l & -> & Hp). cbn [tail].
  assert (match parent dom el with Some p => ancestors dom p | None => [] end = l) as -> by (by destruct (parent dom el)).
  destruct (decide (type ∈ _)) as [Hm|Hm].
  - rewrite bool_decide_eq_true_2 by by apply morphs. f_equal; case_bool_decide; case_decide; done.
  - rewrite bool_decide_eq_false_2 by by rewrite morphs. assert (List.last (el :: l) el = List.last l el) as -> by by destruct l.
    f_equal; case_bool_decide; case_decide; done.
Qed.

Lemma clickable_hears type cur : clickable dom type cur = hears dom type cur.
Proof.
  unfold clickable, hears, kind_of. destruct (dom !! cur) as [d|]; cbn; [|done]. apply eq_bool_prop_intro.
  rewrite !Is_true_true, andb_true_iff, orb_true_iff, !negb_true_iff, !bool_decide_eq_true, bool_decide_eq_false, not_and_l, not_true_iff_false. tauto.
Qed.

Lemma concerned_heard up target this type l : climbs dom target up -> concerned dom finds target this type l = heard dom finds up target this type l.
Proof.
  intros Hup. unfold concerned, heard. f_equal.
  - rewrite <- (ancestors_climbs target up Hup). assert (below dom this target = before this (ancestors dom target)) as ->.
    { unfold below. induction (ancestors dom target) as [|x a IH]; cbn; [done|]. destruct (decide (x = this)); [done|]. by rewrite IH. }
    assert (filter (fun cur => clickable dom type cur = true) (before this (ancestors dom target)) =
      filter (fun cur => hears dom type cur = true) (before this (ancestors dom target))) as -> by (apply list_filter_iff; intros cur; by rewrite clickable_hears).
    case_bool_decide; rewrite ?decide_True, ?decide_False by done; [|done]. apply list_fmap_ext. intros _ cur _. f_equal.
    apply list_filter_iff. intros h. unfold selects, selected, delegated. destruct (h_selector h); [|naive_solver]. rewrite bool_decide_eq_true_2 by by eexists. tauto.
  - do 2 f_equal. apply list_filter_iff. intros h. unfold delegated. rewrite bool_decide_eq_false. by rewrite <- eq_None_not_Some.
Qed.

Lemma joined_nil names : joined names = [] -> names = [] \/ names = [[]].
Proof. destruct names as [|n [|m names]]; [by left|intros E; right; by rewrite <- E|]. rewrite joined_cons. intros E. by apply app_eq_nil in E as [_ ?]. Qed.

(** The names that [trigger] asks for. *)
Lemma asked_names t m k h : in_place m k h ->
  names_match (triggered_type t).2 h = bool_decide ((asked t).2 ⊆+ split_on "."%char (h_namespace h)).
Proof.
  intros Hh. unfold triggered_type, asked. pose proof (split_plain t) as Hp. destruct (split_on "."%char t) as [|type names]; [done|].
  apply Forall_cons in Hp as [_ Hp]. apply eq_bool_prop_intro. rewrite !Is_true_true, bool_decide_eq_true. destruct names as [|n names]; cbn [snd].
  { rewrite decide_False by done. split; [intros _; apply submseteq_nil_l|done]. }
  set (l := n :: names) in *. cbn zeta. pose proof (js_sort_perm text_cmp l) as P.
  assert (joined (js_sort text_cmp l) = [] <-> l = [[]]) as Hj.
  { split; [|by intros ->]. intros [E|E]%joined_nil; rewrite E in P; [by apply Permutation_nil_l in P|]. by apply Permutation_singleton_l in P. }
  unfold names_match. destruct (decide (l = [[]])) as [Hl|Hl]; cbn [snd].
  - rewrite decide_True by by apply Hj. split; [intros _; apply submseteq_nil_l|done].
  - rewrite decide_False by by rewrite Hj. rewrite bool_decide_eq_false_2 by (intros E; rewrite E in P; by apply Permutation_nil_l in P). cbn [orb].
    by apply (in_place_names m k h).
Qed.

Lemma asked_type t : (triggered_type t).1 = (asked t).1.
Proof.
  unfold triggered_type, asked. destruct (split_on "."%char t) as [|type [|n names]] eqn:E; [by apply split_nonempty in E| |done]. cbn.
  pose proof (split_plain t) as Hp. rewrite E in Hp. apply Forall_cons in Hp as [Hp _].
  clear Hp. revert type E. induction t as [|c t IH]; intros type; cbn; [by intros [= <-]|]. case_bool_decide; [by intros [= _ ?%split_nonempty]|].
  destruct (split_on "."%char t) as [|w ws] eqn:E; [by apply split_nonempty in E|]. intros [= <- ->]. by rewrite (IH w).
Qed.

Lemma groups_reference up el t onlyHandlers w : WF w -> climbs dom el up ->
  trigger_groups dom window finds el t onlyHandlers w = reference dom window finds up el t onlyHandlers w.
Proof.
  intros Hw Hup. unfold trigger_groups, reference. pose proof (asked_type t) as Et. pose proof (asked_names t) as En.
  destruct (triggered_type t) as [type names], (asked t) as [type' names']. cbn [fst snd] in *. subst type'. rewrite (stops_visited up) by done.
  induction (visited dom window up el type onlyHandlers) as [|[cur ty] l IH]; [done|]. cbn [mbind list_bind fst snd]. rewrite !fmap_app, IH. f_equal.
  rewrite (concerned_heard up) by done. apply list_fmap_ext. intros i [x hs] Hi. unfold with_names. cbn [fst snd]. f_equal.
  assert (forall h, h ∈ hs -> h ∈ bound cur ty w) as Hin.
  { intros h Hh. apply list_elem_of_lookup_2 in Hi. unfold heard in Hi. apply elem_of_app in Hi as [Hi|Hi%list_elem_of_singleton].
    - destruct (decide _); [|by apply elem_of_nil in Hi]. apply list_elem_of_fmap in Hi as (y & [= -> ->] & _). by apply list_elem_of_filter in Hh as [_ ?].
    - injection Hi as -> ->. by apply list_elem_of_filter in Hh as [_ ?]. }
  apply filter_same. intros h Hh. rewrite (En (w_guid w) ty h); [|by apply (bound_in_place cur), Hin]. by rewrite bool_decide_eq_true.
Qed.

End reference.


(** ** Instances *)


(** A handler that triggers the event again, once: a function bound with [one] after it runs twice. *)
Lemma one_runs_twice :
  let bodies f := match f with 0%nat => ([AOff 3 (txt "click") None (Some 0%nat); ATrigger 3 (txt "click") false], None) | _ => ([ANote 1], None) end in
  let page := [HScript [AOn 3 (txt "click") None 0 false; AOn 3 (txt "click") None 1 true; ATrigger 3 (txt "click") false]] in
  let w := after example_dom 9 example_finds 5 bodies 9 page (new_world example_browser 4) in
  length (filter (fun x => x = LNote 1) (w_log w)) = 2%nat.
Proof. vm_compute. reflexivity. Qed.

(** [one] of a function that [on] has bound too: the first event unbinds both. *)
Lemma one_unbinds_on :
  let page := [HScript [AOn 3 (txt "click") None 0 false; AOn 3 (txt "click") None 0 true; ATrigger 3 (txt "click") false]] in
  let w := after example_dom 9 example_finds 5 example_bodies 9 page (new_world example_browser 4) in
  bound 3 (txt "click") w = [] /\ length (calls 0 (w_log w)) = 2%nat.
Proof. split; vm_compute; reflexivity. Qed.
