(* ===== verification/Effects.v ===== *)
(** * jQuery: queues and effects (application bundle, lines 3959-4088, 6898-6995, 7021-7053, 7065-7073, 7114-7137 and 7283-7655)

    Elements, functions of the page, animations, hooks of queues and promises are numbers.  A function of the page is a script:
    [code] is a parameter.  What is queued is a function of the page, the [doAnimation] of an animation or the
    function of a delay.  The library calls itself through scripts; the recursion takes fuel, and a call without fuel throws, as a call
    too deep does in the browser.  Timeouts, the interval and the clock are steps of their own: the clock stands still while a script
    runs.  Styles are numbers in pixels, set and read as they are; the passes of [defaultPrefilter] for overflow, show and hide,
    special easings, hooks of properties and custom prefilters are left out, and methods are called on one element ([promise] on several). *)

From S2P Require Import Prelude.
From Stdlib Require Import ZArith Lia SpecFloat.
From stdpp Require Import gmap strings.
From S2P Require Import Doubles.

Local Open Scope Z_scope.
Local Open Scope js_scope.

(** ** Settings of animations *)

Definition sub : double -> double -> double := SFsub 53 1024.
Definition one : double := of_Z 1.

(** A number with its sign as [rfxnum] reads it: [n], [+=n] or [-=n]. *)
Inductive value := Abs (x : double) | Plus (x : double) | Minus (x : double).

Inductive speed := Number (ms : Z) | Name (s : string).

(** What [jQuery.speed] makes: [queue] is [None] for [false], [old] the callback that [complete] wraps. *)
Record opts := Opts {
  o_duration : Z; o_easing : string; o_queue : option string;
  o_start : option nat; o_step : option nat; o_progress : option nat;
  o_done : option nat; o_old : option nat; o_fail : option nat; o_always : option nat
}.

Definition speeds (s : string) : option Z :=
  if decide (s = "slow"%string) then Some 600
  else if decide (s = "fast"%string) then Some 200
  else if decide (s = "_default"%string) then Some 400
  else None.

(** [opt.duration], when effects are on. *)
Definition duration_of (fx_off : bool) (s : speed) : Z :=
  if fx_off then 0 else match s with Number ms => ms | Name s => default 400 (speeds s) end.

(** The options of [animate], before they are normalized: [queue] may be a name, [false], or [true] or nothing. *)
Inductive queueing := InQueue (t : string) | Unqueued | Default.

Record options := Options {
  p_speed : speed; p_easing : option string; p_queue : queueing;
  p_start : option nat; p_step : option nat; p_progress : option nat;
  p_done : option nat; p_complete : option nat; p_fail : option nat; p_always : option nat
}.

Definition speed_opts (fx_off : bool) (p : options) : opts :=
  Opts (duration_of fx_off (p_speed p)) (default "swing"%string (p_easing p))
       (match p_queue p with InQueue t => Some t | Unqueued => None | Default => Some "fx"%string end)
       (p_start p) (p_step p) (p_progress p) (p_done p) (p_complete p) (p_fail p) (p_always p).

(** ** State *)

(** An element and a type of queue. *)
Definition key : Type := nat * string.

Inductive func :=
| User (f : nat)
| DoAnimation (props : list (string * value)) (o : opts)
| Delay (time : speed).

(** What an array of functions holds: the sentinel of the fx queue, or a function. *)
Inductive item := InProgress | Fun (f : func).

(** A list of callbacks that fires once and remembers: waiting, firing those that are left, fired, disabled. *)
Inductive callbacks (fn : Type) := Waiting (l : list fn) | Firing (l : list fn) | Fired | Disabled.
Arguments Waiting {fn} l. Arguments Firing {fn} l. Arguments Fired {fn}. Arguments Disabled {fn}.

(** The callbacks of the hooks of a queue: the one that removes the data, and those of promises. *)
Inductive hook_fn := RemoveData | Resolve (p : nat).

Record hooks := Hooks { k_key : key; k_stop : option nat; k_empty : callbacks hook_fn; k_unqueued : option Z }.

(** The callbacks of an animation: [delete tick.elem], the two functions for animations that are not queued, with their hooks,
    [opt.complete], a function of the page. *)
Inductive anim_fn := DeleteElem | Leaving (h : nat) | Left_ (h : nat) | Complete | Callback (f : nat).

Record tween := Tween { t_prop : string; t_start : double; t_end : double; t_pos : double; t_now : double }.

(** [n_elem] is [tick.elem]; [n_notified] whether the list of [progress] has something to remember. *)
Record animation := Animation_ {
  n_this : nat; n_elem : option nat; n_opts : opts; n_startTime : Z; n_tweens : list tween; n_stopped : bool;
  n_done : callbacks anim_fn; n_fail : callbacks anim_fn; n_progress : option nat; n_notified : bool; n_locked : bool
}.

Record promise := Promise { m_count : Z; m_resolved : bool; m_done : option nat }.

Inductive event :=
| LQueue (k : key) (f : func) | LSet (k : key) (l : list func) | LCall (k : key) (f : func) | LEmpty (h : nat)
| LWait (p h : nat) | LResolve (p : nat) | LSettle (id : nat) (ok : bool) | LNote (n : nat).

(** Timeouts are kept with their time, their element and queue, and whether they are still to fire; [w_held] are the [next]s that
    functions keep for later; [w_forget] counts the timeouts of [createFxNow]. *)
Record timeout := Timeout { u_due : Z; u_key : key; u_live : bool }.

Record world := World {
  w_queue : gmap key (list item); w_hooks : gmap key nat; w_finish : gset nat;
  w_heap : list hooks; w_anims : list animation; w_promises : list promise;
  w_timers : list nat; w_interval : bool; w_fxNow : option Z; w_forget : nat; w_clock : Z;
  w_timeouts : list timeout; w_held : list key; w_style : gmap (nat * string) double; w_log : list event
}.

Definition set_queue x (w : world) := let 'World _ b c d e f g h i j k l m n o := w in World x b c d e f g h i j k l m n o.
Definition set_hooks x (w : world) := let 'World a _ c d e f g h i j k l m n o := w in World a x c d e f g h i j k l m n o.
Definition set_finish x (w : world) := let 'World a b _ d e f g h i j k l m n o := w in World a b x d e f g h i j k l m n o.
Definition set_heap x (w : world) := let 'World a b c _ e f g h i j k l m n o := w in World a b c x e f g h i j k l m n o.
Definition set_anims x (w : world) := let 'World a b c d _ f g h i j k l m n o := w in World a b c d x f g h i j k l m n o.
Definition set_promises x (w : world) := let 'World a b c d e _ g h i j k l m n o := w in World a b c d e x g h i j k l m n o.
Definition set_timers x (w : world) := let 'World a b c d e f _ h i j k l m n o := w in World a b c d e f x h i j k l m n o.
Definition set_interval x (w : world) := let 'World a b c d e f g _ i j k l m n o := w in World a b c d e f g x i j k l m n o.
Definition set_fxNow x (w : world) := let 'World a b c d e f g h _ j k l m n o := w in World a b c d e f g h x j k l m n o.
Definition set_forget x (w : world) := let 'World a b c d e f g h i _ k l m n o := w in World a b c d e f g h i x k l m n o.
Definition set_clock x (w : world) := let 'World a b c d e f g h i j _ l m n o := w in World a b c d e f g h i j x l m n o.
Definition set_timeouts x (w : world) := let 'World a b c d e f g h i j k _ m n o := w in World a b c d e f g h i j k x m n o.
Definition set_held x (w : world) := let 'World a b c d e f g h i j k l _ n o := w in World a b c d e f g h i j k l x n o.
Definition set_style x (w : world) := let 'World a b c d e f g h i j k l m _ o := w in World a b c d e f g h i j k l m x o.
Definition set_log x (w : world) := let 'World a b c d e f g h i j k l m n _ := w in World a b c d e f g h i j k l m n x.

Definition write (l : list event) (w : world) : world := set_log (w_log w ++ l) w.
Definition on_hooks (h : nat) (f : hooks -> hooks) (w : world) : world := set_heap (alter f h (w_heap w)) w.
Definition on_anim (id : nat) (f : animation -> animation) (w : world) : world := set_anims (alter f id (w_anims w)) w.
Definition on_promise (p : nat) (f : promise -> promise) (w : world) : world := set_promises (alter f p (w_promises w)) w.

Definition set_stop x (k : hooks) := let 'Hooks a _ c d := k in Hooks a x c d.
Definition set_empty x (k : hooks) := let 'Hooks a b _ d := k in Hooks a b x d.
Definition set_unqueued x (k : hooks) := let 'Hooks a b c _ := k in Hooks a b c x.

Definition set_elem x (n : animation) := let 'Animation_ a _ c d e f g h i j k := n in Animation_ a x c d e f g h i j k.
Definition set_tweens x (n : animation) := let 'Animation_ a b c d _ f g h i j k := n in Animation_ a b c d x f g h i j k.
Definition set_stopped x (n : animation) := let 'Animation_ a b c d e _ g h i j k := n in Animation_ a b c d e x g h i j k.
Definition set_progress x (n : animation) := let 'Animation_ a b c d e f g h _ j k := n in Animation_ a b c d e f g h x j k.
Definition set_notified x (n : animation) := let 'Animation_ a b c d e f g h i _ k := n in Animation_ a b c d e f g h i x k.
Definition set_locked x (n : animation) := let 'Animation_ a b c d e f g h i j _ := n in Animation_ a b c d e f g h i j x.
Definition get_list (ok : bool) (n : animation) : callbacks anim_fn := if ok then n_done n else n_fail n.
Definition set_list (ok : bool) x (n : animation) :=
  let 'Animation_ a b c d e f g h i j k := n in if ok then Animation_ a b c d e f x h i j k else Animation_ a b c d e f g x i j k.

(** ** What scripts do *)

(** Calls of the library by a function of the page; [ANext] and [AHold] are for the functions of a queue, which call their [next] or keep
    it for later. *)
Inductive action :=
| AQueue (e : nat) (t : string) (f : nat)
| AQueueAll (e : nat) (t : string) (fs : list nat)
| AClear (e : nat) (t : string)
| ADequeue (e : nat) (t : string)
| AAnimate (e : nat) (props : list (string * value)) (p : options)
| ADelay (e : nat) (time : speed) (t : string)
| AStop (e : nat) (t : option string) (clearQueue gotoEnd : bool)
| AFinish (e : nat) (t : string)
| APromise (es : list nat) (t : string) (f : option nat)
| ANext
| AHold
| AThrow (msg : string)
| ANote (n : nat).

(** Calls that run functions of the page. *)
Inductive call :=
| CUser (f : nat) (next : option key)
| CFun (f : func) (k : key) (h : nat)
| CDequeue (k : key)
| CEmpty (h : nat)
| CFire (id : nat) (ok : bool)
| CTicks (i : nat).

Section library.
Context (fx_off : bool) (cos : double -> double) (code : nat -> list action).
Context (go : call -> st_ex world unit).

Definition user (f : option nat) : st_ex world unit := match f with Some f => go (CUser f None) | None => sret tt end.

(** ** Queues *)

(** [type || "fx"] *)
Definition or_fx (t : string) : string := if decide (t = ""%string) then "fx"%string else t.

(** [jQuery.queue(elem, type)]: an empty array when there is none. *)
Definition queue_of (k : key) (w : world) : list item := default [] (w_queue w !! (k.1, or_fx k.2)).

(** [jQuery.queue(elem, type, data)], with a function and with an array. *)
Definition queue_push (k : key) (f : func) : st_ex world unit :=
  let k := (k.1, or_fx k.2) in
  smodify (fun w => set_queue (<[k := default [] (w_queue w !! k) ++ [Fun f]]> (w_queue w)) w) ;!
  smodify (write [LQueue k f]).

Definition queue_set (k : key) (fs : list func) : st_ex world unit :=
  let k := (k.1, or_fx k.2) in
  smodify (fun w => set_queue (<[k := Fun <$> fs]> (w_queue w)) w) ;!
  smodify (write [LSet k fs]).

(** [jQuery._queueHooks] *)
Definition queueHooks (k : key) : st_ex world nat :=
  let! h := sget (fun w => w_hooks w !! k) in
  match h with
  | Some h => sret h
  | None =>
      let! h := sget (fun w => length (w_heap w)) in
      smodify (fun w => set_heap (w_heap w ++ [Hooks k None (Waiting [RemoveData]) None]) (set_hooks (<[k := h]> (w_hooks w)) w)) ;!
      sret h
  end.

(** [hooks.empty.fire()], as [defaultPrefilter] may have wrapped it. *)
Definition fire_empty (h : nat) : st_ex world unit :=
  let! r := sget (fun w => w_heap w !! h) in
  match r with
  | Some (Hooks _ _ (Waiting l) unqueued) =>
      swhen (bool_decide (default 0 unqueued = 0))
        (smodify (on_hooks h (set_empty (Firing l))) ;! smodify (write [LEmpty h]) ;! go (CEmpty h))
  | _ => sret tt
  end.

(** [queue.shift()], and the arrays in the data of an element. *)
Definition shift (q : list item) : option item * list item := match q with [] => (None, []) | x :: q => (Some x, q) end.
Definition store (k : key) (f : list item -> list item) (w : world) : world := set_queue (alter f k (w_queue w)) w.

Definition dequeue (k : key) : st_ex world unit :=
  let k := (k.1, or_fx k.2) in
  let! queue := sget (queue_of k) in
  let sentinel := match queue with InProgress :: _ => true | _ => false end in
  let '(fn, rest) := shift (if sentinel then drop 1 queue else queue) in
  let startLength := (length queue - (if sentinel then 1 else 0))%nat in
  smodify (store k (fun _ => rest)) ;!
  smodify (write (match fn with Some (Fun f) => [LCall k f] | _ => [] end)) ;!
  let! h := queueHooks k in
  match fn with
  | Some f =>
      swhen (bool_decide (k.2 = "fx"%string)) (smodify (store k (cons InProgress))) ;!
      smodify (on_hooks h (set_stop None)) ;!
      match f with
      | Fun f => go (CFun f k h)
      | InProgress => sthrow "TypeError: fn.call is not a function"
      end
  | None => sret tt
  end ;!
  swhen (bool_decide (startLength = O)) (fire_empty h).

(** [.queue(type, fn)], [.queue(type, array)] and [clearQueue]. *)
Definition started (k : key) : st_ex world unit :=
  let! queue := sget (queue_of k) in
  let! _ := queueHooks k in
  swhen (bool_decide (k.2 = "fx"%string) && match queue with InProgress :: _ => false | _ => true end) (go (CDequeue k)).

Definition queue (k : key) (f : func) : st_ex world unit := queue_push k f ;! started k.
Definition queue_all (k : key) (fs : list func) : st_ex world unit := queue_set k fs ;! started k.
Definition clearQueue (e : nat) (t : string) : st_ex world unit := queue_all (e, or_fx t) [].

(** ** Promises of queues *)

(** The function [resolve] of a promise. *)
Definition resolve (p : nat) : st_ex world unit :=
  smodify (on_promise p (fun m => Promise (m_count m - 1) (m_resolved m) (m_done m))) ;!
  let! r := sget (fun w => w_promises w !! p) in
  match r with
  | Some (Promise 0 false f) =>
      smodify (on_promise p (fun m => Promise (m_count m) true (m_done m))) ;! smodify (write [LResolve p]) ;! user f
  | _ => sret tt
  end.

(** [hooks.empty.add(resolve)] *)
Definition add_resolve (p h : nat) : st_ex world unit :=
  smodify (on_promise p (fun m => Promise (m_count m + 1) (m_resolved m) (m_done m))) ;!
  smodify (write [LWait p h]) ;!
  let! r := sget (fun w => w_heap w !! h) in
  match k_empty <$> r with
  | Some (Waiting l) => smodify (on_hooks h (set_empty (Waiting (l ++ [Resolve p]))))
  | Some (Firing l) => smodify (on_hooks h (set_empty (Firing (l ++ [Resolve p]))))
  | Some Fired => resolve p
  | _ => sret tt
  end.

Fixpoint wait_for (p : nat) (t : string) (es : list nat) : st_ex world unit :=
  match es with
  | [] => sret tt
  | e :: es =>
      let! h := sget (fun w => w_hooks w !! (e, t)) in
      match h with Some h => add_resolve p h | None => sret tt end ;!
      wait_for p t es
  end.

(** [.promise(type).done(f)]; the elements are taken from the last. *)
Definition promise_ (es : list nat) (t : string) (f : option nat) : st_ex world unit :=
  let! p := sget (fun w => length (w_promises w)) in
  smodify (fun w => set_promises (w_promises w ++ [Promise 1 false None]) w) ;!
  wait_for p (or_fx t) (rev es) ;!
  resolve p ;!
  let! r := sget (fun w => w_promises w !! p) in
  match r with
  | Some (Promise _ true _) => user f
  | _ => smodify (on_promise p (fun m => Promise (m_count m) (m_resolved m) f))
  end.

(** The loop of [hooks.empty]. *)
Definition call_hook (h : nat) (f : hook_fn) : st_ex world unit :=
  match f with
  | RemoveData =>
      smodify (fun w =>
        match w_heap w !! h with
        | Some k => set_hooks (delete (k_key k) (w_hooks w)) (set_queue (delete (k_key k) (w_queue w)) w)
        | None => w
        end)
  | Resolve p => resolve p
  end.

Definition empty_loop (h : nat) : st_ex world unit :=
  let! r := sget (fun w => w_heap w !! h) in
  match k_empty <$> r with
  | Some (Firing (f :: l)) => smodify (on_hooks h (set_empty (Firing l))) ;! call_hook h f ;! go (CEmpty h)
  | Some (Firing []) => smodify (on_hooks h (set_empty Fired))
  | _ => sret tt
  end.

(** ** The deferred of an animation *)

Definition with_anim (id : nat) (f : animation -> st_ex world unit) : st_ex world unit :=
  let! r := sget (fun w => w_anims w !! id) in
  match r with Some n => f n | None => sret tt end.

(** [add], of several callbacks. *)
Definition add (id : nat) (ok : bool) (fs : list anim_fn) : st_ex world unit :=
  with_anim id (fun n =>
    match get_list ok n with
    | Waiting l => smodify (on_anim id (set_list ok (Waiting (l ++ fs))))
    | Firing l => smodify (on_anim id (set_list ok (Firing (l ++ fs))))
    | Fired => smodify (on_anim id (set_list ok (Firing fs))) ;! go (CFire id ok)
    | Disabled => sret tt
    end).

Definition always (id : nat) (fs : list anim_fn) : st_ex world unit := add id true fs ;! add id false fs.

(** [resolveWith] and [rejectWith]: the other list is disabled and that of [progress] locked. *)
Definition settle (id : nat) (ok : bool) : st_ex world unit :=
  with_anim id (fun n =>
    match get_list ok n with
    | Waiting l =>
        smodify (on_anim id (fun n => set_locked true (set_list (negb ok) Disabled (set_list ok (Firing l) n)))) ;!
        smodify (write [LSettle id ok]) ;!
        go (CFire id ok)
    | _ => sret tt
    end).

Definition notify (id : nat) : st_ex world unit :=
  with_anim id (fun n =>
    if n_locked n then sret tt else smodify (on_anim id (set_notified true)) ;! user (n_progress n)).

Definition add_progress (id : nat) (f : option nat) : st_ex world unit :=
  with_anim id (fun n =>
    smodify (on_anim id (set_progress f)) ;!
    swhen (n_notified n) (user f)).

(** [if ( opt.queue )] *)
Definition queued (o : opts) : option string := o_queue o ≫= fun t => if decide (t = ""%string) then None else Some t.

Definition call_anim (id : nat) (f : anim_fn) : st_ex world unit :=
  with_anim id (fun n =>
    match f with
    | DeleteElem => smodify (on_anim id (set_elem None))
    | Leaving h => always id [Left_ h]
    | Left_ h =>
        smodify (on_hooks h (fun k => set_unqueued ((fun u => u - 1) <$> k_unqueued k) k)) ;!
        let! queue := sget (queue_of (n_this n, "fx"%string)) in
        swhen (bool_decide (length queue = O)) (fire_empty h)
    | Complete =>
        user (o_old (n_opts n)) ;!
        match queued (n_opts n) with Some t => go (CDequeue (n_this n, t)) | None => sret tt end
    | Callback f => user (Some f)
    end).

Definition fire (id : nat) (ok : bool) : st_ex world unit :=
  with_anim id (fun n =>
    match get_list ok n with
    | Firing (f :: l) => smodify (on_anim id (set_list ok (Firing l))) ;! call_anim id f ;! go (CFire id ok)
    | Firing [] => smodify (on_anim id (set_list ok Fired))
    | _ => sret tt
    end).

(** ** Animations *)

(** [fxNow || createFxNow()] *)
Definition fx_now : st_ex world Z := fun w =>
  match w_fxNow w with
  | Some t => (w, Ok t)
  | None => (set_fxNow (Some (w_clock w)) (set_forget (S (w_forget w)) w), Ok (w_clock w))
  end.

Definition PI : double := S754_finite false 7074237752028440 (-51).

Definition easing (name : string) (p : double) : option double :=
  if decide (name = "linear"%string) then Some p
  else if decide (name = "swing"%string) then Some (sub (div one (of_Z 2)) (div (cos (mul p PI)) (of_Z 2)))
  else None.

(** [createTween], with the tweener of all properties. *)
Definition truthy (x : double) : bool := match x with S754_zero _ | S754_nan => false | _ => true end.

Definition cur (e : nat) (prop : string) (w : world) : double := default (of_Z 0) (w_style w !! (e, prop)).

Definition make_tween (target : double) (prop : string) (v : value) : tween :=
  let start := if truthy target then target else of_Z 0 in
  Tween prop start
    (match v with
     | Abs x => x
     | Plus x => Doubles.add start (mul one x)
     | Minus x => Doubles.add start (mul (of_Z (-1)) x)
     end) S754_nan target.

Definition createTween (e id : nat) (p : string * value) : st_ex world unit :=
  let! target := sget (cur e p.1) in
  smodify (on_anim id (fun n => set_tweens (n_tweens n ++ [make_tween target p.1 p.2]) n)).

(** [Tween.run] *)
Definition run (id i : nat) (percent : double) : st_ex world unit :=
  with_anim id (fun n =>
    match n_tweens n !! i with
    | None => sret tt
    | Some t =>
        match if decide (o_duration (n_opts n) = 0) then Some percent else easing (o_easing (n_opts n)) percent with
        | None => sthrow "TypeError: jQuery.easing[this.easing] is not a function"
        | Some eased =>
            let now := Doubles.add (mul (sub (t_end t) (t_start t)) eased) (t_start t) in
            smodify (on_anim id (fun n =>
              set_tweens (alter (fun t => Tween (t_prop t) (t_start t) (t_end t) eased now) i (n_tweens n)) n)) ;!
            user (o_step (n_opts n)) ;!
            smodify (fun w => set_style (<[(n_this n, t_prop t) := now]> (w_style w)) w)
        end
    end).

Fixpoint run_tweens (id : nat) (percent : double) (l : list nat) : st_ex world unit :=
  match l with [] => sret tt | i :: l => run id i percent ;! run_tweens id percent l end.

(** [percent], from the time that remains. *)
Definition percent_of (remaining duration : Z) : double :=
  let temp := div (of_Z remaining) (of_Z duration) in
  sub one (if truthy temp then temp else of_Z 0).

(** [tick]: the time that remains, or 0 for [false]. *)
Definition tick (id : nat) : st_ex world Z :=
  let! r := sget (fun w => w_anims w !! id) in
  match r with
  | None => sret 0
  | Some n =>
      if n_stopped n then sret 0
      else
        let! currentTime := fx_now in
        let remaining := Z.max 0 (n_startTime n + o_duration (n_opts n) - currentTime) in
        let percent := percent_of remaining (o_duration (n_opts n)) in
        let len := length (n_tweens n) in
        run_tweens id percent (seq 0 len) ;!
        notify id ;!
        if SFltb percent one && negb (len =? 0)%nat then sret remaining else settle id true ;! sret 0
  end.

(** [animation.stop] *)
Definition anim_stop (id : nat) (gotoEnd : bool) : st_ex world unit :=
  with_anim id (fun n =>
    if n_stopped n then sret tt
    else
      smodify (on_anim id (set_stopped true)) ;!
      (if gotoEnd then run_tweens id one (seq 0 (length (n_tweens n))) else sret tt) ;!
      settle id gotoEnd).

(** [jQuery.fx.timer] *)
Definition fx_timer (id : nat) : st_ex world unit :=
  smodify (fun w => set_timers (w_timers w ++ [id]) w) ;!
  let! r := tick id in
  if decide (r = 0) then smodify (fun w => set_timers (removelast (w_timers w)) w)
  else smodify (set_interval true).

(** The pass of [defaultPrefilter] for animations that are not queued. *)
Definition defaultPrefilter (e id : nat) (o : opts) : st_ex world unit :=
  match queued o with
  | Some _ => sret tt
  | None =>
      let! h := queueHooks (e, "fx"%string) in
      smodify (on_hooks h (fun k => set_unqueued (Some (default 0 (k_unqueued k) + 1)) k)) ;!
      always id [Leaving h]
  end.

Definition callback (f : option nat) : list anim_fn := match f with Some f => [Callback f] | None => [] end.

Fixpoint create_tweens (e id : nat) (props : list (string * value)) : st_ex world unit :=
  match props with [] => sret tt | p :: props => createTween e id p ;! create_tweens e id props end.

Definition Animation (e : nat) (props : list (string * value)) (o : opts) : st_ex world nat :=
  let! id := sget (fun w => length (w_anims w)) in
  let! startTime := fx_now in
  smodify (fun w => set_anims (w_anims w ++
    [Animation_ e (Some e) o startTime [] false (Waiting [DeleteElem]) (Waiting [DeleteElem]) None false false]) w) ;!
  defaultPrefilter e id o ;!
  create_tweens e id props ;!
  user (o_start o) ;!
  fx_timer id ;!
  add_progress id (o_progress o) ;!
  add id true (callback (o_done o) ++ [Complete]) ;!
  add id false (callback (o_fail o)) ;!
  always id (callback (o_always o)) ;!
  sret id.

Definition doAnimation (e : nat) (props : list (string * value)) (o : opts) : st_ex world unit :=
  let! id := Animation e props o in
  let! finishing := sget (fun w => bool_decide (e ∈ w_finish w)) in
  swhen (bool_decide (props = []) || finishing) (anim_stop id true).

Definition animate (e : nat) (props : list (string * value)) (p : options) : st_ex world unit :=
  let o := speed_opts fx_off p in
  match props, o_queue o with
  | _ :: _, Some t => queue (e, t) (DoAnimation props o)
  | _, _ => doAnimation e props o
  end.

Definition delay (e : nat) (time : speed) (t : string) : st_ex world unit := queue (e, or_fx t) (Delay time).

(** [setTimeout( next, time )], and its [clearTimeout]. *)
Definition wait_of (time : speed) : Z := Z.max 0 (match time with Number ms => ms | Name s => default 0 (speeds s) end).

Definition start_delay (time : speed) (k : key) (h : nat) : st_ex world unit :=
  let! i := sget (fun w => length (w_timeouts w)) in
  smodify (fun w => set_timeouts (w_timeouts w ++ [Timeout (w_clock w + wait_of time) k true]) w) ;!
  smodify (on_hooks h (set_stop (Some i))).

Definition clearTimeout (i : nat) (w : world) : world :=
  set_timeouts (alter (fun u => Timeout (u_due u) (u_key u) false) i (w_timeouts w)) w.

(** ** [stop] and [finish] *)

(** [stopQueue], on hooks that have a [stop]. *)
Definition stopQueue (h : nat) : st_ex world unit :=
  let! r := sget (fun w => w_heap w !! h ≫= k_stop) in
  match r with
  | Some i => smodify (on_hooks h (set_stop None)) ;! smodify (clearTimeout i)
  | None => sret tt
  end.

(** The hooks of an element; what [stopQueue] does to them does not depend on their order. *)
Definition hooks_of (e : nat) (w : world) : list nat := snd <$> filter (fun p => p.1.1 = e) (map_to_list (w_hooks w)).

Fixpoint stop_queues (l : list nat) : st_ex world unit :=
  match l with [] => sret tt | h :: l => stopQueue h ;! stop_queues l end.

(** The loops over the timers, from the last: which are stopped is a condition.  The result is whether none was. *)
Fixpoint stop_timers (which : animation -> bool) (gotoEnd : bool) (index : nat) : st_ex world bool :=
  match index with
  | O => sret true
  | S index =>
      let! r := sget (fun w => w_timers w !! index) in
      match r with
      | None => sthrow "TypeError: timers[index] is undefined"
      | Some id =>
          let! n := sget (fun w => w_anims w !! id) in
          if from_option which false n then
            anim_stop id gotoEnd ;!
            smodify (fun w => set_timers (delete index (w_timers w)) w) ;!
            let! _ := stop_timers which gotoEnd index in sret false
          else stop_timers which gotoEnd index
      end
  end.

Definition of_elem (e : nat) (t : option string) (n : animation) : bool :=
  bool_decide (n_elem n = Some e) && match t with None => true | Some t => bool_decide (o_queue (n_opts n) = Some t) end.

Definition stop (e : nat) (t : option string) (clear gotoEnd : bool) : st_ex world unit :=
  swhen clear (clearQueue e (default "fx"%string t)) ;!
  let! hs := sget (fun w => match t with Some t => option_list (w_hooks w !! (e, t)) | None => hooks_of e w end) in
  stop_queues hs ;!
  let! len := sget (fun w => length (w_timers w)) in
  let! dequeue := stop_timers (of_elem e t) gotoEnd len in
  swhen (dequeue || negb gotoEnd) (go (CDequeue (e, default "fx"%string t))).

(** What [finish] does with the functions of the array it took out. *)
Fixpoint finish_queue (e : nat) (q : list item) : st_ex world unit :=
  match q with
  | [] => sret tt
  | Fun (DoAnimation props o) :: q => doAnimation e props o ;! finish_queue e q
  | _ :: q => finish_queue e q
  end.

Definition finish (e : nat) (t : string) : st_ex world unit :=
  let t := or_fx t in
  let! q := sget (fun w => default [] (w_queue w !! (e, t))) in
  let! h := sget (fun w => w_hooks w !! (e, t)) in
  smodify (fun w => set_finish ({[e]} ∪ w_finish w) w) ;!
  queue_set (e, t) [] ;!
  let! i := sget (fun w => h ≫= fun h => w_heap w !! h ≫= k_stop) in
  match i with Some i => smodify (clearTimeout i) | None => sret tt end ;!
  let! len := sget (fun w => length (w_timers w)) in
  let! _ := stop_timers (of_elem e (Some t)) true len in
  finish_queue e q ;!
  smodify (fun w => set_finish (w_finish w ∖ {[e]}) w).

(** ** [jQuery.fx.tick] *)

(** The loop, from an index. *)
Definition ticks (i : nat) : st_ex world unit :=
  let! r := sget (fun w => w_timers w !! i) in
  match r with
  | None => sret tt
  | Some timer =>
      let! r := tick timer in
      let! same := sget (fun w => bool_decide (w_timers w !! i = Some timer)) in
      if bool_decide (r = 0) && same then smodify (fun w => set_timers (delete i (w_timers w)) w) ;! go (CTicks i)
      else go (CTicks (S i))
  end.

Definition fx_tick : st_ex world unit :=
  smodify (fun w => set_fxNow (Some (w_clock w)) w) ;!
  go (CTicks 0) ;!
  let! none := sget (fun w => bool_decide (w_timers w = [])) in
  swhen none (smodify (set_interval false)) ;!
  smodify (set_fxNow None).

(** ** Scripts *)

Definition act (next : option key) (a : action) : st_ex world unit :=
  match a with
  | AQueue e t f => queue (e, t) (User f)
  | AQueueAll e t fs => queue_all (e, t) (User <$> fs)
  | AClear e t => clearQueue e t
  | ADequeue e t => go (CDequeue (e, t))
  | AAnimate e props p => animate e props p
  | ADelay e time t => delay e time t
  | AStop e t clear gotoEnd => stop e t clear gotoEnd
  | AFinish e t => finish e t
  | APromise es t f => promise_ es t f
  | ANext => match next with Some k => go (CDequeue k) | None => sret tt end
  | AHold => match next with Some k => smodify (fun w => set_held (w_held w ++ [k]) w) | None => sret tt end
  | AThrow msg => sthrow msg
  | ANote n => smodify (write [LNote n])
  end.

Fixpoint run_script (next : option key) (l : list action) : st_ex world unit :=
  match l with [] => sret tt | a :: l => act next a ;! run_script next l end.

Definition call_func (f : func) (k : key) (h : nat) : st_ex world unit :=
  match f with
  | User f => go (CUser f (Some k))
  | DoAnimation props o => doAnimation k.1 props o
  | Delay time => start_delay time k h
  end.

Definition perform (c : call) : st_ex world unit :=
  match c with
  | CUser f next => run_script next (code f)
  | CFun f k h => call_func f k h
  | CDequeue k => dequeue k
  | CEmpty h => empty_loop h
  | CFire id ok => fire id ok
  | CTicks i => ticks i
  end.
End library.

Section executing.
Context (fx_off : bool) (cos : double -> double) (code : nat -> list action).

Fixpoint exec (n : nat) (c : call) : st_ex world unit :=
  match n with
  | O => sthrow "RangeError: too much recursion"
  | S n => perform fx_off cos code (exec n) c
  end.

(** ** What happens from outside *)

(** A script of the page; the interval; a timeout of a delay, or of [createFxNow]; a function of a queue calls the [next] it kept; time. *)
Inductive happening :=
| HScript (l : list action)
| HTick
| HTimeout (i : nat)
| HForget
| HRelease (i : nat)
| HClock (t : Z).

Definition happen (n : nat) (x : happening) : st_ex world unit :=
  match x with
  | HScript l => run_script fx_off cos (exec n) None l
  | HTick => let! on := sget w_interval in swhen on (fx_tick (exec n))
  | HTimeout i =>
      let! r := sget (fun w => match w_timeouts w !! i with
        | Some u => if u_live u && (u_due u <=? w_clock w) then Some (u_key u) else None
        | None => None
        end) in
      match r with Some k => smodify (clearTimeout i) ;! exec n (CDequeue k) | None => sret tt end
  | HForget =>
      let! pending := sget w_forget in
      swhen (bool_decide (0 < pending)%nat) (smodify (fun w => set_fxNow None (set_forget (pred pending) w)))
  | HRelease i =>
      let! r := sget (fun w => w_held w !! i) in
      match r with Some k => smodify (fun w => set_held (delete i (w_held w)) w) ;! exec n (CDequeue k) | None => sret tt end
  | HClock t => smodify (set_clock t)
  end.

(** An exception ends the step it is thrown in, not the session. *)
Definition session (n : nat) (l : list happening) (w : world) : world := foldl (fun w x => (happen n x w).1) w l.
End executing.

Definition new_world (t : Z) : world := World ∅ ∅ ∅ [] [] [] [] false None 0 t [] [] ∅ [].
