(* ===== verification/EffectsRules.v ===== *)
(** * jQuery: queues and effects, what their invariants share

    [linked] says what the numbers in a world stand for: hooks are those of their queue, and their callbacks begin with the one that removes
    the data.  [kept] is what an invariant has to keep for the functions of the library that run animations to keep it. *)

From S2P Require Import Prelude Doubles.
From Stdlib Require Import ZArith Lia SpecFloat.
From stdpp Require Import gmap strings.
From S2P Require Import Effects.

Local Open Scope Z_scope.

(** ** Lists updated at an index *)

Lemma alter_none {A} (f : A -> A) h (l : list A) : l !! h = None -> alter f h l = l.
Proof.
  revert h. induction l as [|y l IH]; intros [|h] Hx; [done|done|done|]. change (y :: alter f h l = y :: l). by rewrite IH.
Qed.

Lemma alter_same {A} (f : A -> A) h (l : list A) x : l !! h = Some x -> f x = x -> alter f h l = l.
Proof.
  revert h. induction l as [|y l IH]; intros [|h] Hx Hf; [done|done| |].
  - injection Hx as ->. change (f x :: l = x :: l). by rewrite Hf.
  - change (y :: alter f h l = y :: l). by rewrite IH.
Qed.

Lemma alter_lookup {A} (f : A -> A) h (l : list A) i y : alter f h l !! i = Some y ->
  exists x, l !! i = Some x /\ (i = h /\ y = f x \/ i <> h /\ y = x).
Proof.
  destruct (decide (i = h)) as [->|E]; [|rewrite list_lookup_alter_ne by done; eauto]. rewrite list_lookup_alter_eq.
  destruct (l !! h) as [x|]; [|done]. intros [= <-]. eauto.
Qed.

Lemma lookup_alter_some {A} (f : A -> A) h (l : list A) i x : l !! i = Some x ->
  exists y, alter f h l !! i = Some y /\ (i = h /\ y = f x \/ i <> h /\ y = x).
Proof.
  intros Hx. destruct (decide (i = h)) as [->|E]; [|rewrite list_lookup_alter_ne by done; eauto]. rewrite list_lookup_alter_eq, Hx. eauto.
Qed.

(** ** The callbacks of hooks and of animations *)

Definition hook_list (l : callbacks hook_fn) : list hook_fn := match l with Waiting l | Firing l => l | _ => [] end.
Definition anim_list (l : callbacks anim_fn) : list anim_fn := match l with Waiting l | Firing l => l | _ => [] end.
Definition fns (n : animation) : list anim_fn := anim_list (n_done n) ++ anim_list (n_fail n).

(** The data of a queue is removed first, and then promises are told. *)
Definition hook_list_ok (l : callbacks hook_fn) : Prop :=
  match l with
  | Waiting l => exists ps, l = RemoveData :: (Resolve <$> ps)
  | Firing l => exists ps, l = RemoveData :: (Resolve <$> ps) \/ l = Resolve <$> ps
  | Fired => True
  | Disabled => False
  end.

(** How far the callbacks of hooks are: not called, called, the data removed. *)
Definition stage (l : callbacks hook_fn) : nat := match l with Waiting _ => 0 | Firing (RemoveData :: _) => 1 | _ => 2 end.

(** A member of a list of other constructors. *)
Ltac not_member H := repeat (apply elem_of_cons in H as [H|H]; [discriminate H|]); by apply elem_of_nil in H.

(** ** Worlds, and those after them *)

Record linked (w0 w : world) : Prop := {
  ln_key h x : w_heap w0 !! h = Some x ->
    exists y, w_heap w !! h = Some y /\ k_key y = k_key x /\ (stage (k_empty x) <= stage (k_empty y))%nat;
  ln_promises : (length (w_promises w0) <= length (w_promises w))%nat;
  ln_this id n : w_anims w0 !! id = Some n -> exists m, w_anims w !! id = Some m /\ n_this m = n_this n /\ n_opts m = n_opts n;
  ln_hooks k h : w_hooks w !! k = Some h -> exists x, w_heap w !! h = Some x /\ k_key x = k;
  ln_lists h x : w_heap w !! h = Some x -> hook_list_ok (k_empty x);
  ln_anims id n h : w_anims w !! id = Some n -> Leaving h ∈ fns n \/ Left_ h ∈ fns n ->
    exists x, w_heap w !! h = Some x /\ k_key x = (n_this n, "fx"%string)
}.

Section linked.
Context (w0 : world).

Lemma linked_start w : linked w0 w -> linked w w.
Proof. intros []. split; eauto 10. Qed.

Lemma linked_trans w w' : linked w0 w -> linked w w' -> linked w0 w'.
Proof.
  intros H []. split; try done.
  - intros h x Hx. destruct (ln_key _ _ H h x Hx) as (y & Hy & E & L). destruct (ln_key0 h y Hy) as (z & Hz & E' & L'). exists z.
    rewrite E', E. split_and!; [done|done|lia].
  - pose proof (ln_promises _ _ H). lia.
  - intros id n Hn. destruct (ln_this _ _ H id n Hn) as (m & Hm & E & E1). destruct (ln_this0 id m Hm) as (k & Hk & E' & E1'). exists k.
    by rewrite E', E, E1', E1.
Qed.

Lemma linked_same w w' : w_heap w' = w_heap w -> w_anims w' = w_anims w -> (length (w_promises w) <= length (w_promises w'))%nat ->
  (forall k h, w_hooks w' !! k = Some h -> w_hooks w !! k = Some h) -> linked w0 w -> linked w0 w'.
Proof.
  intros E1 E2 E3 Eh []. split; rewrite ?E1, ?E2; try done; [lia|]. intros k h Hk. by apply ln_hooks0, Eh.
Qed.

Lemma linked_on_anim id f w w' : w_anims w' = alter f id (w_anims w) -> w_heap w' = w_heap w -> w_hooks w' = w_hooks w ->
  w_promises w' = w_promises w ->
  (forall n, w_anims w !! id = Some n -> n_this (f n) = n_this n /\ n_opts (f n) = n_opts n /\
    forall h, Leaving h ∈ fns (f n) \/ Left_ h ∈ fns (f n) ->
      Leaving h ∈ fns n \/ Left_ h ∈ fns n \/ exists x, w_heap w !! h = Some x /\ k_key x = (n_this n, "fx"%string)) ->
  linked w0 w -> linked w0 w'.
Proof.
  intros E1 E2 E3 E4 Hf []. split; rewrite ?E1, ?E2, ?E3, ?E4; try done.
  - intros i n Hn. destruct (ln_this0 i n Hn) as (m & Hm & E & E').
    destruct (lookup_alter_some f id _ i m Hm) as (m' & Hm' & [(-> & ->)|(_ & ->)]); [|eauto]. destruct (Hf m Hm) as (H1 & H2 & _).
    exists (f m). by rewrite H1, H2.
  - intros i n h (m & Hm & [(-> & ->)|(_ & ->)])%alter_lookup Hh; [|by apply (ln_anims0 i m h)]. destruct (Hf m Hm) as (H1 & _ & H2).
    rewrite H1. destruct (H2 h Hh) as [H|[H|H]]; [| |done]; apply (ln_anims0 id m h); auto.
Qed.

(** The hooks of a queue change, their key does not. *)
Lemma linked_on_hooks h f w w' : w_heap w' = alter f h (w_heap w) -> w_anims w' = w_anims w -> w_hooks w' = w_hooks w ->
  w_promises w' = w_promises w ->
  (forall x, w_heap w !! h = Some x -> k_key (f x) = k_key x /\ (stage (k_empty x) <= stage (k_empty (f x)))%nat /\ hook_list_ok (k_empty (f x))) ->
  linked w0 w -> linked w0 w'.
Proof.
  intros E1 E2 E3 E4 Hf [].
  assert (forall i y, w_heap w !! i = Some y -> exists x, w_heap w' !! i = Some x /\ k_key x = k_key y /\ (stage (k_empty y) <= stage (k_empty x))%nat) as Hj.
  { intros i y Hy. rewrite E1. destruct (lookup_alter_some f h _ i y Hy) as (x & Hx & [(-> & ->)|(_ & ->)]); [|eauto].
    exists (f y). destruct (Hf y Hy) as (H1 & H2 & _). by rewrite H1. }
  split; rewrite ?E2, ?E3, ?E4; try done.
  - intros i x Hx. destruct (ln_key0 i x Hx) as (y & Hy & E & L). destruct (Hj i y Hy) as (z & Hz & E' & L'). exists z.
    rewrite E'. split_and!; [done|done|lia].
  - intros k i Hk. destruct (ln_hooks0 k i Hk) as (y & Hy & E). destruct (Hj i y Hy) as (z & Hz & E' & _). exists z. by rewrite E'.
  - intros i x. rewrite E1. intros (y & Hy & [(-> & ->)|(_ & ->)])%alter_lookup; [by apply Hf|by apply (ln_lists0 i)].
  - intros id n i Hn Hi. destruct (ln_anims0 id n i Hn Hi) as (y & Hy & E). destruct (Hj i y Hy) as (z & Hz & E' & _). exists z. by rewrite E'.
Qed.

Lemma linked_new_hooks k w : linked w0 w ->
  linked w0 (set_heap (w_heap w ++ [Hooks k None (Waiting [RemoveData]) None]) (set_hooks (<[k := length (w_heap w)]> (w_hooks w)) w)).
Proof.
  intros []. destruct w as [a b c heap]. cbn in *. split; cbn in *; try done.
  - intros h x Hx. destruct (ln_key0 h x Hx) as (y & Hy & E). exists y. split; [by apply lookup_app_l_Some|done].
  - intros j h Hj. destruct (decide (j = k)) as [->|Hk].
    + rewrite lookup_insert_eq in Hj. injection Hj as <-. rewrite lookup_app_r, Nat.sub_diag by done. eexists. by split.
    + rewrite lookup_insert_ne in Hj by done. destruct (ln_hooks0 j h Hj) as (x & Hx & E). exists x. split; [by apply lookup_app_l_Some|done].
  - intros h x [Hx|[_ Hx]]%lookup_app_Some; [by apply (ln_lists0 h)|]. apply list_lookup_singleton_Some in Hx as [_ <-]. by exists [].
  - intros id n h Hn Hh. destruct (ln_anims0 id n h Hn Hh) as (x & Hx & E). exists x. split; [by apply lookup_app_l_Some|done].
Qed.

Lemma linked_new_anim n w w' : w_anims w' = w_anims w ++ [n] -> w_heap w' = w_heap w -> w_hooks w' = w_hooks w ->
  w_promises w' = w_promises w -> fns n = [DeleteElem; DeleteElem] -> linked w0 w -> linked w0 w'.
Proof.
  intros E1 E2 E3 E4 Hf []. split; rewrite ?E1, ?E2, ?E3, ?E4; try done.
  - intros i m Hm. destruct (ln_this0 i m Hm) as (k & Hk & E). exists k. split; [by apply lookup_app_l_Some|done].
  - intros i m h [Hm|[_ Hm]]%lookup_app_Some Hh; [by apply (ln_anims0 i m h)|]. apply list_lookup_singleton_Some in Hm as [_ <-].
    rewrite Hf in Hh. exfalso. destruct Hh as [Hh|Hh]; not_member Hh.
Qed.
End linked.

(** The hooks that callbacks speak of are those of the fx queue of the element. *)
Definition leaves_of (w : world) (id : nat) (fs : list anim_fn) : Prop :=
  forall h, Leaving h ∈ fs \/ Left_ h ∈ fs ->
    exists x n, w_heap w !! h = Some x /\ w_anims w !! id = Some n /\ k_key x = (n_this n, "fx"%string).

Lemma leaves_of_from w0 w id fs : leaves_of w0 id fs -> linked w0 w -> leaves_of w id fs.
Proof.
  intros H Hw h Hh. destruct (H h Hh) as (x & n & Hx & Hn & E). destruct (ln_key _ _ Hw h x Hx) as (y & Hy & E' & _).
  destruct (ln_this _ _ Hw id n Hn) as (m & Hm & E'' & _). exists y, m. by rewrite E', E''.
Qed.

Lemma callback_plain w id f g : leaves_of w id (callback f ++ match g with true => [Complete] | false => [] end).
Proof. intros h [H|H]; destruct f, g; cbn in H; not_member H. Qed.

Lemma nil_plain w id : leaves_of w id [].
Proof. intros h [H|H]; by apply elem_of_nil in H. Qed.

Lemma in_list ok n g : g ∈ anim_list (get_list ok n) -> g ∈ fns n.
Proof. unfold get_list, fns. destruct ok; intros Hg; apply elem_of_app; auto. Qed.

(** A list of callbacks of an animation changes. *)
Lemma linked_set_list id ok l fs f w0 w n : w_anims w !! id = Some n -> leaves_of w id fs ->
  (forall m, n_this (f m) = n_this m /\ n_opts (f m) = n_opts m /\ fns (f m) ⊆ fns m) ->
  (forall g, g ∈ anim_list l -> g ∈ fs \/ g ∈ fns n) ->
  linked w0 w -> linked w0 (on_anim id (fun m => f (set_list ok l m)) w).
Proof.
  intros Hn Hfs Hf Hl Hw. apply (linked_on_anim w0 id (fun m => f (set_list ok l m)) w); [by destruct w..| |done].
  intros m Hm. rewrite Hn in Hm. injection Hm as <-.
  destruct (Hf (set_list ok l n)) as (H1 & H1' & H2). split; [rewrite H1; by destruct n, ok|]. split; [rewrite H1'; by destruct n, ok|]. intros h Hh.
  assert (forall g, g ∈ fns (f (set_list ok l n)) -> g ∈ fs \/ g ∈ fns n) as H3.
  { intros g Hg%H2. unfold fns in Hg. destruct n, ok; cbn in *; apply elem_of_app in Hg as [Hg|Hg]; auto; right; unfold fns; cbn; apply elem_of_app; auto. }
  destruct Hh as [Hh|Hh]; destruct (H3 _ Hh) as [Hin|Hin]; auto; right; right; destruct (Hfs h) as (x & m & Hx & Hm & E); auto;
    rewrite Hn in Hm; injection Hm as <-; eauto.
Qed.

(** ** What functions of the library keep *)

Definition keeps {A} (I E : world -> Prop) (e : st_ex world A) : Prop := triple I e (fun _ => I) E.

Definition neutral (x : event) : Prop := match x with LSettle _ _ | LNote _ => True | _ => False end.

(** What [pre] says a call finds: the hooks whose data is to be removed have an empty queue. *)
Definition pre (c : call) (w : world) : Prop :=
  match c with
  | CEmpty h => forall x l, w_heap w !! h = Some x -> k_empty x = Firing (RemoveData :: l) -> default [] (w_queue w !! k_key x) = []
  | _ => True
  end.

(** An invariant, and what is left of it by an exception. *)
Record kept (go : call -> st_ex world unit) (I E : world -> Prop) : Prop := {
  kp_drop w : I w -> E w;
  kp_same f : (forall w, w_queue (f w) = w_queue w /\ w_hooks (f w) = w_hooks w /\ w_heap (f w) = w_heap w /\ w_anims (f w) = w_anims w /\
    w_promises (f w) = w_promises w /\ w_log (f w) = w_log w /\ w_timeouts (f w) = w_timeouts w /\ w_held (f w) = w_held w) ->
    forall w, I w -> I (f w);
  kp_note x w : neutral x -> I w -> I (write [x] w);
  kp_anim id f : (forall n, n_this (f n) = n_this n /\ n_opts (f n) = n_opts n /\ n_done (f n) = n_done n /\ n_fail (f n) = n_fail n) ->
    forall w, I w -> I (on_anim id f w);
  kp_hooks h f : (forall x, k_key (f x) = k_key x /\ k_empty (f x) = k_empty x) -> forall w, I w -> I (on_hooks h f w);
  kp_timeout i w : I w -> I (clearTimeout i w);
  kp_user f : keeps I E (go (CUser f None));
  kp_ticks i : keeps I E (go (CTicks i));
  kp_settle id ok : keeps I E (settle go id ok)
}.

Section rules.
Context (I E : world -> Prop).

Lemma keep_ret {A} (a : A) : keeps I E (sret a).
Proof. by apply triple_ret. Qed.
Lemma keep_get {A} (f : world -> A) : keeps I E (sget f).
Proof. by intros w Hw. Qed.
Lemma keep_bind {A B} (e : st_ex world A) (k : A -> st_ex world B) : keeps I E e -> (forall a, keeps I E (k a)) -> keeps I E (sbind e k).
Proof. intros He Hk. by eapply triple_bind. Qed.
Lemma keep_when b e : keeps I E e -> keeps I E (swhen b e).
Proof. intros H. destruct b; [done|apply keep_ret]. Qed.
Lemma keep_modify f : (forall w, I w -> I (f w)) -> keeps I E (smodify f).
Proof. intros H. by apply triple_modify. Qed.

(** A value read at a state of the invariant. *)
Lemma keep_read {A B} (f : world -> A) (k : A -> st_ex world B) :
  (forall w, I w -> leaves (k (f w) w) (fun _ => I) E) -> keeps I E (sbind (sget f) k).
Proof. intros H w. apply H. Qed.

Lemma with_anim_keeps id f : (forall n w, w_anims w !! id = Some n -> I w -> leaves (f n w) (fun _ => I) E) -> keeps I E (with_anim id f).
Proof. intros H. apply keep_read. intros w Hw. destruct (w_anims w !! id) as [n|] eqn:En; [by apply H|done]. Qed.
End rules.

Section library.
Context (cos : double -> double) (go : call -> st_ex world unit) (I E : world -> Prop) (K : kept go I E).

Lemma keep_throw {A} msg : keeps I E (@sthrow world A msg).
Proof using K. apply triple_throw, (kp_drop _ _ _ K). Qed.

Lemma keep_same f : (forall w, w_queue (f w) = w_queue w /\ w_hooks (f w) = w_hooks w /\ w_heap (f w) = w_heap w /\ w_anims (f w) = w_anims w /\
  w_promises (f w) = w_promises w /\ w_log (f w) = w_log w /\ w_timeouts (f w) = w_timeouts w /\ w_held (f w) = w_held w) -> keeps I E (smodify f).
Proof using K. intros H. by apply keep_modify, (kp_same _ _ _ K). Qed.

Lemma keep_anim id f : (forall n, n_this (f n) = n_this n /\ n_opts (f n) = n_opts n /\ n_done (f n) = n_done n /\ n_fail (f n) = n_fail n) ->
  keeps I E (smodify (on_anim id f)).
Proof using K. intros H. by apply keep_modify, (kp_anim _ _ _ K). Qed.

Lemma keep_hooks h f : (forall x, k_key (f x) = k_key x /\ k_empty (f x) = k_empty x) -> keeps I E (smodify (on_hooks h f)).
Proof using K. intros H. by apply keep_modify, (kp_hooks _ _ _ K). Qed.

Lemma keep_note x : neutral x -> keeps I E (smodify (write [x])).
Proof using K. intros H. apply keep_modify. intros w. by apply (kp_note _ _ _ K). Qed.

Lemma user_keeps f : keeps I E (user go f).
Proof using K. destruct f; [apply (kp_user _ _ _ K)|apply keep_ret]. Qed.

Lemma notify_keeps id : keeps I E (notify go id).
Proof using K.
  apply with_anim_keeps. intros n w Hn Hw. destruct (n_locked n); [done|].
  refine (keep_bind I E _ _ _ _ _ Hw); [apply keep_anim; by intros []|]. intros []. apply user_keeps.
Qed.

Lemma add_progress_keeps id f : keeps I E (add_progress go id f).
Proof using K.
  apply with_anim_keeps. intros n w Hn Hw. refine (keep_bind I E _ _ _ _ _ Hw); [apply keep_anim; by intros []|].
  intros []. apply keep_when, user_keeps.
Qed.

Lemma fx_now_keeps : keeps I E fx_now.
Proof using K.
  intros w Hw. unfold fx_now. destruct (w_fxNow w); [done|].
  apply (kp_same _ _ _ K (fun w => set_fxNow (Some (w_clock w)) (set_forget (S (w_forget w)) w))); [|done]. by intros [].
Qed.

Lemma run_keeps id i percent : keeps I E (run cos go id i percent).
Proof using K.
  apply with_anim_keeps. intros n w _. revert w. fold (keeps I E (A := unit)).
  refine (_ : keeps I E _). destruct (n_tweens n !! i); [|apply keep_ret]. destruct (if decide _ then _ else _); [|apply keep_throw]. cbn zeta.
  apply keep_bind; [apply keep_anim; by intros []|]. intros []. apply keep_bind; [apply user_keeps|]. intros [].
  apply keep_same. by intros [].
Qed.

Lemma run_tweens_keeps id percent l : keeps I E (run_tweens cos go id percent l).
Proof using K. induction l as [|i l IH]; [apply keep_ret|]. apply keep_bind; [apply run_keeps|]. by intros []. Qed.

Lemma tick_keeps id : keeps I E (tick cos go id).
Proof using K.
  apply keep_bind; [apply keep_get|]. intros [n|]; [|apply keep_ret]. destruct (n_stopped n); [apply keep_ret|].
  apply keep_bind; [apply fx_now_keeps|]. intros t. apply keep_bind; [apply run_tweens_keeps|]. intros [].
  apply keep_bind; [apply notify_keeps|]. intros []. destruct (_ && _); [apply keep_ret|].
  apply keep_bind; [apply (kp_settle _ _ _ K)|]. intros []. apply keep_ret.
Qed.

Lemma anim_stop_keeps id gotoEnd : keeps I E (anim_stop cos go id gotoEnd).
Proof using K.
  apply with_anim_keeps. intros n w _ Hw. destruct (n_stopped n); [done|]. refine (keep_bind I E _ _ _ _ _ Hw); [apply keep_anim; by intros []|].
  intros []. apply keep_bind; [destruct gotoEnd; [apply run_tweens_keeps|apply keep_ret]|]. intros []. apply (kp_settle _ _ _ K).
Qed.

Lemma fx_timer_keeps id : keeps I E (fx_timer cos go id).
Proof using K.
  apply keep_bind; [apply keep_same; by intros []|]. intros []. apply keep_bind; [apply tick_keeps|]. intros r.
  destruct (decide _); apply keep_same; by intros [].
Qed.

Lemma create_tweens_keeps e id props : keeps I E (create_tweens e id props).
Proof using K.
  induction props as [|p props IH]; [apply keep_ret|]. apply keep_bind; [|by intros []].
  apply keep_bind; [apply keep_get|]. intros t. apply keep_anim. by intros [].
Qed.

Lemma clearTimeout_keeps i : keeps I E (smodify (clearTimeout i)).
Proof using K. apply keep_modify, (kp_timeout _ _ _ K). Qed.

Lemma stop_queues_keeps l : keeps I E (stop_queues l).
Proof using K.
  induction l as [|h l IH]; [apply keep_ret|]. apply keep_bind; [|by intros []].
  apply keep_bind; [apply keep_get|]. intros [i|]; [|apply keep_ret]. apply keep_bind; [apply keep_hooks; by intros []|].
  intros []. apply clearTimeout_keeps.
Qed.

Lemma stop_timers_keeps which gotoEnd i : keeps I E (stop_timers cos go which gotoEnd i).
Proof using K.
  induction i as [|i IH]; [apply keep_ret|]. apply keep_bind; [apply keep_get|]. intros [id|]; [|apply keep_throw].
  apply keep_bind; [apply keep_get|]. intros n. destruct (from_option which false n); [|done].
  apply keep_bind; [apply anim_stop_keeps|]. intros []. apply keep_bind; [apply keep_same; by intros []|]. intros [].
  apply keep_bind; [done|]. intros _. apply keep_ret.
Qed.

Lemma finish_queue_keeps e q : (forall props o, Fun (DoAnimation props o) ∈ q -> keeps I E (doAnimation cos go e props o)) ->
  keeps I E (finish_queue cos go e q).
Proof using K.
  induction q as [|[|[f|props o|time]] q IH]; intros Hq; cbn [finish_queue]; [apply keep_ret|..];
    try (apply IH; intros ? ? ?; apply Hq; by right).
  apply keep_bind; [apply Hq; left|]. intros []. apply IH. intros ? ? ?. apply Hq. by right.
Qed.

Lemma ticks_keeps i : keeps I E (ticks cos go i).
Proof using K.
  apply keep_bind; [apply keep_get|]. intros [id|]; [|apply keep_ret]. apply keep_bind; [apply tick_keeps|]. intros r.
  apply keep_bind; [apply keep_get|]. intros same. destruct (_ && _); [|apply (kp_ticks _ _ _ K)].
  apply keep_bind; [apply keep_same; by intros []|]. intros []. apply (kp_ticks _ _ _ K).
Qed.

Lemma fx_tick_keeps : keeps I E (fx_tick go).
Proof using K.
  apply keep_bind; [apply keep_same; by intros []|]. intros []. apply keep_bind; [apply (kp_ticks _ _ _ K)|]. intros [].
  apply keep_bind; [apply keep_get|]. intros b. apply keep_bind; [apply keep_when, keep_same; by intros []|]. intros [].
  apply keep_same. by intros [].
Qed.
End library.
