(* ===== verification/EffectsSpec.v ===== *)
(** * jQuery: queues and effects, their invariants

    The log of a session, read from the left, is a session of a queue that is a list: [replay].  Promises are counted: [m_count] is at least
    the number of callbacks that wait for an empty queue.  Both hold whatever scripts do, and whatever is thrown. *)

From S2P Require Import Prelude Doubles.
From Stdlib Require Import ZArith Lia SpecFloat.
From stdpp Require Import gmap strings.
From S2P Require Import Effects EffectsRules.

Local Open Scope Z_scope.

#[local] Arguments Prelude.total : simpl never.

(** ** The queue of a log *)

#[global] Instance double_eq_dec : EqDecision double.
Proof. unfold double. solve_decision. Defined.
#[global] Instance value_eq_dec : EqDecision value.
Proof. solve_decision. Defined.
#[global] Instance speed_eq_dec : EqDecision speed.
Proof. solve_decision. Defined.
#[global] Instance opts_eq_dec : EqDecision opts.
Proof. solve_decision. Defined.
#[global] Instance func_eq_dec : EqDecision func.
Proof. solve_decision. Defined.
#[global] Instance hook_fn_eq_dec : EqDecision hook_fn.
Proof. solve_decision. Defined.
#[global] Instance item_eq_dec : EqDecision item.
Proof. solve_decision. Defined.
#[global] Instance event_eq_dec : EqDecision event.
Proof. solve_decision. Defined.

(** A function is put at the end, an array takes the place of the queue, the function that is called is the first. *)
Definition replay1 (k : key) (q : option (list func)) (x : event) : option (list func) :=
  match x with
  | LQueue k' f => if decide (k' = k) then (fun q => q ++ [f]) <$> q else q
  | LSet k' fs => if decide (k' = k) then (fun _ => fs) <$> q else q
  | LCall k' f =>
      if decide (k' = k) then
        match q with Some (g :: q) => if decide (g = f) then Some q else None | _ => None end
      else q
  | _ => q
  end.

Definition replay (k : key) (l : list event) : option (list func) := foldl (replay1 k) (Some []) l.

(** The functions of an array. *)
Definition funcs (q : list item) : list func := omap (fun x => match x with Fun f => Some f | InProgress => None end) q.
Definition waiting (k : key) (w : world) : list func := funcs (default [] (w_queue w !! k)).

(** What an array holds: functions, behind the sentinel perhaps when the queue is the fx queue. *)
Definition shape (k : key) (q : list item) : Prop :=
  exists fs, q = Fun <$> fs \/ k.2 = "fx"%string /\ q = InProgress :: (Fun <$> fs).

(** ** The story of promises *)

Definition allowed (past : list event) (x : event) : Prop :=
  match x with
  | LResolve p => LResolve p ∉ past /\ forall h, LWait p h ∈ past -> LEmpty h ∈ past
  | LWait p h => LResolve p ∉ past
  | _ => True
  end.

Definition story (l : list event) : Prop := forall i x, l !! i = Some x -> allowed (take i l) x.

Lemma story_snoc l x : story l -> allowed l x -> story (l ++ [x]).
Proof.
  intros Hl Hx i y. destruct (decide (i < length l)%nat) as [Hi|Hi].
  - rewrite lookup_app_l, take_app_le by lia. apply Hl.
  - rewrite lookup_app_r by lia. intros E. assert (i - length l = O)%nat as E0 by (apply lookup_lt_Some in E; cbn in E; lia).
    rewrite E0 in E. injection E as <-. assert (i = length l) as -> by lia. by rewrite take_app_length.
Qed.

Lemma story_neutral l k : (forall x p h, x ∈ k -> x <> LResolve p /\ x <> LWait p h) -> story l -> story (l ++ k).
Proof.
  revert l. induction k as [|x k IH]; intros l Hk Hl; [by rewrite app_nil_r|]. rewrite cons_middle, app_assoc. apply IH.
  - intros y p h Hy. apply Hk. by right.
  - apply story_snoc; [done|]. destruct x; try done.
    + by destruct (Hk (LWait p h) p h ltac:(left)) as [_ []].
    + by destruct (Hk (LResolve p) p 0%nat ltac:(left)) as [[] _].
Qed.

(** ** The invariant *)

Definition count (p : nat) (l : list hook_fn) : nat := length (filter (fun f => f = Resolve p) l).
Lemma count_app p l k : count p (l ++ k) = (count p l + count p k)%nat.
Proof. unfold count. by rewrite filter_app, length_app. Qed.
Lemma count_remove p l : count p (RemoveData :: l) = count p l.
Proof. unfold count. by rewrite filter_cons_False. Qed.
Lemma count_resolve p q : count p [Resolve q] = if decide (p = q) then 1%nat else 0%nat.
Proof. unfold count. case_decide; [subst; by rewrite filter_cons_True|rewrite filter_cons_False; [done|congruence]]. Qed.
Lemma count_in p l : Resolve p ∈ l -> (0 < count p l)%nat.
Proof. intros H. unfold count. destruct (filter _ l) eqn:E; [|cbn; lia]. exfalso. by eapply filter_nil_not_elem_of. Qed.
Definition pending (p : nat) (w : world) : nat := Prelude.total (fun _ x => count p (hook_list (k_empty x))) (w_heap w).

(** [F] counts the calls of [resolve] that functions of the library still have to make. *)
Record inv (F : nat -> nat) (w0 w : world) : Prop := {
  inv_linked : linked w0 w;
  inv_frames p : (0 < F p)%nat -> (p < length (w_promises w))%nat;
  inv_replay k : replay k (w_log w) = Some (waiting k w);
  inv_shape k q : w_queue w !! k = Some q -> shape k q;
  inv_known h x p : w_heap w !! h = Some x -> Resolve p ∈ hook_list (k_empty x) -> (p < length (w_promises w))%nat;
  inv_count p m : w_promises w !! p = Some m -> Z.of_nat (pending p w + F p) <= m_count m;
  inv_over p m : w_promises w !! p = Some m -> m_resolved m = true -> m_count m <= 0;
  inv_wait p h : LWait p h ∈ w_log w -> exists x, w_heap w !! h = Some x /\ forall l, k_empty x = Waiting l -> Resolve p ∈ l;
  inv_empty h x : w_heap w !! h = Some x -> (exists l, k_empty x = Waiting l) \/ LEmpty h ∈ w_log w;
  inv_resolved p : LResolve p ∈ w_log w -> exists m, w_promises w !! p = Some m /\ m_resolved m = true;
  inv_story : story (w_log w)
}.

Definition none : nat -> nat := fun _ => O.

Section changes.
Context (F : nat -> nat) (w0 : world).

Lemma inv_le F' w : (forall p, (F' p <= F p)%nat) -> inv F w0 w -> inv F' w0 w.
Proof.
  intros HF []. split; try done.
  - intros p Hp. apply inv_frames0. specialize (HF p). lia.
  - intros p m Hm. specialize (inv_count0 p m Hm). specialize (HF p). lia.
Qed.

Lemma inv_drop w : inv F w0 w -> inv none w0 w.
Proof. apply inv_le. intros p. unfold none. lia. Qed.

Lemma inv_start w : inv F w0 w -> inv F w w.
Proof. intros []. split; try done. by eapply linked_start. Qed.

Lemma inv_trans w w' : inv F w0 w -> inv F w w' -> inv F w0 w'.
Proof. intros H []. split; try done. eapply linked_trans; [by apply (inv_linked _ _ _ H)|done]. Qed.

(** Changes of what the invariant does not speak of. *)
Lemma inv_unchanged w w' : w_queue w' = w_queue w -> w_hooks w' = w_hooks w -> w_heap w' = w_heap w -> linked w0 w' ->
  w_promises w' = w_promises w -> w_log w' = w_log w -> inv F w0 w -> inv F w0 w'.
Proof. intros E1 E2 E3 E4 E5 E6 []. split; unfold waiting, pending in *; rewrite ?E1, ?E2, ?E3, ?E5, ?E6; done. Qed.

Lemma replay_neutral k l q : Forall neutral l -> foldl (replay1 k) q l = q.
Proof. induction 1 as [|x l Hx Hl IH]; [done|]. cbn. rewrite <- IH at 2. f_equal. by destruct x. Qed.

Lemma inv_write l w : Forall neutral l -> inv F w0 w -> inv F w0 (write l w).
Proof.
  intros Hl []. assert (forall x, x ∈ l -> neutral x) as Hn by by apply Forall_forall.
  assert (linked w0 (write l w)) as Hlk by (apply (linked_same w0 w); by destruct w).
  destruct w. cbn in *. split; unfold waiting, pending, replay in *; cbn in *; try done.
  - intros k. by rewrite foldl_app, replay_neutral.
  - intros p h [H|[]%Hn]%elem_of_app. by apply inv_wait0.
  - intros h x Hx. destruct (inv_empty0 h x Hx); [by left|right]. apply elem_of_app. by left.
  - intros p [H|[]%Hn]%elem_of_app. by apply inv_resolved0.
  - apply story_neutral; [|done]. intros x p h Hx. apply Hn in Hx. by destruct x.
Qed.

(** Changes of hooks that keep their key and their callbacks. *)
Lemma inv_on_hooks h f w : (forall x, k_key (f x) = k_key x /\ k_empty (f x) = k_empty x) -> inv F w0 w -> inv F w0 (on_hooks h f w).
Proof.
  intros Hf Hw. pose proof Hw as [].
  assert (linked w0 (on_hooks h f w)) as Hlk.
  { apply (linked_on_hooks w0 h f w); try by destruct w. intros x Hx. destruct (Hf x) as [-> ->]. split_and!; [done|done|]. by apply (ln_lists _ _ inv_linked0 h). }
  assert (forall i x, alter f h (w_heap w) !! i = Some x -> exists y, w_heap w !! i = Some y /\ k_empty x = k_empty y) as Hi.
  { intros i x (y & Hy & [(-> & ->)|(_ & ->)])%alter_lookup; [|eauto]. exists y. by destruct (Hf y) as [_ ->]. }
  assert (forall p, pending p (on_hooks h f w) = pending p w) as Hp.
  { intros p. unfold pending. destruct w as [a b c heap]. cbn. destruct (heap !! h) as [x|] eqn:E.
    - pose proof (total_alter (fun _ x => count p (hook_list (k_empty x))) f h heap x E) as Hs. cbn beta in Hs. destruct (Hf x) as [_ Hx]. rewrite Hx in Hs. lia.
    - by rewrite alter_none. }
  destruct w. cbn in *. split; unfold waiting in *; cbn in *; try done.
  - intros i x p (y & Hy & ->)%Hi. by apply (inv_known0 i y).
  - intros p m Hm. rewrite Hp. by apply inv_count0.
  - intros p i Hw'. destruct (inv_wait0 p i Hw') as (y & Hy & Hl).
    destruct (lookup_alter_some f h _ i y Hy) as (z & Hz & [(-> & ->)|(_ & ->)]); [|eauto]. exists (f y). by destruct (Hf y) as [_ ->].
  - intros i x (y & Hy & ->)%Hi. by apply (inv_empty0 i y).
Qed.

(** The array of one queue changes, and something is written of it. *)
Lemma inv_queue k q evs w w' :
  w_queue w' = partial_alter (fun _ => q) k (w_queue w) -> w_heap w' = w_heap w -> w_anims w' = w_anims w ->
  w_promises w' = w_promises w -> w_log w' = w_log w ++ evs ->
  (forall j h, w_hooks w' !! j = Some h -> w_hooks w !! j = Some h) ->
  (forall l, q = Some l -> shape k l) ->
  foldl (replay1 k) (Some (waiting k w)) evs = Some (funcs (default [] q)) ->
  (forall j r, j <> k -> foldl (replay1 j) r evs = r) ->
  (forall x p h, x ∈ evs -> x <> LResolve p /\ x <> LWait p h) ->
  inv F w0 w -> inv F w0 w'.
Proof.
  intros E1 E2 E3 E4 E5 Hh Hs Hr Hn He []. split; unfold pending in *; rewrite ?E2, ?E4, ?E5; try done.
  - apply (linked_same w0 w); [done|done|by rewrite E4|done|done].
  - intros j. unfold replay in *. rewrite foldl_app, inv_replay0. unfold waiting at 2. rewrite E1. destruct (decide (j = k)) as [->|Hj].
    + by rewrite lookup_partial_alter_eq.
    + rewrite lookup_partial_alter_ne by done. by apply Hn.
  - intros j l. rewrite E1. destruct (decide (j = k)) as [->|Hj]; [rewrite lookup_partial_alter_eq; apply Hs|].
    rewrite lookup_partial_alter_ne by done. apply inv_shape0.
  - intros p h [H|H]%elem_of_app; [by apply inv_wait0|]. by destruct (He _ p h H) as [_ []].
  - intros h x Hx. destruct (inv_empty0 h x Hx); [by left|right]. apply elem_of_app. by left.
  - intros p [H|H]%elem_of_app; [by apply inv_resolved0|]. by destruct (He _ p 0%nat H) as [[] _].
  - by apply story_neutral.
Qed.

Lemma inv_new_hooks k w : inv F w0 w ->
  inv F w0 (set_heap (w_heap w ++ [Hooks k None (Waiting [RemoveData]) None]) (set_hooks (<[k := length (w_heap w)]> (w_hooks w)) w)).
Proof.
  intros []. pose proof (linked_new_hooks w0 k w inv_linked0) as Hlk.
  assert (forall h x, (w_heap w ++ [Hooks k None (Waiting [RemoveData]) None]) !! h = Some x ->
    w_heap w !! h = Some x \/ x = Hooks k None (Waiting [RemoveData]) None) as Hi.
  { intros h x [H|[_ H]]%lookup_app_Some; [by left|right]. by apply list_lookup_singleton_Some in H as [_ <-]. }
  destruct w as [a b c heap]. cbn in *. split; unfold waiting, pending in *; cbn in *; try done.
  - intros h x p [Hx| ->]%Hi; [by apply (inv_known0 h)|]. cbn. intros [?|[]%elem_of_nil]%elem_of_cons. done.
  - intros p m Hm. rewrite total_app. cbn [k_empty hook_list]. rewrite count_remove. specialize (inv_count0 p m Hm). cbn in *. lia.
  - intros p h Hw. destruct (inv_wait0 p h Hw) as (x & Hx & E). exists x. split; [by apply lookup_app_l_Some|done].
  - intros h x [Hx| ->]%Hi; [by apply (inv_empty0 h)|]. left. eauto.
Qed.
End changes.

(** The callbacks of hooks change, a call moves between them and the functions of the library, and something is written. *)
Lemma inv_set_empty F F' w0 h x l evs w w' :
  w_queue w' = w_queue w -> w_hooks w' = w_hooks w -> w_heap w' = alter (set_empty l) h (w_heap w) -> w_anims w' = w_anims w ->
  w_promises w' = w_promises w -> w_log w' = w_log w ++ evs ->
  w_heap w !! h = Some x -> hook_list_ok l -> (stage (k_empty x) <= stage l)%nat ->
  (forall p, count p (hook_list l) + F' p <= count p (hook_list (k_empty x)) + F p)%nat ->
  (forall p, Resolve p ∈ hook_list l -> (p < length (w_promises w))%nat) ->
  (forall p, (0 < F' p)%nat -> (p < length (w_promises w))%nat) ->
  (forall k, l = Waiting k -> exists k', k_empty x = Waiting k' /\ forall p, Resolve p ∈ k' -> Resolve p ∈ k) ->
  (exists k, l = Waiting k) \/ LEmpty h ∈ w_log w ++ evs ->
  evs = [] \/ evs = [LEmpty h] \/ (exists p, evs = [LWait p h] /\ (0 < F p)%nat /\ (p < length (w_promises w))%nat /\ forall k, l = Waiting k -> Resolve p ∈ k) ->
  inv F w0 w -> inv F' w0 w'.
Proof.
  intros E1 E2 E3 E4 E5 E6 Hx Hok Hst Hc Hk Hf Hw He Hevs [].
  assert (forall i y, w_heap w' !! i = Some y -> i = h /\ y = set_empty l x \/ i <> h /\ w_heap w !! i = Some y) as Hi.
  { intros i y. rewrite E3. destruct (decide (i = h)) as [->|E]; [|rewrite list_lookup_alter_ne by done; by right].
    rewrite list_lookup_alter_eq, Hx. intros [= <-]. by left. }
  assert (forall i y, w_heap w !! i = Some y -> exists z, w_heap w' !! i = Some z /\ k_key z = k_key y /\ (i = h /\ y = x /\ z = set_empty l x \/ i <> h /\ z = y)) as Hj.
  { intros i y Hy. rewrite E3. destruct (decide (i = h)) as [->|E].
    - rewrite list_lookup_alter_eq, Hy. eexists. split; [done|]. rewrite Hx in Hy. injection Hy as <-. destruct x. by split; [|left].
    - exists y. rewrite list_lookup_alter_ne by done. by split_and!; [| |right]. }
  assert (k_empty (set_empty l x) = l) as El by by destruct x.
  assert (linked w0 w') as Hlk.
  { apply (linked_on_hooks w0 h (set_empty l) w); try done. intros y Hy. rewrite Hx in Hy. injection Hy as <-. rewrite El. split_and!; [by destruct x|done|done]. }
  assert (forall k, foldl (replay1 k) (Some (waiting k w)) evs = Some (waiting k w)) as Hr.
  { intros k. destruct Hevs as [->|[->|(p & -> & _)]]; done. }
  assert (forall p, pending p w' + F' p <= pending p w + F p)%nat as Hp.
  { intros p. unfold pending. rewrite E3. pose proof (total_alter (fun _ x => count p (hook_list (k_empty x))) (set_empty l) h (w_heap w) x Hx) as Hs.
    cbn beta in Hs. rewrite El in Hs. specialize (Hc p). lia. }
  split; unfold waiting in *; rewrite ?E1, ?E2, ?E4, ?E5, ?E6; try done.
  - intros k. unfold replay in *. by rewrite foldl_app, inv_replay0, Hr.
  - intros i y p [(-> & ->)|(_ & Hy)]%Hi; [rewrite El; apply Hk|by apply (inv_known0 i)].
  - intros p m Hm. specialize (inv_count0 p m Hm). specialize (Hp p). lia.
  - intros p i [Hl|Hl]%elem_of_app.
    + destruct (inv_wait0 p i Hl) as (y & Hy & Hy'). destruct (Hj i y Hy) as (z & Hz & _ & Hcase). exists z. split; [done|].
      destruct Hcase as [(-> & -> & ->)|(_ & ->)]; [|done]. rewrite El. intros k ->. destruct (Hw k eq_refl) as (k' & E & Hin). auto.
    + destruct Hevs as [->|[->|(q & -> & _ & _ & Hq)]].
      * by apply elem_of_nil in Hl.
      * by apply list_elem_of_singleton in Hl.
      * apply list_elem_of_singleton in Hl as [= -> ->]. destruct (Hj h x Hx) as (z & Hz & _ & [(_ & _ & ->)|([] & _)]); [|done].
        exists (set_empty l x). by rewrite El.
  - intros i y [(-> & ->)|(_ & Hy)]%Hi; [by rewrite El|]. destruct (inv_empty0 i y Hy) as [?|?]; [by left|right]. apply elem_of_app. by left.
  - intros p [Hl|Hl]%elem_of_app; [by apply inv_resolved0|].
    destruct Hevs as [->|[->|(q & -> & _)]]; [by apply elem_of_nil in Hl|by apply list_elem_of_singleton in Hl|by apply list_elem_of_singleton in Hl].
  - destruct Hevs as [->|[->|(q & -> & Hq & Hlen & _)]]; [by rewrite app_nil_r|by apply story_snoc|].
    apply story_snoc; [done|]. intros Hl. destruct (inv_resolved0 q Hl) as (m & Hm & Hres). specialize (inv_count0 q m Hm).
    specialize (inv_over0 q m Hm Hres). lia.
Qed.

(** The hooks of an element that has a promise. *)
Definition inc (F : nat -> nat) (p q : nat) : nat := if decide (q = p) then S (F q) else F q.

Lemma inc_eq F p : inc F p p = S (F p).
Proof. unfold inc. by rewrite decide_True. Qed.
Lemma inc_le F p q : (F q <= inc F p q)%nat.
Proof. unfold inc. case_decide; lia. Qed.
Lemma count_inc F p q : inc F p q = (count q [Resolve p] + F q)%nat.
Proof. unfold inc. rewrite count_resolve. repeat case_decide; lia. Qed.

(** The count of a promise changes with the calls it waits for. *)
Lemma inv_on_promise F F' w0 p f evs w w' :
  w_queue w' = w_queue w -> w_hooks w' = w_hooks w -> w_heap w' = w_heap w -> w_anims w' = w_anims w ->
  w_promises w' = alter f p (w_promises w) -> w_log w' = w_log w ++ evs ->
  (forall q, q <> p -> F' q = F q) ->
  (forall m, w_promises w !! p = Some m -> m_count (f m) - Z.of_nat (F' p) >= m_count m - Z.of_nat (F p) /\
    (m_resolved m = true -> m_resolved (f m) = true) /\
    (m_resolved (f m) = true -> m_resolved m = true /\ m_count (f m) <= m_count m \/ m_count (f m) = 0)) ->
  ((0 < F' p)%nat -> (p < length (w_promises w))%nat) ->
  evs = [] \/ (evs = [LResolve p] /\ F' p = O /\ exists m, w_promises w !! p = Some m /\ m_count m <= Z.of_nat (F p) /\ m_resolved m = false /\ m_resolved (f m) = true) ->
  inv F w0 w -> inv F' w0 w'.
Proof.
  intros E1 E2 E3 E4 E5 E6 Hq Hm Hlt Hevs H. pose proof H as [].
  assert (length (w_promises w') = length (w_promises w)) as El by by rewrite E5, length_alter.
  assert (forall q m, w_promises w' !! q = Some m -> exists m0, w_promises w !! q = Some m0 /\ (q = p /\ m = f m0 \/ q <> p /\ m = m0)) as Hi.
  { intros q m. rewrite E5. destruct (decide (q = p)) as [->|E].
    - rewrite list_lookup_alter_eq. destruct (_ !! p) as [m0|]; [|done]. intros [= <-]. exists m0. split; [done|by left].
    - rewrite list_lookup_alter_ne by done. intros Hm'. exists m. split; [done|by right]. }
  assert (forall k, foldl (replay1 k) (Some (waiting k w)) evs = Some (waiting k w)) as Hr by (by destruct Hevs as [->|(-> & _)]).
  split; unfold waiting, pending in *; rewrite ?E1, ?E2, ?E3, ?E4, ?E6, ?El; try done.
  - apply (linked_same w0 w); [done|done|lia|by rewrite E2|done].
  - intros q Hpos. destruct (decide (q = p)) as [->|E]; [by apply Hlt|]. rewrite Hq in Hpos by done. by apply inv_frames0.
  - intros k. unfold replay in *. by rewrite foldl_app, inv_replay0, Hr.
  - intros q m (m0 & H0 & [(-> & ->)|(Hne & ->)])%Hi.
    + destruct (Hm m0 H0) as [Hc _]. specialize (inv_count0 p m0 H0). lia.
    + rewrite Hq by done. by apply inv_count0.
  - intros q m (m0 & H0 & [(-> & ->)|(Hne & ->)])%Hi Hres; [|by apply (inv_over0 q)].
    destruct (Hm m0 H0) as (_ & _ & Hc). destruct (Hc Hres) as [[Hres0 Hle]|E]; [|lia]. specialize (inv_over0 p m0 H0 Hres0). lia.
  - intros q h [Hl|Hl]%elem_of_app; [by apply inv_wait0|].
    destruct Hevs as [->|(-> & _)]; [by apply elem_of_nil in Hl|by apply list_elem_of_singleton in Hl].
  - intros h x Hx. destruct (inv_empty0 h x Hx) as [?|?]; [by left|right]. apply elem_of_app. by left.
  - intros q [Hl|Hl]%elem_of_app.
    + destruct (inv_resolved0 q Hl) as (m & Hm' & Hres). rewrite E5. destruct (decide (q = p)) as [->|E].
      * rewrite list_lookup_alter_eq, Hm'. exists (f m). split; [done|]. by apply (Hm m Hm').
      * rewrite list_lookup_alter_ne by done. eauto.
    + destruct Hevs as [->|(-> & _ & m & Hm' & _ & _ & Hres)]; [by apply elem_of_nil in Hl|]. apply list_elem_of_singleton in Hl as [= ->].
      exists (f m). by rewrite E5, list_lookup_alter_eq, Hm'.
  - destruct Hevs as [->|(-> & HF & m & Hm' & Hc & Hres & Hres')]; [by rewrite app_nil_r|]. apply story_snoc; [done|].
    pose proof (inv_count0 p m Hm') as Hcount. split.
    + intros Hl. destruct (inv_resolved0 p Hl) as (m' & Hm'' & Hr'). rewrite Hm' in Hm''. injection Hm'' as <-. congruence.
    + intros h Hl. destruct (inv_wait0 p h Hl) as (x & Hx & Hin). destruct (inv_empty0 h x Hx) as [[l Hw]|He]; [|done].
      exfalso. assert (0 < count p (hook_list (k_empty x)))%nat as Hpos by (rewrite Hw; apply count_in, Hin, Hw).
      pose proof (total_le (fun _ x => count p (hook_list (k_empty x))) _ h x Hx) as Hle.
      cbn in *. lia.
Qed.

(** ** What functions of the library keep *)

Definition holds (F : nat -> nat) (w0 : world) {A} (e : st_ex world A) : Prop := keeps (inv F w0) (inv none w0) e.

(** What is kept from a state is kept from those before it. *)
Lemma holds_from {A} F w0 w (e : st_ex world A) : holds F w e -> inv F w0 w -> leaves (e w) (fun _ => inv F w0) (inv none w0).
Proof.
  intros He Hw. eapply leaves_impl; [apply He; by eapply inv_start| |].
  - intros a s. by apply inv_trans.
  - intros s. apply inv_trans. by eapply inv_drop.
Qed.

Definition calls_hold (go : call -> st_ex world unit) : Prop :=
  forall c F w0, triple (fun w => inv F w0 w /\ pre c w) (go c) (fun _ => inv F w0) (inv none w0).

Section library.
Context (fx_off : bool) (cos : double -> double) (code : nat -> list action) (go : call -> st_ex world unit).
Context (Hgo : calls_hold go).

Lemma go_holds c F w0 : (forall h, c <> CEmpty h) -> holds F w0 (go c).
Proof using Hgo. intros Hc w Hw. apply Hgo. split; [done|]. destruct c; try done. by destruct (Hc h). Qed.

Lemma user_holds f F w0 : holds F w0 (user go f).
Proof using Hgo. destruct f; [by apply go_holds|by apply triple_ret]. Qed.

(** ** Deferreds of animations *)

(** A list of callbacks of an animation changes. *)
Lemma inv_set_list id ok l fs f F w0 w n : w_anims w !! id = Some n -> leaves_of w id fs ->
  (forall m, n_this (f m) = n_this m /\ n_opts (f m) = n_opts m /\ fns (f m) ⊆ fns m) ->
  (forall g, g ∈ anim_list l -> g ∈ fs \/ g ∈ fns n) ->
  inv F w0 w -> inv F w0 (on_anim id (fun m => f (set_list ok l m)) w).
Proof.
  intros Hn Hfs Hf Hl Hw. apply (inv_unchanged F w0 w); try (by destruct w).
  apply (linked_set_list id ok l fs f w0 w n); try done. apply (inv_linked _ _ _ Hw).
Qed.

Lemma add_holds id ok fs F w0 : leaves_of w0 id fs -> holds F w0 (add go id ok fs).
Proof using Hgo.
  intros Hfs. apply with_anim_keeps. intros n w Hn Hw. pose proof (leaves_of_from _ _ _ _ Hfs (inv_linked _ _ _ Hw)) as Hfs'.
  pose proof (in_list ok n) as Hin. assert (forall m : animation, n_this m = n_this m /\ n_opts m = n_opts m /\ fns m ⊆ fns m) as Hid by done.
  destruct (get_list ok n) as [l|l| |] eqn:E.
  - apply (inv_set_list id ok (Waiting (l ++ fs)) fs (fun m => m) F w0 w n); auto. intros g [Hg|Hg]%elem_of_app; auto.
  - apply (inv_set_list id ok (Firing (l ++ fs)) fs (fun m => m) F w0 w n); auto. intros g [Hg|Hg]%elem_of_app; auto.
  - apply (go_holds (CFire id ok)); [done|]. apply (inv_set_list id ok (Firing fs) fs (fun m => m) F w0 w n); auto.
  - done.
Qed.

Lemma always_holds id fs F w0 : leaves_of w0 id fs -> holds F w0 (always go id fs).
Proof using Hgo. intros Hfs. apply keep_bind; [by apply add_holds|]. intros []. by apply add_holds. Qed.

(** What [settle] does before it calls. *)
Definition settled (ok : bool) (l : list anim_fn) (n : animation) : animation :=
  set_locked true (set_list (negb ok) Disabled (set_list ok (Firing l) n)).

Lemma settle_holds id ok F w0 : holds F w0 (settle go id ok).
Proof using Hgo.
  apply with_anim_keeps. intros n w Hn Hw. pose proof (in_list ok n) as Hin. destruct (get_list ok n) as [l|l| |] eqn:E; try done.
  apply (go_holds (CFire id ok) F w0); [done|]. apply inv_write; [by apply Forall_singleton|].
  apply (inv_set_list id ok (Firing l) [] (fun m => set_locked true (set_list (negb ok) Disabled m)) F w0 w n); auto using nil_plain.
  intros m. destruct m, ok; cbn; (split_and!; [done|done|]); unfold fns; cbn; intros g Hg; apply elem_of_app; [left|right];
    [by rewrite app_nil_r in Hg|done].
Qed.

Lemma lib_kept F w0 : kept go (inv F w0) (inv none w0).
Proof using Hgo.
  split.
  - intros w. apply inv_drop.
  - intros f Hf w. destruct (Hf w) as (E1 & E2 & E3 & E4 & E5 & E6 & _). intros Hw. apply (inv_unchanged F w0 w); try done.
    apply (linked_same w0 w); [done|done|by rewrite E5|by rewrite E2|by apply (inv_linked _ _ _ Hw)].
  - intros x w Hx. apply inv_write. by apply Forall_singleton.
  - intros id f Hf w Hw. apply (inv_unchanged F w0 w); try (by destruct w).
    apply (linked_on_anim w0 id f w); [by destruct w..| |by apply (inv_linked _ _ _ Hw)].
    intros n _. destruct (Hf n) as (H1 & H2 & H3 & H4). split_and!; [done|done|]. unfold fns. rewrite H3, H4. intros h [?|?]; auto.
  - intros h f Hf w. by apply inv_on_hooks.
  - intros i w Hw. apply (inv_unchanged F w0 w); try (by destruct w). apply (linked_same w0 w); [by destruct w..|by apply (inv_linked _ _ _ Hw)].
  - intros f. by apply go_holds.
  - intros i. by apply go_holds.
  - intros id ok. apply settle_holds.
Qed.

Lemma funcs_app q q' : funcs (q ++ q') = funcs q ++ funcs q'.
Proof. apply omap_app. Qed.
Lemma funcs_fmap fs : funcs (Fun <$> fs) = fs.
Proof. induction fs as [|f fs IH]; [done|]. cbn. f_equal. exact IH. Qed.

Lemma queue_push_holds k f F w0 : holds F w0 (queue_push k f).
Proof.
  intros w Hw. cbn. apply (inv_queue F w0 (k.1, or_fx k.2) (Some (default [] (w_queue w !! (k.1, or_fx k.2)) ++ [Fun f])) [LQueue (k.1, or_fx k.2) f] w); try by destruct w.
  - intros l [= <-]. destruct (w_queue w !! _) as [q|] eqn:E; cbn.
    + destruct (inv_shape _ _ _ Hw _ _ E) as [fs [->|[Hk ->]]]; exists (fs ++ [f]); rewrite fmap_app; [by left|by right].
    + exists [f]. by left.
  - cbn. rewrite decide_True by done. cbn. by rewrite funcs_app.
  - intros j r Hj. cbn. by rewrite decide_False.
  - intros x p h ->%list_elem_of_singleton. done.
Qed.

Lemma queue_set_holds k fs F w0 : holds F w0 (queue_set k fs).
Proof.
  intros w Hw. cbn. apply (inv_queue F w0 (k.1, or_fx k.2) (Some (Fun <$> fs)) [LSet (k.1, or_fx k.2) fs] w); try by destruct w.
  - intros l [= <-]. exists fs. by left.
  - cbn. rewrite decide_True by done. cbn. by rewrite funcs_fmap.
  - intros j r Hj. cbn. by rewrite decide_False.
  - intros x p h ->%list_elem_of_singleton. done.
Qed.

Lemma queueHooks_from k F w0 w : inv F w0 w ->
  leaves (queueHooks k w) (fun h w' => inv F w0 w' /\ (exists x, w_heap w' !! h = Some x /\ k_key x = k) /\ w_queue w' = w_queue w) (inv none w0).
Proof.
  intros Hw. unfold queueHooks. cbn. unfold sget, sbind. destruct (w_hooks w !! k) as [h|] eqn:E; cbn.
  - split_and!; [done| |done]. by apply (ln_hooks _ _ (inv_linked _ _ _ Hw)).
  - split; [by apply inv_new_hooks|]. split; [|by destruct w]. eexists. split; [destruct w; cbn; by rewrite lookup_app_r, Nat.sub_diag|done].
Qed.

Lemma queueHooks_holds k F w0 : holds F w0 (queueHooks k).
Proof. intros w Hw. eapply leaves_impl; [by apply queueHooks_from|by intros h s []|done]. Qed.

(** [hooks.empty.fire()] when the queue has no function. *)
Lemma fire_empty_holds h F w0 :
  triple (fun w => inv F w0 w /\ forall x, w_heap w !! h = Some x -> default [] (w_queue w !! k_key x) = []) (fire_empty go h) (fun _ => inv F w0) (inv none w0).
Proof using Hgo.
  intros w [Hw He]. unfold fire_empty. cbn. unfold sget, sbind at 1. destruct (w_heap w !! h) as [[k s l u]|] eqn:Eh; [|done].
  destruct l as [l|l| |]; [|done..]. destruct (bool_decide _); [|done]. cbn [swhen].
  destruct (ln_lists _ _ (inv_linked _ _ _ Hw) h _ Eh) as [ps El]. cbn in El.
  assert (inv F w0 (write [LEmpty h] (on_hooks h (set_empty (Firing l)) w))) as H1.
  { apply (inv_set_empty F F w0 h (Hooks k s (Waiting l) u) (Firing l) [LEmpty h] w); try by destruct w.
    - rewrite El. exists ps. by left.
    - rewrite El. cbn. lia.
    - intros p. apply (inv_known _ _ _ Hw h _ p Eh).
    - apply (inv_frames _ _ _ Hw).
    - right. apply elem_of_app. right. left.
    - by right; left. }
  apply (Hgo (CEmpty h)). split; [exact H1|]. intros x l' Hx _. destruct w as [a b c heap]. cbn in *.
  rewrite list_lookup_alter_eq, Eh in Hx. injection Hx as <-. apply (He _ eq_refl).
Qed.

(** ** Promises *)

Lemma resolve_holds p F w0 : triple (inv (inc F p) w0) (resolve go p) (fun _ => inv F w0) (inv none w0).
Proof using Hgo.
  unfold resolve. apply (triple_bind _ _ (fun _ => inv F w0)).
  - apply triple_modify. intros w Hw. apply (inv_on_promise (inc F p) F w0 p (fun m => Promise (m_count m - 1) (m_resolved m) (m_done m)) [] w); try by destruct w.
    + destruct w. by rewrite app_nil_r.
    + intros q Hq. unfold inc. by rewrite decide_False.
    + intros m Hm. cbn. rewrite inc_eq. split_and!; [lia|done|]. intros Hr. left. split; [done|lia].
    + intros Hp. apply (inv_frames _ _ _ Hw). rewrite inc_eq. lia.
    + by left.
  - intros []. apply keep_read. intros w Hw. destruct (w_promises w !! p) as [[[|c|c] [|] f]|] eqn:E; try done.
    assert (F p = O) as HF by (pose proof (inv_count _ _ _ Hw p _ E) as Hc; cbn in Hc; lia).
    apply (user_holds f F w0).
    apply (inv_on_promise F F w0 p (fun m => Promise (m_count m) true (m_done m)) [LResolve p] w); try by destruct w.
    + intros m Hm. rewrite E in Hm. injection Hm as <-. cbn. split_and!; [lia|done|]. by right.
    + apply (inv_frames _ _ _ Hw).
    + right. split_and!; [done|done|]. exists (Promise 0 false f). split_and!; [done|cbn; lia|done|done].
Qed.

(** A promise counts one more call, and waits for the hooks. *)
Lemma add_resolve_holds p h F w0 w : (0 < F p)%nat -> (p < length (w_promises w))%nat -> is_Some (w_heap w !! h) -> inv F w0 w ->
  leaves (add_resolve go p h w) (fun _ => inv F w0) (inv none w0).
Proof using Hgo.
  intros HF Hp [x Hx] Hw. unfold add_resolve.
  set (w1 := on_promise p (fun m => Promise (m_count m + 1) (m_resolved m) (m_done m)) w).
  assert (w_promises w1 = alter (fun m => Promise (m_count m + 1) (m_resolved m) (m_done m)) p (w_promises w)) as Ep by by destruct w.
  assert (inv (inc F p) w0 w1) as H1.
  { apply (inv_on_promise F (inc F p) w0 p (fun m => Promise (m_count m + 1) (m_resolved m) (m_done m)) [] w); try by destruct w.
    - destruct w. by rewrite app_nil_r.
    - intros q Hq. unfold inc. by rewrite decide_False.
    - intros m Hm. cbn. rewrite inc_eq. split_and!; [lia|done|]. intros Hr. exfalso.
      pose proof (inv_count _ _ _ Hw p m Hm). pose proof (inv_over _ _ _ Hw p m Hm Hr). lia.
    - by left. }
  assert (w_heap w1 !! h = Some x) as Hx1 by by destruct w.
  assert (p < length (w_promises w1))%nat as Hp1 by by rewrite Ep, length_alter.
  unfold smodify at 1. unfold sbind at 1. fold w1.
  unfold smodify at 1. unfold sbind at 1. unfold sget. unfold sbind at 1.
  assert (w_heap (write [LWait p h] w1) !! h = Some x) as -> by (rewrite <- Hx1; by destruct w1).
  pose proof (ln_lists _ _ (inv_linked _ _ _ Hw) h x Hx) as Hok. pose proof (inv_known _ _ _ Hw h x) as Hkn.
  cbn [fmap option_fmap option_map]. destruct (k_empty x) as [l|l| |] eqn:El; [| | |done].
  - apply (inv_set_empty (inc F p) F w0 h x (Waiting (l ++ [Resolve p])) [LWait p h] w1); try by destruct w1.
    + cbn in Hok. destruct Hok as [ps ->]. exists (ps ++ [p]). by rewrite fmap_app.
    + rewrite El. cbn. lia.
    + intros q. rewrite El. cbn [hook_list]. rewrite count_app, count_inc. lia.
    + intros q. cbn. intros [Hq|Hq]%elem_of_app.
      * rewrite Ep, length_alter. by apply Hkn.
      * apply list_elem_of_singleton in Hq. by injection Hq as ->.
    + intros q Hq. apply (inv_frames _ _ _ H1). pose proof (inc_le F p q). lia.
    + intros k [= <-]. exists l. split; [done|]. intros q Hq. apply elem_of_app. by left.
    + left. eauto.
    + right; right. exists p. rewrite inc_eq. split_and!; [done|lia|done|]. intros k [= <-]. apply elem_of_app. right. by left.
  - apply (inv_set_empty (inc F p) F w0 h x (Firing (l ++ [Resolve p])) [LWait p h] w1); try by destruct w1.
    + cbn in Hok. destruct Hok as [ps [->| ->]]; exists (ps ++ [p]); rewrite fmap_app; [by left|by right].
    + rewrite El. cbn in *. destruct Hok as [ps [->| ->]]; [cbn; lia|destruct ps; cbn; lia].
    + intros q. rewrite El. cbn [hook_list]. rewrite count_app, count_inc. lia.
    + intros q. cbn. intros [Hq|Hq]%elem_of_app.
      * rewrite Ep, length_alter. by apply Hkn.
      * apply list_elem_of_singleton in Hq. by injection Hq as ->.
    + intros q Hq. apply (inv_frames _ _ _ H1). pose proof (inc_le F p q). lia.
    + right. destruct (inv_empty _ _ _ H1 h x Hx1) as [[k Hk]|He]; [congruence|]. apply elem_of_app. by left.
    + right; right. exists p. rewrite inc_eq. split_and!; [done|lia|done|done].
  - apply (resolve_holds p F w0). apply (inv_set_empty (inc F p) (inc F p) w0 h x Fired [LWait p h] w1); try by destruct w1.
    + destruct w1. cbn in *. f_equal. symmetry. clear -Hx1 El. revert h Hx1. induction w_heap as [|y heap IH]; intros [|h] Hx; [done|done| |].
      * injection Hx as ->. change (alter (set_empty Fired) 0 (x :: heap)) with (set_empty Fired x :: heap). f_equal. destruct x. cbn in *. by subst.
      * change (alter (set_empty Fired) (S h) (y :: heap)) with (y :: alter (set_empty Fired) h heap). by rewrite IH.
    + by rewrite El.
    + intros q. by rewrite El.
    + by intros q Hq%elem_of_nil.
    + apply (inv_frames _ _ _ H1).
    + right. destruct (inv_empty _ _ _ H1 h x Hx1) as [[k Hk]|He]; [congruence|]. apply elem_of_app. by left.
    + right; right. exists p. rewrite inc_eq. split_and!; [done|lia|done|done].
Qed.

Lemma wait_for_holds p t es F w0 w : (0 < F p)%nat -> (p < length (w_promises w))%nat -> inv F w0 w ->
  leaves (wait_for go p t es w) (fun _ => inv F w0) (inv none w0).
Proof using Hgo.
  intros HF. revert w0 w. induction es as [|e es IH]; intros w0 w Hp Hw; [done|]. cbn [wait_for]. unfold sget. unfold sbind at 1.
  apply (leaves_bind _ _ _ (fun _ => inv F w)).
  - destruct (w_hooks w !! (e, t)) as [h|] eqn:E; [|by eapply inv_start].
    destruct (ln_hooks _ _ (inv_linked _ _ _ Hw) _ _ E) as (x & Hx & _).
    eapply leaves_impl; [apply (add_resolve_holds p h F w w HF Hp); [by eexists|by eapply inv_start]|done|].
    intros s Hs. eapply inv_trans; [by eapply inv_drop|done].
  - intros [] w1 H1. apply IH; [|by eapply inv_trans]. pose proof (ln_promises _ _ (inv_linked _ _ _ H1)). lia.
Qed.

Lemma promise_holds es t f F w0 : holds F w0 (promise_ go es t f).
Proof using Hgo.
  apply keep_read. intros w Hw. set (p := length (w_promises w)).
  set (w1 := set_promises (w_promises w ++ [Promise 1 false None]) w).
  assert (F p = O) as HF by (destruct (F p) eqn:E; [done|]; pose proof (inv_frames _ _ _ Hw p ltac:(lia)); lia).
  assert (inv (inc F p) w0 w1) as H1.
  { assert (pending p w = O) as Hpend.
    { unfold pending. assert (forall h x, w_heap w !! h = Some x -> count p (hook_list (k_empty x)) = O) as Hz.
      - intros h x Hx. unfold count. destruct (filter _ _) as [|g l] eqn:E; [done|]. exfalso.
        assert (g ∈ filter (fun f => f = Resolve p) (hook_list (k_empty x))) as Hg by (rewrite E; left).
        apply list_elem_of_filter in Hg as [-> Hg]. pose proof (inv_known _ _ _ Hw h x p Hx Hg). lia.
      - by apply total_zero. }
    assert (forall q m, w_promises w1 !! q = Some m -> w_promises w !! q = Some m \/ q = p /\ m = Promise 1 false None) as Hi.
    { intros q m. destruct w. cbn. intros [?|[Hq Hm]]%lookup_app_Some; [by left|right]. apply list_lookup_singleton_Some in Hm as [Hm <-].
      split; [subst p; cbn in *; lia|done]. }
    assert (length (w_promises w1) = S (length (w_promises w))) as El by (destruct w; cbn; rewrite length_app; cbn; lia).
    subst w1. pose proof Hw as []. split; unfold waiting, pending in *; rewrite ?El; destruct w; cbn in *; try done.
    - eapply linked_same; [..|exact inv_linked0]; try done. cbn. rewrite length_app. lia.
    - intros q. unfold inc. case_decide; [subst; lia|]. intros Hq. specialize (inv_frames0 q Hq). lia.
    - intros h x q Hx Hq. specialize (inv_known0 h x q Hx Hq). lia.
    - intros q m [Hm|[-> ->]]%Hi; cbn.
      + unfold inc. rewrite decide_False; [by apply inv_count0|]. apply lookup_lt_Some in Hm. lia.
      + rewrite Hpend, inc_eq, HF. done.
    - intros q m [Hm|[-> ->]]%Hi; [by apply (inv_over0 q)|done].
    - intros q Hq. destruct (inv_resolved0 q Hq) as (m & Hm & Hr). exists m. split; [by apply lookup_app_l_Some|done]. }
  change (leaves ((wait_for go p (or_fx t) (rev es) ;! resolve go p ;! let! r := sget (fun w => w_promises w !! p) in
    match r with Some (Promise _ true _) => user go f | _ => smodify (on_promise p (fun m => Promise (m_count m) (m_resolved m) f)) end)%js w1)
    (fun _ => inv F w0) (inv none w0)).
  apply (leaves_bind _ _ _ (fun _ => inv (inc F p) w0)).
  { apply wait_for_holds; [rewrite inc_eq; lia| |done]. subst w1 p. destruct w. cbn. rewrite length_app. cbn. lia. }
  intros [] w2 H2. apply (leaves_bind _ _ _ (fun _ => inv F w0)); [by apply resolve_holds|].
  intros [] w3 H3. revert w3 H3. apply keep_bind; [apply keep_get|]. intros [[c [] g]|]; [apply user_holds| |]; apply keep_modify; intros w3 H3;
    apply (inv_on_promise F F w0 p (fun m => Promise (m_count m) (m_resolved m) f) [] w3); try (by destruct w3; rewrite ?app_nil_r); try apply (inv_frames _ _ _ H3);
    try (by left); intros m Hm; cbn; (split_and!; [lia|done|]); intros Hr; left; (split; [done|lia]).
Qed.

(** The loop of [hooks.empty]: its first function removes the data. *)
Lemma empty_loop_holds h F w0 : triple (fun w => inv F w0 w /\ pre (CEmpty h) w) (empty_loop go h) (fun _ => inv F w0) (inv none w0).
Proof using Hgo.
  intros w [Hw Hpre]. unfold empty_loop, sget. unfold sbind at 1. destruct (w_heap w !! h) as [x|] eqn:Ex; cbn; [|done].
  pose proof (ln_lists _ _ (inv_linked _ _ _ Hw) h x Ex) as Hok. pose proof (inv_known _ _ _ Hw h x) as Hkn.
  destruct (k_empty x) as [l|[|f l]| |] eqn:El; try done.
  - apply (inv_set_empty F F w0 h x Fired [] w); try by destruct w.
    + destruct w. by rewrite app_nil_r.
    + by rewrite El.
    + intros p. by rewrite El.
    + by intros p Hp%elem_of_nil.
    + apply (inv_frames _ _ _ Hw).
    + right. rewrite app_nil_r. destruct (inv_empty _ _ _ Hw h x Ex) as [[k Hk]|He]; [congruence|done].
    + by left.
  - set (w1 := on_hooks h (set_empty (Firing l)) w).
    assert (forall F', (forall p, count p l + F' p <= count p (f :: l) + F p)%nat -> (forall p, (0 < F' p)%nat -> (p < length (w_promises w))%nat) ->
      inv F' w0 w1 /\ exists x1, w_heap w1 !! h = Some x1 /\ k_key x1 = k_key x /\ k_empty x1 = Firing l /\ exists ps, l = Resolve <$> ps) as H1.
    { intros F' HF' Hlt. assert (exists ps, l = Resolve <$> ps) as [ps Eps].
      { cbn in Hok. destruct Hok as [[|p ps] [E|E]]; try done; injection E as -> ->; [by exists []|by exists (p :: ps)|by exists ps]. }
      split.
      - apply (inv_set_empty F F' w0 h x (Firing l) [] w); try by destruct w.
        + destruct w. by rewrite app_nil_r.
        + exists ps. by right.
        + rewrite El. cbn in Hok. destruct Hok as [ps' [E|E]]; [injection E as -> ->|destruct ps'; [done|]; injection E as -> ->]; cbn; [|destruct ps'; cbn; lia].
          destruct ps'; cbn; lia.
        + intros p. rewrite El. apply HF'.
        + intros p Hp. apply Hkn; [done|]. by right.
        + right. rewrite app_nil_r. destruct (inv_empty _ _ _ Hw h x Ex) as [[k Hk]|He]; [congruence|done].
        + by left.
      - exists (set_empty (Firing l) x). destruct w. cbn in *. rewrite list_lookup_alter_eq, Ex. destruct x. split_and!; try done. by exists ps. }
    unfold smodify at 1. unfold sbind at 1. fold w1. destruct f as [|p].
    + destruct (H1 F) as (H2 & x1 & Hx1 & Ek & El1 & ps & Eps); [intros p; by rewrite count_remove|apply (inv_frames _ _ _ Hw)|].
      cbn [call_hook]. unfold smodify at 1. unfold sbind at 1. rewrite Hx1.
      apply (Hgo (CEmpty h)). split.
      * apply (inv_queue F w0 (k_key x1) None [] w1); try (by destruct w1); try done.
        -- destruct w1. by rewrite app_nil_r.
        -- intros j i. destruct w1. cbn. intros Hj. by apply lookup_delete_Some in Hj as [_ Hj].
        -- cbn. f_equal. rewrite Ek. assert (waiting (k_key x) w1 = waiting (k_key x) w) as -> by by destruct w. unfold waiting. by rewrite (Hpre x l).
        -- intros y p i Hy. by apply elem_of_nil in Hy.
      * cbn. intros y k Hy Ey. assert (w_heap w1 !! h = Some y) as Hy' by by destruct w1. rewrite Hx1 in Hy'. injection Hy' as <-.
        rewrite El1 in Ey. injection Ey as ->. by destruct ps.
    + destruct (H1 (inc F p)) as (H2 & x1 & Hx1 & Ek & El1 & ps & Eps).
      { intros q. rewrite (cons_middle (Resolve p) [] l : Resolve p :: l = [Resolve p] ++ l), count_app, count_inc. lia. }
      { intros q. unfold inc. case_decide; [|apply (inv_frames _ _ _ Hw)]. subst. intros _. apply Hkn; [done|]. left. }
      cbn [call_hook]. apply (leaves_bind _ _ _ (fun _ => inv F w1)).
      * eapply leaves_impl; [apply (resolve_holds p F w1); by eapply inv_start|done|]. intros s Hs. eapply inv_trans; [by eapply inv_drop|done].
      * intros [] w2 H3. assert (inv F w0 w2) as H4.
        { eapply inv_trans; [|done]. by apply (inv_le (inc F p)); [apply inc_le|]. }
        apply (Hgo (CEmpty h)). split; [done|]. cbn. intros y k Hy Ey. destruct (ln_key _ _ (inv_linked _ _ _ H3) h x1 Hx1) as (z & Hz & _ & Hs).
        rewrite Hy in Hz. injection Hz as <-. rewrite Ey, El1, Eps in Hs. exfalso. destruct ps; cbn in Hs; lia.
Qed.

(** ** [dequeue] *)

Lemma alter_partial (k : key) (f : list item -> list item) (m : gmap key (list item)) : alter f k m = partial_alter (fun _ => f <$> m !! k) k m.
Proof. apply partial_alter_ext. by intros x <-. Qed.

(** What [shift] takes, from an array in shape, behind the sentinel. *)
Lemma shift_shape k q : shape k q ->
  let sentinel := match q with InProgress :: _ => true | _ => false end in
  exists fs, (if sentinel then drop 1 q else q) = Fun <$> fs /\ funcs q = fs /\
    (length q - (if sentinel then 1 else 0) = length fs)%nat /\ (sentinel = true -> k.2 = "fx"%string).
Proof.
  intros [fs [->|[Hk ->]]]; cbn zeta.
  - exists fs. destruct fs as [|f fs]; [done|]. cbn. rewrite length_fmap. split_and!; [done|f_equal; apply funcs_fmap|done|done].
  - exists fs. cbn. rewrite length_fmap. split_and!; [done|apply funcs_fmap|lia|done].
Qed.

Lemma or_fx_idem t : or_fx (or_fx t) = or_fx t.
Proof. unfold or_fx. repeat case_decide; done. Qed.

Lemma store_inv k q evs F w0 w : (forall q0, w_queue w !! k = Some q0 -> shape k q) ->
  foldl (replay1 k) (Some (waiting k w)) evs = Some (if w_queue w !! k then funcs q else []) ->
  (forall j r, j <> k -> foldl (replay1 j) r evs = r) ->
  (forall x p h, x ∈ evs -> x <> LResolve p /\ x <> LWait p h) ->
  inv F w0 w -> inv F w0 (write evs (store k (fun _ => q) w)).
Proof.
  intros Hs Hr Hn He Hw. apply (inv_queue F w0 k ((fun _ => q) <$> w_queue w !! k) evs w); try by destruct w.
  - destruct w. apply alter_partial.
  - intros l. destruct (w_queue w !! k) as [q0|] eqn:E; [|done]. intros [= <-]. by apply (Hs q0).
  - rewrite Hr. by destruct (w_queue w !! k).
Qed.

Lemma dequeue_holds k F w0 : holds F w0 (dequeue go k).
Proof using Hgo.
  unfold dequeue. set (j := (k.1, or_fx k.2) : key). apply keep_read. intros w Hw.
  assert (queue_of j w = default [] (w_queue w !! j)) as Eq by (unfold queue_of; subst j; cbn; by rewrite or_fx_idem).
  rewrite Eq. clearbody j. clear Eq k.
  assert (shape j (default [] (w_queue w !! j))) as Hshape.
  { destruct (w_queue w !! j) as [q|] eqn:E; [by apply (inv_shape _ _ _ Hw)|]. exists []. by left. }
  assert (waiting j w = funcs (default [] (w_queue w !! j))) as Hwait by done.
  assert (w_queue w !! j = None -> default [] (w_queue w !! j) = []) as Hnone by by intros ->.
  destruct (shift_shape _ _ Hshape) as (fs & E1 & E2 & E3 & _). cbn zeta in E1, E3.
  set (queue := default [] (w_queue w !! j)) in *. rewrite E1, E3. rewrite E2 in Hwait.
  destruct fs as [|f fs]; cbn [shift fmap list_fmap].
  - do 2 (unfold smodify at 1; unfold sbind at 1; cbn beta iota). set (w1 := write [] _).
    assert (inv F w0 w1) as H1.
    { apply store_inv; try done; [by exists []; left| |by intros x p h []%elem_of_nil]. cbn [foldl]. rewrite Hwait. by destruct (w_queue w !! j). }
    assert (default [] (w_queue w1 !! j) = []) as Hw1.
    { subst w1. destruct w as [a]. cbn in *. rewrite lookup_alter. rewrite decide_True by done. by destruct (a !! j). }
    apply (leaves_bind _ _ _ (fun h w' => inv F w0 w' /\ (exists x, w_heap w' !! h = Some x /\ k_key x = j) /\ w_queue w' = w_queue w1));
      [by apply queueHooks_from|]. intros h w2 (H2 & (x & Hx & Ek) & Eq). apply (fire_empty_holds h F w0). split; [done|].
    intros y Hy. rewrite Hx in Hy. injection Hy as <-. by rewrite Ek, Eq.
  - do 2 (unfold smodify at 1; unfold sbind at 1; cbn beta iota). set (w1 := write [LCall j f] _).
    assert (exists q, w_queue w !! j = Some q) as [q Hq] by (destruct (w_queue w !! j) eqn:E; [eauto|]; subst queue; cbn in E1; by cbn in E1).
    assert (inv F w0 w1) as H1.
    { apply store_inv; try done.
      - exists fs. by left.
      - cbn. rewrite Hwait, !decide_True, Hq by done. by rewrite funcs_fmap.
      - intros i r Hi. cbn. by rewrite decide_False.
      - intros x p h ->%list_elem_of_singleton. done. }
    apply (leaves_bind _ _ _ (fun h w' => inv F w0 w' /\ (exists x, w_heap w' !! h = Some x /\ k_key x = j) /\ w_queue w' = w_queue w1));
      [by apply queueHooks_from|]. intros h w2 (H2 & _ & Eq2).
    apply (leaves_bind _ _ _ (fun _ => inv F w0)); [|intros [] w3 H3; exact H3].
    apply (leaves_bind _ _ _ (fun _ => inv F w0)).
    + destruct (bool_decide_reflect (j.2 = "fx"%string)) as [Hfx|]; [|done]. cbn [swhen].
      assert (w_queue w2 !! j = Some (Fun <$> fs)) as E.
      { rewrite Eq2. subst w1. destruct w as [a]. cbn in *. rewrite lookup_alter, decide_True, Hq by done. done. }
      apply (inv_queue F w0 j (Some (InProgress :: (Fun <$> fs))) [] w2); try by destruct w2.
      * destruct w2 as [a]. cbn in *. rewrite alter_partial. by rewrite E.
      * destruct w2. by rewrite app_nil_r.
      * intros l [= <-]. exists fs. by right.
      * cbn. unfold waiting. by rewrite E.
      * by intros x p i []%elem_of_nil.
    + intros []. apply (keep_bind (inv F w0) (inv none w0)); [apply (keep_hooks _ _ _ (lib_kept F w0)); by intros []|]. intros _. by apply go_holds.
Qed.

Lemma started_holds k F w0 : holds F w0 (started go k).
Proof using Hgo.
  unfold started. apply keep_bind; [apply keep_get|]. intros q. apply keep_bind; [apply queueHooks_holds|]. intros _.
  apply keep_when. by apply go_holds.
Qed.

Lemma queue_holds k f F w0 : holds F w0 (queue go k f).
Proof using Hgo. apply keep_bind; [apply queue_push_holds|]. intros []. apply started_holds. Qed.

Lemma queue_all_holds k fs F w0 : holds F w0 (queue_all go k fs).
Proof using Hgo. apply keep_bind; [apply queue_set_holds|]. intros []. apply started_holds. Qed.

(** ** Deferreds of animations *)

Lemma queue_of_empty k w : length (queue_of k w) = O -> default [] (w_queue w !! (k.1, or_fx k.2)) = [].
Proof. unfold queue_of. by destruct (default [] _). Qed.

(** A callback of an animation: those of the hooks are of hooks of its element. *)
Lemma call_anim_holds id f F w0 : leaves_of w0 id [f] -> holds F w0 (call_anim go id f).
Proof using Hgo.
  intros Hf. apply with_anim_keeps. intros n w Hn Hw. pose proof (leaves_of_from _ _ _ _ Hf (inv_linked _ _ _ Hw)) as Hf'. destruct f as [|h|h| |f].
  - revert w Hn Hw Hf'. intros w _ Hw _. revert w Hw. apply (keep_anim _ _ _ (lib_kept _ _)). by intros [].
  - apply (holds_from F w0 w); [|done]. apply always_holds. intros i [Hi|Hi]; apply list_elem_of_singleton in Hi; [done|injection Hi as ->].
    apply Hf'. left. by left.
  - destruct (Hf' h) as (x & m & Hx & Hm & E); [right; by left|]. rewrite Hn in Hm. injection Hm as <-.
    apply (leaves_bind _ _ _ (fun _ => inv F w)).
    { apply (keep_hooks _ _ _ (lib_kept F w) h); [by intros []|]. by eapply inv_start. }
    intros [] w1 H1. unfold sget. unfold sbind at 1.
    destruct (bool_decide_reflect (length (queue_of (n_this n, "fx"%string) w1) = O)) as [Hq|]; [|cbn; by eapply inv_trans].
    cbn [swhen]. apply (fire_empty_holds h F w0). split; [by eapply inv_trans|]. intros y Hy.
    destruct (ln_key _ _ (inv_linked _ _ _ H1) h x Hx) as (z & Hz & Ez & _). rewrite Hy in Hz. injection Hz as <-. rewrite Ez, E. by apply queue_of_empty in Hq.
  - clear Hf'. refine (keep_bind (inv F w0) (inv none w0) _ _ _ _ _ Hw); [apply user_holds|]. intros []. destruct (queued _); [by apply go_holds|apply keep_ret].
  - by apply (user_holds (Some f)).
Qed.

Lemma fire_holds id ok F w0 : holds F w0 (fire go id ok).
Proof using Hgo.
  apply with_anim_keeps. intros n w Hn Hw. pose proof (in_list ok n) as Hin. destruct (get_list ok n) as [l|[|f l]| |] eqn:E; try done.
  - apply (inv_set_list id ok Fired [] (fun m => m) F w0 w n); auto. intros h [H|H]; by apply elem_of_nil in H.
  - set (w1 := on_anim id (set_list ok (Firing l)) w).
    assert (inv F w0 w1) as H1.
    { apply (inv_set_list id ok (Firing l) [] (fun m => m) F w0 w n); auto; [intros h [H|H]; by apply elem_of_nil in H|].
      intros g Hg. right. apply Hin. by right. }
    assert (leaves_of w1 id [f]) as Hf.
    { intros h Hh. assert (exists x, w_heap w !! h = Some x /\ k_key x = (n_this n, "fx"%string)) as (x & Hx & Ek).
      { apply (ln_anims _ _ (inv_linked _ _ _ Hw) id n h Hn). destruct Hh as [Hh|Hh]; apply list_elem_of_singleton in Hh; subst f; [left|right]; apply Hin; left. }
      exists x, (set_list ok (Firing l) n). subst w1. destruct w. cbn in *. rewrite list_lookup_alter_eq, Hn. split_and!; [done|done|].
      by destruct n, ok. }
    change (leaves ((call_anim go id f ;! go (CFire id ok))%js w1) (fun _ => inv F w0) (inv none w0)).
    apply (holds_from F w0 w1); [|done]. apply keep_bind; [by apply call_anim_holds|]. intros []. by apply go_holds.
Qed.

(** ** Animations *)

Lemma new_anim_inv n F w0 w : fns n = [DeleteElem; DeleteElem] -> inv F w0 w -> inv F w0 (set_anims (w_anims w ++ [n]) w).
Proof.
  intros Hf Hw. apply (inv_unchanged F w0 w); try (by destruct w). apply (linked_new_anim w0 n w); try (by destruct w). apply (inv_linked _ _ _ Hw).
Qed.

Lemma defaultPrefilter_holds e id o F w0 : (exists n, w_anims w0 !! id = Some n /\ n_this n = e) -> holds F w0 (defaultPrefilter go e id o).
Proof using Hgo.
  intros (n & Hn & En). unfold defaultPrefilter. destruct (queued o); [apply keep_ret|]. intros w Hw.
  apply (leaves_bind _ _ _ (fun h w' => inv F w0 w' /\ exists x, w_heap w' !! h = Some x /\ k_key x = (e, "fx"%string))).
  { eapply leaves_impl; [by apply queueHooks_from| |done]. cbn. intros h s (H1 & H2 & _). by split. }
  intros h w1 [H1 (x & Hx & Ex)].
  assert (leaves_of w1 id [Leaving h]) as Hl.
  { destruct (ln_this _ _ (inv_linked _ _ _ H1) id n Hn) as (m & Hm & Em & _). intros i [Hi|Hi]; apply list_elem_of_singleton in Hi; [|done]. injection Hi as ->.
    exists x, m. by rewrite Ex, Em, En. }
  apply (holds_from F w0 w1); [|done]. apply keep_bind; [apply (keep_hooks _ _ _ (lib_kept _ _)); by intros []|]. intros []. by apply always_holds.
Qed.

Lemma Animation_holds e props o F w0 : holds F w0 (Animation cos go e props o).
Proof using Hgo.
  apply keep_read. intros w Hw. set (id := length (w_anims w)).
  apply (leaves_bind _ _ _ (fun _ w' => inv F w0 w' /\ w_anims w' = w_anims w)).
  { pose proof (fx_now_keeps _ _ _ (lib_kept F w0) w Hw) as H. unfold fx_now in *. destruct (w_fxNow w); cbn in *; (split; [exact H|by destruct w]). }
  intros t w1 [H1 E1]. unfold smodify at 1. unfold sbind at 1. cbn beta iota. set (n := Animation_ _ _ _ _ _ _ _ _ _ _ _). set (w2 := set_anims _ _).
  assert (inv F w0 w2) as H2 by by apply new_anim_inv.
  assert (w_anims w2 !! id = Some n) as E2.
  { subst w2. destruct w1. cbn in *. subst. by rewrite lookup_app_r, Nat.sub_diag. }
  clearbody w2. apply (holds_from F w0 w2); [|done]. clear -Hgo E2.
  apply keep_bind; [apply defaultPrefilter_holds; by exists n|]. intros [].
  apply keep_bind; [apply (create_tweens_keeps _ _ _ (lib_kept _ _))|]. intros [].
  apply keep_bind; [apply user_holds|]. intros [].
  apply keep_bind; [apply (fx_timer_keeps _ _ _ _ (lib_kept _ _))|]. intros [].
  apply keep_bind; [apply (add_progress_keeps _ _ _ (lib_kept _ _))|]. intros [].
  apply keep_bind; [apply add_holds, (callback_plain w2 id (o_done o) true)|]. intros [].
  assert (forall f, leaves_of w2 id (callback f)) as Hc by (intros f; rewrite <- (app_nil_r (callback f)); apply (callback_plain w2 id f false)).
  apply keep_bind; [by apply add_holds|]. intros [].
  apply keep_bind; [by apply always_holds|]. intros []. apply keep_ret.
Qed.

Lemma doAnimation_holds e props o F w0 : holds F w0 (doAnimation cos go e props o).
Proof using Hgo.
  apply keep_bind; [apply Animation_holds|]. intros id. apply keep_bind; [apply keep_get|]. intros b. apply keep_when, (anim_stop_keeps _ _ _ _ (lib_kept _ _)).
Qed.

Lemma animate_holds e props p F w0 : holds F w0 (animate fx_off cos go e props p).
Proof using Hgo.
  unfold animate. destruct props; [apply doAnimation_holds|]. destruct (o_queue _); [apply queue_holds|apply doAnimation_holds].
Qed.

(** Timeouts and the functions that are kept are not spoken of. *)
Lemma other_holds f F w0 : (forall w, w_queue (f w) = w_queue w /\ w_hooks (f w) = w_hooks w /\ w_heap (f w) = w_heap w /\ w_anims (f w) = w_anims w /\
  w_promises (f w) = w_promises w /\ w_log (f w) = w_log w) -> holds F w0 (smodify f).
Proof.
  intros Hf. apply keep_modify. intros w Hw. destruct (Hf w) as (E1 & E2 & E3 & E4 & E5 & E6). apply (inv_unchanged F w0 w); try done.
  apply (linked_same w0 w); [done|done|by rewrite E5|by rewrite E2|by apply (inv_linked _ _ _ Hw)].
Qed.

Lemma start_delay_holds time k h F w0 : holds F w0 (start_delay time k h).
Proof using Hgo.
  apply keep_bind; [apply keep_get|]. intros i. apply keep_bind; [apply other_holds; by intros []|]. intros []. apply (keep_hooks _ _ _ (lib_kept _ _)). by intros [].
Qed.

Lemma stop_holds e t clear gotoEnd F w0 : holds F w0 (stop cos go e t clear gotoEnd).
Proof using Hgo.
  apply keep_bind; [apply keep_when, queue_all_holds|]. intros []. apply keep_bind; [apply keep_get|]. intros hs.
  apply keep_bind; [apply (stop_queues_keeps _ _ _ (lib_kept _ _))|]. intros []. apply keep_bind; [apply keep_get|]. intros len.
  apply keep_bind; [apply (stop_timers_keeps _ _ _ _ (lib_kept _ _))|]. intros b. by apply keep_when, go_holds.
Qed.

Lemma finish_holds e t F w0 : holds F w0 (finish cos go e t).
Proof using Hgo.
  apply keep_bind; [apply keep_get|]. intros q. apply keep_bind; [apply keep_get|]. intros h.
  apply keep_bind; [apply (keep_same _ _ _ (lib_kept _ _)); by intros []|]. intros []. apply keep_bind; [apply queue_set_holds|]. intros [].
  apply keep_bind; [apply keep_get|]. intros i. apply keep_bind; [destruct i; [apply (clearTimeout_keeps _ _ _ (lib_kept _ _))|apply keep_ret]|]. intros [].
  apply keep_bind; [apply keep_get|]. intros len. apply keep_bind; [apply (stop_timers_keeps _ _ _ _ (lib_kept _ _))|]. intros _.
  apply keep_bind; [apply (finish_queue_keeps _ _ _ _ (lib_kept _ _)); intros; apply doAnimation_holds|]. intros []. apply (keep_same _ _ _ (lib_kept _ _)). by intros [].
Qed.

(** ** Scripts and sessions *)

Lemma run_script_holds next l F w0 : holds F w0 (run_script fx_off cos go next l).
Proof using Hgo.
  induction l as [|a l IH]; [apply keep_ret|]. apply keep_bind; [|by intros []].
  destruct a; cbn [act].
  - apply queue_holds.
  - apply queue_all_holds.
  - apply queue_all_holds.
  - by apply go_holds.
  - apply animate_holds.
  - apply queue_holds.
  - apply stop_holds.
  - apply finish_holds.
  - apply promise_holds.
  - destruct next; [by apply go_holds|apply keep_ret].
  - destruct next; [|apply keep_ret]. apply other_holds. by intros [].
  - apply (keep_throw _ _ _ (lib_kept _ _)).
  - by apply (keep_note _ _ _ (lib_kept _ _)).
Qed.

Lemma perform_holds c F w0 : triple (fun w => inv F w0 w /\ pre c w) (perform fx_off cos code go c) (fun _ => inv F w0) (inv none w0).
Proof using Hgo.
  assert (forall e : st_ex world unit, holds F w0 e -> triple (fun w => inv F w0 w /\ pre c w) e (fun _ => inv F w0) (inv none w0)) as Hk
    by (intros e He w [Hw _]; by apply He).
  destruct c as [f next|f k h|k|h|id ok|i]; cbn [perform]; [apply Hk..| |apply Hk|apply Hk].
  - apply run_script_holds.
  - destruct f; cbn [call_func]; [by apply go_holds|apply doAnimation_holds|apply start_delay_holds].
  - apply dequeue_holds.
  - apply empty_loop_holds.
  - apply fire_holds.
  - apply (ticks_keeps _ _ _ _ (lib_kept _ _)).
Qed.
End library.

Section sessions.
Context (fx_off : bool) (cos : double -> double) (code : nat -> list action).

Lemma exec_holds n : calls_hold (exec fx_off cos code n).
Proof.
  induction n as [|n IH]; intros c F w0; [|by apply perform_holds]. intros w [Hw _]. by eapply inv_drop.
Qed.

Lemma happen_holds n x w0 : holds none w0 (happen fx_off cos code n x).
Proof.
  pose proof (exec_holds n) as Hgo. destruct x as [l| |i| |i|t]; cbn [happen].
  - by apply run_script_holds.
  - apply keep_bind; [apply keep_get|]. intros b. apply keep_when, (fx_tick_keeps _ _ _ (lib_kept _ Hgo _ _)).
  - apply keep_bind; [apply keep_get|]. intros [k|]; [|apply keep_ret].
    apply keep_bind; [apply (clearTimeout_keeps _ _ _ (lib_kept _ Hgo _ _))|]. intros []. by apply go_holds.
  - apply keep_bind; [apply keep_get|]. intros p. apply keep_when, other_holds. by intros [].
  - apply keep_bind; [apply keep_get|]. intros [k|]; [|apply keep_ret].
    apply keep_bind; [apply other_holds; by intros []|]. intros []. by apply go_holds.
  - apply other_holds. by intros [].
Qed.

Lemma first_world_inv t : inv none (new_world t) (new_world t).
Proof.
  split; try done; try (by intros ? ? ?); eauto.
  - intros p Hp. unfold none in Hp. lia.
  - intros p h Hh. by apply elem_of_nil in Hh.
  - intros p Hp. by apply elem_of_nil in Hp.
Qed.

Lemma session_keeps n l t : inv none (new_world t) (session fx_off cos code n l (new_world t)).
Proof.
  unfold session. generalize (first_world_inv t). generalize (new_world t) at 2 4. induction l as [|x l IH]; intros w Hw; [done|]. apply IH.
  pose proof (happen_holds n x (new_world t) w Hw) as H. by destruct (happen _ _ _ n x w) as [w' [[]|m]].
Qed.
End sessions.

(** C9: whatever scripts queue, dequeue, animate, delay, clear, stop and finish, in whatever order timers fire and whatever is
    thrown, each queue of each element is first in, first out: read from the left, the log of what is put in it, of the arrays that take its place
    and of the functions taken from it to be called is a run of a list, each function taken is the first of the list, and the
    list that is left is the functions of its array.  The sentinel is in front or nowhere, and in fx queues only. *)
Theorem queues_in_order fx_off cos code n l t k :
  let w := session fx_off cos code n l (new_world t) in
  replay k (w_log w) = Some (waiting k w) /\ forall q, w_queue w !! k = Some q -> shape k q.
Proof.
  intros w. pose proof (session_keeps fx_off cos code n l t) as Hw. split; [apply (inv_replay _ _ _ Hw)|apply (inv_shape _ _ _ Hw)].
Qed.

Lemma story_elem l l1 x l2 : story l -> l = l1 ++ x :: l2 -> allowed l1 x.
Proof.
  intros Hl ->. specialize (Hl (length l1) x). rewrite take_app_length in Hl. apply Hl. by rewrite lookup_app_r, Nat.sub_diag.
Qed.

(** C15: whatever scripts do and whatever is thrown, a promise of queues is resolved only when every queue it waits for has
    been emptied (the callbacks of its hooks fired), it is resolved once, and it waits for nothing more after that. *)
Theorem promises_wait fx_off cos code n l t p l1 l2 :
  w_log (session fx_off cos code n l (new_world t)) = l1 ++ LResolve p :: l2 ->
  (forall h, LWait p h ∈ l1 -> LEmpty h ∈ l1) /\ LResolve p ∉ l1 ++ l2 /\ forall h, LWait p h ∉ l2.
Proof.
  intros Hl. pose proof (inv_story _ _ _ (session_keeps fx_off cos code n l t)) as Hs. rewrite Hl in Hs.
  destruct (story_elem _ _ _ _ Hs eq_refl) as [H1 H2].
  assert (forall x, x ∈ l2 -> exists past, LResolve p ∈ past /\ allowed past x) as H3.
  { intros x (k1 & k2 & ->)%list_elem_of_split. exists (l1 ++ LResolve p :: k1). split; [apply elem_of_app; right; left|].
    apply (story_elem _ _ _ k2 Hs). by rewrite <- app_assoc. }
  split_and!; [done| |].
  - intros [H|H]%elem_of_app; [done|]. by destruct (H3 _ H) as (past & Hp & []).
  - intros h H. by destruct (H3 _ H) as (past & Hp & []).
Qed.

(** ** Instances *)

(** A cosine is not needed by linear animations. *)
Definition example_cos (x : double) : double := x.
Definition linear (ms : Z) (complete : option nat) : options :=
  Options (Number ms) (Some "linear"%string) Default None None None None complete None None.
Definition example_code (f : nat) : list action := match f with 1%nat => [ANote 1] | 2%nat => [ANote 2] | _ => [] end.

(** Two animations of an element of 200 milliseconds each, and a promise. *)
Definition example_script : list happening :=
  [HScript [AAnimate 1 [("left"%string, Abs (of_Z 100))] (linear 200 (Some 1%nat));
            AAnimate 1 [("left"%string, Plus (of_Z 50))] (linear 200 (Some 1%nat));
            APromise [1%nat] "fx" (Some 2%nat)];
   HClock 300; HTick; HClock 700; HTick].

Definition example_world : world := session false example_cos example_code 20 example_script (new_world 1).

Lemma promises_wait_witness :
  exists l1 l2, w_log example_world = l1 ++ LResolve 0 :: l2 /\ LWait 0 0 ∈ l1 /\ (LWait 0 0 ∈ l1 -> LEmpty 0 ∈ l1).
Proof.
  assert (w_log example_world = take (length (w_log example_world) - 2) (w_log example_world) ++ LResolve 0 :: [LNote 2]) as E
    by (vm_compute; reflexivity).
  eexists _, _. split; [exact E|]. split; [apply list_elem_of_lookup_2 with (i := 3%nat); vm_compute; reflexivity|].
  apply (promises_wait _ _ _ _ _ _ 0 _ _ E).
Defined.
