(* ===== verification/EffectsSerial.v ===== *)
(** * jQuery: queues and effects, one thing at a time

    In sessions that leave the fx queues to the library - scripts animate, delay, queue functions that call their [next] at most once - an
    element does one queued thing at a time.  What is going on in the fx queue of an element is counted by [busy]; the sentinel in front of
    the queue is there while it is.  [G] counts what functions of the library still have to start or to end, [P] are the
    animations that are being made. *)

From S2P Require Import Prelude Doubles.
From Stdlib Require Import ZArith Lia SpecFloat.
From stdpp Require Import gmap strings.
From S2P Require Import Effects EffectsRules EffectsSpec.

#[local] Arguments Prelude.total : simpl never.

(** ** What is going on *)

Definition fx (e : nat) : key := (e, "fx"%string).

Definition sentinel (e : nat) (w : world) : nat := match w_queue w !! fx e with Some (InProgress :: _) => 1 | _ => 0 end.

(** An animation of the fx queue of the element. *)
Definition in_fx (e : nat) (n : animation) : bool := bool_decide (n_this n = e /\ queued (n_opts n) = Some "fx"%string).

#[global] Instance anim_fn_eq_dec : EqDecision anim_fn.
Proof. solve_decision. Defined.

Definition completes (l : list anim_fn) : nat := length (filter (fun f => f = Complete) l).
#[local] Arguments completes : simpl never.

(** An animation is going on until [opt.complete] is called, or its promise rejected. *)
Definition token (l : callbacks anim_fn) : nat := match l with Waiting _ => 1 | Firing l => completes l | _ => 0 end.

Definition weight (P : list nat) (e id : nat) (n : animation) : nat :=
  if in_fx e n then (if decide (id ∈ P) then 1 else token (n_done n)) else 0.

Definition delays (e : nat) (w : world) : nat := length (filter (fun u => u_live u = true /\ u_key u = fx e) (w_timeouts w)).
Definition nexts (e : nat) (w : world) : nat := length (filter (fun k => k = fx e) (w_held w)).
Definition busy (P : list nat) (e : nat) (w : world) : nat := delays e w + nexts e w + Prelude.total (weight P e) (w_anims w).

(** What is in a queue is made for it. *)
Definition made_for (k : key) (f : func) : Prop :=
  match f with DoAnimation _ o => queued o = None \/ queued o = Some k.2 | _ => True end.

Record serial (G : nat -> nat) (P : list nat) (w : world) : Prop := {
  se_busy e : busy P e w + G e <= sentinel e w;
  se_shape k q : w_queue w !! k = Some q -> shape k q;
  se_items k q f : w_queue w !! k = Some q -> Fun f ∈ q -> made_for k f;
  se_complete id n : w_anims w !! id = Some n -> completes (anim_list (n_done n)) <= if decide (id ∈ P) then 0 else 1;
  se_fail id n : w_anims w !! id = Some n -> completes (anim_list (n_fail n)) = 0;
  se_making id : id ∈ P -> id < length (w_anims w);
  se_timeouts u : u ∈ w_timeouts w -> (u_key u).2 <> ""%string;
  se_held k : k ∈ w_held w -> k.2 <> ""%string
}.

Definition ser (G : nat -> nat) (P : list nat) (w0 w : world) : Prop := linked w0 w /\ serial G P w.

(** ** Sessions that leave the fx queues to the library *)

Definition gentle (fx_off : bool) (a : action) : Prop :=
  match a with
  | AQueueAll _ t _ | AClear _ t | ADequeue _ t | AFinish _ t => or_fx t <> "fx"%string
  | AStop _ t _ _ => match t with Some t => or_fx t <> "fx"%string | None => False end
  | AAnimate _ props p => props <> [] \/ queued (speed_opts fx_off p) <> Some "fx"%string
  | _ => True
  end.

Definition is_next (a : action) : Prop := match a with ANext | AHold => True | _ => False end.
#[global] Instance is_next_dec a : Decision (is_next a).
Proof. destruct a; cbn; apply _. Defined.

Definition uses_next (l : list action) : nat := length (filter is_next l).

Definition gentle_code (fx_off : bool) (code : nat -> list action) : Prop :=
  forall f, Forall (gentle fx_off) (code f) /\ uses_next (code f) <= 1.

Definition gentle_happening (fx_off : bool) (x : happening) : Prop := match x with HScript l => Forall (gentle fx_off) l | _ => True end.

(** ** The invariant *)

Lemma token_le (P : list nat) id n : completes (anim_list (n_done n)) <= (if decide (id ∈ P) then 0 else 1) -> token (n_done n) <= 1.
Proof. unfold token. destruct (n_done n); cbn [anim_list]; case_decide; lia. Qed.

Lemma sentinel_le e w : sentinel e w <= 1.
Proof. unfold sentinel. destruct (w_queue w !! fx e) as [[|[|f] q]|]; lia. Qed.

Lemma serial_le G G' P w : (forall e, G' e <= G e) -> serial G P w -> serial G' P w.
Proof. intros H []. split; try done. intros e. specialize (se_busy0 e). specialize (H e). lia. Qed.

Lemma ser_drop G P w0 w : ser G P w0 w -> ser none [] w0 w.
Proof.
  intros [Hl Hs]. split; [done|]. pose proof Hs as []. split; try done.
  - intros e. specialize (se_busy0 e). unfold busy, none in *. pose proof (total_mono (weight [] e) (weight P e) (w_anims w)) as Ht.
    enough (Prelude.total (weight [] e) (w_anims w) <= Prelude.total (weight P e) (w_anims w)) by lia. apply Ht. intros id n Hn.
    unfold weight. destruct (in_fx e n); [|done]. rewrite decide_False by by intros ?%elem_of_nil. pose proof (token_le P id n (se_complete0 id n Hn)).
    case_decide; lia.
  - intros id n Hn. specialize (se_complete0 id n Hn). rewrite decide_False by by intros ?%elem_of_nil. case_decide; lia.
  - by intros id ?%elem_of_nil.
Qed.

Lemma ser_start G P w0 w : ser G P w0 w -> ser G P w w.
Proof. intros [Hl Hs]. split; [by eapply linked_start|done]. Qed.

Lemma ser_trans G P w0 w w' : linked w0 w -> ser G P w w' -> ser G P w0 w'.
Proof. intros H [Hl Hs]. split; [by eapply linked_trans|done]. Qed.

(** Changes that leave the queues, the animations, the timeouts and the functions kept as they are. *)
Lemma serial_same G P w w' : w_queue w' = w_queue w -> w_anims w' = w_anims w -> w_timeouts w' = w_timeouts w -> w_held w' = w_held w ->
  serial G P w -> serial G P w'.
Proof.
  intros E1 E2 E3 E4 []. split; unfold busy, sentinel, delays, nexts in *; rewrite ?E1, ?E2, ?E3, ?E4; done.
Qed.

(** A queue changes, its sentinel does not. *)
Lemma serial_queue G P k q w w' : w_queue w' = partial_alter (fun _ => q) k (w_queue w) -> w_anims w' = w_anims w ->
  w_timeouts w' = w_timeouts w -> w_held w' = w_held w ->
  (forall l, q = Some l -> shape k l /\ forall f, Fun f ∈ l -> made_for k f) ->
  (forall e, k = fx e -> busy P e w + G e <= sentinel e w' \/ sentinel e w' = sentinel e w) -> serial G P w -> serial G P w'.
Proof.
  intros E1 E2 E3 E4 Hq Hk []. split; rewrite ?E2, ?E3, ?E4; try done.
  - intros e. assert (busy P e w' = busy P e w) as -> by (unfold busy, delays, nexts; by rewrite E2, E3, E4).
    specialize (se_busy0 e). destruct (decide (k = fx e)) as [Ek|Ek].
    + destruct (Hk e Ek) as [H|H]; lia.
    + assert (sentinel e w' = sentinel e w) as ->; [|done]. unfold sentinel. by rewrite E1, lookup_partial_alter_ne by done.
  - intros j l. rewrite E1. destruct (decide (k = j)) as [->|Hj]; [rewrite lookup_partial_alter_eq; intros ->; by apply Hq|].
    rewrite lookup_partial_alter_ne by done. apply se_shape0.
  - intros j l f. rewrite E1. destruct (decide (k = j)) as [->|Hj]; [rewrite lookup_partial_alter_eq; intros ->; by apply Hq|].
    rewrite lookup_partial_alter_ne by done. apply se_items0.
Qed.

(** An animation changes: the tokens of its element go to the functions of the library, or come from them. *)
Lemma serial_on_anim G G' P P' id f n w w' : w_queue w' = w_queue w -> w_anims w' = alter f id (w_anims w) ->
  w_timeouts w' = w_timeouts w -> w_held w' = w_held w -> w_anims w !! id = Some n ->
  n_this (f n) = n_this n -> n_opts (f n) = n_opts n ->
  (forall i, i <> id -> i ∈ P' <-> i ∈ P) -> (id ∈ P' -> id ∈ P) ->
  completes (anim_list (n_done (f n))) <= (if decide (id ∈ P') then 0 else 1) -> completes (anim_list (n_fail (f n))) = 0 ->
  (forall e, weight P' e id (f n) + G' e <= weight P e id n + G e) ->
  serial G P w -> serial G' P' w'.
Proof.
  intros E1 E2 E3 E4 Hn Et Eo HP HP' Hc Hfl Hw []. split; rewrite ?E1, ?E3, ?E4; try done.
  - intros e. specialize (se_busy0 e). specialize (Hw e). unfold busy, delays, nexts, sentinel in *. rewrite E1, E2, E3, E4.
    assert (Prelude.total (weight P' e) (alter f id (w_anims w)) + weight P e id n = Prelude.total (weight P e) (w_anims w) + weight P' e id (f n)); [|lia].
    apply total_change; [done|]. intros i x _ Hne. unfold weight. destruct (in_fx e x); [|done].
    destruct (decide (i ∈ P')) as [Hin|Hin]; destruct (decide (i ∈ P)) as [Hin'|Hin']; try done; exfalso; [apply Hin'|apply Hin]; by apply HP.
  - intros i x. rewrite E2. intros (y & Hy & [(-> & ->)|(Hne & ->)])%alter_lookup.
    + rewrite Hn in Hy. by injection Hy as <-.
    + specialize (se_complete0 i y Hy). destruct (decide (i ∈ P')) as [Hin|Hin]; destruct (decide (i ∈ P)) as [Hin'|Hin']; try done; try lia.
      exfalso. by apply Hin', HP.
  - intros i x. rewrite E2. intros (y & Hy & [(-> & ->)|(Hne & ->)])%alter_lookup; [|by apply (se_fail0 i)].
    rewrite Hn in Hy. by injection Hy as <-.
  - intros i Hi. rewrite E2, length_alter. destruct (decide (i = id)) as [->|Hne]; [by eapply lookup_lt_Some|]. apply se_making0. by apply HP.
Qed.

(** ** What functions of the library keep *)

Definition serves (G : nat -> nat) (P : list nat) (w0 : world) {A} (e : st_ex world A) : Prop := keeps (ser G P w0) (ser none [] w0) e.

Lemma serves_from {A} G P w0 w (e : st_ex world A) : serves G P w e -> ser G P w0 w -> leaves (e w) (fun _ => ser G P w0) (ser none [] w0).
Proof.
  intros He Hw. eapply leaves_impl; [apply He; by eapply ser_start| |].
  - intros a s. apply ser_trans, Hw.
  - intros s. apply ser_trans, Hw.
Qed.

(** What a function of the queue [t] of an element has to end. *)
Definition own (t : option string) (e : nat) (G : nat -> nat) : nat -> nat := if decide (t = Some "fx"%string) then inc G e else G.

Lemma own_le t e G i : G i <= own t e G i.
Proof. unfold own. case_decide; [apply inc_le|done]. Qed.

Lemma own_fx e G : own (Some (fx e).2) (fx e).1 G e = S (G e).
Proof. unfold own. rewrite decide_True by done. apply inc_eq. Qed.

Lemma ser_le G G' P w0 w : (forall e, G' e <= G e) -> ser G P w0 w -> ser G' P w0 w.
Proof. intros H [Hl Hs]. split; [done|]. by eapply serial_le. Qed.

Lemma ser_own t e G P w0 w : ser (own t e G) P w0 w -> ser G P w0 w.
Proof. apply ser_le. intros i. apply own_le. Qed.

Definition owned (c : call) (G : nat -> nat) : nat -> nat :=
  match c with CUser _ (Some k) | CFun _ k _ => own (Some k.2) k.1 G | _ => G end.

Definition finds (G : nat -> nat) (P : list nat) (c : call) (w : world) : Prop :=
  match c with
  | CUser _ (Some k) => k.2 <> ""%string
  | CFun f k _ => k.2 <> ""%string /\ made_for k f
  | CDequeue k => or_fx k.2 = "fx"%string -> busy P k.1 w + G k.1 = 0
  | CEmpty _ => pre c w
  | _ => True
  end.

Definition calls_serve (go : call -> st_ex world unit) : Prop :=
  forall c G P w0, triple (fun w => ser (owned c G) P w0 w /\ finds G P c w) (go c) (fun _ => ser G P w0) (ser none [] w0).

(** The holder of a token finds the queue idle but for itself. *)
Lemma own_idle e G P w0 w : ser (inc G e) P w0 w -> busy P e w + G e = 0.
Proof. intros [_ Hs]. pose proof (se_busy _ _ _ Hs e) as H. rewrite inc_eq in H. pose proof (sentinel_le e w). lia. Qed.

Lemma own_dequeue k G P w0 w : k.2 <> ""%string -> ser (own (Some k.2) k.1 G) P w0 w -> or_fx k.2 = "fx"%string -> busy P k.1 w + G k.1 = 0.
Proof.
  intros Hk Hw E. unfold or_fx in E. rewrite decide_False in E by done. unfold own in Hw. rewrite decide_True in Hw by by rewrite E.
  by eapply own_idle.
Qed.

Section library.
Context (fx_off : bool) (cos : double -> double) (code : nat -> list action) (go : call -> st_ex world unit).
Context (Hgo : calls_serve go) (Hcode : gentle_code fx_off code).

Lemma go_serves c G P w0 : match c with CUser _ None | CFire _ _ | CTicks _ => True | _ => False end -> serves G P w0 (go c).
Proof using Hgo. intros Hc w Hw. apply Hgo. by destruct c as [f [|]| | | | |]. Qed.

(** ** Deferreds of animations *)

(** A list of callbacks changes, and the tokens that are counted do not. *)
Lemma ser_set_list id ok l fs f G P w0 w n : w_anims w !! id = Some n -> leaves_of w id fs ->
  (forall m, n_this (f m) = n_this m /\ n_opts (f m) = n_opts m /\ fns (f m) ⊆ fns m) ->
  (forall g, g ∈ anim_list l -> g ∈ fs \/ g ∈ fns n) ->
  token (n_done (f (set_list ok l n))) <= token (n_done n) ->
  completes (anim_list (n_done (f (set_list ok l n)))) <= completes (anim_list (n_done n)) ->
  completes (anim_list (n_fail (f (set_list ok l n)))) <= completes (anim_list (n_fail n)) ->
  ser G P w0 w -> ser G P w0 (on_anim id (fun m => f (set_list ok l m)) w).
Proof.
  intros Hn Hfs Hf Hl Ht Hc Hfl [Hk Hs]. split; [by apply (linked_set_list id ok l fs f w0 w n)|].
  destruct (Hf (set_list ok l n)) as (H1 & H2 & _).
  assert (n_this (set_list ok l n) = n_this n /\ n_opts (set_list ok l n) = n_opts n) as [H3 H4] by by destruct n, ok.
  apply (serial_on_anim G G P P id (fun m => f (set_list ok l m)) n w); try (by destruct w); try done; try congruence.
  - pose proof (se_complete _ _ _ Hs id n Hn). case_decide; lia.
  - pose proof (se_fail _ _ _ Hs id n Hn). lia.
  - intros e. unfold weight. assert (in_fx e (f (set_list ok l n)) = in_fx e n) as -> by (unfold in_fx; by rewrite H1, H2, H3, H4).
    destruct (in_fx e n); [|done]. case_decide; lia.
Qed.

Lemma completes_app l k : completes (l ++ k) = completes l + completes k.
Proof. unfold completes. by rewrite filter_app, length_app. Qed.

Lemma token_completes l : completes (anim_list l) <= token l \/ exists k, l = Waiting k.
Proof. destruct l; cbn [token anim_list]; [right; eauto|left; done..]. Qed.

Lemma add_serves id ok fs G P w0 : leaves_of w0 id fs -> completes fs = 0 -> serves G P w0 (add go id ok fs).
Proof using Hgo.
  intros Hfs Hc. apply with_anim_keeps. intros n w Hn Hw. pose proof (leaves_of_from _ _ _ _ Hfs (proj1 Hw)) as Hfs'.
  pose proof (in_list ok n) as Hin. assert (forall m : animation, n_this m = n_this m /\ n_opts m = n_opts m /\ fns m ⊆ fns m) as Hid by done.
  destruct (get_list ok n) as [l|l| |] eqn:E; [| | |done].
  - apply (ser_set_list id ok (Waiting (l ++ fs)) fs (fun m => m) G P w0 w n); auto;
      [intros g [Hg|Hg]%elem_of_app; auto|destruct n, ok; cbn in *; subst; cbn [token anim_list]; rewrite ?completes_app; lia..].
  - apply (ser_set_list id ok (Firing (l ++ fs)) fs (fun m => m) G P w0 w n); auto;
      [intros g [Hg|Hg]%elem_of_app; auto|destruct n, ok; cbn in *; subst; cbn [token anim_list]; rewrite ?completes_app; lia..].
  - apply (go_serves (CFire id ok)); [done|].
    apply (ser_set_list id ok (Firing fs) fs (fun m => m) G P w0 w n); auto; destruct n, ok; cbn in *; subst; cbn; lia.
Qed.

Lemma always_serves id fs G P w0 : leaves_of w0 id fs -> completes fs = 0 -> serves G P w0 (always go id fs).
Proof using Hgo. intros Hfs Hc. apply keep_bind; [by apply add_serves|]. intros []. by apply add_serves. Qed.

Lemma settle_serves id ok G P w0 : serves G P w0 (settle go id ok).
Proof using Hgo.
  apply with_anim_keeps. intros n w Hn Hw. pose proof (in_list ok n) as Hin. destruct (get_list ok n) as [l|l| |] eqn:E; try done.
  apply (go_serves (CFire id ok) G P w0); [done|].
  set (w1 := on_anim id _ w). assert (ser G P w0 w1) as [Hl1 Hs1].
  { pose proof (se_complete _ _ _ (proj2 Hw) id n Hn) as Hc.
    apply (ser_set_list id ok (Firing l) [] (fun m => set_locked true (set_list (negb ok) Disabled m)) G P w0 w n); auto using nil_plain.
    - intros m. destruct m, ok; cbn; (split_and!; [done|done|]); unfold fns; cbn; intros g Hg; apply elem_of_app; [left|right];
        [by rewrite app_nil_r in Hg|done].
    - destruct n, ok; cbn in *; subst; cbn in *; [|lia]. case_decide; lia.
    - destruct n, ok; cbn in *; subst; cbn in *; [done|]. unfold completes at 1. cbn. lia.
    - destruct n, ok; cbn in *; subst; cbn in *; [|done]. unfold completes at 1. cbn. lia. }
  split; [apply (linked_same w0 w1); by destruct w1|]. apply (serial_same G P w1); by destruct w1.
Qed.

Lemma serves_kept G P w0 : kept go (ser G P w0) (ser none [] w0).
Proof using Hgo.
  split.
  - intros w. apply ser_drop.
  - intros f Hf w [Hl Hs]. destruct (Hf w) as (E1 & E2 & E3 & E4 & E5 & E6 & E7 & E8). split.
    + apply (linked_same w0 w); [done|done|by rewrite E5|by rewrite E2|done].
    + by apply (serial_same G P w).
  - intros x w _ [Hl Hs]. split; [apply (linked_same w0 w); by destruct w|]. apply (serial_same G P w); by destruct w.
  - intros id f Hf w [Hl Hs]. split.
    + apply (linked_on_anim w0 id f w); [by destruct w..| |done].
      intros n _. destruct (Hf n) as (H1 & H2 & H3 & H4). split_and!; [done|done|]. unfold fns. rewrite H3, H4. intros h [?|?]; auto.
    + destruct (w_anims w !! id) as [n|] eqn:Hn.
      * destruct (Hf n) as (H1 & H2 & H3 & H4). apply (serial_on_anim G G P P id f n w); try (by destruct w); try done.
        -- rewrite H3. apply (se_complete _ _ _ Hs id n Hn).
        -- rewrite H4. apply (se_fail _ _ _ Hs id n Hn).
        -- intros e. unfold weight, in_fx. by rewrite H1, H2, H3.
      * apply (serial_same G P w); try (by destruct w). destruct w. cbn in *. by rewrite alter_none.
  - intros h f Hf w [Hl Hs]. split; [|apply (serial_same G P w); by destruct w].
    apply (linked_on_hooks w0 h f w); try by destruct w. intros x Hx. destruct (Hf x) as [-> ->]. split_and!; [done|done|]. by apply (ln_lists _ _ Hl h).
  - intros i w [Hl Hs]. split; [apply (linked_same w0 w); by destruct w|]. pose proof Hs as [].
    assert (forall u, u ∈ w_timeouts (clearTimeout i w) -> exists v, v ∈ w_timeouts w /\ u_key u = u_key v) as Hu.
    { destruct w. cbn. intros u (j & Hj)%list_elem_of_lookup. apply alter_lookup in Hj as (v & Hv & [(-> & ->)|(_ & ->)]);
        eexists; (split; [by eapply list_elem_of_lookup_2|done]). }
    split; try (by destruct w).
    + intros e. specialize (se_busy0 e). unfold busy in *.
      assert (nexts e (clearTimeout i w) = nexts e w /\ w_anims (clearTimeout i w) = w_anims w /\ sentinel e (clearTimeout i w) = sentinel e w) as (-> & -> & ->) by by destruct w.
      enough (delays e (clearTimeout i w) <= delays e w) by lia.
      unfold delays. destruct w. cbn. clear. revert i. induction w_timeouts as [|u l IH]; intros [|i]; [done|done| |].
      * change (alter _ 0 (u :: l)) with (Timeout (u_due u) (u_key u) false :: l). rewrite filter_cons_False by (by intros []).
        rewrite filter_cons. case_decide; cbn; lia.
      * change (alter ?f (S i) (u :: l)) with (u :: alter f i l). rewrite !filter_cons. specialize (IH i). case_decide; cbn; lia.
    + intros u (v & Hv & ->)%Hu. by apply se_timeouts0.
  - intros f. by apply go_serves.
  - intros i. by apply go_serves.
  - intros id ok. apply settle_serves.
Qed.

(** Changes of hooks and of promises. *)
Lemma ser_hooks G P w0 w w' : w_queue w' = w_queue w -> w_anims w' = w_anims w -> w_timeouts w' = w_timeouts w -> w_held w' = w_held w ->
  linked w0 w' -> ser G P w0 w -> ser G P w0 w'.
Proof. intros E1 E2 E3 E4 Hl [_ Hs]. split; [done|]. by apply (serial_same G P w). Qed.

Lemma user_serves f G P w0 : serves G P w0 (user go f).
Proof using Hgo. apply (user_keeps _ _ _ (serves_kept G P w0)). Qed.

Lemma queueHooks_serves k G P w0 w : ser G P w0 w ->
  leaves (queueHooks k w) (fun h w' => ser G P w0 w' /\ (exists x, w_heap w' !! h = Some x /\ k_key x = k) /\
    w_queue w' = w_queue w /\ w_anims w' = w_anims w /\ w_timeouts w' = w_timeouts w /\ w_held w' = w_held w) (ser none [] w0).
Proof.
  intros Hw. unfold queueHooks. cbn. unfold sget, sbind. destruct (w_hooks w !! k) as [h|] eqn:E; cbn.
  - split_and!; try done. by apply (ln_hooks _ _ (proj1 Hw)).
  - split; [apply (ser_hooks G P w0 w); try (by destruct w); apply linked_new_hooks, Hw|].
    split_and!; try (by destruct w). eexists. split; [destruct w; cbn; by rewrite lookup_app_r, Nat.sub_diag|done].
Qed.

Lemma fire_empty_serves h G P w0 :
  triple (fun w => ser G P w0 w /\ forall x, w_heap w !! h = Some x -> default [] (w_queue w !! k_key x) = []) (fire_empty go h)
    (fun _ => ser G P w0) (ser none [] w0).
Proof using Hgo.
  intros w [Hw He]. unfold fire_empty. cbn. unfold sget, sbind at 1. destruct (w_heap w !! h) as [[k s l u]|] eqn:Eh; [|done].
  destruct l as [l|l| |]; [|done..]. destruct (bool_decide _); [|done]. cbn [swhen].
  destruct (ln_lists _ _ (proj1 Hw) h _ Eh) as [ps El]. cbn in El.
  apply (Hgo (CEmpty h)). split.
  - apply (ser_hooks G P w0 w); try (by destruct w).
    apply (linked_on_hooks w0 h (set_empty (Firing l)) w); [by destruct w..| |apply Hw].
    intros x Hx. rewrite Eh in Hx. injection Hx as <-. cbn. split_and!; [done|lia|]. exists ps. by left.
  - intros x l' Hx _. destruct w as [a b c heap]. cbn in *. rewrite list_lookup_alter_eq, Eh in Hx. injection Hx as <-. apply (He _ eq_refl).
Qed.

(** ** Promises *)

Lemma promise_changes f G P w0 p : serves G P w0 (smodify (on_promise p f)).
Proof.
  apply keep_modify. intros w Hw. apply (ser_hooks G P w0 w); try (by destruct w).
  apply (linked_same w0 w); try (by destruct w); [destruct w; cbn; by rewrite length_alter|apply Hw].
Qed.

Lemma writes_serve l G P w0 : serves G P w0 (smodify (write l)).
Proof.
  apply keep_modify. intros w Hw. apply (ser_hooks G P w0 w); try (by destruct w).
  apply (linked_same w0 w); try (by destruct w). apply Hw.
Qed.

Lemma resolve_serves p G P w0 : serves G P w0 (resolve go p).
Proof using Hgo.
  apply keep_bind; [apply promise_changes|]. intros []. apply keep_bind; [apply keep_get|].
  intros [[[|c|c] [|] f]|]; try apply keep_ret. apply keep_bind; [apply promise_changes|]. intros [].
  apply keep_bind; [apply writes_serve|]. intros []. apply user_serves.
Qed.

Lemma add_resolve_serves p h G P w0 : serves G P w0 (add_resolve go p h).
Proof using Hgo.
  apply keep_bind; [apply promise_changes|]. intros []. apply keep_bind; [apply writes_serve|]. intros [].
  apply keep_read. intros w Hw. destruct (w_heap w !! h) as [x|] eqn:Ex; [|done]. cbn [fmap option_fmap option_map].
  pose proof (ln_lists _ _ (proj1 Hw) h x Ex) as Hok. destruct (k_empty x) as [l|l| |] eqn:El; [| |by apply resolve_serves|done].
  - apply (ser_hooks G P w0 w); try (by destruct w). apply (linked_on_hooks w0 h (set_empty (Waiting (l ++ [Resolve p]))) w); [by destruct w..| |apply Hw].
    intros y Hy. rewrite Ex in Hy. injection Hy as <-. rewrite El. cbn in *. destruct x, Hok as [ps ->]. cbn. split_and!; [done|lia|].
    exists (ps ++ [p]). by rewrite fmap_app.
  - apply (ser_hooks G P w0 w); try (by destruct w). apply (linked_on_hooks w0 h (set_empty (Firing (l ++ [Resolve p]))) w); [by destruct w..| |apply Hw].
    intros y Hy. rewrite Ex in Hy. injection Hy as <-. rewrite El. cbn in *. destruct x, Hok as [ps [->| ->]]; cbn; (split_and!; [done|destruct ps; cbn; lia|]);
      exists (ps ++ [p]); rewrite fmap_app; [by left|by right].
Qed.

Lemma wait_for_serves p t es G P w0 : serves G P w0 (wait_for go p t es).
Proof using Hgo.
  induction es as [|e es IH]; [apply keep_ret|]. apply keep_bind; [apply keep_get|]. intros h.
  apply keep_bind; [destruct h; [apply add_resolve_serves|apply keep_ret]|]. by intros [].
Qed.

Lemma promise_serves es t f G P w0 : serves G P w0 (promise_ go es t f).
Proof using Hgo.
  apply keep_bind; [apply keep_get|]. intros p. apply keep_bind.
  { apply keep_modify. intros w Hw. apply (ser_hooks G P w0 w); try (by destruct w).
    apply (linked_same w0 w); try (by destruct w); [destruct w; cbn; rewrite length_app; lia|apply Hw]. }
  intros []. apply keep_bind; [apply wait_for_serves|]. intros []. apply keep_bind; [apply resolve_serves|]. intros [].
  apply keep_bind; [apply keep_get|]. intros [[c [|] g]|]; [apply user_serves|apply promise_changes..].
Qed.

Lemma empty_loop_serves h G P w0 : triple (fun w => ser G P w0 w /\ pre (CEmpty h) w) (empty_loop go h) (fun _ => ser G P w0) (ser none [] w0).
Proof using Hgo.
  intros w [Hw Hpre]. unfold empty_loop, sget. unfold sbind at 1. destruct (w_heap w !! h) as [x|] eqn:Ex; cbn [fmap option_fmap option_map]; [|done].
  pose proof (ln_lists _ _ (proj1 Hw) h x Ex) as Hok. destruct (k_empty x) as [l|[|f l]| |] eqn:El; try done.
  - apply (ser_hooks G P w0 w); try (by destruct w). apply (linked_on_hooks w0 h (set_empty Fired) w); [by destruct w..| |apply Hw].
    intros y Hy. rewrite Ex in Hy. injection Hy as <-. rewrite El. by destruct x.
  - set (w1 := on_hooks h (set_empty (Firing l)) w).
    assert (exists ps, l = Resolve <$> ps) as [ps Eps].
    { cbn in Hok. destruct Hok as [[|p ps] [E|E]]; try done; injection E as -> ->; [by exists []|by exists (p :: ps)|by exists ps]. }
    assert (ser G P w0 w1) as H1.
    { apply (ser_hooks G P w0 w); try (by destruct w). apply (linked_on_hooks w0 h (set_empty (Firing l)) w); [by destruct w..| |apply Hw].
      intros y Hy. rewrite Ex in Hy. injection Hy as <-. rewrite El. destruct x. cbn. split_and!; [done| |by exists ps; right].
      rewrite Eps. destruct f, ps; cbn; lia. }
    assert (exists x1, w_heap w1 !! h = Some x1 /\ k_key x1 = k_key x /\ k_empty x1 = Firing l) as (x1 & Hx1 & Ek & El1).
    { exists (set_empty (Firing l) x). subst w1. destruct w. cbn in *. rewrite list_lookup_alter_eq, Ex. by destruct x. }
    assert (forall w2 y k, linked w1 w2 -> w_heap w2 !! h = Some y -> k_empty y = Firing (RemoveData :: k) -> False) as Hno.
    { intros w2 y k Hl Hy Ey. destruct (ln_key _ _ Hl h x1 Hx1) as (z & Hz & _ & Hs). rewrite Hy in Hz. injection Hz as <-.
      rewrite Ey, El1, Eps in Hs. destruct ps; cbn in Hs; lia. }
    assert (w_queue w1 = w_queue w) as Eq by by destruct w.
    unfold smodify at 1. unfold sbind at 1. fold w1. clearbody w1. destruct f as [|p]; cbn [call_hook].
    + unfold smodify at 1. unfold sbind at 1. rewrite Hx1. set (w2 := set_hooks _ _).
      assert (linked w1 w2) as Hl2.
      { apply (linked_same w1 w1); [by subst w2; destruct w1..| |by eapply linked_start, H1]. intros j i. subst w2. destruct w1. cbn.
        intros Hj. by apply lookup_delete_Some in Hj as [_ Hj]. }
      apply (Hgo (CEmpty h)). split; [|intros y k Hy Ey; by destruct (Hno w2 y k)]. split; [by eapply linked_trans; [apply H1|]|].
      apply (serial_queue G P (k_key x1) None w1); try (by subst w2; destruct w1); [|apply H1].
      intros e He. right. pose proof (Hpre x l Ex El) as Hq. rewrite <- Ek, He, <- Eq in Hq. unfold sentinel.
      assert (w_queue w2 !! fx e = None) as -> by (subst w2; destruct w1; cbn; by rewrite He, lookup_delete_eq).
      destruct (w_queue w1 !! fx e) as [[|i q]|]; done.
    + eapply (leaves_bind _ _ _ (fun _ => ser G P w1)).
      * eapply leaves_impl; [apply (resolve_serves p G P w1); by eapply ser_start|done|]. intros s. apply ser_trans, H1.
      * intros [] w2 H2. apply (Hgo (CEmpty h)). split; [eapply ser_trans; [apply H1|done]|]. intros y k Hy Ey. destruct (Hno w2 y k); [apply H2|done..].
Qed.

(** ** [dequeue] *)

Lemma fx_key (k : key) : k.2 = "fx"%string -> k = fx k.1.
Proof. destruct k. cbn. by intros ->. Qed.

Lemma busy_same P e w w' : w_anims w' = w_anims w -> w_timeouts w' = w_timeouts w -> w_held w' = w_held w -> busy P e w' = busy P e w.
Proof. intros E1 E2 E3. unfold busy, delays, nexts. by rewrite E1, E2, E3. Qed.

Lemma dequeue_serves k G P w0 : triple (fun w => ser G P w0 w /\ finds G P (CDequeue k) w) (dequeue go k) (fun _ => ser G P w0) (ser none [] w0).
Proof using Hgo.
  unfold dequeue. set (j := (k.1, or_fx k.2) : key). intros w [Hw Hidle]. unfold sget. unfold sbind at 1.
  assert (queue_of j w = default [] (w_queue w !! j)) as Eq by (unfold queue_of; subst j; cbn; by rewrite or_fx_idem).
  rewrite Eq. assert (j.2 = "fx"%string -> busy P j.1 w + G j.1 = 0) as Hj by done. assert (j.2 <> ""%string) as Hj0.
  { subst j. cbn. unfold or_fx. by case_decide. }
  clearbody j. clear Eq k Hidle.
  assert (shape j (default [] (w_queue w !! j))) as Hshape.
  { destruct (w_queue w !! j) as [q|] eqn:E; [by apply (se_shape _ _ _ (proj2 Hw))|]. exists []. by left. }
  assert (forall f, Fun f ∈ default [] (w_queue w !! j) -> made_for j f) as Hmade.
  { destruct (w_queue w !! j) as [q|] eqn:E; [intros f; by apply (se_items _ _ _ (proj2 Hw))|]. by intros f ?%elem_of_nil. }
  destruct (shift_shape _ _ Hshape) as (fs & E1 & E2 & E3 & _). cbn zeta in E1, E3.
  assert (forall f, f ∈ fs -> made_for j f) as Hfs.
  { intros f Hf. apply Hmade. assert (Fun f ∈ Fun <$> fs) as Hin by (by apply list_elem_of_fmap_2). rewrite <- E1 in Hin.
    destruct (default [] (w_queue w !! j)) as [|[|g] q]; [done|by right|done]. }
  set (queue := default [] (w_queue w !! j)) in *. rewrite E1, E3.
  assert (forall l evs, (forall f, f ∈ l -> made_for j f) -> let w1 := write evs (store j (fun _ => Fun <$> l) w) in
    ser G P w0 w1 /\ (j.2 = "fx"%string -> busy P j.1 w1 + G j.1 = 0)) as Hstore.
  { intros l evs Hl w1. split.
    - split; [apply (linked_same w0 w); try (by destruct w); apply Hw|].
      apply (serial_queue G P j ((fun _ => Fun <$> l) <$> w_queue w !! j) w); try (by destruct w); [| | |apply Hw].
      + destruct w. apply alter_partial.
      + intros q Hq. destruct (w_queue w !! j); [|done]. injection Hq as <-. split; [exists l; by left|]. intros f (g & [= ->] & Hg)%list_elem_of_fmap. auto.
      + intros e He. left. rewrite He in Hj. specialize (Hj eq_refl). cbn in Hj. lia.
    - intros E. rewrite (busy_same P j.1 w); [auto|by destruct w..]. }
  destruct fs as [|f fs]; cbn [shift fmap list_fmap].
  - do 2 (unfold smodify at 1; unfold sbind at 1; cbn beta iota). destruct (Hstore [] []) as [H1 _]; [by intros f ?%elem_of_nil|].
    set (w1 := write [] _) in *. cbn [fmap list_fmap] in H1. fold w1 in H1.
    assert (default [] (w_queue w1 !! j) = []) as Hw1.
    { subst w1. destruct w as [a]. cbn in *. rewrite lookup_alter. rewrite decide_True by done. by destruct (a !! j). }
    eapply leaves_bind; [by apply queueHooks_serves|]. intros h w2 (H2 & (x & Hx & Ek) & Eq & _). apply (fire_empty_serves h G P w0). split; [done|].
    intros y Hy. rewrite Hx in Hy. injection Hy as <-. by rewrite Ek, Eq.
  - do 2 (unfold smodify at 1; unfold sbind at 1; cbn beta iota). destruct (Hstore fs [LCall j f]) as [H1 Hb1]; [intros g Hg; apply Hfs; by right|].
    set (w1 := write _ _) in *. change (list_fmap item func) with (@fmap list _ func item) in *.
    assert (w_queue w1 !! j = Some (Fun <$> fs)) as Eq1.
    { assert (exists q, w_queue w !! j = Some q) as [q Hq] by (destruct (w_queue w !! j) eqn:E; [eauto|]; subst queue; cbn in E1; by cbn in E1).
      subst w1. destruct w as [a]. cbn in *. rewrite lookup_alter, decide_True, Hq by done. done. }
    eapply leaves_bind; [by apply queueHooks_serves|]. intros h w2 (H2 & _ & Eq2 & Ea2 & Et2 & Eh2).
    apply (leaves_bind _ _ _ (fun _ => ser G P w0)); [|by intros [] w3 H3].
    apply (leaves_bind _ _ _ (fun _ => ser (own (Some j.2) j.1 G) P w0)).
    + unfold own. destruct (decide (j.2 = "fx"%string)) as [Hfx|Hfx].
      * rewrite bool_decide_true, decide_True by (done || by rewrite Hfx). cbn [swhen].
        set (w3 := store j (cons InProgress) w2). assert (busy P j.1 w3 + G j.1 = 0) as Hb3.
        { rewrite (busy_same P j.1 w1); [auto|by destruct w2..]. }
        assert (sentinel j.1 w3 = 1) as Hs3.
        { unfold sentinel. rewrite <- (fx_key j Hfx). subst w3. destruct w2 as [a]. cbn in *. by rewrite lookup_alter, decide_True, Eq2, Eq1. }
        split; [apply (linked_same w0 w2); try (by destruct w2); apply H2|].
        assert (serial G P w3) as Hser3.
        { apply (serial_queue G P j (Some (InProgress :: (Fun <$> fs))) w2); try (by destruct w2); [| | |apply H2].
          - subst w3. destruct w2 as [a]. cbn in *. rewrite alter_partial. by rewrite Eq2, Eq1.
          - intros l [= <-]. split; [exists fs; by right|]. intros g [?|(g' & [= ->] & Hg)%list_elem_of_fmap]%elem_of_cons; [done|]. apply Hfs. by right.
          - intros e He. left. rewrite He in Hs3. rewrite (busy_same P e w3); [|by destruct w2..]. rewrite He in Hb3. change ((fx e).1) with e in *. lia. }
        destruct Hser3. split; try done. intros e. specialize (se_busy0 e). unfold inc. case_decide as Ee; [|done]. subst e. fold w3. lia.
      * rewrite bool_decide_false, decide_False by (done || congruence). exact H2.
    + intros [] w3 H3. change (leaves ((smodify (on_hooks h (set_stop None)) ;! go (CFun f j h))%js w3) (fun _ => ser G P w0) (ser none [] w0)).
      apply (leaves_bind _ _ _ (fun _ => ser (own (Some j.2) j.1 G) P w0)).
      * apply (keep_hooks _ _ _ (serves_kept (own (Some j.2) j.1 G) P w0)); [by intros []|done].
      * intros [] w4 H4. apply Hgo. split; [exact H4|]. split; [done|]. apply Hfs. by left.
Qed.

Lemma started_serves k G P w0 : serves G P w0 (started go k).
Proof using Hgo.
  intros w Hw. unfold started, sget. unfold sbind at 1. eapply leaves_bind; [by apply queueHooks_serves|].
  intros h w1 (H1 & _ & Eq & _). destruct (bool_decide_reflect (k.2 = "fx"%string)) as [Hfx|]; [|done].
  assert (queue_of k w = default [] (w_queue w !! fx k.1)) as -> by (unfold queue_of; by rewrite Hfx).
  destruct (default [] (w_queue w !! fx k.1)) as [|[|f] q] eqn:Ed; [|done|]; cbn [andb swhen]; (apply (Hgo (CDequeue k)); split; [done|]; intros _;
    pose proof (se_busy _ _ _ (proj2 H1) k.1) as Hb; unfold sentinel in Hb; rewrite Eq in Hb;
    destruct (w_queue w !! fx k.1) as [[|[|g] r]|]; cbn in Ed; try done; lia).
Qed.

Lemma queue_push_serves k f G P w0 : made_for (k.1, or_fx k.2) f -> serves G P w0 (queue_push k f).
Proof.
  intros Hf. set (j := (k.1, or_fx k.2) : key). intros w Hw. unfold queue_push. fold j.
  cbn -[set_queue write]. set (q := default [] (w_queue w !! j)). set (w1 := write _ _).
  split; [apply (linked_same w0 w); try (by destruct w); apply Hw|].
  apply (serial_queue G P j (Some (q ++ [Fun f])) w); try (by destruct w); [| |apply Hw].
  - intros l [= <-]. subst q. destruct (w_queue w !! j) as [q|] eqn:E; cbn [default from_option Datatypes.id].
    + split.
      * destruct (se_shape _ _ _ (proj2 Hw) j q E) as [fs [->|[Hk ->]]]; exists (fs ++ [f]); rewrite fmap_app; [by left|by right].
      * intros g [Hg|Hg]%elem_of_app; [by apply (se_items _ _ _ (proj2 Hw) j q)|]. apply list_elem_of_singleton in Hg. by injection Hg as ->.
    + split; [exists [f]; by left|]. intros g Hg. apply list_elem_of_singleton in Hg. by injection Hg as ->.
  - intros e He. right. unfold sentinel. assert (w_queue w1 !! fx e = Some (q ++ [Fun f])) as ->.
    { subst w1. destruct w. cbn. by rewrite <- He, lookup_insert_eq. }
    rewrite <- He. subst q. by destruct (w_queue w !! j) as [[|[|g] q]|].
Qed.

Lemma queue_serves k f G P w0 : made_for (k.1, or_fx k.2) f -> serves G P w0 (queue go k f).
Proof using Hgo. intros Hf. apply keep_bind; [by apply queue_push_serves|]. intros []. apply started_serves. Qed.

(** Arrays of functions of the page, in queues that are not fx queues. *)
Lemma queue_set_serves k fs G P w0 : or_fx k.2 <> "fx"%string -> serves G P w0 (queue_set k (User <$> fs)).
Proof.
  intros Hk. set (j := (k.1, or_fx k.2) : key). intros w Hw. unfold queue_set. fold j. cbn -[set_queue write]. set (w1 := write _ _).
  split; [apply (linked_same w0 w); try (by destruct w); apply Hw|].
  apply (serial_queue G P j (Some (Fun <$> (User <$> fs))) w); try (by destruct w); [| |apply Hw].
  - intros l [= <-]. split; [eexists; by left|]. intros f (g & [= ->] & (i & -> & _)%list_elem_of_fmap)%list_elem_of_fmap. done.
  - intros e [= _ He]. done.
Qed.

Lemma queue_all_serves k fs G P w0 : or_fx k.2 <> "fx"%string -> serves G P w0 (queue_all go k (User <$> fs)).
Proof using Hgo. intros Hk. apply keep_bind; [by apply queue_set_serves|]. intros []. apply started_serves. Qed.

Lemma clearQueue_serves e t G P w0 : or_fx t <> "fx"%string -> serves G P w0 (clearQueue go e t).
Proof using Hgo. intros Ht. apply (queue_all_serves (e, or_fx t) []). cbn. by rewrite or_fx_idem. Qed.

(** ** The callbacks of animations *)

(** A callback that is taken from its list takes its token with it. *)
Definition taken (f : anim_fn) (n : animation) (G : nat -> nat) : nat -> nat :=
  match f with Complete => own (queued (n_opts n)) (n_this n) G | _ => G end.

Lemma call_anim_serves id f n G P w0 : leaves_of w0 id [f] -> w_anims w0 !! id = Some n ->
  triple (ser (taken f n G) P w0) (call_anim go id f) (fun _ => ser G P w0) (ser none [] w0).
Proof using Hgo.
  intros Hf Hn0 w Hw. unfold call_anim, with_anim, sget. unfold sbind at 1.
  destruct (ln_this _ _ (proj1 Hw) id n Hn0) as (m & Hm & Et & Eo). rewrite Hm.
  assert (forall G, ser G P w0 w -> leaves_of w id [f]) as Hf' by (intros G' H; apply (leaves_of_from w0); [done|apply H]).
  destruct f as [|h|h| |f]; cbn [taken] in Hw.
  - apply (keep_anim _ _ _ (serves_kept G P w0)); [by intros []|done].
  - apply (serves_from G P w0 w); [|done]. apply always_serves; [|done]. intros i [Hi|Hi]; apply list_elem_of_singleton in Hi; [done|injection Hi as ->].
    apply (Hf' G Hw). left. by left.
  - destruct (Hf' G Hw h) as (x & m' & Hx & Hm' & E); [right; by left|]. rewrite Hm in Hm'. injection Hm' as <-.
    apply (leaves_bind _ _ _ (fun _ => ser G P w)).
    { eapply leaves_impl; [apply (keep_hooks _ _ _ (serves_kept G P w) h); [by intros []|]; by eapply ser_start|done|]. intros s. apply ser_trans, Hw. }
    intros [] w1 H1. unfold sget. unfold sbind at 1.
    destruct (bool_decide_reflect (length (queue_of (n_this m, "fx"%string) w1) = O)) as [Hq|]; [|cbn; eapply ser_trans; [apply Hw|done]].
    cbn [swhen]. apply (fire_empty_serves h G P w0). split; [eapply ser_trans; [apply Hw|done]|]. intros y Hy.
    destruct (ln_key _ _ (proj1 H1) h x Hx) as (z & Hz & Ez & _). rewrite Hy in Hz. injection Hz as <-. rewrite Ez, E. by apply queue_of_empty in Hq.
  - rewrite <- Et, <- Eo in Hw. clear Hf'. apply (leaves_bind _ _ _ (fun _ => ser (own (queued (n_opts m)) (n_this m) G) P w0)); [by apply user_serves|].
    intros [] w1 H1. destruct (queued (n_opts m)) as [t|] eqn:Eq; [|exact H1]. apply Hgo. split; [by eapply ser_own|]. cbn.
    intros Eor. apply (own_dequeue (n_this m, t) G P w0 w1); [|done..]. unfold queued in Eq. destruct (o_queue (n_opts m)); [|done]. cbn in Eq. case_decide; [done|]. by injection Eq as ->.
  - by apply (user_serves (Some f)).
Qed.

Lemma completes_cons f l : completes (f :: l) = (if decide (f = Complete) then 1 else 0) + completes l.
Proof. unfold completes. rewrite filter_cons. by case_decide. Qed.

Lemma fire_serves id ok G P w0 : serves G P w0 (fire go id ok).
Proof using Hgo.
  apply with_anim_keeps. intros n w Hn Hw. pose proof (in_list ok n) as Hin. destruct (get_list ok n) as [l|[|f l]| |] eqn:E; try done.
  - apply (ser_set_list id ok Fired [] (fun m => m) G P w0 w n); auto using nil_plain; destruct n, ok; cbn in *; subst; cbn; lia.
  - set (w1 := on_anim id (set_list ok (Firing l)) w). set (n1 := set_list ok (Firing l) n).
    assert (linked w0 w1) as Hl1.
    { apply (linked_set_list id ok (Firing l) [] (fun m => m) w0 w n); auto using nil_plain; [|apply Hw]. intros g Hg. right. apply Hin. by right. }
    assert (w_anims w1 !! id = Some n1) as Hn1 by (subst w1; destruct w; cbn in *; by rewrite list_lookup_alter_eq, Hn).
    assert (n_this n1 = n_this n /\ n_opts n1 = n_opts n) as [Et Eo] by (subst n1; by destruct n, ok).
    assert (leaves_of w1 id [f]) as Hf.
    { intros h Hh. assert (exists x, w_heap w !! h = Some x /\ k_key x = (n_this n, "fx"%string)) as (x & Hx & Ek).
      { apply (ln_anims _ _ (proj1 Hw) id n h Hn). destruct Hh as [Hh|Hh]; apply list_elem_of_singleton in Hh; subst f; [left|right]; apply Hin; left. }
      exists x, n1. rewrite Et. split_and!; [by destruct w|done|done]. }
    pose proof (se_complete _ _ _ (proj2 Hw) id n Hn) as Hc. pose proof (se_fail _ _ _ (proj2 Hw) id n Hn) as Hfl.
    assert (f = Complete -> ok = true /\ id ∉ P) as HP.
    { intros ->. destruct n, ok; cbn in *; subst; cbn in *; rewrite completes_cons, decide_True in * by done; [|lia].
      split; [done|]. case_decide; [lia|done]. }
    assert (ser (taken f n G) P w0 w1) as H1.
    { split; [done|]. apply (serial_on_anim G (taken f n G) P P id (set_list ok (Firing l)) n w); try (by destruct w); try done; [|..|apply Hw].
      - destruct n, ok; cbn in *; subst; cbn in *; rewrite ?completes_cons in *; repeat case_decide; lia.
      - destruct n, ok; cbn in *; subst; cbn in *; rewrite ?completes_cons in *; lia.
      - intros e. fold n1. unfold weight. assert (in_fx e n1 = in_fx e n) as -> by (unfold in_fx; by rewrite Et, Eo).
        assert (token (n_done n1) + (if decide (f = Complete) then 1 else 0) <= token (n_done n)) as Ht.
        { subst n1. destruct n, ok; cbn in *; subst; cbn in *; rewrite ?completes_cons.
          - case_decide; lia.
          - rewrite decide_False; [lia|]. intros ->. by destruct (HP eq_refl). }
        destruct (decide (f = Complete)) as [->|Hne].
        + destruct (HP eq_refl) as [_ Hid]. cbn [taken]. unfold own, in_fx. rewrite !(decide_False (P := id ∈ P)) by done.
          destruct (bool_decide_reflect (n_this n = e /\ queued (n_opts n) = Some "fx"%string)) as [[<- Eq]|Hno].
          * rewrite decide_True, inc_eq by done. lia.
          * destruct (decide (queued (n_opts n) = Some "fx"%string)); [|lia]. unfold inc. rewrite decide_False; [lia|]. by intros ->; apply Hno.
        + assert (taken f n G = G) as -> by by destruct f. destruct (in_fx e n); [|lia]. case_decide; lia. }
    change (leaves ((call_anim go id f ;! go (CFire id ok))%js w1) (fun _ => ser G P w0) (ser none [] w0)).
    apply (leaves_bind _ _ _ (fun _ => ser G P w1)).
    + eapply leaves_impl; [apply (call_anim_serves id f n1 G P w1); [done..|]|done|by intros s; apply ser_trans].
      assert (taken f n1 G = taken f n G) as -> by (unfold taken; by rewrite Et, Eo). by eapply ser_start.
    + intros [] w2 H2. apply (go_serves (CFire id ok)); [done|]. by eapply ser_trans.
Qed.

(** ** Animations *)

(** [opt.complete] is added to the callbacks of an animation that was being made. *)
Lemma add_complete_serves id fs G P w0 : id ∉ P -> leaves_of w0 id (fs ++ [Complete]) -> completes fs = 0 ->
  triple (ser G (id :: P) w0) (add go id true (fs ++ [Complete])) (fun _ => ser G P w0) (ser none [] w0).
Proof using Hgo.
  intros Hid Hfs Hc w Hw. unfold add, with_anim, sget. unfold sbind at 1. destruct (w_anims w !! id) as [n|] eqn:Hn.
  2:{ pose proof (se_making _ _ _ (proj2 Hw) id ltac:(left)) as H. apply lookup_lt_is_Some_2 in H as [n Hn']. congruence. }
  pose proof (leaves_of_from _ _ _ _ Hfs (proj1 Hw)) as Hfs'. pose proof (in_list true n) as Hin.
  pose proof (se_complete _ _ _ (proj2 Hw) id n Hn) as Hc0. rewrite decide_True in Hc0 by left.
  pose proof (se_fail _ _ _ (proj2 Hw) id n Hn) as Hf0.
  assert (forall l, (forall g, g ∈ anim_list l -> g ∈ fs ++ [Complete] \/ g ∈ fns n) -> completes (anim_list l) <= 1 -> token l <= 1 ->
    ser G P w0 (on_anim id (set_list true l) w)) as Hset.
  { intros l Hl H1 H2. split.
    - apply (linked_set_list id true l (fs ++ [Complete]) (fun m => m) w0 w n); auto. apply Hw.
    - apply (serial_on_anim G G (id :: P) P id (set_list true l) n w); try (by destruct w); try (by destruct n); [| | |apply Hw].
      + intros i Hi. rewrite elem_of_cons. split; [by right|]. by intros [?|?].
      + rewrite decide_False by done. destruct n; cbn in *; lia.
      + intros e. unfold weight. assert (in_fx e (set_list true l n) = in_fx e n) as -> by by destruct n.
        destruct (in_fx e n); [|done]. rewrite decide_False, decide_True by (done || left). destruct n; cbn in *; lia. }
  assert (completes (fs ++ [Complete]) = 1) as H1 by (rewrite completes_app, Hc; done).
  destruct (get_list true n) as [l|l| |] eqn:E.
  - apply Hset; [intros g [Hg|Hg]%elem_of_app; auto| |done]. cbn [anim_list]. rewrite completes_app. destruct n; cbn in *; subst; cbn in *. lia.
  - apply Hset; [intros g [Hg|Hg]%elem_of_app; auto|cbn [anim_list]|cbn [token]]; rewrite completes_app; destruct n; cbn in *; subst; cbn in *; lia.
  - apply (go_serves (CFire id true)); [done|]. apply Hset; [auto|cbn [anim_list]; lia|cbn [token]; lia].
  - split; [apply Hw|]. assert (token (n_done n) <= 1) as Ht by (destruct n; cbn in *; subst; cbn; lia).
    replace w with (on_anim id (fun n => n) w) by (destruct w; cbn; f_equal; by apply (alter_same (fun n => n) id _ n)).
    apply (serial_on_anim G G (id :: P) P id (fun n => n) n w); try (by destruct w); try done; [| | |apply Hw].
    + intros i Hi. rewrite elem_of_cons. split; [by right|]. by intros [?|?].
    + rewrite decide_False by done. lia.
    + intros e. unfold weight. destruct (in_fx e n); [|done]. rewrite decide_False, decide_True by (done || left). lia.
Qed.

Lemma defaultPrefilter_serves e id o G P w0 : (exists n, w_anims w0 !! id = Some n /\ n_this n = e) -> serves G P w0 (defaultPrefilter go e id o).
Proof using Hgo.
  intros (n & Hn & En). unfold defaultPrefilter. destruct (queued o); [apply keep_ret|]. intros w Hw.
  eapply leaves_bind; [by apply queueHooks_serves|]. intros h w1 (H1 & (x & Hx & Ex) & _).
  assert (leaves_of w1 id [Leaving h]) as Hl.
  { destruct (ln_this _ _ (proj1 H1) id n Hn) as (m & Hm & Em & _). intros i [Hi|Hi]; apply list_elem_of_singleton in Hi; [|done]. injection Hi as ->.
    exists x, m. by rewrite Ex, Em, En. }
  apply (serves_from G P w0 w1); [|done]. apply keep_bind; [apply (keep_hooks _ _ _ (serves_kept _ _ _)); by intros []|].
  intros []. by apply always_serves.
Qed.

(** A new animation takes the token of the function that makes it. *)
Lemma new_anim_serves e o t G P w0 w : ser (own (queued o) e G) P w0 w ->
  let id := length (w_anims w) in
  ser G (id :: P) w0 (set_anims (w_anims w ++
    [Animation_ e (Some e) o t [] false (Waiting [DeleteElem]) (Waiting [DeleteElem]) None false false]) w).
Proof.
  intros [Hl Hs] id. set (n := Animation_ _ _ _ _ _ _ _ _ _ _ _). split; [apply (linked_new_anim w0 n w); by destruct w|].
  assert (id ∉ P) as Hid by (intros H; pose proof (se_making _ _ _ Hs id H); lia).
  assert (forall i x, (w_anims w ++ [n]) !! i = Some x -> w_anims w !! i = Some x /\ i <> id \/ i = id /\ x = n) as Hi.
  { intros i x [H|[Hge H]]%lookup_app_Some; [left; split; [done|]|right].
    - apply lookup_lt_Some in H. lia.
    - apply list_lookup_singleton_Some in H as [H <-]. split; [subst id; lia|done]. }
  pose proof Hs as []. split; try (by destruct w).
  - intros i. specialize (se_busy0 i). unfold busy in *. set (w1 := set_anims _ w).
    assert (delays i w1 = delays i w /\ nexts i w1 = nexts i w /\ sentinel i w1 = sentinel i w /\ w_anims w1 = w_anims w ++ [n]) as (-> & -> & -> & ->) by by destruct w.
    rewrite total_app. fold id.
    assert (Prelude.total (weight (id :: P) i) (w_anims w) = Prelude.total (weight P i) (w_anims w)) as ->.
    { apply total_ext. intros j x Hj. apply lookup_lt_Some in Hj. unfold weight. destruct (in_fx i x); [|done].
      destruct (decide (j ∈ P)) as [Hin|Hin]; [by rewrite decide_True by by right|]. rewrite decide_False; [done|].
      intros [?|?]%elem_of_cons; [subst id; lia|done]. }
    assert (weight (id :: P) i id n + G i <= own (queued o) e G i) as Hw; [|lia].
    unfold weight, in_fx. cbn [n_this n_opts n]. rewrite (decide_True (P := id ∈ id :: P)) by left.
    destruct (bool_decide_reflect (e = i /\ queued o = Some "fx"%string)) as [[-> Eq]|Hno]; [|exact (own_le (queued o) e G i)].
    unfold own. rewrite decide_True by done. by rewrite inc_eq.
  - intros i x. replace (w_anims (set_anims (w_anims w ++ [n]) w)) with (w_anims w ++ [n]) by by destruct w. intros [[Hx Hne]|[-> ->]]%Hi.
    + specialize (se_complete0 i x Hx). destruct (decide (i ∈ P)) as [Hin|Hin]; [by rewrite decide_True by by right|].
      rewrite decide_False; [done|]. by intros [?|?]%elem_of_cons.
    + assert (completes (anim_list (n_done n)) = 0) as -> by done. lia.
  - intros i x. replace (w_anims (set_anims (w_anims w ++ [n]) w)) with (w_anims w ++ [n]) by by destruct w. intros [[Hx Hne]|[-> ->]]%Hi; [by apply (se_fail0 i)|done].
  - intros i Hin. replace (w_anims (set_anims (w_anims w ++ [n]) w)) with (w_anims w ++ [n]) by by destruct w. rewrite length_app. cbn.
    apply elem_of_cons in Hin as [->|Hin]; [subst id; lia|]. specialize (se_making0 i Hin). lia.
Qed.

Lemma callback_plain_completes f : completes (callback f) = 0.
Proof. by destruct f. Qed.

Lemma Animation_serves e props o G P w0 : triple (ser (own (queued o) e G) P w0) (Animation cos go e props o) (fun _ => ser G P w0) (ser none [] w0).
Proof using Hgo.
  intros w Hw. unfold Animation, sget. unfold sbind at 1. set (id := length (w_anims w)).
  apply (leaves_bind _ _ _ (fun _ w' => ser (own (queued o) e G) P w0 w' /\ w_anims w' = w_anims w)).
  { pose proof (fx_now_keeps _ _ _ (serves_kept (own (queued o) e G) P w0) w Hw) as H. unfold fx_now in *. destruct (w_fxNow w); cbn in *; (split; [exact H|by destruct w]). }
  intros t w1 [H1 E1]. unfold smodify at 1. unfold sbind at 1. cbn beta iota. pose proof (new_anim_serves e o t G P w0 w1 H1) as H2. cbn zeta in H2.
  rewrite E1 in H2 at 1. fold id in H2. set (w2 := set_anims _ _) in *.
  assert (exists n, w_anims w2 !! id = Some n /\ n_this n = e) as Hn2.
  { subst w2 id. rewrite <- E1. eexists. split; [destruct w1; cbn; by rewrite lookup_app_r, Nat.sub_diag|done]. }
  assert (id ∉ P) as Hid by (intros H; pose proof (se_making _ _ _ (proj2 Hw) id H); lia).
  clearbody w2. eapply leaves_impl; [|by intros r s; apply ser_trans, H2|by intros s; apply ser_trans, H2].
  assert (ser G (id :: P) w2 w2) as H2' by by eapply ser_start.
  refine ((_ : triple (ser G (id :: P) w2) _ (fun _ => ser G P w2) (ser none [] w2)) w2 H2'). clear -Hgo Hn2 Hid.
  pose proof (serves_kept G (id :: P) w2) as K.
  apply (triple_bind _ _ (fun _ => ser G (id :: P) w2)); [by apply defaultPrefilter_serves|intros []].
  apply (triple_bind _ _ (fun _ => ser G (id :: P) w2)); [by apply (create_tweens_keeps _ _ _ K)|intros []].
  apply (triple_bind _ _ (fun _ => ser G (id :: P) w2)); [by apply user_serves|intros []].
  apply (triple_bind _ _ (fun _ => ser G (id :: P) w2)); [by apply (fx_timer_keeps _ _ _ _ K)|intros []].
  apply (triple_bind _ _ (fun _ => ser G (id :: P) w2)); [by apply (add_progress_keeps _ _ _ K)|intros []].
  apply (triple_bind _ _ (fun _ => ser G P w2)); [apply add_complete_serves; [done|apply (callback_plain w2 id (o_done o) true)|apply callback_plain_completes]|intros []].
  assert (forall f, leaves_of w2 id (callback f)) as Hc by (intros f; rewrite <- (app_nil_r (callback f)); apply (callback_plain w2 id f false)).
  apply keep_bind; [apply add_serves; [done|apply callback_plain_completes]|]. intros [].
  apply keep_bind; [apply always_serves; [done|apply callback_plain_completes]|]. intros []. apply keep_ret.
Qed.

Lemma doAnimation_serves e props o G P w0 : triple (ser (own (queued o) e G) P w0) (doAnimation cos go e props o) (fun _ => ser G P w0) (ser none [] w0).
Proof using Hgo.
  apply (triple_bind _ _ (fun _ => ser G P w0)); [apply Animation_serves|]. intros id.
  apply keep_bind; [apply keep_get|]. intros b. apply keep_when, (anim_stop_keeps _ _ _ _ (serves_kept _ _ _)).
Qed.

(** An animation that is not of an fx queue has no token. *)
Lemma doAnimation_free e props o G P w0 : queued o <> Some "fx"%string -> serves G P w0 (doAnimation cos go e props o).
Proof using Hgo.
  intros Ho w Hw. apply (doAnimation_serves e props o G P w0). unfold own. by rewrite decide_False.
Qed.

Lemma queued_name t o : o_queue o = Some t -> queued o = None \/ queued o = Some (or_fx t) /\ t <> ""%string.
Proof. intros E. unfold queued, or_fx. rewrite E. cbn. case_decide; auto. Qed.

Lemma animate_serves e props p G P w0 : gentle fx_off (AAnimate e props p) -> serves G P w0 (animate fx_off cos go e props p).
Proof using Hgo.
  cbn. intros Hg. unfold animate. set (o := speed_opts fx_off p) in *. destruct props as [|x props].
  - apply doAnimation_free. by destruct Hg.
  - destruct (o_queue o) as [t|] eqn:E; [|apply doAnimation_free; unfold queued; by rewrite E].
    apply queue_serves. cbn. destruct (queued_name t o E) as [?|[? _]]; auto.
Qed.

(** A token that becomes a timeout, or a function that is kept. *)
Lemma start_delay_serves time k h G P w0 : k.2 <> ""%string ->
  triple (ser (own (Some k.2) k.1 G) P w0) (start_delay time k h) (fun _ => ser G P w0) (ser none [] w0).
Proof using Hgo.
  intros Hk w Hw. unfold start_delay, sget. unfold sbind at 1. unfold smodify at 1. unfold sbind at 1. cbn beta iota. set (w1 := set_timeouts _ w).
  apply (keep_hooks _ _ _ (serves_kept G P w0)); [by intros []|]. split; [apply (linked_same w0 w); try (by destruct w); apply Hw|].
  pose proof (proj2 Hw) as []. split; try (by destruct w).
  - intros e. specialize (se_busy0 e). unfold busy in *.
    assert (nexts e w1 = nexts e w /\ sentinel e w1 = sentinel e w /\ w_anims w1 = w_anims w) as (-> & -> & ->) by by destruct w.
    assert (delays e w1 + G e <= delays e w + own (Some k.2) k.1 G e) as H; [|lia].
    unfold delays. subst w1. destruct w. cbn. rewrite filter_app, length_app. rewrite filter_cons. case_decide as Hd; cbn; [|pose proof (own_le (Some k.2) k.1 G e); lia].
    destruct Hd as [_ Hd]. cbn in Hd. rewrite Hd, own_fx. lia.
  - intros u. subst w1. destruct w. cbn in *. intros [Hu|Hu]%elem_of_app; [by apply se_timeouts0|]. apply list_elem_of_singleton in Hu as ->. done.
Qed.

Lemma hold_serves k G P w0 : k.2 <> ""%string ->
  triple (ser (own (Some k.2) k.1 G) P w0) (smodify (fun w => set_held (w_held w ++ [k]) w)) (fun _ => ser G P w0) (ser none [] w0).
Proof using Hgo.
  intros Hk. apply triple_modify. intros w Hw. split; [apply (linked_same w0 w); try (by destruct w); apply Hw|].
  pose proof (proj2 Hw) as []. set (w1 := set_held _ w). split; try (by destruct w).
  - intros e. specialize (se_busy0 e). unfold busy in *.
    assert (delays e w1 = delays e w /\ sentinel e w1 = sentinel e w /\ w_anims w1 = w_anims w) as (-> & -> & ->) by by destruct w.
    assert (nexts e w1 + G e <= nexts e w + own (Some k.2) k.1 G e) as H; [|lia].
    unfold nexts. subst w1. destruct w. cbn. rewrite filter_app, length_app. rewrite filter_cons. case_decide as Hd; cbn; [|pose proof (own_le (Some k.2) k.1 G e); lia].
    rewrite Hd, own_fx. lia.
  - intros j. subst w1. destruct w. cbn in *. intros [Hj|Hj]%elem_of_app; [by apply se_held0|]. by apply list_elem_of_singleton in Hj as ->.
Qed.

(** ** [stop] and [finish], of other queues *)

Lemma dequeue_other e t G P w0 : or_fx t <> "fx"%string -> serves G P w0 (go (CDequeue (e, t))).
Proof using Hgo. intros Ht w Hw. apply (Hgo (CDequeue (e, t))). split; [done|]. intros E. by destruct Ht. Qed.

Lemma stop_serves e t clear gotoEnd G P w0 : or_fx t <> "fx"%string -> serves G P w0 (stop cos go e (Some t) clear gotoEnd).
Proof using Hgo.
  intros Ht. pose proof (serves_kept G P w0) as K. apply keep_bind; [by apply keep_when, clearQueue_serves|]. intros [].
  apply keep_bind; [apply keep_get|]. intros hs. apply keep_bind; [apply (stop_queues_keeps _ _ _ K)|]. intros [].
  apply keep_bind; [apply keep_get|]. intros len. apply keep_bind; [apply (stop_timers_keeps _ _ _ _ K)|]. intros b.
  by apply keep_when, dequeue_other.
Qed.

Lemma finish_serves e t G P w0 : or_fx t <> "fx"%string -> serves G P w0 (finish cos go e t).
Proof using Hgo.
  intros Ht. pose proof (serves_kept G P w0) as K. intros w Hw. unfold finish, sget. unfold sbind at 1.
  set (q := default [] (w_queue w !! (e, or_fx t))).
  assert (forall props o, Fun (DoAnimation props o) ∈ q -> queued o <> Some "fx"%string) as Hq.
  { intros props o Hin. subst q. destruct (w_queue w !! (e, or_fx t)) as [q|] eqn:E; [|by apply elem_of_nil in Hin].
    pose proof (se_items _ _ _ (proj2 Hw) _ q _ E Hin) as [H|H]; rewrite H; [done|]. cbn. congruence. }
  clearbody q. revert w Hw. refine (_ : serves G P w0 _).
  apply keep_bind; [apply keep_get|]. intros h.
  apply keep_bind; [apply (keep_same _ _ _ K); by intros []|]. intros [].
  apply keep_bind; [apply (queue_set_serves (e, or_fx t) []); cbn; by rewrite or_fx_idem|]. intros [].
  apply keep_bind; [apply keep_get|]. intros i. apply keep_bind; [destruct i; [apply (clearTimeout_keeps _ _ _ K)|apply keep_ret]|]. intros [].
  apply keep_bind; [apply keep_get|]. intros len. apply keep_bind; [apply (stop_timers_keeps _ _ _ _ K)|]. intros _.
  apply keep_bind; [|intros []; apply (keep_same _ _ _ K); by intros []].
  apply (finish_queue_keeps _ _ _ _ K). intros props o Hin. apply doAnimation_free. by eapply Hq.
Qed.

(** ** Scripts *)

Lemma act_serves next a G P w0 : gentle fx_off a -> is_next a /\ next = None \/ ~ is_next a -> serves G P w0 (act fx_off cos go next a).
Proof using Hgo.
  intros Hg Hn. pose proof (serves_kept G P w0) as K. destruct a as [e t f|e t fs|e t|e t|e props p|e time t|e t clear g|e t|es t f| | |msg|n]; cbn [act gentle] in *.
  - by apply queue_serves.
  - by apply queue_all_serves.
  - by apply clearQueue_serves.
  - by apply dequeue_other.
  - by apply animate_serves.
  - by apply queue_serves.
  - destruct t as [t|]; [|done]. by apply stop_serves.
  - by apply finish_serves.
  - apply promise_serves.
  - destruct Hn as [[_ ->]|[]]; [apply keep_ret|done].
  - destruct Hn as [[_ ->]|[]]; [apply keep_ret|done].
  - apply (keep_throw _ _ _ K).
  - by apply (keep_note _ _ _ K).
Qed.

Lemma run_script_free next l G P w0 : Forall (gentle fx_off) l -> next = None \/ uses_next l = 0 -> serves G P w0 (run_script fx_off cos go next l).
Proof using Hgo.
  induction 1 as [|a l Ha Hl IH]; intros Hn; [apply keep_ret|]. unfold uses_next in *. rewrite filter_cons in Hn.
  apply keep_bind.
  - apply act_serves; [done|]. destruct (decide (is_next a)); [left; split; [done|]|by right]. destruct Hn as [?|Hn]; [done|by cbn in Hn].
  - intros []. apply IH. destruct Hn as [?|Hn]; [by left|right]. case_decide; cbn in Hn; lia.
Qed.

Lemma run_script_serves k l G P w0 : k.2 <> ""%string -> Forall (gentle fx_off) l -> uses_next l <= 1 ->
  triple (ser (own (Some k.2) k.1 G) P w0) (run_script fx_off cos go (Some k) l) (fun _ => ser G P w0) (ser none [] w0).
Proof using Hgo.
  intros Hk. induction 1 as [|a l Ha Hl IH]; intros Hn; [apply triple_ret; intros w; by apply ser_own|]. unfold uses_next in *. rewrite filter_cons in Hn.
  cbn [run_script]. destruct (decide (is_next a)) as [Hx|Hx].
  - apply (triple_bind _ _ (fun _ => ser G P w0)).
    + destruct a; try done; cbn [act]; [|by apply hold_serves]. intros w Hw. apply (Hgo (CDequeue k)). split; [by eapply ser_own|exact (own_dequeue k G P w0 w Hk Hw)].
    + intros []. apply run_script_free; [done|right]. unfold uses_next. cbn in Hn. lia.
  - apply (triple_bind _ _ (fun _ => ser (own (Some k.2) k.1 G) P w0)); [by apply act_serves; [|right]|]. intros []. by apply IH.
Qed.

Lemma perform_serves c G P w0 :
  triple (fun w => ser (owned c G) P w0 w /\ finds G P c w) (perform fx_off cos code go c) (fun _ => ser G P w0) (ser none [] w0).
Proof using Hgo Hcode.
  destruct c as [f [k|]|f k h|k|h|id ok|i]; cbn [perform owned finds]; intros w [Hw Hf].
  - destruct (Hcode f). by apply (run_script_serves k (code f) G P w0).
  - destruct (Hcode f). revert w Hw Hf. intros w Hw _. revert w Hw. apply run_script_free; [done|by left].
  - destruct Hf as [Hk Hm]. destruct f as [f|props o|time]; cbn [call_func].
    + by apply (Hgo (CUser f (Some k))).
    + apply (doAnimation_serves k.1 props o G P w0). destruct Hm as [-> | ->]; [|done]. unfold own at 1. rewrite decide_False by done. by eapply ser_own.
    + by apply (start_delay_serves time k h G P w0).
  - by apply dequeue_serves.
  - by apply empty_loop_serves.
  - by apply (fire_serves id ok G P w0).
  - by apply (ticks_keeps _ _ _ _ (serves_kept G P w0)).
Qed.
End library.

Section sessions.
Context (fx_off : bool) (cos : double -> double) (code : nat -> list action) (Hcode : gentle_code fx_off code).

Lemma exec_serves n : calls_serve (exec fx_off cos code n).
Proof using Hcode.
  induction n as [|n IH]; intros c G P w0; [|by apply perform_serves]. intros w [Hw _]. by eapply ser_drop.
Qed.

Lemma happen_serves n x w0 : gentle_happening fx_off x -> serves none [] w0 (happen fx_off cos code n x).
Proof using Hcode.
  intros Hx. pose proof (exec_serves n) as Hgo. pose proof (serves_kept _ Hgo none [] w0) as K. destruct x as [l| |i| |i|t]; cbn [happen].
  - apply (run_script_free _ _ _ Hgo); [done|by left].
  - apply keep_bind; [apply keep_get|]. intros b. apply keep_when, (fx_tick_keeps _ _ _ K).
  - intros w Hw. unfold sget. unfold sbind at 1. destruct (w_timeouts w !! i) as [u|] eqn:Eu; [|done].
    destruct (u_live u && _) eqn:El; [|done]. apply andb_prop in El as [El _].
    unfold smodify at 1. unfold sbind at 1. cbn beta iota. apply (Hgo (CDequeue (u_key u))).
    pose proof (kp_timeout _ _ _ K i w Hw) as H1. split; [done|]. intros E. cbn.
    assert ((u_key u).2 = "fx"%string) as Ek.
    { unfold or_fx in E. case_decide as H0; [|done]. pose proof (se_timeouts _ _ _ (proj2 Hw) u). rewrite H0 in *. destruct H; [by eapply list_elem_of_lookup_2|done]. }
    pose proof (se_busy _ _ _ (proj2 Hw) (u_key u).1) as Hb. pose proof (sentinel_le (u_key u).1 w) as Hs. unfold busy in *.
    assert (delays (u_key u).1 (clearTimeout i w) < delays (u_key u).1 w) as Hlt.
    { unfold delays. rewrite <- (fx_key (u_key u) Ek). destruct w. cbn in *. clear -Eu El. revert i Eu.
      induction w_timeouts as [|v l IH]; intros [|i] Eu; [done|done| |].
      - injection Eu as ->. change (alter _ 0 (u :: l)) with (Timeout (u_due u) (u_key u) false :: l).
        rewrite filter_cons_False by (by intros []). rewrite filter_cons_True by done. cbn. lia.
      - change (alter ?f (S i) (v :: l)) with (v :: alter f i l). rewrite !filter_cons. specialize (IH i Eu). case_decide; cbn; lia. }
    assert (nexts (u_key u).1 (clearTimeout i w) = nexts (u_key u).1 w /\ w_anims (clearTimeout i w) = w_anims w) as (-> & ->) by by destruct w.
    lia.
  - apply keep_bind; [apply keep_get|]. intros p. apply keep_when, (keep_same _ _ _ K). by intros [].
  - intros w Hw. unfold sget. unfold sbind at 1. destruct (w_held w !! i) as [k|] eqn:Ei; [|done].
    unfold smodify at 1. unfold sbind at 1. cbn beta iota. set (w1 := set_held _ w).
    assert (forall e, nexts e w1 + (if decide (k = fx e) then 1 else 0) = nexts e w) as Hn.
    { intros e. unfold nexts. subst w1. destruct w. cbn in *. clear -Ei. revert i Ei.
      induction w_held as [|j l IH]; intros [|i] Ei; [done|done| |].
      - injection Ei as ->. change (delete 0 (k :: l)) with l. rewrite filter_cons. case_decide; cbn; lia.
      - change (delete (S i) (j :: l)) with (j :: delete i l). rewrite !filter_cons. specialize (IH i Ei). repeat case_decide; cbn; lia. }
    assert (ser none [] w0 w1) as H1.
    { split; [apply (linked_same w0 w); try (by destruct w); apply Hw|]. pose proof (proj2 Hw) as []. split; try (by destruct w).
      - intros e. specialize (se_busy0 e). specialize (Hn e). unfold busy in *.
        assert (delays e w1 = delays e w /\ sentinel e w1 = sentinel e w /\ w_anims w1 = w_anims w) as (-> & -> & ->) by by destruct w. lia.
      - intros j Hj. apply se_held0. subst w1. destruct w. cbn in *. by eapply elem_of_submseteq, submseteq_delete. }
    apply (Hgo (CDequeue k)). split; [done|]. intros E.
    assert (k.2 = "fx"%string) as Ek.
    { unfold or_fx in E. case_decide as H0; [|done]. destruct (se_held _ _ _ (proj2 Hw) k); [by eapply list_elem_of_lookup_2|done]. }
    pose proof (se_busy _ _ _ (proj2 Hw) k.1) as Hb. pose proof (sentinel_le k.1 w) as Hs. specialize (Hn k.1).
    rewrite decide_True in Hn by by apply fx_key. unfold busy in *.
    assert (delays k.1 w1 = delays k.1 w /\ w_anims w1 = w_anims w) as (-> & ->) by by destruct w. lia.
  - apply (keep_same _ _ _ K). by intros [].
Qed.

Lemma new_world_ser t : ser none [] (new_world t) (new_world t).
Proof.
  split; [apply (inv_linked none), first_world_inv|]. split; try done.
  - by intros id ?%elem_of_nil.
  - by intros u ?%elem_of_nil.
  - by intros u ?%elem_of_nil.
Qed.

Lemma session_ser n l t : Forall (gentle_happening fx_off) l -> ser none [] (new_world t) (session fx_off cos code n l (new_world t)).
Proof using Hcode.
  unfold session. generalize (new_world_ser t). generalize (new_world t) at 2 4. intros w Hw Hl. revert w Hw. induction Hl as [|x l Hx Hl IH]; intros w Hw; [done|]. apply IH.
  pose proof (happen_serves n x (new_world t) Hx w Hw) as H. by destruct (happen _ _ _ n x w) as [w' [[]|m]].
Qed.
End sessions.

(** ** One thing at a time *)

(** What goes on in the fx queue of an element: delays that wait, functions that have kept their [next], animations whose promise is not settled. *)
Definition unsettled (n : animation) : Prop := match n_done n with Waiting _ => True | _ => False end.
#[global] Instance unsettled_dec n : Decision (unsettled n).
Proof. unfold unsettled. destruct (n_done n); apply _. Defined.

Definition going_on (e : nat) (w : world) : nat :=
  delays e w + nexts e w + length (filter (fun n => in_fx e n = true /\ unsettled n) (w_anims w)).

Lemma filter_total {A} (Q : A -> Prop) `{!forall x, Decision (Q x)} (g : nat -> A -> nat) (l : list A) :
  (forall i x, l !! i = Some x -> Q x -> 1 <= g i x) -> length (filter Q l) <= Prelude.total g l.
Proof.
  intros H0. unfold Prelude.total. assert (forall n, (forall i x, l !! i = Some x -> Q x -> 1 <= g (n + i) x) -> length (filter Q l) <= total_from g n l) as Hn; [|by apply (Hn 0)].
  clear H0. induction l as [|x l IH]; intros n Hx; [done|]. cbn [total_from]. rewrite filter_cons.
  assert (length (filter Q l) <= total_from g (S n) l) as Hl by (apply IH; intros i y Hi Hy; specialize (Hx (S i) y Hi Hy); by rewrite Nat.add_succ_r in Hx).
  case_decide as Hd; [|lia]. specialize (Hx 0 x eq_refl Hd). rewrite Nat.add_0_r in Hx. cbn. lia.
Qed.

(** C8: in sessions that leave the fx queues to the library - no array takes the place of an fx queue, none is cleared, dequeued, stopped or finished by a
    script, no animation without properties is made in one, and functions of queues use their [next] at most once, now or later - an element does one
    queued thing at a time, whatever is thrown: of its delays, kept [next]s and animations at most one goes on, and while it
    does the sentinel is in front of the queue, so nothing else is started. *)
Theorem one_at_a_time fx_off cos code n l t e : gentle_code fx_off code -> Forall (gentle_happening fx_off) l ->
  let w := session fx_off cos code n l (new_world t) in
  going_on e w <= 1 /\ (going_on e w = 1 -> exists q, w_queue w !! ((e, "fx"%string) : key) = Some (InProgress :: q)).
Proof.
  intros Hcode Hl w. destruct (session_ser fx_off cos code Hcode n l t Hl) as [_ Hs]. fold w in Hs.
  pose proof (se_busy _ _ _ Hs e) as Hb. pose proof (sentinel_le e w) as Hle.
  assert (going_on e w <= busy [] e w) as Hg.
  { unfold going_on, busy. apply Nat.add_le_mono_l, filter_total. intros i n' Hi [H1 H2]. unfold weight. rewrite H1.
    rewrite decide_False by by intros ?%elem_of_nil. unfold token, unsettled in *. by destruct (n_done n'). }
  split; [lia|]. intros Hone. assert (sentinel e w = 1) as Hs1 by lia. unfold sentinel in Hs1. fold (fx e).
  destruct (w_queue w !! fx e) as [[|[|f] q]|]; try done. by exists q.
Qed.

(** ** Instances *)

(** An animation, a delay and a function that keeps its [next], queued for an element. *)
Definition serial_code (f : nat) : list action := match f with 3 => [ANote 3; AHold] | _ => example_code f end.

Definition serial_script : list happening :=
  [HScript [AAnimate 1 [("left"%string, Abs (of_Z 100))] (linear 200 (Some 1)); ADelay 1 (Number 50) "fx"; AQueue 1 "fx" 3];
   HClock 300; HTick; HClock 400; HTimeout 0].

Lemma serial_code_gentle : gentle_code false serial_code.
Proof. intros [|[|[|[|f]]]]; cbn; (split; [repeat constructor|]); apply (bool_decide_unpack _); vm_compute; exact I. Qed.

Lemma one_at_a_time_witness :
  let w := session false example_cos serial_code 20 serial_script (new_world 1) in
  going_on 1 w = 1 /\ w_log w <> [] /\ exists q, w_queue w !! ((1, "fx"%string) : key) = Some (InProgress :: q).
Proof.
  intros w. assert (going_on 1 w = 1) as E by (vm_compute; reflexivity). split; [exact E|]. split; [vm_compute; discriminate|].
  apply (one_at_a_time false example_cos serial_code 20 serial_script 1 1); [apply serial_code_gentle| |exact E].
  repeat constructor; discriminate.
Defined.
