(* ===== verification/EffectsFindings.v ===== *)
(** * Queues and effects: sessions that show what [EffectsSerial] leaves out

    Small sessions of [Effects], run to the end: what happens to the fx queues when scripts do what [gentle] rules out, and timers
    that are removed for another. *)

From S2P Require Import Prelude.
From Stdlib Require Import ZArith Lia.
From stdpp Require Import gmap strings.
From S2P Require Import Doubles Effects EffectsSpec EffectsSerial.

Local Open Scope nat_scope.
Local Open Scope string_scope.

(** The functions of the page called for a queue, and the numbers they noted. *)
Definition functions (k : key) (w : world) : list nat :=
  w_log w ≫= fun x => match x with LCall k' (User f) => if decide (k = k') then [f] else [] | _ => [] end.
Definition notes (w : world) : list nat := w_log w ≫= fun x => match x with LNote n => [n] | _ => [] end.

Definition to (x : Z) : list (string * value) := [("left", Abs (of_Z x))].
Definition run_of (code : nat -> list action) (l : list happening) : world := session false example_cos code 30 l (new_world 1).

(** ** A delay outlives [stop(true)] *)

(** Function 1 keeps its [next]; function 2 takes its turn. *)
Definition holding (f : nat) : list action := match f with 1 => [AHold] | _ => [ANote f] end.

Definition delay_script : list happening :=
  [HScript [ADelay 1 (Number 1000) "fx"; AStop 1 None true false]; HScript [AQueue 1 "fx" 1; AQueue 1 "fx" 2]; HClock 2000; HTimeout 0].

(** [stop(true)] empties the queue; the array that takes its place has no sentinel, so it is dequeued, its hooks fire and are
    removed with the [stop] of the delay before [stop] looks for it: the timeout stays. *)
Lemma stop_leaves_delay :
  let w := run_of holding (take 1 delay_script) in
  w_queue w = ∅ /\ w_hooks w = ∅ /\ u_live <$> w_timeouts w = [true].
Proof. vm_compute. done. Qed.

(** When it fires, it dequeues a queue that is not its own: function 2 is called although function 1 has not called its [next]. *)
Lemma late_delay_overlaps :
  let w := run_of holding delay_script in
  functions (1, "fx") w = [1; 2] /\ w_held w = [(1, "fx")].
Proof. vm_compute. done. Qed.

(** ** [fx.timer] removes the last timer *)

(** Function 1 is the step of an animation without duration: it starts an animation of element 2. *)
Definition stepping (f : nat) : list action := match f with 1 => [AAnimate 2 (to 100) (linear 200 (Some 2))] | _ => [ANote f] end.

Definition with_step (ms : Z) (f : nat) : options := Options (Number ms) (Some "linear") Default None (Some f) None None None None None.

Definition timer_script : list happening := [HScript [AAnimate 1 (to 10) (with_step 0 1)]; HClock 1000; HTick; HClock 2000; HTick].

(** The animation of element 2 is on [jQuery.timers] above that of element 1, which is over at once and pops it: what stays is
    the timer that is over, and the animation of element 2 never goes on. *)
Lemma timer_pops_another :
  let w := run_of stepping (take 1 timer_script) in
  w_timers w = [0] /\ (n_this <$> w_anims w) = [1; 2].
Proof. vm_compute. done. Qed.

Lemma popped_never_ends :
  let w := run_of stepping timer_script in
  notes w = [] /\ going_on 2 w = 1 /\ w_timers w = [].
Proof. vm_compute. done. Qed.

(** ** Animations without properties *)

(** Element 1 is animated; [animate({})] does not wait, and its [complete] dequeues fx. *)
Definition empty_script : list happening :=
  [HScript [AAnimate 1 (to 10) (linear 1000 None); AQueue 1 "fx" 1; AAnimate 1 [] (linear 100 None)]].

Lemma empty_animation_overlaps :
  let w := run_of holding empty_script in
  functions (1, "fx") w = [1] /\ going_on 1 w = 2.
Proof. vm_compute. done. Qed.

(** ** [clearQueue] while something goes on *)

Definition clear_script : list happening :=
  [HScript [AAnimate 1 (to 10) (linear 1000 None); AClear 1 "fx"; APromise [1] "fx" (Some 2); AQueue 1 "fx" 1]].

(** The array that takes the place of the queue has no sentinel: a promise for the queue is resolved although the animation goes
    on, and what is queued next does not wait for it. *)
Lemma cleared_overlaps :
  let w := run_of holding clear_script in
  notes w = [2] /\ functions (1, "fx") w = [1] /\ going_on 1 w = 2.
Proof. vm_compute. done. Qed.

(** ** [stop] from a callback of [stop] *)

(** The callback of the animation of element 1 stops element 2. *)
Definition stopping (f : nat) : list action := match f with 1 => [AStop 2 None false false] | _ => [ANote f] end.

Definition with_fail (ms : Z) (f : nat) : options := Options (Number ms) (Some "linear") Default None None None None None (Some f) None.

Definition three (l : list nat) : list action := (fun e => AAnimate e (to 100) (if decide (e = 1) then with_fail 500 1 else linear 500 None)) <$> l.

(** The index of a timer is kept over the callbacks of its animation: with a timer removed below, it is the next timer that is
    removed, here that of element 3, which never goes on. *)
Definition stop_script : list happening := [HScript (three [2; 1; 3]); HScript [AStop 1 None false false]; HClock 5000; HTick].

Lemma stop_removes_another :
  let w := run_of stopping stop_script in
  going_on 3 w = 1 /\ w_timers w = [] /\ (going_on 1 w, going_on 2 w) = (0, 0).
Proof. vm_compute. done. Qed.
