(* ===== verification/SizzleTokens.v ===== *)
(** * Sizzle: the tokens of selectors (application bundle, lines 664-743, 1565-1638, 2011-2101)

    [tokenize], with its regular expressions as functions that read a text and return what they captured with the text that is left.  Escapes
    are not read: a backslash ends a name.  The filters before a token can throw, and that of pseudo-classes calls [tokenize] for the
    argument it has to cut: the recursion takes fuel, and the length of the selector is enough ([tokenize_answers]). *)

From S2P Require Import Prelude JsString.
From Stdlib Require Import ZArith Lia Ascii.

Local Open Scope Z_scope.
Local Open Scope js_scope.

(** ** Characters *)

Definition one_of (s : string) (c : ascii) : bool := bool_decide (c ∈ txt s).
Definition whitespace (c : ascii) : bool := bool_decide (c ∈ map ascii_of_nat [32; 9; 13; 10; 12]%nat).
Definition word_char (c : ascii) : bool :=
  is_digit c || ((65 <=? code c) && (code c <=? 90)) || ((97 <=? code c) && (code c <=? 122)) || (code c =? 95).

(** A character of [characterEncoding]; of [TAG], with the star; of [identifier], with the number sign. *)
Definition name_char (c : ascii) : bool := word_char c || (code c =? 45) || (160 <? code c).
Definition tag_char (c : ascii) : bool := name_char c || one_of "*" c.
Definition value_char (c : ascii) : bool := name_char c || one_of "#" c.

(** ** Tokens *)

Inductive combinator := Child | Descendant | Next | Sibling.

(** The types of [CHILD]. *)
Inductive position := Only | First | Last | Nth | NthLast.

(** [CHILD] keeps whether it is [of-type] and, for [nth] and [nth-last], the numbers of [an+b]. *)
Inductive kind :=
| Relative (c : combinator)
| TAG (name : text)
| CLASS (name : text)
| ATTR (name operator check : text)
| CHILD (type : position) (of_type : bool) (formula : Z * Z)
| PSEUDO (name : text) (argument : option text)
| ID (name : text).

Record token := Token { value : text; kind_of : kind }.

(** ** Regular expressions *)

Definition char (p : ascii -> bool) (s : text) : option (ascii * text) :=
  match s with c :: s => if p c then Some (c, s) else None | [] => None end.

Definition many (p : ascii -> bool) (s : text) : text * text := (take_while p s, drop_while p s).
Definition some (p : ascii -> bool) (s : text) : option (text * text) :=
  match take_while p s with [] => None | t => Some (t, drop_while p s) end.

Definition skip (s : text) : text := drop_while whitespace s.

(** Digits that may be absent read as a default. *)
Definition number (t : text) (otherwise : Z) : Z := match t with [] => otherwise | _ => parse_digits t end.
Definition signed (sign : option ascii) (n : Z) : Z := match sign with Some "-"%char => - n | _ => n end.

(** What was matched: the text without what is left. *)
Definition matched (s rest : text) : text := take (length s - length rest) s.

Definition rcomma (s : text) : option text := snd <$> (char (one_of ",") (skip s)) ≫= fun p => Some (p.1, skip p.2).

Definition rcombinators (s : text) : option (combinator * text) :=
  match skip s with
  | ">"%char :: s => Some (Child, skip s)
  | "+"%char :: s => Some (Next, skip s)
  | "~"%char :: s => Some (Sibling, skip s)
  | _ => match s with c :: _ => if whitespace c then Some (Descendant, skip s) else None | [] => None end
  end.

(** [*(?:'...'|"..."|identifier)] *)
Definition quoted (q : ascii) (s : text) : option (text * text) :=
  char (fun c => bool_decide (c = q)) s ≫= fun p =>
  let (v, s) := many (fun c => bool_decide (c <> q) && negb (one_of "\" c)) p.2 in
  char (fun c => bool_decide (c = q)) s ≫= fun p => Some (v, p.2).

Definition quote1 : ascii := "'"%char.
Definition quote2 : ascii := ascii_of_nat 34.

Definition string_ (s : text) : option (text * text) :=
  match quoted quote1 s with Some r => Some r | None => quoted quote2 s end.

Definition attribute_value (s : text) : option (text * text) :=
  match string_ s with Some r => Some r | None => some value_char s end.

Definition attribute_operator (s : text) : option (text * text) :=
  match s with
  | "="%char :: s => Some (txt "=", s)
  | c :: "="%char :: s => if one_of "*^$|!~" c then Some ([c; "="%char], s) else None
  | _ => None
  end.

(** [attributes]: the name, and the operator with its value. *)
Definition attributes (s : text) : option ((text * option (text * text)) * text) :=
  char (one_of "[") s ≫= fun p =>
  some name_char (skip p.2) ≫= fun '(name, s) =>
  let close s v := char (one_of "]") (skip s) ≫= fun p => Some ((name, v), p.2) in
  match attribute_operator (skip s) ≫= fun '(op, s) => attribute_value (skip s) ≫= fun '(v, s) => close s (Some (op, v)) with
  | Some r => Some r
  | None => close s None
  end.

(** The argument of a pseudo-class: quoted, simple, or anything up to the last parenthesis of the line. *)
Inductive argument := Quoted (v : text) | Simple | Anything.

Fixpoint simple (n : nat) (s : text) : text :=
  match n with
  | O => s
  | S n =>
      match char (fun c => negb (one_of "\()[]" c)) s with
      | Some (_, s) => simple n s
      | None => match attributes s with Some (_, s) => simple n s | None => s end
      end
  end.

(** [.*] up to a character: what is left after its last occurrence. *)
Fixpoint after_last (p : ascii -> bool) (s : text) : option text :=
  match s with
  | [] => None
  | c :: s => match after_last p s with Some r => Some r | None => if p c then Some s else None end
  end.

Definition line_end (c : ascii) : bool := (code c =? 10) || (code c =? 13).

Definition pseudo_argument (s : text) : option ((text * argument) * text) :=
  let close s' (a : argument) := char (one_of ")") s' ≫= fun p => Some ((matched s s', a), p.2) in
  match string_ s ≫= fun '(v, s') => close s' (Quoted v) with
  | Some r => Some r
  | None =>
      match close (simple (length s) s) Simple with
      | Some r => Some r
      | None =>
          let '(line, more) := many (fun c => negb (line_end c)) s in
          match after_last (one_of ")") line with
          | Some r => Some ((take (length line - S (length r)) line, Anything), r ++ more)
          | None => None
          end
      end
  end.

Definition pseudos (s : text) : option ((text * option (text * argument)) * text) :=
  char (one_of ":") s ≫= fun p =>
  some name_char p.2 ≫= fun '(name, s) =>
  match char (one_of "(") s ≫= fun p => pseudo_argument p.2 with
  | Some (a, s) => Some ((name, Some a), s)
  | None => Some ((name, None), s)
  end.

(** [rpseudo.test]: a colon and a name, anywhere. *)
Fixpoint rpseudo (s : text) : bool :=
  match s with
  | [] => false
  | _ :: s' => match pseudos s with Some _ => true | None => rpseudo s' end
  end.

(** [matchExpr.CHILD], which does not look at case. *)
Fixpoint letters (p s : text) : option (text * text) :=
  match p, s with
  | [], _ => Some ([], s)
  | a :: p, b :: s => if decide (a = lower b) then letters p s ≫= fun '(t, s) => Some (b :: t, s) else None
  | _ :: _, [] => None
  end.

Definition either {A} (x y : option A) : option A := match x with Some _ => x | None => y end.

Definition child_type (s : text) : option (position * text) :=
  let look (w : string) (t : position) := letters (txt w ++ ["-"%char]) s ≫= fun '(_, s) => Some (t, s) in
  either (look "only" Only) (either (look "first" First) (either (look "last" Last)
    (either (look "nth-last" NthLast) (look "nth" Nth))))%string.

(** The argument: its text, the [x] part and the [y] part. *)
Definition formula : Type := text * option (option ascii * text) * option (option ascii * text).

Definition sign (s : text) : option ascii * text :=
  match char (one_of "+-") s with Some (c, s) => (Some c, s) | None => (None, s) end.

Definition xn_part (s : text) : option (option ascii * text) * text :=
  let '(g, s1) := sign s in
  let '(ds, s2) := many is_digit s1 in
  match char (one_of "nN") s2 with Some (_, s3) => (Some (g, ds), s3) | None => (None, s) end.

Definition y_part (s : text) : option (option ascii * text) * text :=
  let '(g, s1) := sign (skip s) in
  match some is_digit (skip s1) with Some (ds, s2) => (Some (g, ds), s2) | None => (None, s) end.

Definition child_argument (s : text) : option (formula * text) :=
  let close (a : formula) s := char (one_of ")") (skip s) ≫= fun p => Some (a, p.2) in
  let word (w : string) := letters (txt w) s ≫= fun '(t, s) => close (t, None, None) s in
  either (word "even") (either (word "odd")
    (let '(x, s1) := xn_part s in let '(y, s2) := y_part s1 in close (matched s s2, x, y) s2))%string.

Definition child (s : text) : option ((position * text * option formula) * text) :=
  char (one_of ":") s ≫= fun p =>
  child_type p.2 ≫= fun '(type, s) =>
  either (letters (txt "child") s) (letters (txt "of-type") s) ≫= fun '(what, s) =>
  match char (one_of "(") s ≫= fun p => child_argument (skip p.2) with
  | Some (a, s) => Some ((type, what, Some a), s)
  | None => Some ((type, what, None), s)
  end.

(** ** [Expr.preFilter] *)

Definition error {A} (msg : text) : jsres A := Throw ("Syntax error, unrecognized expression: " ++ str msg)%string.

(** What a type of token reads: its kind, the text that is the token, and what is left. *)
Definition reading : Type := option (kind * text).

Definition pre_attr (m : text * option (text * text)) : kind :=
  match m with
  | (name, Some (op, v)) => ATTR name op (if decide (op = txt "~=") then txt " " ++ v ++ txt " " else v)
  | (name, None) => ATTR name [] []
  end.

Definition is_nth (t : position) : bool := match t with Nth | NthLast => true | _ => false end.

Definition pre_child (whole : text) (m : position * text * option formula) : jsres kind :=
  let '(type, what, arg) := m in
  let a := from_option (fun f : formula => f.1.1) [] arg in
  let of_type := bool_decide (what = txt "of-type") in
  if is_nth type then
    match arg with
    | Some ((_ :: _) as a, x, y) =>
        let odd := bool_decide (a = txt "odd") in
        let first := match x with
          | Some (g, ds) => signed g (number ds 1)
          | None => if odd || bool_decide (a = txt "even") then 2 else 0
          end in
        let last := match y with Some (g, ds) => signed g (number ds 0) | None => if odd then 1 else 0 end in
        Ok (CHILD type of_type (first, last))
    | _ => error whole
    end
  else match a with [] => Ok (CHILD type of_type (0, 0)) | _ => error whole end.

(** [s.slice( 0, -n )] *)
Definition slice_end (n : nat) (s : text) : text := take (length s - n) s.

(** [s.indexOf( ")", from )] *)
Fixpoint index_from (p : ascii -> bool) (i from : nat) (s : text) : option nat :=
  match s with
  | [] => None
  | c :: s => if (from <=? i)%nat && p c then Some i else index_from p (S i) from s
  end.

Section lexing.
(** [tokenize( selector, true )]: the length of the excess. *)
Context (excess : text -> jsres nat).

(** The text matched, the name and the argument; [None] leaves a child to [CHILD]. *)
Definition pre_pseudo (s rest : text) (m : text * option (text * argument)) : jsres (option (text * kind)) :=
  let whole := matched s rest in
  let '(name, arg) := m in
  match child whole with
  | Some _ => Ok None
  | None =>
      match arg with
      | None => Ok (Some (whole, PSEUDO name None))
      | Some (_, Quoted v) => Ok (Some (whole, PSEUDO name (Some v)))
      | Some (a, Simple) => Ok (Some (whole, PSEUDO name (Some a)))
      | Some (a, Anything) =>
          if negb (bool_decide (a = [])) && rpseudo a then
            let? n := excess a in
            match n with
            | O => Ok (Some (whole, PSEUDO name (Some a)))
            | _ =>
                let cut := match index_from (one_of ")") 0 (length a - n) a with Some i => length a - i | None => S (length a) end%nat in
                match cut with
                | O => Ok (Some (whole, PSEUDO name (Some a)))
                | _ => Ok (Some (slice_end cut whole, PSEUDO name (Some (slice_end cut a))))
                end
            end
          else Ok (Some (whole, PSEUDO name (Some a)))
      end
  end.

(** A type of token at the start of a text: the token's value and kind. *)
Definition read (i : nat) (s : text) : jsres (option token) :=
  let token_of (k : text -> kind) (r : option (text * text)) :=
    Ok ((fun '(t, rest) => Token (matched s rest) (k t)) <$> r) in
  match i with
  | 0%nat => token_of TAG (some tag_char s)
  | 1%nat => token_of CLASS (char (one_of ".") s ≫= fun p => some name_char p.2)
  | 2%nat => Ok ((fun '(m, rest) => Token (matched s rest) (pre_attr m)) <$> attributes s)
  | 3%nat =>
      match child s with
      | Some (m, rest) => let? k := pre_child (matched s rest) m in Ok (Some (Token (matched s rest) k))
      | None => Ok None
      end
  | 4%nat =>
      match pseudos s with
      | Some (m, rest) => let? r := pre_pseudo s rest m in Ok ((fun '(v, k) => Token v k) <$> r)
      | None => Ok None
      end
  | _ => token_of ID (char (one_of "#") s ≫= fun p => some name_char p.2)
  end.

(** [for ( type in Expr.filter )]: the tokens read and what is left. *)
Fixpoint filters (types : list nat) (s : text) : jsres (list token * text) :=
  match types with
  | [] => Ok ([], s)
  | i :: types =>
      let? r := read i s in
      match r with
      | Some t => let? rest := filters types (drop (length (value t)) s) in Ok (t :: rest.1, rest.2)
      | None => filters types s
      end
  end.

Definition combinators (s : text) : list token * text :=
  match rcombinators s with
  | Some (c, rest) => ([Token (matched s rest) (Relative c)], rest)
  | None => ([], s)
  end.

(** A turn of the loop, after the comma. *)
Definition turn (s : text) : jsres (list token * text) :=
  let '(ts, s) := combinators s in
  let? r := filters [0; 1; 2; 3; 4; 5]%nat s in
  Ok (ts ++ r.1, r.2).

(** Adds tokens to the last group. *)
Fixpoint extend (ts : list token) (groups : list (list token)) : list (list token) :=
  match groups with
  | [] => []
  | [g] => [g ++ ts]
  | g :: groups => g :: extend ts groups
  end.

Fixpoint lex_loop (n : nat) (s : text) (groups : list (list token)) (first : bool) : jsres (list (list token) * text) :=
  match n, s with
  | _, [] => Ok (groups, [])
  | O, _ => Throw "too many turns"
  | S n, _ =>
      let '(groups, s) :=
        if first then (groups ++ [[]], s)
        else match rcomma s with Some rest => (groups ++ [[]], match rest with [] => s | _ => rest end) | None => (groups, s) end in
      let? r := turn s in
      match r with
      | ([], s) => Ok (groups, s)
      | (ts, s) => lex_loop n s (extend ts groups) false
      end
  end.
End lexing.

(** [tokenize] with its fuel: the groups, and what is left. *)
Fixpoint lex (n : nat) (selector : text) : jsres (list (list token) * text) :=
  match n with
  | O => Throw "too much recursion"
  | S n => lex_loop (fun t => let? r := lex n t in Ok (length r.2)) (length selector) selector [] true
  end.

Definition tokenize (selector : text) : jsres (list (list token)) :=
  let? r := lex (S (length selector)) selector in
  match r.2 with [] => Ok r.1 | _ => error selector end.

Arguments tokenize : simpl never.

Definition toSelector (tokens : list token) : text := mjoin (value <$> tokens).

(** ** What is asked of the text of a selector *)

(** [selector.replace( rtrim, "$1" )] *)
Definition trim (s : text) : text := rev (skip (rev (skip s))).

Definition rsibling (s : text) : bool := existsb (one_of "+~") s.

(** [matchExpr.needsContext]: a combinator in front, or the name of a positional pseudo-class that no hyphen follows. *)
Definition positional : list string := ["even"; "odd"; "eq"; "gt"; "lt"; "nth"; "first"; "last"]%string.

Definition not_hyphen (s : text) : bool := match s with "-"%char :: _ => false | _ => true end.

Definition digits_argument (s : text) : option text :=
  char (one_of "(") s ≫= fun p =>
  let s := skip p.2 in
  let '(_, s) := many is_digit (match s with "-"%char :: (d :: _) as r => if is_digit d then drop 1 r else s | _ => s end) in
  char (one_of ")") (skip s) ≫= fun p => Some p.2.

Definition positional_at (s : text) : bool :=
  match char (one_of ":") s with
  | Some (_, s) =>
      existsb (fun w => match letters (txt w) s with
        | Some (_, s) => match digits_argument s with Some r => not_hyphen r || not_hyphen s | None => not_hyphen s end
        | None => false
        end) positional
  | None => false
  end.

Fixpoint has_positional (s : text) : bool :=
  match s with [] => false | _ :: s' => positional_at s || has_positional s' end.

Definition needsContext (s : text) : bool :=
  match char (one_of ">+~") (skip s) with Some _ => true | None => has_positional s end.

(** [rquickExpr] *)
Inductive quick := QuickId (m : text) | QuickTag (m : text) | QuickClass (m : text).

Definition rquickExpr (s : text) : option quick :=
  let all p s := match s with [] => false | _ => forallb p s end in
  let hyphen c := word_char c || (code c =? 45) in
  match s with
  | "#"%char :: m => if all hyphen m then Some (QuickId m) else None
  | "."%char :: m => if all hyphen m then Some (QuickClass m) else None
  | m => if all word_char m then Some (QuickTag m) else None
  end.
