(* ===== verification/SizzleLex.v ===== *)
(** * Sizzle: what [tokenize] reads

    Every regular expression leaves a suffix of the text ([rest]), so that the tokens and the commas are the selector, nothing lost and nothing
    twice ([tokens_cover]), and the recursion ends. *)

From S2P Require Import Prelude JsString SizzleTokens.
From Stdlib Require Import ZArith Lia Ascii.

Local Open Scope nat_scope.
Local Open Scope js_scope.

(** ** What is left *)

Definition rest (r s : text) : Prop := r `suffix_of` s.
Definition less (r s : text) : Prop := rest r s /\ length r < length s.

Lemma rest_refl s : rest s s.
Proof. by exists []. Qed.

Lemma rest_trans r s t : rest r s -> rest s t -> rest r t.
Proof. apply transitivity. Qed.

Lemma rest_length r s : rest r s -> length r <= length s.
Proof. apply suffix_length. Qed.

Lemma less_rest r s : less r s -> rest r s.
Proof. by intros []. Qed.

Lemma less_cons c r s : rest r s -> less r (c :: s).
Proof. intros H. split; [by apply suffix_cons_r|]. apply rest_length in H. cbn. lia. Qed.

Lemma less_trans r s t : rest r s -> less s t -> less r t.
Proof. intros H [Hs Hl]. split; [by eapply rest_trans|]. apply rest_length in H. lia. Qed.

Lemma less_rest_trans r s t : less r s -> rest s t -> less r t.
Proof. intros [H Hl] Hs. split; [by eapply rest_trans|]. apply rest_length in Hs. lia. Qed.

Lemma matched_rest r s : rest r s -> matched s r ++ r = s.
Proof. intros [t ->]. unfold matched. rewrite length_app, Nat.add_sub. by rewrite take_app_length. Qed.

Lemma matched_less r s : less r s -> matched s r <> [].
Proof. intros [H Hl] E. apply matched_rest in H. rewrite E in H. cbn in H. subst. lia. Qed.


(** ** Regular expressions *)

Lemma char_less p s c r : char p s = Some (c, r) -> less r s /\ p c = true /\ s = c :: r.
Proof. destruct s as [|x s]; cbn; [done|]. destruct (p x) eqn:E; [|done]. intros [= -> ->]. split_and!; [apply less_cons, rest_refl|done|done]. Qed.

Lemma drop_while_rest p s : rest (drop_while p s) s.
Proof. exists (take_while p s). by rewrite take_drop_while. Qed.

Lemma skip_rest s : rest (skip s) s.
Proof. apply drop_while_rest. Qed.

Lemma some_less p s t r : some p s = Some (t, r) -> less r s /\ s = t ++ r /\ t <> [] /\ t = take_while p s.
Proof.
  unfold some. destruct (take_while p s) as [|c t'] eqn:E; [done|]. intros [= <- <-]. rewrite <- E. split_and!; [|by rewrite take_drop_while|by rewrite E|done].
  split; [apply drop_while_rest|]. rewrite <- (take_drop_while p s) at 2. rewrite length_app, E. cbn. lia.
Qed.

(** Follows what is left back to the text it was read from. *)
Ltac chain :=
  solve [repeat first
    [ assumption | apply rest_refl
    | match goal with
      | |- _ (skip ?t) _ => first [apply (rest_trans _ t _ (skip_rest t)) | apply (less_trans _ t _ (skip_rest t))]
      | |- _ (drop_while ?p ?t) _ => first [apply (rest_trans _ t _ (drop_while_rest p t)) | apply (less_trans _ t _ (drop_while_rest p t))]
      | H : less ?r ?t |- rest ?r _ => apply (rest_trans r t); [exact (less_rest _ _ H)|]
      | H : less ?r ?t |- less ?r _ => apply (less_rest_trans r t); [exact H|]
      | H : rest ?r ?t |- rest ?r _ => apply (rest_trans r t); [exact H|]
      | H : rest ?r ?t |- less ?r _ => apply (less_trans r t); [exact H|]
      | |- less _ (_ :: _) => apply less_cons
      | |- rest _ (_ :: _) => apply less_rest, less_cons
      end ]].

(** Reads the results of the readers in the hypotheses. *)
Ltac readers :=
  repeat match goal with
  | H : char _ _ = Some (?c, ?r) |- _ => apply char_less in H; destruct H as (? & ? & ?)
  | H : some _ _ = Some (?t, ?r) |- _ => apply some_less in H; destruct H as (? & ? & ? & ?)
  | H : many _ _ = (_, _) |- _ => injection H as ? ?
  | H : Some _ = Some _ |- _ => injection H as ?
  | H : (_, _) = (_, _) |- _ => injection H as ? ?
  | H : _ ≫= _ = Some _ |- _ => apply bind_Some in H; destruct H as (? & ? & ?)
  | H : None = Some _ |- _ => discriminate H
  | p : (_ * _)%type |- _ => destruct p
  | H : context [let (_, _) := ?p in _] |- _ => destruct p eqn:?
  end; cbn [fst snd] in *; subst.

Lemma quoted_less q s v r : quoted q s = Some (v, r) -> less r s.
Proof. unfold quoted. intros H. readers. chain. Qed.

Lemma string_less s v r : string_ s = Some (v, r) -> less r s.
Proof. unfold string_. destruct (quoted quote1 s) as [[v' r']|] eqn:E; [intros [= <- <-]|]; by eapply quoted_less. Qed.

Lemma attribute_value_less s v r : attribute_value s = Some (v, r) -> less r s.
Proof.
  unfold attribute_value. destruct (string_ s) as [[v' r']|] eqn:E; [intros [= <- <-]; by eapply string_less|]. intros H. readers. done.
Qed.

Lemma attribute_operator_less s v r : attribute_operator s = Some (v, r) -> less r s.
Proof.
  unfold attribute_operator. intros H.
  repeat match type of H with
  | Some _ = Some _ => injection H as <- <-; chain
  | None = Some _ => discriminate H
  | (if ?b then _ else _) = _ => destruct b
  | (match ?x with _ => _ end) = _ => destruct x
  end.
Qed.

Lemma attributes_less s m r : attributes s = Some (m, r) -> less r s.
Proof.
  unfold attributes. intros H. apply bind_Some in H as ([c s1] & [H1 _]%char_less & H). apply bind_Some in H as ([name s2] & [H2 _]%some_less & H).
  cbn in H2, H. assert (less (skip s2) s) as Hs by chain.
  destruct (attribute_operator _ ≫= _) as [m'|] eqn:E.
  - injection H as ->. apply bind_Some in E as ([op s3] & H3%attribute_operator_less & E). apply bind_Some in E as ([v s4] & H4%attribute_value_less & E).
    readers. chain.
  - readers. chain.
Qed.

Lemma simple_rest n : forall s, rest (simple n s) s.
Proof.
  induction n as [|n IH]; intros s; cbn [simple]; [apply rest_refl|]. destruct (char _ s) as [[c s']|] eqn:E; [readers; pose proof (IH s'); chain|].
  destruct (attributes s) as [[m s']|] eqn:E'; [|apply rest_refl]. apply attributes_less in E'. pose proof (IH s'). chain.
Qed.

Lemma after_last_less p s r : after_last p s = Some r -> less r s.
Proof.
  revert r. induction s as [|c s IH]; intros r; cbn; [done|]. destruct (after_last p s) as [r'|].
  - intros [= ->]. apply less_cons, less_rest, IH. done.
  - destruct (p c); [|done]. intros [= ->]. apply less_cons, rest_refl.
Qed.

Lemma after_last_char p s r : after_last p s = Some r -> exists c, s = take (length s - S (length r)) s ++ c :: r /\ p c = true.
Proof.
  revert r. induction s as [|c s IH]; intros r; cbn [after_last]; [done|]. destruct (after_last p s) as [r'|] eqn:E.
  - intros [= ->]. destruct (IH r eq_refl) as (c' & E' & Hc). exists c'. split; [|done]. apply after_last_less in E as [_ El].
    replace (length (c :: s) - S (length r)) with (S (length s - S (length r))) by (cbn; lia). cbn. by f_equal.
  - destruct (p c) eqn:Hc; [|done]. intros [= ->]. exists c. cbn [length]. by replace (S (length r) - S (length r)) with 0 by lia.
Qed.

Lemma rest_app a b c : rest a b -> rest (a ++ c) (b ++ c).
Proof. intros [t ->]. exists t. by rewrite app_assoc. Qed.

Lemma pseudo_argument_less s m r : pseudo_argument s = Some (m, r) -> less r s.
Proof.
  unfold pseudo_argument. destruct (string_ s ≫= _) as [m'|] eqn:E.
  - intros [= ->]. apply bind_Some in E as ([v s1] & H1%string_less & E). readers. chain.
  - clear E. destruct (char _ (simple _ s) ≫= _) as [m'|] eqn:E.
    + intros [= ->]. readers. pose proof (simple_rest (length s) s). chain.
    + clear E. destruct (many _ s) as [line more] eqn:Em. unfold many in Em. injection Em as El Er. destruct (after_last _ line) as [r'|] eqn:E; [|done].
      intros [= <- <-]. apply after_last_less in E as [E1 E2]. rewrite <- (take_drop_while (fun c => negb (line_end c)) s), El, Er.
      split; [by apply rest_app|]. rewrite !length_app. lia.
Qed.

Lemma pseudos_less s m r : pseudos s = Some (m, r) -> less r s.
Proof.
  unfold pseudos. intros H. apply bind_Some in H as ([c s1] & [H1 _]%char_less & H). apply bind_Some in H as ([name s2] & [H2 _]%some_less & H).
  cbn in H2, H. destruct (char _ s2 ≫= _) as [[a s3]|] eqn:E.
  - readers. match goal with H : pseudo_argument _ = _ |- _ => apply pseudo_argument_less in H end. chain.
  - readers. chain.
Qed.

Lemma letters_rest p : forall s t r, letters p s = Some (t, r) -> rest r s /\ (p <> [] -> less r s).
Proof.
  induction p as [|a p IH]; intros [|b s] t r; cbn; try done; [intros [= <- <-]; split; [apply rest_refl|done]..|].
  case_decide; [|done]. intros ([t' r'] & [H1 _]%IH & [= <- <-])%bind_Some. split; [chain|]. intros _. chain.
Qed.

Lemma child_type_rest s t r : child_type s = Some (t, r) -> rest r s.
Proof.
  unfold child_type. intros H.
  repeat match type of H with either ?x _ = _ => destruct x as [[? ?]|] eqn:?; cbn [either] in H; [injection H as -> ->|] end;
  readers; match goal with E : letters _ _ = Some _ |- _ => apply letters_rest in E as [? _] end; done.
Qed.

Lemma sign_rest s g r : sign s = (g, r) -> rest r s.
Proof. unfold sign. destruct (char _ s) as [[c s']|] eqn:E; intros [= <- <-]; [readers|]; chain. Qed.

Lemma xn_part_rest s x r : xn_part s = (x, r) -> rest r s.
Proof.
  unfold xn_part. destruct (sign s) as [g s1] eqn:E. apply sign_rest in E. destruct (many _ s1) as [ds s2] eqn:Em. unfold many in Em.
  injection Em as _ Er. destruct (char _ s2) as [[c s3]|] eqn:Ec; intros [= <- <-]; [|apply rest_refl]. readers. chain.
Qed.

Lemma y_part_rest s y r : y_part s = (y, r) -> rest r s.
Proof.
  unfold y_part. destruct (sign (skip s)) as [g s1] eqn:E. apply sign_rest in E.
  destruct (some _ (skip s1)) as [[ds s2]|] eqn:Es; intros [= <- <-]; [|apply rest_refl]. readers. chain.
Qed.

Lemma child_argument_rest s a r : child_argument s = Some (a, r) -> rest r s.
Proof.
  unfold child_argument. intros H.
  repeat match type of H with either ?x _ = _ => destruct x as [[? ?]|] eqn:?; cbn [either] in H; [injection H as -> ->|] end.
  1, 2: readers; match goal with E : letters _ _ = Some _ |- _ => apply letters_rest in E as [? _] end; chain.
  destruct (xn_part s) as [x s1] eqn:E1. apply xn_part_rest in E1. destruct (y_part s1) as [y s2] eqn:E2. apply y_part_rest in E2.
  readers. chain.
Qed.

Lemma child_less s m r : child s = Some (m, r) -> less r s.
Proof.
  unfold child. intros H. apply bind_Some in H as ([c s1] & [H1 _]%char_less & H). apply bind_Some in H as ([t s2] & H2%child_type_rest & H).
  apply bind_Some in H as ([what s3] & H3 & H). cbn in H2, H.
  assert (rest s3 s2) as Hs3.
  { destruct (letters (txt "child") s2) as [[? ?]|] eqn:E; cbn [either] in H3; [injection H3 as <- <-; apply letters_rest in E as [? _]; done|].
    by apply letters_rest in H3 as [? _]. }
  destruct (char _ s3 ≫= _) as [[a s4]|] eqn:E; readers.
  - match goal with H : child_argument _ = _ |- _ => apply child_argument_rest in H end. chain.
  - chain.
Qed.

Lemma rcomma_less s r : rcomma s = Some r -> less r s.
Proof.
  unfold rcomma. intros H. apply fmap_Some in H as ([c r'] & H & ->). readers. chain.
Qed.

Lemma rcombinators_less s c r : rcombinators s = Some (c, r) -> less r s.
Proof.
  unfold rcombinators. intros H. pose proof (skip_rest s) as Hs.
  assert (forall c0 s', s = c0 :: s' -> whitespace c0 = true -> less (skip s) s) as Hw.
  { intros c0 s' -> Hc. unfold skip. cbn. rewrite Hc. apply less_cons, drop_while_rest. }
  assert ((match s with c :: _ => if whitespace c then Some (Descendant, skip s) else None | [] => None end) = Some (c, r) -> less r s) as Hd.
  { destruct s as [|c0 s']; [done|]. destruct (whitespace c0) eqn:E; [|done]. intros [= <- <-]. by eapply Hw. }
  destruct (skip s) as [|c0 s'] eqn:E; [by apply Hd|]. pose proof (less_cons c0 s' s' (rest_refl _)).
  repeat match type of H with (match ?x with _ => _ end) = Some _ => destruct x; try by apply Hd end; injection H as <- <-; chain.
Qed.

(** ** Tokens *)

Lemma pseudo_argument_anything s a r : pseudo_argument s = Some ((a, Anything), r) -> length s = length a + 1 + length r.
Proof.
  unfold pseudo_argument. destruct (string_ s ≫= _) as [m'|] eqn:E.
  - intros [= ->]. apply bind_Some in E as ([v s1] & H1%string_less & E). apply bind_Some in E as ([c s2] & _ & [=]).
  - clear E. destruct (char _ (simple _ s) ≫= _) as [m'|] eqn:E; [intros [= ->]; by apply bind_Some in E as ([c s2] & _ & [=])|].
    clear E. destruct (many _ s) as [line more] eqn:Em. unfold many in Em. injection Em as El Er.
    destruct (after_last _ line) as [r'|] eqn:E; [|done]. intros [= <- <-]. apply after_last_less in E as [_ E].
    rewrite <- (take_drop_while (fun c => negb (line_end c)) s), El, Er, !length_app, length_take. lia.
Qed.

Lemma pseudos_anything s name a r : pseudos s = Some ((name, Some (a, Anything)), r) -> S (length a) < length s - length r.
Proof.
  unfold pseudos. intros H. apply bind_Some in H as ([c s1] & [[_ H1] _]%char_less & H). apply bind_Some in H as ([n s2] & [[_ H2] _]%some_less & H).
  cbn in H1, H2, H. destruct (char _ s2 ≫= _) as [[m s3]|] eqn:E; [|done]. injection H as -> -> ->.
  apply bind_Some in E as ([c' s3] & [[_ H3] _]%char_less & E%pseudo_argument_anything). cbn in H3, E. lia.
Qed.

(** What a token is to the text in front of which it is read. *)
Definition in_front (s : text) (t : token) : Prop := value t `prefix_of` s /\ value t <> [].

Lemma matched_prefix r s : rest r s -> matched s r `prefix_of` s.
Proof. intros H. exists r. by rewrite matched_rest. Qed.

Lemma matched_front r s k : less r s -> in_front s (Token (matched s r) k).
Proof. intros H. split; [by apply matched_prefix, less_rest|by apply matched_less]. Qed.

Lemma pre_pseudo_front excess s r m v k : pseudos s = Some (m, r) -> pre_pseudo excess s r m = Ok (Some (v, k)) -> in_front s (Token v k).
Proof.
  intros Hm H. pose proof (pseudos_less _ _ _ Hm) as Hl. unfold pre_pseudo in H. destruct m as [name arg].
  destruct (child (matched s r)); [done|]. destruct arg as [[a [q| |]]|]; [..|by injection H as <- <-; apply matched_front];
    [by injection H as <- <-; apply matched_front..|].
  destruct (negb _ && _); [|by injection H as <- <-; apply matched_front].
  apply jbind_ok in H as (n & _ & H). destruct n as [|n]; [by injection H as <- <-; apply matched_front|].
  remember (match index_from _ _ _ _ with Some i => _ | None => _ end) as cut eqn:Ec.
  destruct cut as [|cut]; [by injection H as <- <-; apply matched_front|]. injection H as <- <-. split; cbn [value].
  - transitivity (matched s r); [apply prefix_take|by apply matched_prefix, less_rest].
  - apply pseudos_anything in Hm. assert (length (matched s r) = length s - length r) as Hw.
    { unfold matched. rewrite length_take. lia. }
    assert (S cut <= S (length a)) as Hc by (rewrite Ec; destruct (index_from _ _ _ _); lia).
    intros E%(f_equal length). unfold slice_end in E. rewrite length_take, Hw in E. cbn [length] in E. lia.
Qed.

Lemma token_of_front s (k : text -> kind) o t :
  (forall v r, o = Some (v, r) -> less r s) -> Ok ((fun '(t, rest) => Token (matched s rest) (k t)) <$> o) = Ok (Some t) -> in_front s t.
Proof. intros Ho [= H]. apply fmap_Some in H as ([v r] & E & ->). by eapply matched_front, Ho. Qed.

Lemma named_less p q s v r : char p s ≫= (fun x => some q x.2) = Some (v, r) -> less r s.
Proof. intros H. readers. chain. Qed.

Lemma read_front excess i s t : read excess i s = Ok (Some t) -> in_front s t.
Proof.
  unfold read. destruct i as [|[|[|[|[|i]]]]].
  - apply token_of_front. intros v r H. readers. chain.
  - apply token_of_front. intros v r. apply named_less.
  - intros [= H]. apply fmap_Some in H as ([m r] & H%attributes_less & ->). by apply matched_front.
  - destruct (child s) as [[m r]|] eqn:E; [|done]. intros H. apply jbind_ok in H as (k & _ & [= <-]). by eapply matched_front, child_less.
  - destruct (pseudos s) as [[m r]|] eqn:E; [|done]. intros H. apply jbind_ok in H as (o & Ho & [= H]).
    apply fmap_Some in H as ([v k] & -> & ->). by eapply pre_pseudo_front.
  - apply token_of_front. intros v r. apply named_less.
Qed.

(** ** The loop *)

Lemma toSelector_app l1 l2 : toSelector (l1 ++ l2) = toSelector l1 ++ toSelector l2.
Proof. unfold toSelector. by rewrite fmap_app, join_app. Qed.

Lemma in_front_drop s t : in_front s t -> s = value t ++ drop (length (value t)) s.
Proof. intros [[r ->] _]. by rewrite drop_app_length. Qed.

Lemma filters_text excess types : forall s ts r, filters excess types s = Ok (ts, r) -> s = toSelector ts ++ r /\ Forall (fun t => value t <> []) ts.
Proof.
  induction types as [|i types IH]; intros s ts r; cbn [filters]; [by intros [= <- <-]|].
  intros H. apply jbind_ok in H as ([t|] & Hr & H); [|by apply IH]. apply jbind_ok in H as ([ts' r'] & Hf & [= <- <-]).
  apply read_front in Hr. destruct (IH _ _ _ Hf) as [E Hts]. cbn [fst snd]. split; [|constructor; [apply Hr|done]].
  rewrite (in_front_drop s t Hr) at 1. rewrite E. unfold toSelector. cbn. by rewrite <- app_assoc.
Qed.

Lemma turn_text excess s ts r : turn excess s = Ok (ts, r) -> s = toSelector ts ++ r /\ Forall (fun t => value t <> []) ts.
Proof.
  unfold turn, combinators. destruct (rcombinators s) as [[c s1]|] eqn:E; intros H; apply jbind_ok in H as ([ts' r'] & [Hf Hts]%filters_text & [= <- <-]); cbn [fst snd].
  - apply rcombinators_less in E. split; [|constructor; [exact (matched_less _ _ E)|done]].
    change (s = (matched s s1 ++ toSelector ts') ++ r'). rewrite <- app_assoc, <- Hf. symmetry. by apply matched_rest, less_rest.
  - done.
Qed.

(** The text of groups, with what separates them. *)
Fixpoint interleave (groups : list (list token)) (seps : list text) : text :=
  match groups, seps with
  | g :: groups, c :: seps => toSelector g ++ c ++ interleave groups seps
  | g :: groups, [] => toSelector g ++ interleave groups []
  | [], _ => []
  end.

Definition comma (c : text) : Prop := exists a b, c = a ++ ","%char :: b /\ Forall (fun x => whitespace x = true) (a ++ b).

Lemma rcomma_text s r : rcomma s = Some r -> exists c, comma c /\ s = c ++ r.
Proof.
  unfold rcomma. intros H. apply fmap_Some in H as ([c r'] & H & ->). apply bind_Some in H as ([x s1] & (_ & Hx & E)%char_less & [= <- <-]).
  cbn in *. apply bool_decide_eq_true in Hx as ->%list_elem_of_singleton.
  exists (take_while whitespace s ++ ","%char :: take_while whitespace s1). split.
  - exists (take_while whitespace s), (take_while whitespace s1). split; [done|]. apply Forall_app. split; apply take_while_all.
  - rewrite <- (take_drop_while whitespace s) at 1. change (drop_while whitespace s) with (skip s). rewrite E.
    rewrite <- app_assoc. cbn. unfold skip. by rewrite take_drop_while.
Qed.

Lemma interleave_snoc groups g : forall seps c, length groups = S (length seps) ->
  interleave (groups ++ [g]) (seps ++ [c]) = interleave groups seps ++ c ++ toSelector g.
Proof.
  induction groups as [|g0 groups IH]; intros [|c0 seps] c H; cbn in *; try lia.
  - destruct groups; [|cbn in H; lia]. cbn. by rewrite !app_nil_r.
  - destruct groups as [|g1 groups]; [cbn in H; lia|]. rewrite (IH seps c) by (cbn in *; lia). by rewrite <- !app_assoc.
Qed.

Lemma extend_snoc ts groups g : extend ts (groups ++ [g]) = groups ++ [g ++ ts].
Proof.
  induction groups as [|g0 groups IH]; [done|]. cbn [app extend]. rewrite IH. by destruct groups.
Qed.

Lemma toSelector_nil_inv ts : Forall (fun t => value t <> []) ts -> toSelector ts = [] -> ts = [].
Proof. destruct 1 as [|t ts Ht]; [done|]. unfold toSelector. cbn. by intros [? _]%app_nil. Qed.

(** The groups so far, their commas, and what is left are the selector. *)
Definition so_far (selector s : text) (groups : list (list token)) (seps : list text) : Prop :=
  Forall comma seps /\ Forall (fun g => g <> []) groups /\ length groups = S (length seps) /\ selector = interleave groups seps ++ s.

(** A comma at the end is not consumed, and nothing reads it. *)
Definition trailing (s : text) : Prop := rcomma s = Some [].

Lemma rcomma_skip s r : rcomma s = Some r -> exists b, skip s = ","%char :: b /\ r = skip b.
Proof.
  unfold rcomma. intros H. apply fmap_Some in H as ([c r'] & H & ->). apply bind_Some in H as ([x s1] & (_ & Hx & E)%char_less & [= <- <-]).
  cbn in *. apply bool_decide_eq_true in Hx as ->%list_elem_of_singleton. by exists s1.
Qed.

Lemma skip_comma b : skip (","%char :: b) = ","%char :: b.
Proof. done. Qed.

Lemma filters_comma excess b : filters excess [0; 1; 2; 3; 4; 5] (","%char :: b) = Ok ([], ","%char :: b).
Proof. done. Qed.

Lemma turn_trailing excess s : trailing s -> exists ts b, turn excess s = Ok (ts, ","%char :: b) /\ trailing (","%char :: b).
Proof.
  intros H. apply rcomma_skip in H as (b & E & Hb). unfold turn, combinators, rcombinators. rewrite E.
  assert (trailing (","%char :: b)) as Ht by (change (Some (skip b) = Some []); by rewrite <- Hb).
  destruct s as [|c s]; [done|]. destruct (whitespace c) eqn:Ec.
  - rewrite filters_comma. cbn [jbind fst snd]. by eexists _, _.
  - unfold skip in E. cbn in E. rewrite Ec in E. injection E as -> ->. rewrite filters_comma. by eexists _, _.
Qed.

Lemma lex_loop_trailing excess n : forall s groups r, trailing s -> lex_loop excess n s groups false <> Ok (r, []).
Proof.
  induction n as [|n IH]; intros s groups r Hs; destruct s as [|c s]; try done. cbn [lex_loop]. rewrite Hs.
  destruct (turn_trailing excess _ Hs) as (ts & b & -> & Hb). cbn [jbind]. destruct ts as [|t ts]; [by intros [= _ [=]]|by apply IH].
Qed.

(** One turn from groups whose last is still open. *)
Lemma turn_so_far excess selector s gs g seps ts r : Forall comma seps -> Forall (fun g => g <> []) gs -> length gs = length seps ->
  selector = interleave (gs ++ [g]) seps ++ s -> turn excess s = Ok (ts, r) -> ts <> [] -> so_far selector r (extend ts (gs ++ [g])) seps.
Proof.
  intros Hc Hg Hl -> [-> Hv]%turn_text Ht. rewrite extend_snoc. split_and!; [done| |rewrite length_app; cbn; lia|].
  - apply Forall_app. split; [done|]. constructor; [|done]. by intros [_ ?]%app_nil.
  - rewrite app_assoc. f_equal. destruct seps as [|c seps _] using rev_ind; [destruct gs; [|done]; cbn; by rewrite !app_nil_r, toSelector_app|].
    rewrite length_app in Hl. cbn in Hl. rewrite !interleave_snoc by lia. by rewrite toSelector_app, <- !app_assoc.
Qed.

Lemma lex_loop_text excess selector n : forall s groups (first : bool) r,
  lex_loop excess n s groups first = Ok (r, []) -> s <> [] \/ first = false ->
  (if first then groups = [] /\ selector = s else exists seps, so_far selector s groups seps) ->
  exists seps, so_far selector [] r seps.
Proof.
  induction n as [|n IH]; intros s groups first r H Hne Hs; destruct s as [|x s].
  1, 3: injection H as <-; destruct first; [naive_solver|done].
  - done.
  - cbn [lex_loop] in H. assert (exists gs g seps s', s' <> [] /\ Forall comma seps /\ Forall (fun g => g <> []) gs /\ length gs = length seps /\
      selector = interleave (gs ++ [g]) seps ++ s' /\
      (let? r' := turn excess s' in match r' with ([], s) => Ok (gs ++ [g], s) | (ts, s) => lex_loop excess n s (extend ts (gs ++ [g])) false end) = Ok (r, []))
      as (gs & g & seps & s' & Hs' & H1 & H2 & H3 & H4 & H5).
    { destruct first; [destruct Hs as [-> ->]; by exists [], [], [], (x :: s)|]. destruct Hs as (seps & H1 & H2 & H3 & H4).
      destruct (rcomma (x :: s)) as [rest|] eqn:E.
      - destruct rest as [|c rest].
        + exfalso. destruct (turn_trailing excess _ E) as (ts & b & Et & Hb). rewrite Et in H. cbn [jbind] in H.
          destruct ts; [by injection H|]. by apply lex_loop_trailing in H.
        + apply rcomma_text in E as (c' & Hc & E). exists groups, [], (seps ++ [c']), (c :: rest). split_and!; [done| |done| | |done].
          * apply Forall_app. split; [done|by constructor].
          * rewrite length_app. cbn. lia.
          * rewrite interleave_snoc by done. unfold toSelector. cbn. rewrite app_nil_r, <- app_assoc, <- E. done.
      - destruct groups as [|g gs _] using rev_ind; [done|]. exists gs, g, seps, (x :: s). rewrite length_app in H3. cbn in H3.
        apply Forall_app in H2 as [H2 _]. split_and!; try done. lia. }
    apply jbind_ok in H5 as ([ts s1] & Ht & H5). destruct ts as [|t ts].
    + injection H5 as _ ->. apply turn_text in Ht as [Ht _]. by rewrite Ht in Hs'.
    + eapply (IH _ _ false); [exact H5|by right|]. exists seps. eapply turn_so_far; [..|exact Ht|done]; done.
Qed.

Lemma tokens_text selector groups : tokenize selector = Ok groups -> selector <> [] ->
  exists seps, Forall comma seps /\ Forall (fun g => g <> []) groups /\ length groups = S (length seps) /\ selector = interleave groups seps.
Proof.
  unfold tokenize. intros H Hs. apply jbind_ok in H as ([r s] & Hl & H). cbn in H. destruct s; [|done]. injection H as <-. cbn [lex] in Hl.
  destruct (lex_loop_text _ selector _ _ _ true _ Hl) as (seps & H1 & H2 & H3 & H4); [by left|done|]. exists seps. by rewrite app_nil_r in H4.
Qed.

(** C17: what [tokenize] accepts it reads whole: the values of the tokens, group by group with the commas between, are the selector, and
    no group is empty. *)
Theorem tokens_cover selector groups : tokenize selector = Ok groups -> selector <> [] ->
  exists seps, Forall comma seps /\ Forall (fun g => g <> []) groups /\ length groups = S (length seps) /\ selector = interleave groups seps.
Proof. apply tokens_text. Qed.

Lemma tokens_cover_witness : exists groups, tokenize (txt "ul > li.b:not(a, i) , #x") = Ok groups /\ length groups = 2 /\
  exists seps, Forall comma seps /\ Forall (fun g => g <> []) groups /\ length groups = S (length seps) /\
    txt "ul > li.b:not(a, i) , #x" = interleave groups seps.
Proof.
  eexists. split; [vm_compute; reflexivity|]. split; [reflexivity|]. apply tokens_cover; [vm_compute; reflexivity|done].
Defined.

(** ** The recursion ends *)

Definition is_error (m : string) : Prop := exists t, m = ("Syntax error, unrecognized expression: " ++ t)%string.

(** Returns, or throws the error of [Sizzle.error]. *)
Definition answers {A} (r : jsres A) : Prop := match r with Ok _ => True | Throw m => is_error m end.

Lemma answers_error {A} t : answers (error (A := A) t).
Proof. by eexists. Qed.

Lemma answers_bind {A B} (r : jsres A) (k : A -> jsres B) : answers r -> (forall a, r = Ok a -> answers (k a)) -> answers (jbind r k).
Proof. destruct r; cbn; auto. Qed.

Section ends.
Context (excess : text -> jsres nat) (bound : nat) (excess_answers : forall t, length t < bound -> answers (excess t)).

Lemma pre_child_answers whole m : answers (pre_child whole m).
Proof.
  destruct m as [[type what] arg]. unfold pre_child. destruct (is_nth type).
  - destruct arg as [[[[|c a] x] y]|]; try apply answers_error. done.
  - destruct (from_option _ _ _); [done|apply answers_error].
Qed.

Lemma pre_pseudo_answers s r m : length s <= bound -> pseudos s = Some (m, r) -> answers (pre_pseudo excess s r m).
Proof using excess_answers.
  intros Hs Hm. unfold pre_pseudo. destruct m as [name arg]. destruct (child _); [done|]. destruct arg as [[a [q| |]]|]; [done..| |done].
  destruct (negb _ && _); [|done]. apply pseudos_anything in Hm. apply answers_bind; [apply excess_answers; lia|].
  intros [|n] _; [done|]. by destruct (match index_from _ _ _ _ with Some i => _ | None => _ end).
Qed.

Lemma read_answers i s : length s <= bound -> answers (read excess i s).
Proof using excess_answers.
  intros Hs. unfold read. destruct i as [|[|[|[|[|i]]]]]; try done.
  - destruct (child s) as [[m r]|]; [|done]. by apply answers_bind; [apply pre_child_answers|].
  - destruct (pseudos s) as [[m r]|] eqn:E; [|done]. by apply answers_bind; [apply pre_pseudo_answers|].
Qed.

Lemma filters_answers types : forall s, length s <= bound -> answers (filters excess types s).
Proof using excess_answers.
  induction types as [|i types IH]; intros s Hs; cbn [filters]; [done|]. apply answers_bind; [by apply read_answers|].
  intros [t|] _; [|by apply IH]. apply answers_bind; [|done]. apply IH. rewrite length_drop. lia.
Qed.

Lemma turn_answers s : length s <= bound -> answers (turn excess s).
Proof using excess_answers.
  intros Hs. unfold turn, combinators. destruct (rcombinators s) as [[c r]|] eqn:E; apply answers_bind; try done; apply filters_answers; [|done].
  apply rcombinators_less in E as [_ ?]. lia.
Qed.

Lemma lex_loop_answers n : forall s groups first, length s <= n -> length s <= bound -> answers (lex_loop excess n s groups first).
Proof using excess_answers.
  induction n as [|n IH]; intros s groups first Hn Hb; destruct s as [|c s]; try done; [cbn in Hn; lia|]. cbn [lex_loop].
  assert (exists g s', (if first then (groups ++ [[]], c :: s)
      else match rcomma (c :: s) with Some rest => (groups ++ [[]], match rest with [] => c :: s | _ => rest end) | None => (groups, c :: s) end) = (g, s') /\
      length s' <= S (length s)) as (g & s' & -> & Hs').
  { destruct first; [by eexists _, _|]. destruct (rcomma (c :: s)) as [[|c' r]|] eqn:E; [by eexists _, _| |by eexists _, _].
    eexists _, _. split; [done|]. apply rcomma_less in E as [_ E]. cbn in *. lia. }
  cbn in Hn, Hb. apply answers_bind; [apply turn_answers; lia|]. intros [[|t ts] r] Ht; [done|].
  apply turn_text in Ht as [E Hts]. inversion_clear Hts as [|? ? Hv _]. apply (f_equal length) in E. rewrite length_app in E.
  unfold toSelector in E. cbn in E. rewrite length_app in E. destruct (value t); [done|]. cbn in E. apply IH; lia.
Qed.
End ends.

Lemma lex_answers n : forall s, length s < n -> answers (lex n s).
Proof.
  induction n as [|n IH]; intros s Hs; [lia|]. cbn [lex]. apply (lex_loop_answers _ (length s)); [|lia..].
  intros t Ht. apply answers_bind; [|done]. apply IH. lia.
Qed.

(** C18: [tokenize] ends on every text, with the tokens or with the error of [Sizzle.error]: the argument of a pseudo-class that it reads
    to find its end is shorter, and every turn of its loop reads something. *)
Theorem tokenize_answers selector : answers (tokenize selector).
Proof.
  unfold tokenize. apply answers_bind; [apply lex_answers; lia|]. intros [r s] _. destruct s; [done|apply answers_error].
Qed.

(** ** Arguments are shorter *)

(** The argument of a pseudo-class, when it has one, is inside its token. *)
Definition argument_inside (t : token) : Prop :=
  match kind_of t with PSEUDO _ (Some a) => length a < length (value t) | _ => True end.

Lemma quoted_length q s v r : quoted q s = Some (v, r) -> length s = 2 + length v + length r.
Proof.
  unfold quoted. intros H. apply bind_Some in H as ([c s1] & (_ & _ & ->)%char_less & H). cbn [fst snd] in H.
  set (p := fun c : Ascii.ascii => _) in H at 1. destruct (many p s1) as [v' s2] eqn:E. unfold many in E.
  apply bind_Some in H as ([c' s3] & (_ & _ & ->)%char_less & [= <- <-]). injection E as E1 E2. cbn [length].
  rewrite <- (take_drop_while p s1), E1, E2, length_app. cbn. lia.
Qed.

Lemma string_length s v r : string_ s = Some (v, r) -> length s = 2 + length v + length r.
Proof. unfold string_. destruct (quoted quote1 s) as [[v' r']|] eqn:E; [intros [= <- <-]|]; by eapply quoted_length. Qed.

(** The argument as it is kept. *)
Definition kept_argument (a : text) (k : argument) : text := match k with Quoted v => v | _ => a end.

Lemma pseudo_argument_inside s a k r : pseudo_argument s = Some ((a, k), r) -> length (kept_argument a k) < length s - length r.
Proof.
  destruct k as [v| |]; cbn [kept_argument].
  - unfold pseudo_argument. destruct (string_ s ≫= _) as [m'|] eqn:E.
    + intros [= ->]. apply bind_Some in E as ([v' s1] & H1%string_length & E). apply bind_Some in E as ([c s2] & [[_ Hl] _]%char_less & [= _ <- <-]).
      cbn [snd]. lia.
    + clear E. destruct (char _ (simple _ s) ≫= _) as [m'|] eqn:E; [intros [= ->]; by apply bind_Some in E as ([c s2] & _ & [=])|].
      destruct (many _ s). by destruct (after_last _ _).
  - unfold pseudo_argument. destruct (string_ s ≫= _) as [m'|] eqn:E.
    + intros [= ->]. apply bind_Some in E as ([v s1] & _ & E). by apply bind_Some in E as ([c s2] & _ & [=]).
    + clear E. destruct (char _ (simple _ s) ≫= _) as [m'|] eqn:E.
      * intros [= ->]. apply bind_Some in E as ([c s2] & [[_ Hl] _]%char_less & [= <- <-]). cbn [snd] in *.
        unfold matched. rewrite length_take. pose proof (rest_length _ _ (simple_rest (length s) s)). lia.
      * destruct (many _ s). by destruct (after_last _ _).
  - intros H%pseudo_argument_anything. lia.
Qed.

Lemma pseudos_inside s name a k r : pseudos s = Some ((name, Some (a, k)), r) -> length (kept_argument a k) < length s - length r.
Proof.
  unfold pseudos. intros H. apply bind_Some in H as ([c s1] & [[_ H1] _]%char_less & H). apply bind_Some in H as ([n s2] & [[_ H2] _]%some_less & H).
  cbn in H1, H2, H. destruct (char _ s2 ≫= _) as [[m s3]|] eqn:E; [|done]. injection H as -> -> ->.
  apply bind_Some in E as ([c' s3] & [[_ H3] _]%char_less & E%pseudo_argument_inside). cbn [snd] in *. lia.
Qed.

Lemma length_matched s r : rest r s -> length (matched s r) = length s - length r.
Proof. intros H%rest_length. unfold matched. rewrite length_take. lia. Qed.

Lemma pre_pseudo_inside excess s r m v k : pseudos s = Some (m, r) -> pre_pseudo excess s r m = Ok (Some (v, k)) -> argument_inside (Token v k).
Proof.
  intros Hm H. pose proof (length_matched _ _ (less_rest _ _ (pseudos_less _ _ _ Hm))) as Hw. unfold pre_pseudo in H. destruct m as [name arg].
  destruct (child (matched s r)); [done|]. destruct arg as [[a q]|]; [|by injection H as <- <-].
  apply pseudos_inside in Hm as Hi. destruct q as [q| |]; cbn [kept_argument] in Hi; unfold argument_inside; cbn [kind_of value];
    [injection H as <- <-; lia..|]. destruct (negb _ && _); [|injection H as <- <-; lia].
  apply jbind_ok in H as (n & _ & H). destruct n as [|n]; [injection H as <- <-; lia|].
  remember (match index_from _ _ _ _ with Some i => _ | None => _ end) as cut eqn:Ec.
  destruct cut as [|cut]; injection H as <- <-; [lia|]. unfold slice_end. rewrite !length_take. apply pseudos_anything in Hm.
  assert (S cut <= S (length a)) by (rewrite Ec; destruct (index_from _ _ _ _); lia). lia.
Qed.

Lemma read_inside excess i s t : read excess i s = Ok (Some t) -> argument_inside t.
Proof.
  unfold read. destruct i as [|[|[|[|[|i]]]]]; intros H.
  1, 2, 3, 6: injection H as H; apply fmap_Some in H as ([v r] & _ & ->); unfold argument_inside; cbn; try done.
  - destruct v as [n [[op c]|]]; done.
  - destruct (child s) as [[m r]|]; [|done]. apply jbind_ok in H as (k & Hk & [= <-]). unfold argument_inside. cbn.
    unfold pre_child in Hk. destruct m as [[type what] arg]. destruct (is_nth type).
    + destruct arg as [[[[|c a] x] y]|]; try done. by injection Hk as <-.
    + destruct (from_option _ _ _); [by injection Hk as <-|done].
  - destruct (pseudos s) as [[m r]|] eqn:E; [|done]. apply jbind_ok in H as (o & Ho & [= H]). apply fmap_Some in H as ([v k] & -> & ->).
    by eapply pre_pseudo_inside.
Qed.

(** What holds for the tokens of every type holds for all tokens. *)
Section every.
Context (P : token -> Prop) (P_read : forall excess i s t, read excess i s = Ok (Some t) -> P t).
Context (P_combinator : forall s c r, rcombinators s = Some (c, r) -> P (Token (matched s r) (Relative c))).

Lemma filters_every excess types : forall s ts r, filters excess types s = Ok (ts, r) -> Forall P ts.
Proof using P_read.
  induction types as [|i types IH]; intros s ts r; cbn [filters]; [by intros [= <- <-]|].
  intros H. apply jbind_ok in H as ([t|] & Hr & H); [|by eapply IH]. apply jbind_ok in H as ([ts' r'] & Hf & [= <- <-]).
  constructor; [by eapply P_read|by eapply IH].
Qed.

Lemma turn_every excess s ts r : turn excess s = Ok (ts, r) -> Forall P ts.
Proof using P_read P_combinator.
  unfold turn, combinators. destruct (rcombinators s) as [[c s1]|] eqn:E; intros H; apply jbind_ok in H as ([ts' r'] & Hf%filters_every & [= <- <-]);
    [constructor; [by apply P_combinator|done]|done].
Qed.

Lemma lex_loop_every excess n : forall s groups (first : bool) r, lex_loop excess n s groups first = Ok r ->
  Forall (Forall P) groups -> Forall (Forall P) r.1.
Proof using P_read P_combinator.
  induction n as [|n IH]; intros s groups first r H Hg; destruct s as [|c s]; cbn [lex_loop] in H; try by injection H as <-. 1: done.
  assert (exists g s', (if first then (groups ++ [[]], c :: s)
      else match rcomma (c :: s) with Some rest => (groups ++ [[]], match rest with [] => c :: s | _ => rest end) | None => (groups, c :: s) end) = (g, s') /\
      Forall (Forall P) g) as (g & s' & E & Hg').
  { destruct first; [|destruct (rcomma (c :: s))]; eexists _, _; (split; [done|]); try done; apply Forall_app; split; try done; by repeat constructor. }
  rewrite E in H. clear E. apply jbind_ok in H as ([[|t ts] s1] & Ht & H); [by injection H as <-|]. apply (IH _ _ _ _ H).
  apply turn_every in Ht. destruct g as [|g0 gs _] using rev_ind; [done|]. rewrite extend_snoc. apply Forall_app in Hg' as [H1 H2].
  inversion_clear H2 as [|? ? H3 _]. apply Forall_app. split; [done|]. constructor; [|done]. by apply Forall_app.
Qed.

Lemma tokenize_every selector groups g t : tokenize selector = Ok groups -> g ∈ groups -> t ∈ g -> P t.
Proof using P_read P_combinator.
  intros H Hg Ht. unfold tokenize in H. apply jbind_ok in H as ([r s] & Hl & H). cbn [snd] in H. destruct s; [|done]. injection H as <-. cbn [lex] in Hl.
  apply lex_loop_every in Hl; [|constructor]. rewrite Forall_forall in Hl. specialize (Hl _ Hg). rewrite Forall_forall in Hl. by apply Hl.
Qed.
End every.

Lemma value_le t ts : t ∈ ts -> length (value t) <= length (toSelector ts).
Proof.
  intros (l1 & l2 & ->)%list_elem_of_split. rewrite toSelector_app, length_app. unfold toSelector at 2. cbn. rewrite length_app. lia.
Qed.

Lemma group_le groups : forall seps g, g ∈ groups -> length (toSelector g) <= length (interleave groups seps).
Proof.
  induction groups as [|g0 groups IH]; intros seps g Hg; [by apply elem_of_nil in Hg|].
  destruct seps as [|c seps]; cbn; rewrite !length_app; apply elem_of_cons in Hg as [->|Hg]; try lia.
  - specialize (IH [] g Hg). lia.
  - specialize (IH seps g Hg). lia.
Qed.

Lemma argument_shorter selector groups g t n a : tokenize selector = Ok groups -> g ∈ groups -> t ∈ g -> kind_of t = PSEUDO n (Some a) ->
  length a < length selector.
Proof.
  intros H Hg Ht Hk. destruct (decide (selector = [])) as [->|Hs]; [injection H as <-; by apply elem_of_nil in Hg|].
  destruct (tokens_text selector groups H Hs) as (seps & _ & _ & _ & E).
  assert (argument_inside t) as Hi by (by eapply tokenize_every; [apply read_inside| |done..]).
  unfold argument_inside in Hi. rewrite Hk in Hi. pose proof (value_le _ _ Ht). pose proof (group_le groups seps g Hg). rewrite E at 1. lia.
Qed.

Lemma trim_length s : length (trim s) <= length s.
Proof.
  unfold trim. rewrite length_rev. pose proof (rest_length _ _ (skip_rest (rev (skip s)))). pose proof (rest_length _ _ (skip_rest s)).
  rewrite length_rev in *. lia.
Qed.

(** ** Names and combinators *)

(** An id has a name, a combinator of siblings is in its token, and what a filter reads is no combinator. *)
Definition shaped (t : token) : Prop :=
  match kind_of t with
  | ID n => n <> []
  | Relative Next | Relative Sibling => rsibling (value t) = true
  | _ => True
  end.

Lemma read_relative excess i s t : read excess i s = Ok (Some t) -> match kind_of t with Relative _ => False | ID n => n <> [] | _ => True end.
Proof.
  unfold read. destruct i as [|[|[|[|[|i]]]]]; intros H.
  1, 2, 3, 6: injection H as H; apply fmap_Some in H as ([v r] & H & ->); cbn; try done.
  - by destruct v as [n [[op c]|]].
  - apply bind_Some in H as ([c s1] & _ & (_ & _ & H & _)%some_less). done.
  - destruct (child s) as [[m r]|]; [|done]. apply jbind_ok in H as (k & Hk & [= <-]). cbn. unfold pre_child in Hk. destruct m as [[type what] arg].
    destruct (is_nth type); [destruct arg as [[[[|c a] x] y]|]; try done; by injection Hk as <-|]. destruct (from_option _ _ _); [by injection Hk as <-|done].
  - destruct (pseudos s) as [[m r]|] eqn:E; [|done]. apply jbind_ok in H as (o & Ho & [= H]). apply fmap_Some in H as ([v k] & -> & ->). cbn.
    unfold pre_pseudo in Ho. destruct m as [n arg]. destruct (child _); [done|]. destruct arg as [[a [q| |]]|]; try by injection Ho as <- <-.
    destruct (negb _ && _); [|by injection Ho as <- <-]. apply jbind_ok in Ho as ([|m] & _ & Ho); [by injection Ho as <- <-|].
    by destruct (match index_from _ _ _ _ with Some i => _ | None => _ end); injection Ho as <- <-.
Qed.

Lemma read_shaped excess i s t : read excess i s = Ok (Some t) -> shaped t.
Proof. intros H%read_relative. unfold shaped. by destruct (kind_of t). Qed.

Lemma rsibling_app a b : rsibling (a ++ b) = rsibling a || rsibling b.
Proof. apply existsb_app. Qed.

(** A combinator other than the descendant's is a character after whitespace. *)
Lemma rcombinators_char s c r : rcombinators s = Some (c, r) -> c <> Descendant ->
  exists x b, skip s = x :: b /\ r = skip b /\ one_of ">+~" x = true /\ (c = Child \/ one_of "+~" x = true).
Proof.
  unfold rcombinators. intros H Hc. destruct (skip s) as [|x b] eqn:E.
  { destruct s as [|d s]; [done|]. destruct (whitespace d); [|done]. injection H as <- <-. done. }
  exists x, b.
  assert (forall y, Some (y, skip b) = Some (c, r) -> y = c /\ skip b = r) as Hi by (by intros y [= -> ->]).
  destruct x as [[] [] [] [] [] [] [] []]; try (destruct s as [|d s]; [done|]; destruct (whitespace d); [by injection H as <- <-|done]);
    apply Hi in H as [<- <-]; split_and!; auto.
Qed.

Lemma read_valued excess i s t : read excess i s = Ok (Some t) -> value t <> [].
Proof. by intros [_ ?]%read_front. Qed.

Lemma rcombinators_valued s c r : rcombinators s = Some (c, r) -> value (Token (matched s r) (Relative c)) <> [].
Proof. intros H. by eapply matched_less, rcombinators_less. Qed.

Lemma tokens_valued selector groups g t : tokenize selector = Ok groups -> g ∈ groups -> t ∈ g -> value t <> [].
Proof. apply (tokenize_every (fun t => value t <> [])); [apply read_valued|apply rcombinators_valued]. Qed.

Lemma rcombinators_shaped s c r : rcombinators s = Some (c, r) -> shaped (Token (matched s r) (Relative c)).
Proof.
  intros H. assert (c = Next \/ c = Sibling -> rsibling (matched s r) = true) as Hm; [|unfold shaped; cbn; destruct c; auto].
  intros Hc. destruct (rcombinators_char s c r H) as (x & b & E & -> & _ & Hx); [by destruct Hc as [-> | ->]|].
  destruct Hx as [->|Hx]; [by destruct Hc|].
  assert (matched s (skip b) = take_while whitespace s ++ x :: take_while whitespace b) as ->.
  { apply (app_inv_tail (skip b)). rewrite matched_rest by (by eapply less_rest, rcombinators_less). rewrite <- app_assoc. cbn.
    unfold skip in *. by rewrite (take_drop_while whitespace b), <- E, (take_drop_while whitespace s). }
  rewrite rsibling_app. cbn. rewrite Hx. by rewrite orb_true_r.
Qed.

Lemma tokens_shaped selector groups g t : tokenize selector = Ok groups -> g ∈ groups -> t ∈ g -> shaped t.
Proof. apply tokenize_every; [apply read_shaped|apply rcombinators_shaped]. Qed.

(** The text of a token is in the selector. *)
Lemma interleave_sibling groups : forall seps g, g ∈ groups -> rsibling (toSelector g) = true -> rsibling (interleave groups seps) = true.
Proof.
  induction groups as [|g0 groups IH]; intros seps g Hg H; [by apply elem_of_nil in Hg|].
  destruct seps as [|c seps]; cbn; rewrite !rsibling_app; apply elem_of_cons in Hg as [->|Hg]; rewrite ?H, ?(IH _ _ Hg H), ?orb_true_r; done.
Qed.

Lemma sibling_text selector groups g t : tokenize selector = Ok groups -> g ∈ groups -> t ∈ g ->
  kind_of t = Relative Next \/ kind_of t = Relative Sibling -> rsibling selector = true.
Proof.
  intros H Hg Ht Hk. destruct (decide (selector = [])) as [->|Hs]; [injection H as <-; by apply elem_of_nil in Hg|].
  destruct (tokens_text selector groups H Hs) as (seps & _ & _ & _ & ->). apply (interleave_sibling _ _ g Hg).
  pose proof (tokens_shaped _ _ _ _ H Hg Ht) as Hsh. apply list_elem_of_split in Ht as (l1 & l2 & ->).
  rewrite toSelector_app, rsibling_app. unfold toSelector at 2. cbn. rewrite rsibling_app. unfold shaped in Hsh.
  assert (rsibling (value t) = true) as -> by (by destruct Hk as [E|E]; rewrite E in Hsh). by rewrite orb_true_r.
Qed.

(** The first token of a selector. *)
Lemma lex_loop_head excess n : forall s t0 g gs r, lex_loop excess n s ((t0 :: g) :: gs) false = Ok r -> exists g' gs', r.1 = (t0 :: g') :: gs'.
Proof.
  induction n as [|n IH]; intros s t0 g gs r H; destruct s as [|c s]; cbn [lex_loop] in H; try done.
  1, 2: injection H as <-; by do 2 eexists.
  assert (exists gs0 s', match rcomma (c :: s) with Some rest => (((t0 :: g) :: gs) ++ [[]], match rest with [] => c :: s | _ => rest end) | None => ((t0 :: g) :: gs, c :: s) end
    = ((t0 :: g) :: gs0, s')) as (gs0 & s' & E) by (destruct (rcomma (c :: s)); by do 2 eexists).
  rewrite E in H. clear E. apply jbind_ok in H as ([[|t ts] s1] & Ht & H); [injection H as <-; by do 2 eexists|].
  destruct gs0 as [|g0 gs0]; by apply (IH _ _ _ _ _ H).
Qed.

Lemma needsContext_lead selector t0 g gs c : tokenize selector = Ok ((t0 :: g) :: gs) -> kind_of t0 = Relative c -> c <> Descendant ->
  needsContext selector = true.
Proof.
  intros H Hk Hc. unfold tokenize in H. apply jbind_ok in H as ([r s] & Hl & H). cbn [snd] in H. destruct s; [|done]. injection H as ->. cbn [lex fst] in Hl.
  destruct selector as [|x selector]; [done|]. cbn [length lex_loop app] in Hl. apply jbind_ok in Hl as ([[|t ts] s1] & Ht & Hl); [done|].
  cbn [extend app] in Hl. apply lex_loop_head in Hl as (g' & gs' & [= -> -> ->]). unfold turn, combinators in Ht.
  destruct (rcombinators (x :: selector)) as [[c' s']|] eqn:Er; apply jbind_ok in Ht as ([ts' r'] & Hf & Ht); cbn [app fst snd] in Ht; injection Ht.
  - intros _ _ <-. cbn in Hk. injection Hk as <-. apply rcombinators_char in Er as (y & b & E & _ & Hy & _); [|done]. unfold needsContext. rewrite E. cbn. by rewrite Hy.
  - intros _ ->. exfalso. eapply (filters_every (fun t => match kind_of t with Relative _ => False | _ => True end)) in Hf.
    + inversion_clear Hf as [|? ? H1 _]. by rewrite Hk in H1.
    + intros ex i s2 t2 H2%read_relative. by destruct (kind_of t2).
Qed.

(** ** Selectors that need no engine *)

Definition quick_kind (q : quick) : kind := match q with QuickId m => ID m | QuickTag m => TAG m | QuickClass m => CLASS m end.

Definition hyphened (c : Ascii.ascii) : bool := word_char c || (code c =? 45)%Z.

Lemma rquickExpr_inv s q : rquickExpr s = Some q ->
  (exists m, s = "#"%char :: m /\ q = QuickId m /\ m <> [] /\ Forall (fun c => hyphened c = true) m) \/
  (exists m, s = "."%char :: m /\ q = QuickClass m /\ m <> [] /\ Forall (fun c => hyphened c = true) m) \/
  (q = QuickTag s /\ s <> [] /\ Forall (fun c => word_char c = true) s).
Proof.
  assert (forall p (m : text), (match m with [] => false | _ => forallb p m end) = true -> m <> [] /\ Forall (fun c => p c = true) m) as Hall.
  { intros p [|c m]; [done|]. intros H. split; [done|]. rewrite forallb_forall in H. apply Forall_forall. intros x Hx. by apply H, list_elem_of_In. }
  intros H. destruct s as [|c m]; [done|].
  destruct (decide (c = "#"%char)) as [->|H1].
  { left. exists m. cbn in H. destruct (match m with [] => false | _ => _ end) eqn:E; [|done]. injection H as <-. destruct (Hall _ _ E). done. }
  destruct (decide (c = "."%char)) as [->|H2].
  { right. left. exists m. cbn in H. destruct (match m with [] => false | _ => _ end) eqn:E; [|done]. injection H as <-. destruct (Hall _ _ E). done. }
  right. right. assert (rquickExpr (c :: m) = if forallb word_char (c :: m) then Some (QuickTag (c :: m)) else None) as E.
  { destruct c as [[] [] [] [] [] [] [] []]; done. }
  rewrite E in H. destruct (forallb word_char (c :: m)) eqn:Ef; [|done]. injection H as <-. by destruct (Hall word_char (c :: m) Ef).
Qed.

Lemma take_while_every p s : Forall (fun c => p c = true) s -> take_while p s = s /\ drop_while p s = [].
Proof. induction 1 as [|c s Hc _ [IH1 IH2]]; [done|]. cbn. by rewrite Hc, IH1, IH2. Qed.

Lemma some_every p s : s <> [] -> Forall (fun c => p c = true) s -> some p s = Some (s, []).
Proof. intros Hs H. unfold some. destruct (take_while_every p s H) as [-> ->]. by destruct s. Qed.

Lemma hyphened_name c : hyphened c = true -> name_char c = true.
Proof. unfold hyphened, name_char. intros ->. done. Qed.

(** What is in front of a quick selector, and what follows. *)
Definition plain (c : Ascii.ascii) : bool := negb (whitespace c) && negb (one_of ">+~" c).

Lemma word_plain c : word_char c = true -> plain c = true.
Proof. destruct c as [[] [] [] [] [] [] [] []]; done. Qed.

Lemma hyphened_plain c : hyphened c = true -> plain c = true.
Proof. destruct c as [[] [] [] [] [] [] [] []]; done. Qed.

Lemma skip_plain s : Forall (fun c => plain c = true) s -> skip s = s.
Proof. destruct 1 as [|c s Hc _]; [done|]. unfold skip. cbn. unfold plain in Hc. by destruct (whitespace c). Qed.

Lemma trim_plain s : Forall (fun c => plain c = true) s -> trim s = s.
Proof.
  intros H. unfold trim. rewrite (skip_plain s H), skip_plain, rev_involutive; [done|]. rewrite Forall_forall in *. intros c Hc. apply H.
  apply list_elem_of_In, in_rev, list_elem_of_In. done.
Qed.

Lemma combinators_plain c s : plain c = true -> combinators (c :: s) = ([], c :: s).
Proof.
  intros H. assert (rcombinators (c :: s) = None) as E; [|unfold combinators; by rewrite E].
  destruct c as [[] [] [] [] [] [] [] []]; done.
Qed.

Lemma matched_whole s : matched s [] = s.
Proof. unfold matched. cbn [length]. by rewrite Nat.sub_0_r, firstn_all. Qed.

Lemma tokenize_one s t : s <> [] -> (forall excess, turn excess s = Ok ([t], [])) -> tokenize s = Ok [[t]].
Proof. intros Hs H. unfold tokenize. destruct s as [|c s]; [done|]. cbn [lex length lex_loop app]. rewrite H. cbn. by destruct (length s). Qed.

Lemma quick_tokens s q : rquickExpr s = Some q -> trim s = s /\ tokenize s = Ok [[Token s (quick_kind q)]].
Proof.
  intros [(m & -> & -> & Hm & H)|[(m & -> & -> & Hm & H)|(-> & Hs & H)]]%rquickExpr_inv.
  - assert (Forall (fun c => name_char c = true) m) as Hn by (eapply Forall_impl; [exact H|]; apply hyphened_name).
    split; [apply trim_plain; constructor; [done|]; eapply Forall_impl; [exact H|]; apply hyphened_plain|].
    apply tokenize_one; [done|]. intros excess. unfold turn. rewrite combinators_plain by done.
    assert (read excess 5 ("#"%char :: m) = Ok (Some (Token ("#"%char :: m) (ID m)))) as E.
    { unfold read. change (char (one_of "#") ("#"%char :: m)) with (Some ("#"%char, m)). cbn [mbind option_bind snd]. rewrite some_every by done.
      cbn [fmap option_fmap option_map]. by rewrite matched_whole. }
    assert (filters excess [0; 1; 2; 3; 4; 5] ("#"%char :: m) = Ok ([Token ("#"%char :: m) (ID m)], [])) as ->; [|done].
    change (filters excess [5] ("#"%char :: m) = Ok ([Token ("#"%char :: m) (ID m)], [])). cbn [filters]. rewrite E. cbn [jbind value filters fst snd].
    by rewrite skipn_all.
  - assert (Forall (fun c => name_char c = true) m) as Hn by (eapply Forall_impl; [exact H|]; apply hyphened_name).
    split; [apply trim_plain; constructor; [done|]; eapply Forall_impl; [exact H|]; apply hyphened_plain|].
    apply tokenize_one; [done|]. intros excess. unfold turn. rewrite combinators_plain by done.
    assert (read excess 1 ("."%char :: m) = Ok (Some (Token ("."%char :: m) (CLASS m)))) as E.
    { unfold read. change (char (one_of ".") ("."%char :: m)) with (Some ("."%char, m)). cbn [mbind option_bind snd]. rewrite some_every by done.
      cbn [fmap option_fmap option_map]. by rewrite matched_whole. }
    assert (filters excess [0; 1; 2; 3; 4; 5] ("."%char :: m) = Ok ([Token ("."%char :: m) (CLASS m)], [])) as ->; [|done].
    change (filters excess [1; 2; 3; 4; 5] ("."%char :: m) = Ok ([Token ("."%char :: m) (CLASS m)], [])). cbn [filters]. rewrite E.
    cbn [jbind value]. by rewrite skipn_all.
  - assert (Forall (fun c => plain c = true) s) as Hp by (eapply Forall_impl; [exact H|]; apply word_plain).
    split; [by apply trim_plain|]. apply tokenize_one; [done|]. intros excess. unfold turn.
    assert (combinators s = ([], s)) as ->; [destruct s; [done|]; apply combinators_plain; by inversion Hp|].
    assert (read excess 0 s = Ok (Some (Token s (TAG s)))) as E.
    { unfold read. rewrite some_every; [|done|]. { cbn [fmap option_fmap option_map]. by rewrite matched_whole. } eapply Forall_impl; [exact H|]. intros c Hc. unfold tag_char, name_char. cbn in Hc. by rewrite Hc. }
    cbn [filters]. rewrite E. cbn [jbind value]. by rewrite skipn_all.
Qed.
