(* ===== verification/Sizzle.v ===== *)
(** * Sizzle: matchers and queries (application bundle, lines 774-901, 1025-1027, 1123-1184, 1558-1563, 1640-2019, 2093-2177 and 2293-2554)

    A document is a list of nodes in document order, the document itself first.  Matchers, which are closures in the code, are data here,
    and [run] is what they do when they are called.  The state is what the closures share: [dirruns], [outermostContext], the cache of compiled
    selectors and what combinators and [nth-child] leave on the elements.  An array on an element is a reference: [newCache] is put on all
    the elements a combinator passes, and changed later.  [:has] calls [Sizzle] and [:not] calls [compile]: both take fuel, for the depth of
    selectors in selectors.  Positional pseudo-classes, [:lang], [:focus] and [:target], quirks of old browsers and [querySelectorAll] are left
    out: the engine is what a browser without it runs. *)

From Stdlib Require Import ZArith Lia Ascii SpecFloat.
From stdpp Require Import gmap strings.
From S2P Require Import Prelude JsString SizzleTokens Doubles.

Local Open Scope Z_scope.
Local Open Scope js_scope.

(** ** Documents *)

Record node := Node {
  nodeType : Z; nodeName : text; parentNode : option nat; childNodes : list nat; attrs : list (text * text);
  textContent : text; type_ : text; disabled : option bool; checked : bool; selected : bool
}.

Definition dom : Type := list node.
Definition document : nat := 0%nat.

Inductive dir := ParentNode | PreviousSibling | NextSibling.
#[global] Instance dir_eq_dec : EqDecision dir.
Proof. solve_decision. Defined.
#[global] Instance dir_countable : Countable dir.
Proof.
  apply (inj_countable' (fun d => match d with ParentNode => 0 | PreviousSibling => 1 | NextSibling => 2 end%nat)
    (fun n => match n with 0 => ParentNode | 1 => PreviousSibling | _ => NextSibling end%nat)). by intros [].
Defined.

Section documents.
Context (D : dom).

Definition get {A} (f : node -> A) (otherwise : A) (x : nat) : A := from_option f otherwise (D !! x).
Definition type_of (x : nat) : Z := get nodeType 0 x.
Definition element (x : nat) : bool := type_of x =? 1.
Definition parent (x : nat) : option nat := get parentNode None x.
Definition children (x : nat) : list nat := get childNodes [] x.
Definition name (x : nat) : text := to_lower (get nodeName [] x).

(** The node before another in a list. *)
Fixpoint before (x : nat) (l : list nat) : option nat :=
  match l with
  | y :: ((z :: _) as l) => if decide (z = x) then Some y else before x l
  | _ => None
  end.

(** [elem[ dir ]] *)
Definition step (d : dir) (x : nat) : option nat :=
  match d with
  | ParentNode => parent x
  | PreviousSibling => parent x ≫= fun p => before x (children p)
  | NextSibling => parent x ≫= fun p => before x (rev (children p))
  end.

(** The nodes of [while ( (elem = elem[ dir ]) )]. *)
Fixpoint chain (n : nat) (d : dir) (x : nat) : list nat :=
  match n with
  | O => []
  | S n => match step d x with Some y => y :: chain n d y | None => [] end
  end.
Definition walk (d : dir) (x : nat) : list nat := chain (length D) d x.

(** [elem.getAttribute( name )] *)
Definition getAttribute (x : nat) (n : text) : option text :=
  (fun p => p.2) <$> find (fun p => bool_decide (p.1 = to_lower n)) (get attrs [] x).

(** [document.getElementById], [getElementsByTagName], [getElementsByClassName]; [contains]. *)
Definition contains (c x : nat) : bool := bool_decide (c ∈ walk ParentNode x).

Definition nodes (p : nat -> bool) : list nat := filter (fun x => p x = true) (seq 0 (length D)).

Definition getElementById (id : text) : option nat :=
  hd_error (nodes (fun x => element x && contains document x && bool_decide (id <> []) && bool_decide (getAttribute x (txt "id") = Some id))).

Definition is_tag (tag : text) (x : nat) : bool := bool_decide (tag = txt "*") || bool_decide (name x = to_lower tag).

Definition getElementsByTagName (tag : text) (c : nat) : list nat :=
  nodes (fun x => element x && contains c x && is_tag tag x).

(** [new RegExp( "(^|whitespace)name(whitespace|$)" ).test( s )] *)
Fixpoint class_test (n : text) (start : bool) (s : text) : bool :=
  (start && match strip_prefix n s with Some [] => true | Some (c :: _) => whitespace c | None => false end) ||
  match s with [] => false | c :: s => class_test n (whitespace c) s end.

Definition className (x : nat) : text := default [] (getAttribute x (txt "class")).

Definition getElementsByClassName (n : text) (c : nat) : list nat :=
  nodes (fun x => element x && contains c x && class_test n true (className x)).

(** [testContext( context.parentNode ) || context] *)
Definition has_methods (x : nat) : bool := (type_of x =? 1) || (type_of x =? 9).
Definition up (c : nat) : nat := match parent c with Some p => if has_methods p then p else c | None => c end.

(** ** Filters without state *)

Fixpoint indexOf (pattern s : text) : bool :=
  match strip_prefix pattern s with
  | Some _ => true
  | None => match s with [] => false | _ :: s => indexOf pattern s end
  end.

Definition truthy (s : text) : bool := negb (bool_decide (s = [])).

(** [Expr.filter.ATTR] *)
Definition attr_test (n operator check : text) (x : nat) : bool :=
  match getAttribute x n with
  | None => bool_decide (operator = txt "!=")
  | Some result =>
      if bool_decide (operator = []) then true
      else if bool_decide (operator = txt "=") then bool_decide (result = check)
      else if bool_decide (operator = txt "!=") then bool_decide (result <> check)
      else if bool_decide (operator = txt "^=") then truthy check && bool_decide (is_Some (strip_prefix check result))
      else if bool_decide (operator = txt "*=") then truthy check && indexOf check result
      else if bool_decide (operator = txt "$=") then truthy check && bool_decide (drop (length result - length check) result = check)
      else if bool_decide (operator = txt "~=") then indexOf check (txt " " ++ result ++ txt " ")
      else if bool_decide (operator = txt "|=")
        then bool_decide (result = check) || bool_decide (take (S (length check)) result = check ++ txt "-")
      else false
  end.

(** The pseudo-classes that are modelled. *)
Inductive pseudo :=
| PNot | PHas | PContains | PRoot | PEnabled | PDisabled | PChecked | PSelected | PEmpty | PParent
| PHeader | PInput | PButton | PText | PInputType (t : text) | PButtonType (t : text).

Definition input_types : list string := ["radio"; "checkbox"; "file"; "password"; "image"]%string.
Definition button_types : list string := ["submit"; "reset"]%string.

(** [Expr.pseudos[ pseudo ] || Expr.setFilters[ pseudo.toLowerCase() ]]: the table does not hold names with capitals. *)
Definition pseudo_table : list (string * pseudo) :=
  [("not", PNot); ("has", PHas); ("contains", PContains); ("root", PRoot); ("enabled", PEnabled); ("disabled", PDisabled);
   ("checked", PChecked); ("selected", PSelected); ("empty", PEmpty); ("parent", PParent); ("header", PHeader); ("input", PInput);
   ("button", PButton); ("text", PText)]%string ++
  ((fun t => (t, PInputType (txt t))) <$> input_types) ++ ((fun t => (t, PButtonType (txt t))) <$> button_types).

Definition pseudo_of (n : text) : option pseudo :=
  (fun p => p.2) <$> find (fun p => bool_decide (txt p.1 = to_lower n)) pseudo_table.

Arguments pseudo_of : simpl never.

(** [docElem] *)
Definition docElem : option nat := find element (children document).

Definition empty (x : nat) : bool := forallb (fun y => negb (type_of y <? 6)) (children x).

Definition is_input (t : text) (x : nat) : bool := bool_decide (name x = txt "input") && bool_decide (get type_ [] x = t).

Definition rheader (n : text) : bool := match n with [c; d] => bool_decide (c = "h"%char) && is_digit d | _ => false end.

Definition pseudo_test (p : pseudo) (argument : option text) (x : nat) : bool :=
  match p with
  | PNot | PHas => false
  | PContains => indexOf (default (txt "undefined") argument) (get textContent [] x)
  | PRoot => bool_decide (docElem = Some x)
  | PEnabled => bool_decide (get disabled None x = Some false)
  | PDisabled => bool_decide (get disabled None x = Some true)
  | PChecked => (bool_decide (name x = txt "input") && get checked false x) || (bool_decide (name x = txt "option") && get selected false x)
  | PSelected => get selected false x
  | PEmpty => empty x
  | PParent => negb (empty x)
  | PHeader => rheader (name x)
  | PInput => bool_decide (name x ∈ txt <$> ["input"; "select"; "textarea"; "button"]%string)
  | PButton => is_input (txt "button") x || bool_decide (name x = txt "button")
  | PText => is_input (txt "text") x &&
      match getAttribute x (txt "type") with Some t => bool_decide (to_lower t = txt "text") | None => true end
  | PInputType t => is_input t x
  | PButtonType t => is_input t x || (bool_decide (name x = txt "button") && bool_decide (get type_ [] x = t))
  end.

(** The filters of tokens, without those of [CHILD], [:not] and [:has]. *)
Definition test (k : kind) (x : nat) : bool :=
  match k with
  | TAG n => is_tag n x
  | CLASS n => class_test n true (className x)
  | ID n => bool_decide (getAttribute x (txt "id") = Some n)
  | ATTR n op check => attr_test n op check x
  | PSEUDO n argument => match pseudo_of n with Some p => pseudo_test p argument x | None => false end
  | Relative _ | CHILD _ _ _ => false
  end.
End documents.

(** ** State *)

(** The array [newCache] of a combinator: [dirruns], its [doneName] and the result, when there is one. *)
Record entry := Entry { e_run : double; e_done : nat; e_result : option bool }.

(** [outermostContext]: undefined, false for the document, or a node. *)
Inductive outer := Undefined | Document | Context (x : nat).

(** What the filters of a group are compiled to.  [Reachable] is the foundational matcher, [All] what [elementMatcher] makes of several. *)
Inductive matcher :=
| Reachable (lead : option combinator) (done : nat)
| Test (k : kind)
| Position (t : position) (of_type : bool) (first last : Z)
| Negation (selector : text) (ms : list matcher)
| Containing (selector : text)
| Combined (m : matcher) (c : combinator) (done : nat)
| All (ms : list matcher).

(** [w_made] is [done], with the length of the selector each number was made for; [w_runs] the values [dirruns] was brought to by a
    query.  On elements, [w_dir] is [elem[ expando ][ dir ]], [w_nth] and [w_last] what [nth-child] and [nth-last-child] keep. *)
Record world := World {
  w_dirruns : double; w_draws : nat; w_outermost : outer; w_arrays : list entry;
  w_dir : gmap (nat * dir) nat; w_nth : gmap nat (double * nat * Z); w_last : gmap nat (double * Z);
  w_keys : list text; w_compiled : gmap text (list matcher); w_made : list nat; w_runs : list double
}.

Definition set_dirruns x (w : world) := let 'World _ b c d e f g h i j k := w in World x b c d e f g h i j k.
Definition set_draws x (w : world) := let 'World a _ c d e f g h i j k := w in World a x c d e f g h i j k.
Definition set_outermost x (w : world) := let 'World a b _ d e f g h i j k := w in World a b x d e f g h i j k.
Definition set_arrays x (w : world) := let 'World a b c _ e f g h i j k := w in World a b c x e f g h i j k.
Definition set_dir x (w : world) := let 'World a b c d _ f g h i j k := w in World a b c d x f g h i j k.
Definition set_nth x (w : world) := let 'World a b c d e _ g h i j k := w in World a b c d e x g h i j k.
Definition set_last x (w : world) := let 'World a b c d e f _ h i j k := w in World a b c d e f x h i j k.
Definition set_keys x (w : world) := let 'World a b c d e f g _ i j k := w in World a b c d e f g x i j k.
Definition set_compiled x (w : world) := let 'World a b c d e f g h _ j k := w in World a b c d e f g h x j k.
Definition set_made x (w : world) := let 'World a b c d e f g h i _ k := w in World a b c d e f g h i x k.
Definition set_runs x (w : world) := let 'World a b c d e f g h i j _ := w in World a b c d e f g h i j x.

Definition new_world : world := World (of_Z 0) 0 Undefined [] ∅ ∅ ∅ [] ∅ [] [].

(** [done++] *)
Definition make (selector : text) : st_ex world nat := fun w =>
  (set_made (w_made w ++ [length selector]) w, Ok (length (w_made w))).

Definition set_result (i : nat) (r : option bool) (w : world) : world :=
  set_arrays (alter (fun e => Entry (e_run e) (e_done e) r) i (w_arrays w)) w.

Definition of_res {A} (r : jsres A) : st_ex world A := fun w => (w, r).

(** ** [Expr.relative] *)

Definition dir_of (c : combinator) : dir := match c with Child | Descendant => ParentNode | Next | Sibling => PreviousSibling end.
Definition first_of (c : combinator) : bool := match c with Child | Next => true | Descendant | Sibling => false end.

Definition relative (k : kind) : option combinator := match k with Relative c => Some c | _ => None end.

(** ** Compilation *)

Definition elementMatcher (ms : list matcher) : matcher := match ms with [m] => m | _ => All ms end.

Section compiling.
(** [compile], for the selectors in selectors. *)
Context (inner : text -> st_ex world (list matcher)).

(** [Expr.filter[ tokens[i].type ].apply( null, tokens[i].matches )] *)
Definition filter_of (k : kind) : st_ex world matcher :=
  match k with
  | CHILD t of_type (first, last) => sret (Position t of_type first last)
  | PSEUDO n argument =>
      match pseudo_of n with
      | None => of_res (error (txt "unsupported pseudo: " ++ n))
      | Some PNot =>
          match argument with
          | Some a => let! ms := inner (trim a) in sret (Negation (trim a) ms)
          | None => sthrow "TypeError: selector is undefined"
          end
      | Some PHas => sret (Containing (default [] argument))
      | Some _ => sret (Test k)
      end
  | k => sret (Test k)
  end.

Fixpoint match_tokens (selector : text) (tokens : list token) (matchers : list matcher) : st_ex world (list matcher) :=
  match tokens with
  | [] => sret matchers
  | t :: tokens =>
      match relative (kind_of t) with
      | Some c => let! d := make selector in match_tokens selector tokens [Combined (elementMatcher matchers) c d]
      | None => let! m := filter_of (kind_of t) in match_tokens selector tokens (matchers ++ [m])
      end
  end.

(** [addCombinator] is called twice for the foundational matcher; contexts are nodes here, and the second is not used. *)
Definition matcherFromTokens (selector : text) (tokens : list token) : st_ex world matcher :=
  match tokens with
  | [] => sthrow "TypeError: tokens[0] is undefined"
  | t :: rest =>
      let lead := relative (kind_of t) in
      let! d := make selector in
      let! _ := make selector in
      let! ms := match_tokens selector (match lead with Some _ => rest | None => tokens end) [Reachable lead d] in
      sret (elementMatcher ms)
  end.

Fixpoint match_groups (selector : text) (groups : list (list token)) : st_ex world (list matcher) :=
  match groups with
  | [] => sret []
  | g :: groups => let! m := matcherFromTokens selector g in let! ms := match_groups selector groups in sret (m :: ms)
  end.

Definition cacheLength : nat := 50.

(** [createCache]: [keys.push( key ) > cacheLength], then the oldest is deleted. *)
Definition cache_put (key : text) (ms : list matcher) (w : world) : world :=
  let keys := w_keys w ++ [key] in
  let '(keys, cache) :=
    if (cacheLength <? length keys)%nat then (drop 1 keys, match keys with k :: _ => delete k (w_compiled w) | [] => w_compiled w end)
    else (keys, w_compiled w) in
  set_compiled (<[key := ms]> cache) (set_keys keys w).

Definition compile (selector : text) (groups : option (list (list token))) : st_ex world (list matcher) :=
  let! cached := sget (fun w => w_compiled w !! selector) in
  match cached with
  | Some ms => sret ms
  | None =>
      let! groups := match groups with Some g => sret g | None => of_res (tokenize selector) end in
      let! ms := match_groups selector (rev groups) in
      smodify (cache_put selector ms) ;!
      sret ms
  end.
End compiling.

(** ** Matching *)

Section matching.
Context (D : dom) (xml : bool) (random : nat -> double).
(** [Sizzle( selector, elem )], for [:has]. *)
Context (inner : text -> nat -> st_ex world (list nat)).

(** *** [addCombinator] *)

Section combinator.
Context (matches : nat -> st_ex world bool) (d : dir) (checks : nat -> bool) (done : nat).

(** The loop without cache, and the loop with [newCache]. *)
Fixpoint any_of (l : list nat) : st_ex world bool :=
  match l with
  | [] => sret false
  | y :: l => if checks y then let! b := matches y in if b then sret true else any_of l else any_of l
  end.

Definition hit (y : nat) : st_ex world (option entry) := fun w =>
  (w, Ok (match w_dir w !! (y, d) ≫= fun i => w_arrays w !! i with
    | Some old => if SFeqb (e_run old) (w_dirruns w) && (e_done old =? done)%nat then Some old else None
    | None => None
    end)).

Fixpoint cached (newCache : nat) (l : list nat) : st_ex world bool :=
  match l with
  | [] => sret false
  | y :: l =>
      if checks y then
        let! old := hit y in
        match old with
        | Some e => smodify (set_result newCache (e_result e)) ;! sret (default false (e_result e))
        | None =>
            smodify (fun w => set_dir (<[(y, d) := newCache]> (w_dir w)) w) ;!
            let! b := matches y in
            smodify (set_result newCache (Some b)) ;!
            if b then sret true else cached newCache l
        end
      else cached newCache l
  end.
End combinator.

(** [elem.nodeType === 1 || checkNonElements] *)
Definition passes (base : bool) (d : dir) (y : nat) : bool := element D y || (base && bool_decide (d = ParentNode)).

Definition addCombinator (matches : nat -> st_ex world bool) (c : combinator) (base : bool) (done : nat) (elem : nat) : st_ex world bool :=
  let d := dir_of c in
  let checks := passes base d in
  if first_of c then
    match find checks (walk D d elem) with Some y => matches y | None => sret false end
  else if xml then any_of matches checks (walk D d elem)
  else
    let! newCache := sget (fun w => length (w_arrays w)) in
    smodify (fun w => set_arrays (w_arrays w ++ [Entry (w_dirruns w) done None]) w) ;!
    cached matches d checks done newCache (walk D d elem).

(** *** [Expr.filter.CHILD] *)

(** The index of a node and its number among elements, from an index on. *)
Fixpoint count_to (elem : nat) (l : list nat) (i : nat) (diff : Z) : option (nat * Z) :=
  match l with
  | [] => None
  | y :: l => if element D y then if decide (y = elem) then Some (i, diff + 1) else count_to elem l (S i) (diff + 1) else count_to elem l (S i) diff
  end.

(** [nth-child], with the index kept on the parent. *)
Definition forward_diff (elem p : nat) : st_ex world Z := fun w =>
  let l := children D p in
  let known := match w_nth w !! p with
    | Some (r, S i, diff) => if SFeqb r (w_dirruns w) && bool_decide (is_Some (l !! S i)) then count_to elem (drop (S (S i)) l) (S (S i)) diff else None
    | _ => None
    end in
  match (match known with Some r => Some r | None => count_to elem l 0 0 end) with
  | Some (i, diff) => (set_nth (<[p := (w_dirruns w, i, diff)]> (w_nth w)) w, Ok diff)
  | None => (w, Ok 0)
  end.

(** The other loop: which nodes count is a condition; the number of each is kept on it when it may be. *)
Fixpoint seek (counts : nat -> bool) (keep : bool) (elem : nat) (l : list nat) (diff : Z) : st_ex world Z :=
  match l with
  | [] => sret 0
  | y :: l =>
      if counts y then
        swhen keep (smodify (fun w => set_last (<[y := (w_dirruns w, diff + 1)]> (w_last w)) w)) ;!
        if decide (y = elem) then sret (diff + 1) else seek counts keep elem l (diff + 1)
      else seek counts keep elem l diff
  end.

Definition is_last (t : position) : bool := match t with Last | NthLast => true | _ => false end.

(** The nodes that have the name of an element, or are elements. *)
Definition alike (of_type : bool) (elem y : nat) : bool := if of_type then bool_decide (name D y = name D elem) else element D y.

Definition nth_diff (t : position) (of_type : bool) (elem p : nat) : st_ex world Z :=
  let useCache := negb xml && negb of_type in
  if negb (is_last t) && useCache then forward_diff elem p
  else
    let! kept := sget (fun w => match w_last w !! elem with
      | Some (r, diff) => if useCache && SFeqb r (w_dirruns w) then Some diff else None
      | None => None
      end) in
    match kept with
    | Some diff => sret diff
    | None => seek (alike of_type elem) useCache elem (if is_last t then rev (children D p) else children D p) 0
    end.

Definition formula_holds (first last diff : Z) : bool :=
  let diff := diff - last in
  (diff =? first) || (negb (first =? 0) && (diff mod first =? 0) && (0 <=? diff * first)).

Definition position_test (t : position) (of_type : bool) (first last : Z) (elem : nat) : st_ex world bool :=
  if is_nth t && (first =? 1) && (last =? 0) then sret (bool_decide (is_Some (parent D elem)))
  else
    match parent D elem with
    | None => sret false
    | Some p =>
        let clear d := forallb (fun y => negb (alike of_type elem y)) (walk D d elem) in
        match t with
        | Only => sret (clear PreviousSibling && clear NextSibling)
        | First => sret (clear PreviousSibling)
        | Last => sret (clear NextSibling)
        | Nth | NthLast => let! diff := nth_diff t of_type elem p in sret (formula_holds first last diff)
        end
    end.

(** *** [superMatcher] *)

(** [dirruns += contextBackup == null ? 1 : Math.random() || 0.1] *)
Definition tenth : double := S754_finite false 7205759403792794 (-56).

Definition increment (w : world) : world :=
  match w_outermost w with
  | Undefined => set_dirruns (Doubles.add (w_dirruns w) (of_Z 1)) w
  | _ =>
      let r := random (w_draws w) in
      set_dirruns (Doubles.add (w_dirruns w) (if SFeqb r (of_Z 0) then tenth else r)) (set_draws (S (w_draws w)) w)
  end.

Definition new_run (w : world) : world := let w := increment w in set_runs (w_runs w ++ [w_dirruns w]) w.

Section super.
Context (any : nat -> st_ex world bool).

(** The loop over the elements; [unique] is [dirrunsUnique] when the matcher is the outermost. *)
Fixpoint each (unique : option double) (elems results : list nat) : st_ex world (list nat) :=
  match elems with
  | [] => sret results
  | elem :: elems =>
      let! b := any elem in
      match unique with Some r => smodify (set_dirruns r) | None => sret tt end ;!
      each unique elems (if b then results ++ [elem] else results)
  end.

Definition superMatcher (seed : option (list nat)) (context : option nat) (results : list nat) (outermost : option nat) : st_ex world (list nat) :=
  let elems := match seed with
    | Some l => l
    | None => match outermost with Some o => getElementsByTagName D (txt "*") o | None => [] end
    end in
  let! contextBackup := sget w_outermost in
  smodify new_run ;!
  let! unique := sget w_dirruns in
  match outermost with
  | Some _ =>
      smodify (set_outermost (match context with Some c => if decide (c = document) then Document else Context c | None => Undefined end)) ;!
      let! r := each (Some unique) elems results in
      smodify (set_dirruns unique) ;! smodify (set_outermost contextBackup) ;! sret r
  | None => each None elems results
  end.
End super.

(** *** Calls of matchers *)

Definition outermost_is (context : option nat) (o : outer) : bool :=
  match context, o with Some c, Context x => bool_decide (c = x) | _, _ => false end.

(** The while loops of [elementMatcher], from the last matcher, and of [superMatcher]. *)
Definition all_match (run : matcher -> st_ex world bool) : list matcher -> st_ex world bool :=
  fix go ms := match ms with
    | [] => sret true
    | m :: ms => let! b := go ms in if b then run m else sret false
    end.

Definition any_match (run : matcher -> st_ex world bool) : list matcher -> st_ex world bool :=
  fix go ms := match ms with
    | [] => sret false
    | m :: ms => let! b := run m in if b then sret true else go ms
    end.

Fixpoint run (context : option nat) (m : matcher) (elem : nat) {struct m} : st_ex world bool :=
  match m with
  | Reachable lead done =>
      let! o := sget w_outermost in
      match lead with
      | None => if xml || negb (outermost_is context o) then sret true
                else match context with
                  | Some c => addCombinator (fun y => sret (y =? c)%nat) Descendant true done elem
                  | None => sthrow "TypeError: context is null"
                  end
      | Some l =>
          match context with
          | Some c => addCombinator (fun y => sret (y =? c)%nat) l true done elem
          | None => sthrow "TypeError: context is null"
          end
      end
  | Test k => sret (test D k elem)
  | Position t of_type first last => position_test t of_type first last elem
  | Negation _ ms =>
      let! results := superMatcher (fun e => any_match (fun m => run None m e) ms) (Some [elem]) None [] None in
      sret (bool_decide (results = []))
  | Containing selector => let! results := inner selector elem in sret (negb (bool_decide (results = [])))
  | Combined m c done => addCombinator (run context m) c false done elem
  | All ms => all_match (fun m => run context m elem) ms
  end.

(** *** [Expr.find] *)

(** [None] is undefined: the context has no such method, or there is no such function. *)
Definition find_ (k : kind) (context : nat) : option (list nat) :=
  match k with
  | ID n => if (type_of D context =? 9) && negb xml
            then Some (match getElementById D n with Some m => if bool_decide (is_Some (parent D m)) then [m] else [] | None => [] end)
            else None
  | TAG n => if has_methods D context then Some (getElementsByTagName D n context) else None
  | CLASS n => if has_methods D context && negb xml then Some (getElementsByClassName D n context) else None
  | _ => None
  end.

(** *** [select] *)

Section selecting.
Context (compile_ : text -> option (list (list token)) -> st_ex world (list matcher)).

(** The context of a leading id: what is left of the selector and its tokens, and the context; [None] when there is no such element. *)
Definition id_context (selector : text) (tokens : list token) (context : nat) : option (text * list token * nat) :=
  match tokens with
  | t0 :: ((t1 :: _ :: _) as rest) =>
      match kind_of t0, relative (kind_of t1) with
      | ID n, Some _ =>
          if (type_of D context =? 9) && negb xml then
            match find_ (ID n) context with
            | Some (m :: _) => Some (drop (length (value t0)) selector, rest, m)
            | _ => None
            end
          else Some (selector, tokens, context)
      | _, _ => Some (selector, tokens, context)
      end
  | _ => Some (selector, tokens, context)
  end.

(** The loop for a seed, from the last token: its index and the elements found. *)
Fixpoint find_seed (n : nat) (tokens : list token) (context : nat) : option (nat * list nat) :=
  match n with
  | O => None
  | S n =>
      match tokens !! n with
      | Some t =>
          match relative (kind_of t) with
          | Some _ => None
          | None =>
              match find_ (kind_of t) context with
              | Some seed => Some (n, seed)
              | None => find_seed n tokens context
              end
          end
      | None => None
      end
  end.

Definition leading_sibling (tokens : list token) : bool :=
  match tokens with t :: _ => match relative (kind_of t) with Some Next | Some Sibling => true | _ => false end | [] => false end.

(** What the shortcuts make of a query: its results, or the selector, the tokens, the context and the seed that are left. *)
Inductive plan := Done (l : list nat) | Query (selector : text) (groups : list (list token)) (context : nat) (seed : option (list nat)).

Definition shortcuts (selector : text) (groups : list (list token)) (context : nat) : plan :=
  match groups with
  | [tokens] =>
      match id_context selector tokens context with
      | None => Done []
      | Some (selector, tokens, context) =>
          let from := if leading_sibling tokens then up D context else context in
          match find_seed (if needsContext selector then 0 else length tokens) tokens from with
          | None => Query selector [tokens] context None
          | Some (i, seed) =>
              let tokens := delete i tokens in
              let selector := toSelector tokens in
              if bool_decide (seed = []) || bool_decide (selector = []) then Done seed
              else Query selector [tokens] context (Some seed)
          end
      end
  | _ => Query selector groups context None
  end.

Definition evaluate (selector : text) (groups : option (list (list token))) (context : nat) (seed : option (list nat)) : st_ex world (list nat) :=
  let! ms := compile_ selector groups in
  superMatcher (fun e => any_match (fun m => run (Some context) m e) ms) seed (Some context) []
    (Some (if rsibling selector then up D context else context)).

Definition select (selector : text) (context : nat) (seed : option (list nat)) : st_ex world (list nat) :=
  match seed with
  | Some _ => evaluate selector None context seed
  | None =>
      let! groups := of_res (tokenize selector) in
      match shortcuts selector groups context with
      | Done l => sret l
      | Query selector groups context seed => evaluate selector (Some groups) context seed
      end
  end.

(** *** [Sizzle] *)

Definition quick_results (q : quick) (context : nat) : option (list nat) :=
  match q with
  | QuickId m =>
      if type_of D context =? 9 then
        Some (match getElementById D m with Some e => if bool_decide (is_Some (parent D e)) then [e] else [] | None => [] end)
      else match getElementById D m with Some e => if contains D context e then Some [e] else None | None => None end
  | QuickTag n => Some (getElementsByTagName D n context)
  | QuickClass n => Some (getElementsByClassName D n context)
  end.

Definition Sizzle (selector : text) (context : nat) (seed : option (list nat)) : st_ex world (list nat) :=
  if bool_decide (selector = []) || negb (has_methods D context) then sret []
  else
    match (if negb xml && bool_decide (seed = None) then rquickExpr selector ≫= fun q => quick_results q context else None) with
    | Some l => sret l
    | None => select (trim selector) context seed
    end.
End selecting.
End matching.

(** ** Queries *)

Fixpoint compile_n (n : nat) (selector : text) (groups : option (list (list token))) : st_ex world (list matcher) :=
  match n with
  | O => sthrow "RangeError: too much recursion"
  | S n => compile (fun t => compile_n n t None) selector groups
  end.

Fixpoint sizzle_n (D : dom) (xml : bool) (random : nat -> double) (n : nat) (selector : text) (context : nat) (seed : option (list nat)) : st_ex world (list nat) :=
  match n with
  | O => sthrow "RangeError: too much recursion"
  | S n => Sizzle D xml random (fun t x => sizzle_n D xml random n t x None) (compile_n (S n)) selector context seed
  end.

(** A query of a page, as it is then; the fuel is enough for any selector. *)
Record query := Asked { q_dom : dom; q_selector : text; q_context : nat; q_seed : option (list nat) }.

Definition perform (xml : bool) (random : nat -> double) (q : query) : st_ex world (list nat) :=
  sizzle_n (q_dom q) xml random (S (length (q_selector q))) (q_selector q) (q_context q) (q_seed q).

Fixpoint session (xml : bool) (random : nat -> double) (l : list query) : st_ex world (list (list nat)) :=
  match l with
  | [] => sret []
  | q :: l => let! r := perform xml random q in let! rs := session xml random l in sret (r :: rs)
  end.
