(* ===== verification/SizzleDom.v ===== *)
(** * Sizzle: documents, and what a selector means

    [well_formed] is what a browser keeps of a document.  [related] says what a combinator asks of two elements, on the tree itself; the loops of
    the code walk along [elem[ dir ]], and [walk_related] and [find_related] say they pass the elements related.  [Matches] is the meaning of
    a selector, defined on its tokens from the right, without caches, contexts on elements or compiled functions. *)

From Stdlib Require Import ZArith Lia Ascii SpecFloat.
From stdpp Require Import gmap strings relations.
From S2P Require Import Prelude JsString SizzleTokens SizzleLex Doubles Sizzle.

Local Open Scope nat_scope.

Record well_formed (D : dom) : Prop := {
  wf_children p x : x ∈ children D p <-> parent D x = Some p;
  wf_nodup p : NoDup (children D p);
  wf_order x p : parent D x = Some p -> p < x;
  wf_parents x p : parent D x = Some p -> element D p = true \/ p = document;
  wf_document x : type_of D x = 9%Z <-> x = document;
  wf_ids x y i : contains D document x = true -> contains D document y = true ->
    getAttribute D x (txt "id") = Some i -> getAttribute D y (txt "id") = Some i -> x = y
}.

Section documents.
Context (D : dom) (HD : well_formed D).

(** ** Relatives on the tree *)

Definition ancestor (y x : nat) : Prop := tc (fun x p => parent D x = Some p) x y.

Definition preceding (y x : nat) : Prop := exists p l1 l2 l3, parent D x = Some p /\ children D p = l1 ++ y :: l2 ++ x :: l3.

Definition adjacent (y x : nat) : Prop := exists p l1 l2 l3, parent D x = Some p /\ children D p = l1 ++ y :: l2 ++ x :: l3 /\
  Forall (fun z => element D z = false) l2.

Definition related (c : combinator) (y x : nat) : Prop :=
  match c with Child => parent D x = Some y | Descendant => ancestor y x | Next => adjacent y x | Sibling => preceding y x end.

(** ** Walks *)

Lemma parent_size x p : parent D x = Some p -> x < length D.
Proof.
  unfold parent, get. destruct (D !! x) eqn:E; [|done]. intros _. by eapply lookup_lt_Some.
Qed.

Lemma split_at p x : parent D x = Some p -> exists l1 l2, children D p = l1 ++ x :: l2.
Proof using HD. intros H%(wf_children D HD). by apply list_elem_of_split in H. Qed.

Lemma split_unique (x : nat) l1 l2 k1 k2 : NoDup (l1 ++ x :: l2) -> l1 ++ x :: l2 = k1 ++ x :: k2 -> l1 = k1 /\ l2 = k2.
Proof.
  revert k1. induction l1 as [|a l1 IH]; intros [|b k1] Hn; cbn in *; inversion_clear Hn as [|? ? Ha Hl].
  - by intros [= ->].
  - intros [= -> ->]. exfalso. apply Ha, elem_of_app. right. left.
  - intros [= -> E]. exfalso. apply Ha, elem_of_app. right. left.
  - intros [= -> E]. by destruct (IH k1 Hl E) as [-> ->].
Qed.

Lemma children_split p x l1 l2 k1 k2 : children D p = l1 ++ x :: l2 -> children D p = k1 ++ x :: k2 -> l1 = k1 /\ l2 = k2.
Proof using HD. intros E1 E2. apply (split_unique x); [rewrite <- E1; apply (wf_nodup D HD)|congruence]. Qed.

Lemma before_split x l1 y l2 : NoDup (l1 ++ y :: x :: l2) -> before x (l1 ++ y :: x :: l2) = Some y.
Proof.
  induction l1 as [|a l1 IH]; intros Hn.
  - cbn. by rewrite decide_True.
  - inversion_clear Hn as [|? ? Ha Hl]. cbn [app before]. destruct l1 as [|b l1]; cbn [app] in *.
    + rewrite decide_False; [by apply IH|]. intros ->. inversion_clear Hl as [|? ? Hb _]. apply Hb. left.
    + rewrite decide_False; [by apply IH|]. intros ->. inversion_clear Hl as [|? ? Hb _]. apply Hb, elem_of_app. right. right. left.
Qed.

Lemma before_none x a l : x ∉ l -> before x (a :: l) = None.
Proof.
  revert a. induction l as [|b l IH]; intros a Hx; [done|]. cbn [before]. rewrite decide_False by (intros ->; apply Hx; left).
  apply IH. intros ?. apply Hx. by right.
Qed.

Lemma before_first x l : NoDup (x :: l) -> before x (x :: l) = None.
Proof. intros [Hx _]%NoDup_cons. by apply before_none. Qed.

(** The siblings before a node, or after it. *)
Definition sided (d : dir) (x : nat) (l : list nat) : Prop :=
  exists p l1 l2, parent D x = Some p /\ children D p = l1 ++ x :: l2 /\ l = match d with PreviousSibling => rev l1 | _ => l2 end.

Lemma rev_reverse {A} (l : list A) : rev l = reverse l.
Proof. apply rev_alt. Qed.

Lemma nodup_rev (l : list nat) : NoDup l -> NoDup (rev l).
Proof. by rewrite rev_reverse, reverse_Permutation. Qed.

Lemma step_sided d x l : d <> ParentNode -> sided d x l -> match l with
  | [] => step D d x = None
  | y :: l => step D d x = Some y /\ sided d y l
  end.
Proof using HD.
  intros Hd (p & l1 & l2 & Hp & E & ->). assert (NoDup (children D p)) as Hn by apply (wf_nodup D HD). rewrite E in Hn.
  destruct d; [done| |]; cbn [step]; rewrite Hp; cbn [mbind option_bind]; rewrite E.
  - destruct l1 as [|y l1 _] using rev_ind; cbn [rev]; [by apply before_first|]. rewrite rev_app_distr. cbn [rev app].
    rewrite <- app_assoc in *. cbn [app] in *. split; [by apply before_split|]. exists p, l1, (x :: l2). split_and!; [|done..].
    apply (wf_children D HD). rewrite E. apply elem_of_app. right. left.
  - apply nodup_rev in Hn. rewrite rev_app_distr in *. cbn [rev] in *. destruct l2 as [|y l2].
    + cbn in *. by apply before_first.
    + cbn [rev] in *. rewrite <- !app_assoc in *. cbn [app] in *. split; [by apply before_split|]. exists p, (l1 ++ [x]), l2. rewrite <- app_assoc.
      split_and!; [|done..]. apply (wf_children D HD). rewrite E. apply elem_of_app. right. right. left.
Qed.

Lemma chain_sided d l : d <> ParentNode -> forall n x, sided d x l -> length l <= n -> chain D n d x = l.
Proof using HD.
  intros Hd. induction l as [|y l IH]; intros n x Hs Hn; pose proof (step_sided d x _ Hd Hs) as H.
  - destruct n; cbn; [done|]. by rewrite H.
  - destruct n; cbn in *; [lia|]. destruct H as [-> H]. f_equal. apply IH; [done|lia].
Qed.

Lemma children_size p : length (children D p) <= length D.
Proof using HD.
  rewrite <- (length_seq (length D) 0). apply submseteq_length, NoDup_submseteq; [apply (wf_nodup D HD)|].
  intros x Hx. apply elem_of_seq. apply (wf_children D HD), parent_size in Hx. lia.
Qed.

Lemma walk_sided d x l : d <> ParentNode -> sided d x l -> walk D d x = l.
Proof using HD.
  intros Hd Hs. apply chain_sided; [done..|]. destruct Hs as (p & l1 & l2 & _ & E & ->). pose proof (children_size p) as H.
  rewrite E, length_app in H. cbn in H. destruct d; rewrite ?length_rev; lia.
Qed.

Lemma walk_previous x p l1 l2 : parent D x = Some p -> children D p = l1 ++ x :: l2 -> walk D PreviousSibling x = rev l1.
Proof using HD. intros Hp E. apply walk_sided; [done|]. by exists p, l1, l2. Qed.

Lemma walk_next x p l1 l2 : parent D x = Some p -> children D p = l1 ++ x :: l2 -> walk D NextSibling x = l2.
Proof using HD. intros Hp E. apply walk_sided; [done|]. by exists p, l1, l2. Qed.

Lemma walk_none d x : step D d x = None -> walk D d x = [].
Proof. intros H. unfold walk. destruct (length D); [done|]. cbn. by rewrite H. Qed.

Lemma chain_enough n m x : x <= n -> x <= m -> chain D n ParentNode x = chain D m ParentNode x.
Proof using HD.
  revert m x. induction n as [|n IH]; intros m x Hn Hm.
  - assert (parent D x = None) as Hp by (destruct (parent D x) as [p|] eqn:E; [apply (wf_order D HD) in E; lia|done]).
    destruct m; cbn; [done|]. by rewrite Hp.
  - destruct (parent D x) as [p|] eqn:E.
    + pose proof (wf_order D HD _ _ E). destruct m; [lia|]. cbn. rewrite E. f_equal. apply IH; lia.
    + destruct m; cbn; by rewrite E.
Qed.

Lemma walk_parent x p : parent D x = Some p -> walk D ParentNode x = p :: walk D ParentNode p.
Proof using HD.
  intros Hp. pose proof (wf_order D HD _ _ Hp). pose proof (parent_size _ _ Hp). unfold walk.
  destruct (length D) as [|n] eqn:E; [lia|]. transitivity (p :: chain D n ParentNode p); [cbn [chain step]; by rewrite Hp|].
  f_equal. apply chain_enough; lia.
Qed.

Lemma walk_step d x y : step D d x = Some y -> walk D d x = y :: walk D d y.
Proof using HD.
  intros H. destruct (parent D x) as [p|] eqn:Hp; [|by destruct d; cbn in H; rewrite Hp in H].
  destruct (decide (d = ParentNode)) as [->|Hd]; [by apply walk_parent|]. destruct (split_at p x Hp) as (l1 & l2 & E).
  assert (sided d x (match d with PreviousSibling => rev l1 | _ => l2 end)) as Hs by by exists p, l1, l2.
  revert Hs. generalize (match d with PreviousSibling => rev l1 | _ => l2 end). intros l Hs. rewrite (walk_sided d x l Hd Hs).
  pose proof (step_sided d x l Hd Hs) as Hl. destruct l as [|z l]; [congruence|]. destruct Hl as [E' Hl]. rewrite H in E'. injection E' as <-.
  by rewrite (walk_sided d y l Hd Hl).
Qed.

Lemma walk_ancestor y x : y ∈ walk D ParentNode x <-> ancestor y x.
Proof using HD.
  split.
  - revert y. induction x as [x IH] using lt_wf_ind. intros y H. destruct (parent D x) as [p|] eqn:Hp; [|rewrite walk_none in H by done; by apply elem_of_nil in H].
    rewrite (walk_parent _ _ Hp) in H. apply elem_of_cons in H as [->|H]; [by apply tc_once|].
    eapply tc_l; [exact Hp|]. apply IH; [by apply (wf_order D HD)|done].
  - induction 1 as [x y H|x z y H _ IH]; rewrite (walk_parent _ _ H); [left|by right].
Qed.

Lemma walk_preceding y x : y ∈ walk D PreviousSibling x <-> preceding y x.
Proof using HD.
  split.
  - intros H. destruct (parent D x) as [p|] eqn:Hp; [|rewrite walk_none in H by (cbn; by rewrite Hp); by apply elem_of_nil in H].
    destruct (split_at p x Hp) as (l1 & l2 & E). rewrite (walk_previous _ _ _ _ Hp E), rev_reverse in H.
    apply elem_of_reverse, list_elem_of_split in H as (k1 & k2 & ->). exists p, k1, k2, l2. by rewrite <- app_assoc in E.
  - intros (p & l1 & l2 & l3 & Hp & E). change (l1 ++ y :: l2 ++ x :: l3) with (l1 ++ (y :: l2) ++ x :: l3) in E. rewrite app_assoc in E.
    rewrite (walk_previous _ _ _ _ Hp E). rewrite rev_reverse. apply elem_of_reverse, elem_of_app. right. left.
Qed.

(** The elements that a loop over all relatives passes are those related. *)
Lemma walk_related c y x : first_of c = false -> y ∈ walk D (dir_of c) x <-> related c y x.
Proof using HD. destruct c; try done; intros _; [apply walk_ancestor|apply walk_preceding]. Qed.

Lemma find_Some_split (f : nat -> bool) l y : find f l = Some y <-> exists l1 l2, l = l1 ++ y :: l2 /\ f y = true /\ Forall (fun z => f z = false) l1.
Proof.
  split.
  - induction l as [|z l IH]; cbn; [done|]. destruct (f z) eqn:E.
    + intros [= ->]. exists [], l. split_and!; [done..|constructor].
    + intros (l1 & l2 & -> & Hy & Hl)%IH. exists (z :: l1), l2. split_and!; [done..|by constructor].
  - intros (l1 & l2 & -> & Hy & Hl). induction Hl as [|z l1 Hz Hl IH]; cbn; [by rewrite Hy|by rewrite Hz].
Qed.

Lemma find_adjacent x y : find (element D) (walk D PreviousSibling x) = Some y <-> element D y = true /\ adjacent y x.
Proof using HD.
  rewrite find_Some_split. split.
  - intros (k1 & k2 & Hw & Hy & Hk). split; [done|]. assert (y ∈ walk D PreviousSibling x) as Hin by (rewrite Hw; apply elem_of_app; right; left).
    apply walk_preceding in Hin as (p & l1 & l2 & l3 & Hp & E). exists p.
    destruct (split_at p x Hp) as (m1 & m2 & E'). rewrite (walk_previous _ _ _ _ Hp E') in Hw. apply (f_equal (@rev nat)) in Hw.
    rewrite rev_involutive, rev_app_distr in Hw. cbn [rev] in Hw. rewrite <- app_assoc in Hw. cbn [app] in Hw. subst m1.
    exists (rev k2), (rev k1), m2. rewrite <- app_assoc in E'. split_and!; [done..|]. rewrite rev_reverse. by apply Forall_reverse.
  - intros [Hy (p & l1 & l2 & l3 & Hp & E & Hl)]. exists (rev l2), (rev l1). split_and!; [|done|rewrite rev_reverse; by apply Forall_reverse].
    change (l1 ++ y :: l2 ++ x :: l3) with (l1 ++ (y :: l2) ++ x :: l3) in E. rewrite app_assoc in E.
    rewrite (walk_previous _ _ _ _ Hp E), rev_app_distr. cbn [rev]. by rewrite <- app_assoc.
Qed.

Lemma document_parent : parent D document = None.
Proof using HD. destruct (parent D document) as [p|] eqn:E; [|done]. apply (wf_order D HD) in E. unfold document in E. lia. Qed.

Lemma find_parent x y : find (element D) (walk D ParentNode x) = Some y <-> element D y = true /\ parent D x = Some y.
Proof using HD.
  destruct (parent D x) as [p|] eqn:Hp; [|rewrite walk_none by done; split; [done|by intros [_ ?]]].
  rewrite (walk_parent _ _ Hp). cbn [find]. destruct (element D p) eqn:E; [split; [by intros [= <-]|by intros [_ ->]]|].
  destruct (wf_parents D HD _ _ Hp) as [?| ->]; [congruence|]. rewrite (walk_none ParentNode document document_parent). cbn. split; [done|]. intros [Hy [= <-]]. congruence.
Qed.

(** The element a loop over the first relative stops at is the one related. *)
Lemma find_related c x y : first_of c = true -> find (element D) (walk D (dir_of c) x) = Some y <-> element D y = true /\ related c y x.
Proof using HD. destruct c; try done; intros _; [apply find_parent|apply find_adjacent]. Qed.
End documents.

(** ** What a selector means *)

(** The members of a list that satisfy something, in order. *)
Inductive picked (P : nat -> Prop) : list nat -> list nat -> Prop :=
| picked_nil : picked P [] []
| picked_yes x l k : P x -> picked P l k -> picked P (x :: l) (x :: k)
| picked_no x l k : ~ P x -> picked P l k -> picked P (x :: l) k.

Section meaning.
Context (D : dom).

(** The context of a selector is reached from an element: with a combinator in front, it is the node related; without, it is above,
    when the selector is bound to it. *)
Definition reached (c : combinator) (context x : nat) : Prop :=
  related D c context x /\ match c with Next | Sibling => element D context = true | _ => True end.

Definition anchored (lead : option combinator) (context : option nat) (x : nat) : Prop :=
  match lead, context with
  | Some c, Some y => reached c y x
  | Some _, None => False
  | None, Some y => y <> document -> ancestor D y x
  | None, None => True
  end.

(** The number of an element, counted from those before it, or from those after. *)
Definition numbered (counts : nat -> bool) (l : list nat) : Z := Z.of_nat (S (length (filter (fun y => counts y = true) l))).

Definition position_sat (t : position) (of_type : bool) (a b : Z) (x : nat) : Prop :=
  exists p l1 l2, parent D x = Some p /\ children D p = l1 ++ x :: l2 /\
  let none l := Forall (fun y => alike D of_type x y = false) l in
  let in_formula l := exists k, (0 <= k)%Z /\ numbered (alike D of_type x) l = (a * k + b)%Z in
  match t with
  | First => none l1
  | Last => none l2
  | Only => none l1 /\ none l2
  | Nth => in_formula l1
  | NthLast => in_formula l2
  end.

Section tokens.
(** What [:not] and [:has] ask of an element, for their arguments. *)
Context (not_ has_ : text -> nat -> Prop).

Definition token_sat (k : kind) (x : nat) : Prop :=
  match k with
  | CHILD t of_type (a, b) => position_sat t of_type a b x
  | PSEUDO n argument =>
      match pseudo_of n with
      | Some PNot => match argument with Some a => ~ not_ (trim a) x | None => False end
      | Some PHas => has_ (default [] argument) x
      | _ => test D k x = true
      end
  | _ => test D k x = true
  end.

(** The tokens from the right, down to what [base] asks. *)
Fixpoint tokens_sat (base : nat -> Prop) (tokens : list token) (x : nat) : Prop :=
  match tokens with
  | [] => base x
  | t :: tokens =>
      match relative (kind_of t) with
      | Some c => exists y, element D y = true /\ related D c y x /\ tokens_sat base tokens y
      | None => token_sat (kind_of t) x /\ tokens_sat base tokens x
      end
  end.

Definition group_sat (context : option nat) (tokens : list token) (x : nat) : Prop :=
  match tokens with
  | [] => False
  | t :: rest =>
      match relative (kind_of t) with
      | Some c => tokens_sat (anchored (Some c) context) (rev rest) x
      | None => tokens_sat (anchored None context) (rev tokens) x
      end
  end.

Definition groups_sat (context : option nat) (selector : text) (x : nat) : Prop :=
  exists groups g, tokenize selector = Ok groups /\ g ∈ groups /\ group_sat context g x.
End tokens.

Definition has_of (matches : option nat -> text -> nat -> Prop) (a : text) (x : nat) : Prop :=
  exists y, element D y = true /\ matches (Some x) (trim a) y.

Fixpoint matches (n : nat) (context : option nat) (selector : text) (x : nat) : Prop :=
  match n with
  | O => False
  | S n => groups_sat (matches n None) (has_of (matches n)) context selector x
  end.

(** An element matches a selector from a context; selectors in a selector are shorter. *)
Definition Matches (context : option nat) (selector : text) (x : nat) : Prop := matches (S (length selector)) context selector x.

(** What is queried, and what is found of it: elements in the order of the document, or of the seed. *)
Definition candidates (context : nat) (seed : option (list nat)) : list nat :=
  match seed with
  | Some l => l
  | None => nodes D (fun x => element D x && (negb (context =? document) || contains D document x))
  end.

Definition answers_query (selector : text) (context : nat) (seed : option (list nat)) (l : list nat) : Prop :=
  picked (Matches (Some context) (trim selector)) (candidates context seed) l.
End meaning.

(** ** Fuel *)

Section fuel.
Context (D : dom).

(** Two readings of [:not] and [:has] that agree on shorter selectors. *)
Definition agree (bound : nat) (m1 m2 : option nat -> text -> nat -> Prop) : Prop :=
  forall context t x, length t < bound -> m1 context t x <-> m2 context t x.

Lemma token_sat_agree m1 m2 bound k x : agree bound m1 m2 -> (forall n a, k = PSEUDO n (Some a) -> length a < bound) -> 0 < bound ->
  token_sat D (m1 None) (has_of D m1) k x <-> token_sat D (m2 None) (has_of D m2) k x.
Proof.
  intros H Hk Hb. destruct k as [| | | |t o [a b]|n arg|]; cbn [token_sat]; try done.
  destruct (pseudo_of n) as [[]|]; try done.
  - destruct arg as [a|]; [|done]. rewrite (H None (trim a)); [done|]. pose proof (trim_length a). specialize (Hk n a eq_refl). lia.
  - assert (length (trim (default [] arg)) < bound) as Ha.
    { destruct arg as [a|]; [|cbn; lia]. change (default [] (Some a)) with a. pose proof (trim_length a). specialize (Hk n a eq_refl). lia. }
    unfold has_of. by setoid_rewrite (fun c y => H c _ y Ha).
Qed.

Lemma tokens_sat_agree m1 m2 bound base ts : agree bound m1 m2 -> 0 < bound ->
  (forall t n a, t ∈ ts -> kind_of t = PSEUDO n (Some a) -> length a < bound) ->
  forall x, tokens_sat D (m1 None) (has_of D m1) base ts x <-> tokens_sat D (m2 None) (has_of D m2) base ts x.
Proof.
  intros H Hb. induction ts as [|t ts IH]; intros Ht x; cbn [tokens_sat]; [done|].
  assert (forall y, tokens_sat D (m1 None) (has_of D m1) base ts y <-> tokens_sat D (m2 None) (has_of D m2) base ts y) as E.
  { apply IH. intros t' n a Hin. apply Ht. by right. }
  destruct (relative (kind_of t)) as [c|]; [by setoid_rewrite E|].
  rewrite E, (token_sat_agree m1 m2 bound); [done|done| |done]. intros n a. apply Ht. left.
Qed.

Lemma groups_sat_agree m1 m2 context selector x : agree (length selector) m1 m2 ->
  groups_sat D (m1 None) (has_of D m1) context selector x <-> groups_sat D (m2 None) (has_of D m2) context selector x.
Proof.
  intros H. unfold groups_sat. assert (forall groups g, tokenize selector = Ok groups -> g ∈ groups ->
    group_sat D (m1 None) (has_of D m1) context g x <-> group_sat D (m2 None) (has_of D m2) context g x) as Hg; [|split; naive_solver].
  intros groups g Hs Hg. assert (0 < length selector) as Hb.
  { destruct selector; [injection Hs as <-; by apply elem_of_nil in Hg|cbn; lia]. }
  assert (forall t n a, t ∈ g -> kind_of t = PSEUDO n (Some a) -> length a < length selector) as Ha by (intros; by eapply argument_shorter).
  destruct g as [|t g]; [done|]. unfold group_sat.
  destruct (relative (kind_of t)); apply (tokens_sat_agree _ _ _ _ _ H Hb); intros t' n a Hin; rewrite rev_reverse, elem_of_reverse in Hin; apply Ha; first [done|by right].
Qed.

Lemma matches_fuel n : forall m, agree (n `min` m) (matches D n) (matches D m).
Proof.
  induction n as [|n IH]; intros [|m] context t x Ht; try (cbn in Ht; lia). cbn [matches]. apply groups_sat_agree.
  intros c t' y Ht'. apply IH. lia.
Qed.

(** The equation of [Matches]. *)
Lemma Matches_groups context selector x :
  Matches D context selector x <-> groups_sat D (Matches D None) (has_of D (Matches D)) context selector x.
Proof.
  unfold Matches at 1. cbn [matches]. apply groups_sat_agree. intros c t y Ht. apply matches_fuel. lia.
Qed.
End fuel.

(** ** Walks have no node twice *)

Section loops.
Context (D : dom) (HD : well_formed D).

Lemma walk_suffix d x l1 y l2 : walk D d x = l1 ++ y :: l2 -> walk D d y = l2.
Proof using HD.
  revert x. induction l1 as [|z l1 IH]; intros x H; destruct (step D d x) as [u|] eqn:E; try (rewrite walk_none in H by done; done);
    rewrite (walk_step D HD d x u E) in H; injection H as -> H; [done|by apply (IH z)].
Qed.

Lemma ancestor_below y x : ancestor D y x -> y < x.
Proof using HD.
  induction 1 as [x y H|x z y H _ IH]; apply (wf_order D HD) in H; lia.
Qed.

Lemma walk_nodup d x : NoDup (walk D d x).
Proof using HD.
  destruct (decide (d = ParentNode)) as [->|Hd].
  - induction x as [x IH] using lt_wf_ind. destruct (parent D x) as [p|] eqn:Hp; [|rewrite walk_none by done; constructor].
    rewrite (walk_parent D HD _ _ Hp). constructor; [|by apply IH, (wf_order D HD)].
    intros H%(walk_ancestor D HD)%ancestor_below. lia.
  - destruct (parent D x) as [p|] eqn:Hp; [|rewrite walk_none by (destruct d; cbn; by rewrite ?Hp); constructor].
    destruct (split_at D HD p x Hp) as (l1 & l2 & E). pose proof (wf_nodup D HD p) as Hn. rewrite E in Hn.
    apply NoDup_app in Hn as (H1 & _ & [_ H2]%NoDup_cons).
    destruct d; [done|rewrite (walk_previous D HD _ _ _ _ Hp E); by apply nodup_rev|by rewrite (walk_next D HD _ _ _ _ Hp E)].
Qed.
End loops.
