(* ===== verification/SizzleRun.v ===== *)
(** * Sizzle: what matchers answer, caches included

    [state] is what holds while a compiled selector is called: what combinators and [nth-child] left on the elements in this run is right for the
    document ([kept]), where a run is what [dirruns] was brought to since the call began.  [frame] is what a call may leave for the caller.
    A combinator with a cache ([addCombinator_all_does]) and [nth-child] ([position_test_does]) answer as without, provided the values of
    [dirruns] are distinct. *)

From Stdlib Require Import ZArith Lia Ascii SpecFloat.
From stdpp Require Import gmap strings relations.
From S2P Require Import Prelude JsString SizzleTokens SizzleLex Doubles Sizzle SizzleDom.

Local Open Scope nat_scope.
Local Open Scope js_scope.

(** ** Rules *)

(** No value of [dirruns] comes twice: not as the same number, and not for [===]. *)
Definition distinct (l : list double) : Prop :=
  forall i j a b, l !! i = Some a -> l !! j = Some b -> a = b \/ SFeqb a b = true -> i = j.

Lemma distinct_prefix l k : l `prefix_of` k -> distinct k -> distinct l.
Proof. intros Hp H i j a b Hi Hj. apply (H i j a b); by eapply prefix_lookup_Some. Qed.

(** The runs are never forgotten. *)
Definition grows {A} (e : st_ex world A) : Prop := forall w, w_runs w `prefix_of` w_runs (e w).1.

(** If the runs are distinct, a handler returns and leaves what it should. *)
Definition does {A} (w : world) (e : st_ex world A) (Q : A -> world -> Prop) : Prop :=
  distinct (w_runs (e w).1) -> exists a, (e w).2 = Ok a /\ Q a (e w).1.

Lemma grows_bind {A B} (e : st_ex world A) (k : A -> st_ex world B) : grows e -> (forall a, grows (k a)) -> grows (sbind e k).
Proof.
  intros He Hk w. unfold sbind. specialize (He w). destruct (e w) as [w1 [a|m]]; [|done]. etrans; [exact He|apply Hk].
Qed.

Lemma grows_ret {A} (a : A) : grows (sret a).
Proof. by intros w. Qed.

Lemma grows_get {A} (f : world -> A) : grows (sget f).
Proof. by intros w. Qed.

Lemma grows_throw {A} m : grows (sthrow (A := A) m).
Proof. by intros w. Qed.

Lemma grows_res {A} (r : jsres A) : grows (of_res r).
Proof. by intros w. Qed.

Lemma grows_modify f : (forall w, w_runs w `prefix_of` w_runs (f w)) -> grows (smodify f).
Proof. intros H w. apply H. Qed.

Lemma grows_when b e : grows e -> grows (swhen b e).
Proof. by destruct b; [|intros; apply grows_ret]. Qed.

Lemma does_bind {A B} w (e : st_ex world A) (k : A -> st_ex world B) Q R : (forall a, grows (k a)) -> does w e Q ->
  (forall a w', Q a w' -> does w' (k a) R) -> does w (sbind e k) R.
Proof.
  intros Hg He Hk. unfold does, sbind in *. destruct (e w) as [w1 [a|m]]; cbn [fst snd] in *.
  - intros Hd. destruct He as (a' & [= <-] & Ha); [|by apply Hk]. eapply distinct_prefix; [apply Hg|exact Hd].
  - intros Hd. by destruct (He Hd) as (a & [=] & _).
Qed.

Lemma does_ret {A} w (a : A) (Q : A -> world -> Prop) : Q a w -> does w (sret a) Q.
Proof. intros H _. by exists a. Qed.

Lemma does_get {A B} w (f : world -> A) (k : A -> st_ex world B) R : does w (k (f w)) R -> does w (sbind (sget f) k) R.
Proof. done. Qed.

Lemma does_read {A B} w (e : st_ex world A) v (k : A -> st_ex world B) R : e w = (w, Ok v) -> does w (k v) R -> does w (sbind e k) R.
Proof. intros E H. unfold does, sbind. by rewrite E. Qed.

Lemma does_modify {B} w f (k : unit -> st_ex world B) R : does (f w) (k tt) R -> does w (sbind (smodify f) k) R.
Proof. done. Qed.

Lemma does_impl {A} w (e : st_ex world A) (Q R : A -> world -> Prop) : does w e Q -> (forall a w', Q a w' -> R a w') -> does w e R.
Proof. intros He H Hd. destruct (He Hd) as (a & E & Ha). exists a. auto. Qed.

(** What is left has distinct runs. *)
Lemma does_distinct {A} w (e : st_ex world A) (Q : A -> world -> Prop) :
  does w e Q -> does w e (fun a w' => Q a w' /\ distinct (w_runs w')).
Proof. intros He Hd. destruct (He Hd) as (a & E & Ha). by exists a. Qed.

(** ** The runs are never forgotten *)

Section matcher_ind.
Context (P : matcher -> Prop)
  (Hreach : forall l d, P (Reachable l d)) (Htest : forall k, P (Test k)) (Hpos : forall t o a b, P (Position t o a b))
  (Hneg : forall s ms, Forall P ms -> P (Negation s ms)) (Hhas : forall s, P (Containing s))
  (Hcomb : forall m c d, P m -> P (Combined m c d)) (Hall : forall ms, Forall P ms -> P (All ms)).

Fixpoint matcher_rect' (m : matcher) : P m :=
  let fix all (ms : list matcher) : Forall P ms :=
    match ms with [] => Forall_nil_2 P | m :: ms => Forall_cons_2 P m ms (matcher_rect' m) (all ms) end in
  match m with
  | Reachable l d => Hreach l d
  | Test k => Htest k
  | Position t o a b => Hpos t o a b
  | Negation s ms => Hneg s ms (all ms)
  | Containing s => Hhas s
  | Combined m c d => Hcomb m c d (matcher_rect' m)
  | All ms => Hall ms (all ms)
  end.
End matcher_ind.

Ltac grow :=
  repeat first
    [ assumption
    | apply grows_ret | apply grows_throw | apply grows_res | apply grows_get
    | apply grows_bind; [|intros ?]
    | apply grows_when
    | apply grows_modify; by intros []
    | match goal with
      | |- grows (match ?x with _ => _ end) => destruct x
      | |- grows (if ?x then _ else _) => destruct x
      end ].

Section growing.
Context (D : dom) (xml : bool) (random : nat -> double) (inner : text -> nat -> st_ex world (list nat)).
Context (inner_grows : forall t x, grows (inner t x)).

Lemma any_of_grows f checks l : (forall y, grows (f y)) -> grows (any_of f checks l).
Proof. intros H. induction l as [|y l IH]; cbn; grow. apply H. Qed.

Lemma cached_grows f d checks n i l : (forall y, grows (f y)) -> grows (cached f d checks n i l).
Proof. intros H. induction l as [|y l IH]; cbn; grow; apply H. Qed.

Lemma addCombinator_grows f c base d x : (forall y, grows (f y)) -> grows (addCombinator D xml f c base d x).
Proof. intros H. unfold addCombinator. grow; [apply H|by apply any_of_grows|by apply cached_grows]. Qed.

Lemma seek_grows counts keep x l : forall diff, grows (seek counts keep x l diff).
Proof. induction l as [|y l IH]; intros diff; cbn; grow; apply IH. Qed.

Lemma forward_diff_grows x p : grows (forward_diff D x p).
Proof. intros w. unfold forward_diff. destruct (match _ with Some r => Some r | None => _ end) as [[i diff]|]; [by destruct w|done]. Qed.

Lemma position_test_grows t o a b x : grows (position_test D xml t o a b x).
Proof. unfold position_test, nth_diff. grow; try apply forward_diff_grows; apply seek_grows. Qed.

Lemma new_run_runs w : w_runs (new_run random w) = w_runs w ++ [w_dirruns (new_run random w)].
Proof. unfold new_run, increment. destruct w as [a b [] d e f g h i j k]; done. Qed.

Lemma new_run_grows : grows (smodify (new_run random)).
Proof. apply grows_modify. intros w. rewrite new_run_runs. by apply prefix_app_r. Qed.

Lemma each_grows f u l : (forall y, grows (f y)) -> forall r, grows (each f u l r).
Proof. intros H. induction l as [|y l IH]; intros r; cbn; grow; [apply H|apply IH..]. Qed.

Lemma superMatcher_grows f seed c r o : (forall y, grows (f y)) -> grows (superMatcher D random f seed c r o).
Proof.
  intros H. unfold superMatcher. apply grows_bind; [apply grows_get|intros ?]. apply grows_bind; [apply new_run_grows|intros ?]. grow; by apply each_grows.
Qed.

Lemma all_match_grows f ms : (forall m, m ∈ ms -> grows (f m)) -> grows (all_match f ms).
Proof.
  induction ms as [|m ms IH]; intros H; cbn; [apply grows_ret|]. apply grows_bind; [apply IH; intros; apply H; by right|intros []]; [apply H; left|apply grows_ret].
Qed.

Lemma any_match_grows f ms : (forall m, m ∈ ms -> grows (f m)) -> grows (any_match f ms).
Proof.
  induction ms as [|m ms IH]; intros H; cbn; [apply grows_ret|]. apply grows_bind; [apply H; left|intros []]; [apply grows_ret|apply IH; intros; apply H; by right].
Qed.

Lemma run_grows m : forall context x, grows (run D xml random inner context m x).
Proof using inner_grows.
  induction m as [l d|k|t o a b|s ms IH|s|m c d IH|ms IH] using matcher_rect'; intros context x; cbn [run].
  - grow; apply addCombinator_grows; intros; apply grows_ret.
  - grow.
  - apply position_test_grows.
  - apply grows_bind; [|intros; apply grows_ret]. apply superMatcher_grows. intros y. apply any_match_grows.
    intros m Hm. rewrite Forall_forall in IH. by apply IH.
  - grow; apply inner_grows.
  - by apply addCombinator_grows.
  - apply all_match_grows. intros m Hm. rewrite Forall_forall in IH. by apply IH.
Qed.
End growing.

(** ** What matchers mean *)

Section meaning.
Context (D : dom).

Fixpoint msat (context : option nat) (m : matcher) (x : nat) {struct m} : Prop :=
  match m with
  | Reachable lead _ => anchored D lead context x
  | Test k => test D k x = true
  | Position t of_type a b => position_sat D t of_type a b x
  | Negation _ ms => ~ (fix any ms := match ms with [] => False | m :: ms => msat None m x \/ any ms end) ms
  | Containing a => has_of D (Matches D) a x
  | Combined m c _ => exists y, element D y = true /\ related D c y x /\ msat context m y
  | All ms => (fix all ms := match ms with [] => True | m :: ms => msat context m x /\ all ms end) ms
  end.

Definition any_sat (context : option nat) (ms : list matcher) (x : nat) : Prop := Exists (fun m => msat context m x) ms.

Lemma msat_negation s context ms x : msat context (Negation s ms) x <-> ~ any_sat None ms x.
Proof. cbn [msat]. unfold any_sat. induction ms as [|m ms IH]; [by rewrite Exists_nil|]. rewrite Exists_cons. tauto. Qed.

Lemma msat_all context ms x : msat context (All ms) x <-> Forall (fun m => msat context m x) ms.
Proof. cbn [msat]. induction ms as [|m ms IH]; [by rewrite Forall_nil|]. by rewrite Forall_cons, IH. Qed.

(** What a combinator with a cache is asked: its number, its direction, the nodes it passes and what it looks for. *)
Record ask := Ask { a_done : nat; a_dir : dir; a_checks : nat -> bool; a_means : nat -> Prop }.

Fixpoint asks (context : option nat) (m : matcher) : list ask :=
  match m with
  | Reachable lead d =>
      let c := default Descendant lead in
      if first_of c then [] else [Ask d (dir_of c) (passes D true (dir_of c)) (fun y => Some y = context)]
  | Combined m c d => (if first_of c then [] else [Ask d (dir_of c) (passes D false (dir_of c)) (msat context m)]) ++ asks context m
  | All ms => (fix all ms := match ms with [] => [] | m :: ms => asks context m ++ all ms end) ms
  | _ => []
  end.

Definition all_asks (context : option nat) (ms : list matcher) : list ask := mjoin (asks context <$> ms).

Lemma asks_all context ms : asks context (All ms) = all_asks context ms.
Proof. unfold all_asks. cbn [asks]. induction ms as [|m ms IH]; [done|]. cbn. by rewrite IH. Qed.

(** Whether it is found from a node on. *)
Definition true_from (a : ask) (x : nat) : Prop := Exists (fun y => a_checks a y = true /\ a_means a y) (x :: walk D (a_dir a) x).
End meaning.

(** ** The shape of what is compiled *)

Fixpoint dones (m : matcher) : list nat :=
  match m with
  | Reachable _ d => [d]
  | Combined m _ d => d :: dones m
  | All ms => (fix all ms := match ms with [] => [] | m :: ms => dones m ++ all ms end) ms
  | _ => []
  end.

Definition all_dones (ms : list matcher) : list nat := mjoin (dones <$> ms).

Fixpoint leadless (m : matcher) : Prop :=
  match m with
  | Reachable lead _ => lead = None
  | Combined m _ _ => leadless m
  | All ms => (fix all ms := match ms with [] => True | m :: ms => leadless m /\ all ms end) ms
  | _ => True
  end.

Section shape.
(** The selectors [:has] may be called with. *)
Context (askable : text -> Prop).

(** Numbers are made for the selector compiled, given by its length, and what is inside is made for shorter ones. *)
Fixpoint right (made : list nat) (level : nat) (m : matcher) : Prop :=
  match m with
  | Reachable _ d => made !! d = Some level
  | Combined m _ d => made !! d = Some level /\ right made level m
  | All ms => (fix all ms := match ms with [] => True | m :: ms => right made level m /\ all ms end) ms
  | Negation t ms =>
      length t < level /\ NoDup (all_dones ms) /\
      (fix all ms := match ms with [] => True | m :: ms => (right made (length t) m /\ leadless m) /\ all ms end) ms
  | Containing a => length a < level /\ askable a
  | _ => True
  end.

Lemma right_all made level ms : right made level (All ms) <-> Forall (right made level) ms.
Proof. cbn [right]. induction ms as [|m ms IH]; [by rewrite Forall_nil|]. by rewrite Forall_cons, IH. Qed.

Lemma right_negation made level t ms : right made level (Negation t ms) <->
  length t < level /\ NoDup (all_dones ms) /\ Forall (right made (length t)) ms /\ Forall leadless ms.
Proof.
  cbn [right]. apply and_iff_compat_l, and_iff_compat_l. induction ms as [|m ms IH]; [by rewrite !Forall_nil|]. rewrite !Forall_cons, IH. tauto.
Qed.

Lemma leadless_all ms : leadless (All ms) <-> Forall leadless ms.
Proof. cbn [leadless]. induction ms as [|m ms IH]; [by rewrite Forall_nil|]. by rewrite Forall_cons, IH. Qed.

Lemma dones_all ms : dones (All ms) = all_dones ms.
Proof. unfold all_dones. cbn [dones]. induction ms as [|m ms IH]; [done|]. cbn. by rewrite IH. Qed.

Lemma right_mono made made' m : made `prefix_of` made' -> forall level, right made level m -> right made' level m.
Proof.
  intros Hp. induction m as [l d|k|t o a b|s ms IH|s|m c d IH|ms IH] using matcher_rect'; intros level; cbn [right]; try done.
  - intros H. by eapply prefix_lookup_Some.
  - intros H. apply (right_negation made level) in H as (H1 & H2 & H3 & H4). apply (right_negation made' level). split_and!; try done.
    rewrite Forall_forall in *. intros m Hm. by apply IH, H3.
  - intros [H1 H2]. split; [by eapply prefix_lookup_Some|by apply IH].
  - intros H. apply (right_all made level) in H. apply (right_all made' level). rewrite Forall_forall in *. intros m Hm. by apply IH, H.
Qed.

Lemma right_made made level m d : right made level m -> d ∈ dones m -> made !! d = Some level.
Proof.
  induction m as [l d0|k|t o a b|s ms IH|s|m c d0 IH|ms IH] using matcher_rect'; try (intros _ H; by apply elem_of_nil in H).
  - intros H ->%list_elem_of_singleton. done.
  - intros [H1 H2] [->|H]%elem_of_cons; [done|by apply IH].
  - rewrite dones_all, right_all. intros H Hd. apply list_elem_of_join in Hd as (l & Hd & Hl). apply list_elem_of_fmap in Hl as (m & -> & Hm). rewrite Forall_forall in *. by apply (IH m Hm); [apply H|].
Qed.

Lemma asks_dones D context m a : a ∈ asks D context m -> a_done a ∈ dones m.
Proof.
  induction m as [l d0|k|t o a0 b|s ms IH|s|m c d0 IH|ms IH] using matcher_rect'; try (intros H; by apply elem_of_nil in H).
  - cbn. destruct (first_of _); [intros H; by apply elem_of_nil in H|]. intros ->%list_elem_of_singleton. left.
  - cbn. intros [H|H]%elem_of_app; [|right; by apply IH]. destruct (first_of c); [by apply elem_of_nil in H|]. apply list_elem_of_singleton in H as ->. left.
  - rewrite asks_all, dones_all. intros (l & Ha & Hl)%list_elem_of_join. apply list_elem_of_fmap in Hl as (m & -> & Hm). rewrite Forall_forall in IH.
    apply list_elem_of_join. exists (dones m). split; [by apply IH|]. apply list_elem_of_fmap. by exists m.
Qed.
End shape.

(** ** Compiled selectors *)

(** No group of a selector has a combinator in front. *)
Definition leadless_text (t : text) : Prop :=
  forall groups t0 rest, tokenize t = Ok groups -> (t0 :: rest) ∈ groups -> relative (kind_of t0) = None.

(** What [compile] answers for a selector: right in every document, whatever runs it. *)
Record unit_of (askable : text -> Prop) (made : list nat) (t : text) (ms : list matcher) : Prop := {
  u_means D context x : any_sat D context ms x <-> Matches D context t x;
  u_right : Forall (right askable made (length t)) ms;
  u_nodup : NoDup (all_dones ms);
  u_leadless : leadless_text t -> Forall leadless ms
}.

Lemma unit_mono askable made made' t ms : made `prefix_of` made' -> unit_of askable made t ms -> unit_of askable made' t ms.
Proof.
  intros Hp []. split; [done| |done..]. eapply Forall_impl; [done|]. intros m. by apply right_mono.
Qed.

(** ** State *)

Section states.
Context (askable : text -> Prop) (D : dom).

Record good_world (w : world) : Prop := {
  g_dir k i : w_dir w !! k = Some i -> i < length (w_arrays w);
  g_arrays e : e ∈ w_arrays w -> e_run e ∈ w_runs w /\ e_done e < length (w_made w);
  g_nth p r i d : w_nth w !! p = Some (r, i, d) -> r ∈ w_runs w;
  g_last y r d : w_last w !! y = Some (r, d) -> r ∈ w_runs w;
  g_units t ms : w_compiled w !! t = Some ms -> unit_of askable (w_made w) t ms
}.

(** A value [dirruns] was brought to since a call began. *)
Definition live (s : nat) (w : world) (r : double) : Prop := exists j, s <= j /\ w_runs w !! j = Some r.

Definition answered (a : ask) (x : nat) (e : entry) : Prop := exists b, e_result e = Some b /\ (b = true <-> true_from D a x).

Definition kept (s : nat) (A : list ask) (w : world) : Prop :=
  forall a x i e, a ∈ A -> w_dir w !! (x, a_dir a) = Some i -> w_arrays w !! i = Some e -> e_done e = a_done a -> live s w (e_run e) -> answered a x e.

(** The index and the number of a child, and the number of a child from the last. *)
Definition nth_right (p i : nat) (diff : Z) : Prop :=
  exists l1 y l2, children D p = l1 ++ y :: l2 /\ length l1 = i /\ element D y = true /\ diff = numbered (element D) l1.

Definition last_right (y : nat) (diff : Z) : Prop :=
  exists p l1 l2, parent D y = Some p /\ children D p = l1 ++ y :: l2 /\ diff = numbered (element D) l2.

Definition counted (s : nat) (w : world) : Prop :=
  (forall p r i d, w_nth w !! p = Some (r, i, d) -> live s w r -> nth_right p i d) /\
  (forall y r d, w_last w !! y = Some (r, d) -> live s w r -> last_right y d).

(** A call: the number of runs when it began, [outermostContext], the level of the selector, the numbers made before. *)
Record call := Call { c_start : nat; c_outer : outer; c_level : nat; c_made : list nat }.

Record state (c : call) (A : list ask) (w : world) : Prop := {
  s_good : good_world w;
  s_outer : w_outermost w = c_outer c;
  s_live : live (c_start c) w (w_dirruns w);
  s_kept : kept (c_start c) A w;
  s_counted : counted (c_start c) w;
  s_made : c_made c `prefix_of` w_made w
}.

(** What a call changes for its caller: new arrays, of the numbers [ds] or of lower levels, and numbers of children that are right. *)
Record frame (level : nat) (ds : list nat) (w w' : world) : Prop := {
  f_arrays : w_arrays w `prefix_of` w_arrays w';
  f_runs : w_runs w `prefix_of` w_runs w';
  f_made : w_made w `prefix_of` w_made w';
  f_dir k i : w_dir w' !! k = Some i -> w_dir w !! k = Some i \/
    length (w_arrays w) <= i /\ exists e, w_arrays w' !! i = Some e /\
    (e_done e ∈ ds \/ exists l, w_made w' !! e_done e = Some l /\ l < level);
  f_nth p r i d : w_nth w' !! p = Some (r, i, d) -> w_nth w !! p = Some (r, i, d) \/ nth_right p i d;
  f_last y r d : w_last w' !! y = Some (r, d) -> w_last w !! y = Some (r, d) \/ last_right y d
}.

Lemma frame_refl level ds w : frame level ds w w.
Proof. split; auto. Qed.

Lemma frame_trans level ds w1 w2 w3 : frame level ds w1 w2 -> frame level ds w2 w3 -> frame level ds w1 w3.
Proof.
  intros H1 H2. split.
  - etrans; [apply (f_arrays _ _ _ _ H1)|apply (f_arrays _ _ _ _ H2)].
  - etrans; [apply (f_runs _ _ _ _ H1)|apply (f_runs _ _ _ _ H2)].
  - etrans; [apply (f_made _ _ _ _ H1)|apply (f_made _ _ _ _ H2)].
  - intros k i Hk. destruct (f_dir _ _ _ _ H2 k i Hk) as [Hk2|(Hi & e & He & Hd)].
    + destruct (f_dir _ _ _ _ H1 k i Hk2) as [Hk1|(Hi & e & He & Hd)]; [by left|]. right. split; [done|]. exists e.
      split; [eapply prefix_lookup_Some; [done|apply (f_arrays _ _ _ _ H2)]|]. destruct Hd as [Hd|(l & Hl & Hlt)]; [by left|]. right. exists l.
      split; [|done]. eapply prefix_lookup_Some; [done|apply (f_made _ _ _ _ H2)].
    + right. split; [|by exists e]. pose proof (prefix_length _ _ (f_arrays _ _ _ _ H1)). lia.
  - intros p r i d Hp. destruct (f_nth _ _ _ _ H2 p r i d Hp) as [Hp2|]; [|by right]. by apply (f_nth _ _ _ _ H1).
  - intros y r d Hy. destruct (f_last _ _ _ _ H2 y r d Hy) as [Hy2|]; [|by right]. by apply (f_last _ _ _ _ H1).
Qed.

Lemma frame_weaken level level' ds ds' w w' : level <= level' -> ds ⊆ ds' -> frame level ds w w' -> frame level' ds' w w'.
Proof.
  intros Hl Hd []. split; try done. intros k i Hk. destruct (f_dir0 k i Hk) as [|(Hi & e & He & [Hds|(l & Hm & Hlt)])]; [by left|right..].
  - split; [done|]. exists e. split; [done|]. left. by apply Hd.
  - split; [done|]. exists e. split; [done|]. right. exists l. split; [done|lia].
Qed.

(** For its caller, all that a call of a lower level makes is of a lower level. *)
Lemma frame_inside level level' ds w w' : level' < level -> (forall d, d ∈ ds -> w_made w' !! d = Some level') -> frame level' ds w w' -> frame level [] w w'.
Proof.
  intros Hl Hd []. split; try done. intros k i Hk. destruct (f_dir0 k i Hk) as [|(Hi & e & He & [Hds|(l & Hm & Hlt)])]; [by left|right..].
  - split; [done|]. exists e. split; [done|]. right. exists level'. split; [by apply Hd|done].
  - split; [done|]. exists e. split; [done|]. right. exists l. split; [done|lia].
Qed.

(** A run that was known before is live only if it was. *)
Lemma live_back s w w' r : w_runs w `prefix_of` w_runs w' -> distinct (w_runs w') -> r ∈ w_runs w -> live s w' r -> live s w r.
Proof.
  intros Hp Hd [i Hi]%list_elem_of_lookup (j & Hj & Hr). exists j. split; [done|].
  rewrite <- (Hd i j r r); [done|by eapply prefix_lookup_Some|done|by left].
Qed.

Lemma live_mono s w w' r : w_runs w `prefix_of` w_runs w' -> live s w r -> live s w' r.
Proof. intros Hp (j & Hj & Hr). exists j. split; [done|]. by eapply prefix_lookup_Some. Qed.

Lemma live_in s w r : live s w r -> r ∈ w_runs w.
Proof. intros (j & _ & Hr). by eapply list_elem_of_lookup_2. Qed.

Definition owned (made : list nat) (level : nat) (ds : list nat) (B : list ask) : Prop :=
  forall b, b ∈ B -> a_done b ∉ ds /\ made !! a_done b = Some level.

(** What is kept for others stays right. *)
Lemma kept_frame s level ds B made w w' : frame level ds w w' -> good_world w -> distinct (w_runs w') -> made `prefix_of` w_made w ->
  owned made level ds B -> kept s B w -> kept s B w'.
Proof.
  intros F G Hd Hm Ho Hk b x i e Hb Hi He Hde Hl. destruct (Ho b Hb) as [Hnd Hmade].
  destruct (f_dir _ _ _ _ F _ _ Hi) as [Hi'|(_ & e' & He' & Hnew)].
  - destruct (lookup_lt_is_Some_2 (w_arrays w) i (g_dir _ G _ _ Hi')) as [e' He'].
    pose proof (prefix_lookup_Some _ _ _ _ He' (f_arrays _ _ _ _ F)) as E. rewrite He in E. injection E as <-.
    apply (Hk b x i e Hb Hi' He' Hde). apply (live_back s w w'); [apply F|done| |done]. apply (g_arrays _ G). by eapply list_elem_of_lookup_2.
  - exfalso. rewrite He in He'. injection He' as <-. destruct Hnew as [Hin|(l & Hl1 & Hlt)]; [by rewrite Hde in Hin|].
    assert (w_made w' !! e_done e = Some level) as E; [|rewrite Hl1 in E; injection E as ->; lia].
    rewrite Hde. eapply prefix_lookup_Some; [exact Hmade|]. etrans; [exact Hm|apply F].
Qed.

Lemma counted_frame s level ds w w' : frame level ds w w' -> good_world w -> distinct (w_runs w') -> counted s w -> counted s w'.
Proof.
  intros F G Hd [H1 H2]. split.
  - intros p r i d Hp Hl. destruct (f_nth _ _ _ _ F p r i d Hp) as [Hp'|]; [|done]. apply (H1 p r i d Hp'), (live_back s w w'); [apply F|done| |done].
    by eapply g_nth.
  - intros y r d Hy Hl. destruct (f_last _ _ _ _ F y r d Hy) as [Hy'|]; [|done]. apply (H2 y r d Hy'), (live_back s w w'); [apply F|done| |done].
    by eapply g_last.
Qed.

Lemma kept_app s A B w : kept s (A ++ B) w <-> kept s A w /\ kept s B w.
Proof.
  unfold kept. split.
  - intros H. split; intros a x i e Ha; apply H, elem_of_app; auto.
  - intros [H1 H2] a x i e [Ha|Ha]%elem_of_app; [by apply H1|by apply H2].
Qed.

Lemma kept_sub s A B w : B ⊆ A -> kept s A w -> kept s B w.
Proof. intros HB H a x i e Ha. by apply H, HB. Qed.

Lemma state_sub c A B w : B ⊆ A -> state c A w -> state c B w.
Proof. intros HB []. split; try done. by eapply kept_sub. Qed.

(** A call for some of the asks leaves the others right. *)
Lemma state_extend c A B w w' : state c (A ++ B) w -> state c A w' -> frame (c_level c) (a_done <$> A) w w' -> distinct (w_runs w') ->
  owned (c_made c) (c_level c) (a_done <$> A) B -> state c (A ++ B) w'.
Proof.
  intros H H' F Hd Ho. split; try apply H'. apply kept_app. split; [apply H'|].
  eapply kept_frame; [exact F|apply H|done|apply H|done|]. apply (kept_app (c_start c) A B), H.
Qed.
End states.

(** ** Combinators *)

Lemma does_assume {A} w (e : st_ex world A) Q : grows e -> (distinct (w_runs w) -> does w e Q) -> does w e Q.
Proof. intros Hg H Hd. apply H; [|done]. eapply distinct_prefix; [apply Hg|exact Hd]. Qed.

Section combinators.
Context (askable : text -> Prop) (D : dom) (HD : well_formed D).
Notation state := (state askable D).
Notation good_world := (good_world askable).

(** A truth value, with the state and the frame it leaves. *)
Definition answer (c : call) (A : list ask) (w : world) (P : Prop) (b : bool) (w' : world) : Prop :=
  (b = true <-> P) /\ state c A w' /\ frame D (c_level c) (a_done <$> A) w w'.

Lemma set_result_lookup i r w j e : w_arrays (set_result i r w) !! j = Some e ->
  exists e', w_arrays w !! j = Some e' /\ e_run e = e_run e' /\ e_done e = e_done e' /\ (j <> i -> e = e').
Proof.
  destruct w as [a0 b c l d f g h k m n]. cbn. destruct (decide (j = i)) as [->|Hj].
  - rewrite list_lookup_alter_eq. destruct (l !! i) as [e'|]; [|done]. cbn. intros [= <-]. exists e'. by split_and!.
  - rewrite list_lookup_alter_ne by done. intros ->. exists e. by split_and!.
Qed.

Lemma set_result_good i r w : good_world w -> good_world (set_result i r w).
Proof.
  intros [G1 G2 G3 G4 G5]. split.
  - intros k j Hk. destruct w. cbn in *. rewrite length_alter. by eapply G1.
  - intros e [j Hj]%list_elem_of_lookup. apply set_result_lookup in Hj as (e' & He' & -> & -> & _). destruct w. cbn in *. apply G2. by eapply list_elem_of_lookup_2.
  - destruct w. apply G3.
  - destruct w. apply G4.
  - destruct w. apply G5.
Qed.

Lemma set_dir_good k i w : i < length (w_arrays w) -> good_world w -> good_world (set_dir (<[k := i]> (w_dir w)) w).
Proof.
  intros Hi [G1 G2 G3 G4 G5]. destruct w. cbn in *. split; cbn; try done. intros k' j. rewrite lookup_insert. case_decide; [by intros [= <-]|apply G1].
Qed.

Context (c : call) (A : list ask) (a : ask).
Context (matches : nat -> st_ex world bool) (grows_matches : forall y, grows (matches y)).
Context (a_new : a_done a ∉ a_done <$> A) (a_made : c_made c !! a_done a = Some (c_level c)).
Context (matches_does : forall y w, a_checks a y = true -> state c A w -> does w (matches y) (answer c A w (a_means a y))).

Definition found (l : list nat) : Prop := Exists (fun y => a_checks a y = true /\ a_means a y) l.

(** The loop has passed some nodes of the walk from [x], and others are left; [newCache] is [i], with its result so far. *)
Record looping (w0 : world) (x i : nat) (passed l : list nat) (res : option bool) (w : world) : Prop := {
  l_walk : walk D (a_dir a) x = passed ++ l;
  l_state : state c A w;
  l_frame : frame D (c_level c) (a_done a :: (a_done <$> A)) w0 w;
  l_cell : exists r, w_arrays w !! i = Some (Entry r (a_done a) res);
  l_index : length (w_arrays w0) <= i;
  l_none : forall z, z ∈ passed -> a_checks a z = true -> ~ a_means a z;
  l_own k : w_dir w !! k = Some i -> k.2 = a_dir a /\ (k.1 ∈ passed \/ hd_error l = Some k.1);
  l_others x' j e : w_dir w !! (x', a_dir a) = Some j -> j <> i -> w_arrays w !! j = Some e -> e_done e = a_done a ->
    live (c_start c) w (e_run e) -> answered D a x' e
}.

Lemma found_none passed l : (forall z, z ∈ passed -> a_checks a z = true -> ~ a_means a z) -> found (passed ++ l) <-> found l.
Proof.
  intros H. unfold found. rewrite Exists_app. split; [|auto]. intros [Hp|]; [|done]. apply Exists_exists in Hp as (z & Hz & H1 & H2). by destruct (H z Hz).
Qed.

(** What is found from a node passed, or from the next, is what is found in what is left. *)
Lemma true_from_left w0 x i passed l res w v : looping w0 x i passed l res w -> v ∈ passed \/ hd_error l = Some v ->
  true_from D a v <-> found l.
Proof using HD.
  intros [Hw _ _ _ _ Hn _ _] [Hv|Hv].
  - apply list_elem_of_split in Hv as (l1 & l2 & ->). rewrite <- app_assoc in Hw. apply (walk_suffix D HD) in Hw as Hv. unfold true_from. rewrite Hv.
    apply (found_none (v :: l2) l). intros z Hz. apply Hn, elem_of_app. by right.
  - destruct l as [|y l]; [done|]. injection Hv as ->. unfold true_from. apply (walk_suffix D HD) in Hw as ->. done.
Qed.

Lemma looping_done w0 x i passed l res w b : looping w0 x i passed l res w -> (forall k, w_dir w !! k = Some i -> res = Some b) ->
  (b = true <-> found l) -> answer c (a :: A) w0 (found (walk D (a_dir a) x)) b w.
Proof using HD.
  intros H Hres Hb. split_and!.
  - rewrite (l_walk _ _ _ _ _ _ _ H), found_none by apply H. done.
  - destruct (l_state _ _ _ _ _ _ _ H). split; try done. apply (kept_app D (c_start c) [a] A). split; [|done].
    intros a' x' j e Ha' Hj He Hd Hl. apply list_elem_of_singleton in Ha' as ->. destruct (decide (j = i)) as [->|Hne]; [|by eapply l_others].
    destruct (l_cell _ _ _ _ _ _ _ H) as (r & Hr). rewrite He in Hr. injection Hr as ->. exists b. split; [by eapply Hres|].
    rewrite (true_from_left _ _ _ _ _ _ _ x' H); [done|]. by eapply (l_own _ _ _ _ _ _ _ H (x', a_dir a)).
  - apply H.
Qed.

Lemma looping_shift w0 x i passed y l res w : looping w0 x i passed (y :: l) res w -> (a_checks a y = true -> ~ a_means a y) ->
  looping w0 x i (passed ++ [y]) l res w.
Proof.
  intros [H1 H2 H3 H4 H5 H6 H7 H8] Hy. split; try done.
  - by rewrite <- app_assoc.
  - intros z [Hz|Hz]%elem_of_app; [by apply H6|]. by apply list_elem_of_singleton in Hz as ->.
  - intros k Hk. destruct (H7 k Hk) as [Hk2 Hk1]. split; [done|]. left. apply elem_of_app. destruct Hk1 as [|[= ->]]; [by left|]. right. left.
Qed.

(** A change of the state that leaves the rest of a call alone. *)
Lemma state_set_result i r w : (forall e, w_arrays w !! i = Some e -> e_done e ∉ a_done <$> A) -> state c A w -> state c A (set_result i r w).
Proof.
  intros Hi [G1 G2 G3 G4 G5 G6]. split; [by apply set_result_good|by destruct w..| |by destruct w|by destruct w].
  intros a' x' j e Ha' Hj He Hd Hl. apply set_result_lookup in He as (e' & He' & Hr & Hd' & Hne). assert (j <> i) as Hji.
  { intros ->. apply (Hi e' He'). rewrite <- Hd', Hd. by apply list_elem_of_fmap_2. }
  rewrite (Hne Hji) in *. apply (G4 a' x' j e' Ha'); [by destruct w|done|congruence|by destruct w].
Qed.

Lemma frame_set_result level ds w0 i r w : length (w_arrays w0) <= i -> frame D level ds w0 w -> frame D level ds w0 (set_result i r w).
Proof.
  intros Hi [F1 F2 F3 F4 F5 F6]. split; try (by destruct w).
  - destruct F1 as [l Hl]. destruct w as [a0 b0 c0 l0 d f g h k m n]. cbn in *. subst l0. exists (alter (fun e => Entry (e_run e) (e_done e) r) (i - length (w_arrays w0)) l).
    by rewrite alter_app_r_alt.
  - intros k j Hk. destruct (F4 k j) as [|(Hj & e & He & Hd)]; [by destruct w|by left|right]. split; [done|].
    assert (exists e', w_arrays (set_result i r w) !! j = Some e' /\ e_done e' = e_done e) as (e' & He' & Hde).
    { destruct w. cbn in *. destruct (decide (j = i)) as [->|Hne]; [rewrite list_lookup_alter_eq|rewrite list_lookup_alter_ne by done]; rewrite He; by eexists. }
    exists e'. rewrite Hde. split; [done|]. by destruct w.
Qed.

Lemma looping_set w0 x i passed l res w r : looping w0 x i passed l res w -> looping w0 x i passed l r (set_result i r w).
Proof using a_new.
  intros [H1 H2 H3 (r0 & H4) H5 H6 H7 H8]. split; try done.
  - apply state_set_result; [|done]. intros e He. rewrite H4 in He. by injection He as <-.
  - by apply frame_set_result.
  - exists r0. destruct w. cbn in *. by rewrite list_lookup_alter_eq, H4.
  - intros k Hk. apply H7. by destruct w.
  - intros x' j e Hj Hne He Hd Hl. apply set_result_lookup in He as (e' & He' & Hr & Hd' & Heq). rewrite (Heq Hne) in *.
    apply (H8 x' j e'); by destruct w.
Qed.

(** [newCache] is put on a node, and the matcher called. *)
Definition visit (i y : nat) (w : world) : world := set_dir (<[(y, a_dir a) := i]> (w_dir w)) w.

Lemma visit_dir i y w k j : w_dir (visit i y w) !! k = Some j -> k = (y, a_dir a) /\ j = i \/ k <> (y, a_dir a) /\ w_dir w !! k = Some j.
Proof. destruct w. cbn. rewrite lookup_insert. case_decide; [intros [= <-]; by left|by right]. Qed.

Lemma looping_visit w0 x i passed y l res w : looping w0 x i passed (y :: l) res w -> state c A (visit i y w).
Proof using a_new.
  intros H. destruct (l_cell _ _ _ _ _ _ _ H) as (r & Hr). destruct (l_state _ _ _ _ _ _ _ H) as [G1 G2 G3 G4 G5 G6].
  split; try by destruct w.
  - apply set_dir_good; [by eapply lookup_lt_Some|done].
  - intros a' x' j e Ha' Hj He Hd Hl. apply visit_dir in Hj as [[_ ->]|[_ Hj]].
    + exfalso. apply a_new. destruct w. cbn in *. rewrite He in Hr. injection Hr as ->. cbn in Hd. rewrite Hd. by apply list_elem_of_fmap_2.
    + apply (G4 a' x' j e Ha' Hj); [by destruct w|done|by destruct w].
Qed.

Lemma looping_after w0 x i passed y l res w P b w2 : looping w0 x i passed (y :: l) res w -> answer c A (visit i y w) P b w2 ->
  distinct (w_runs w2) -> looping w0 x i passed (y :: l) res w2.
Proof using a_new a_made.
  intros H (_ & Hs & F) Hd. destruct (l_cell _ _ _ _ _ _ _ H) as (r & Hr). destruct (l_state _ _ _ _ _ _ _ H) as [G1 G2 G3 G4 G5 G6].
  destruct H as [H1 H2 H3 _ H5 H6 H7 H8]. assert (w_arrays (visit i y w) = w_arrays w) as Ew by by destruct w.
  assert (w_runs (visit i y w) = w_runs w) as Er by by destruct w.
  split; try done.
  - apply (frame_trans D _ _ w0 (visit i y w)); [|eapply frame_weaken; [..|exact F]; [done|intros z Hz; by right]].
    destruct H3 as [F1 F2 F3 F4 F5 F6]. split; try by destruct w. intros k j Hk. rewrite Ew. apply visit_dir in Hk as [[-> ->]|[_ Hk]].
    + right. split; [done|]. eexists. split; [exact Hr|]. left. left.
    + destruct (F4 k j Hk) as [|(Hj & e & He & Hd')]; [by left|]. right. split; [done|]. exists e. split; [done|]. by destruct w.
  - exists r. eapply prefix_lookup_Some; [|apply F]. by rewrite Ew.
  - intros k Hk. destruct (f_dir _ _ _ _ _ F k i Hk) as [Hk'|[Hlen _]].
    + apply visit_dir in Hk' as [[-> _]|[_ Hk']]; [split; [done|by right]|by apply H7].
    + rewrite Ew in Hlen. apply lookup_lt_Some in Hr. lia.
  - intros x' j e Hj Hne He Hde Hl. destruct (f_dir _ _ _ _ _ F _ j Hj) as [Hj'|(Hlen & e' & He' & Hnew)].
    + apply visit_dir in Hj' as [[_ ->]|[_ Hj']]; [done|]. destruct (lookup_lt_is_Some_2 (w_arrays w) j (g_dir _ _ G1 _ _ Hj')) as [e' He'].
      pose proof He' as He2. rewrite <- Ew in He2. pose proof (prefix_lookup_Some _ _ _ _ He2 (f_arrays _ _ _ _ _ F)) as E. rewrite He in E. injection E as <-.
      apply (H8 x' j e Hj' Hne He' Hde). apply (live_back _ w w2); [rewrite <- Er; apply F|done| |done].
      apply (g_arrays _ _ G1). by eapply list_elem_of_lookup_2.
    + exfalso. rewrite He in He'. injection He' as <-. rewrite Hde in Hnew. destruct Hnew as [Hin|(lv & Hlv & Hlt)]; [done|].
      assert (w_made w2 !! a_done a = Some (c_level c)) as E; [|rewrite Hlv in E; injection E as ->; lia].
      eapply prefix_lookup_Some; [exact a_made|]. etrans; [exact G6|]. etrans; [|apply F]. by destruct w.
Qed.

Lemma miss_does w0 x i passed y l res w : looping w0 x i passed (y :: l) res w -> (forall k, w_dir w !! k = Some i -> k.1 ∈ passed) -> a_checks a y = true ->
  (forall w, looping w0 x i (passed ++ [y]) l (Some false) w -> (forall k, w_dir w !! k = Some i -> k.1 ∈ passed ++ [y] /\ Some false = Some false) ->
    does w (cached matches (a_dir a) (a_checks a) (a_done a) i l) (answer c (a :: A) w0 (found (walk D (a_dir a) x)))) ->
  does w (smodify (visit i y) ;! let! b := matches y in smodify (set_result i (Some b)) ;!
    if b then sret true else cached matches (a_dir a) (a_checks a) (a_done a) i l) (answer c (a :: A) w0 (found (walk D (a_dir a) x))).
Proof using HD a_made a_new grows_matches matches_does.
  intros H Hown Hy IH. apply does_modify.
  eapply does_bind; [intros b; grow; by apply cached_grows|apply does_distinct, matches_does; [done|by eapply looping_visit]|].
  intros b w2 [Ha Hd2]. pose proof (looping_after _ _ _ _ _ _ _ _ _ _ _ H Ha Hd2) as H2. apply (looping_set _ _ _ _ _ _ _ (Some b)) in H2.
  apply does_modify. destruct Ha as (Hb & _ & _). destruct b.
  - apply does_ret. eapply looping_done; [exact H2|done|]. split; [|done]. intros _. apply Exists_cons. left. split; [done|by apply Hb].
  - apply IH.
    + apply looping_shift; [exact H2|]. intros _ Hm. by apply Hb in Hm.
    + intros k Hk. split; [|done]. destruct (l_own _ _ _ _ _ _ _ H2 k Hk) as [_ [Hp|[= ->]]]; apply elem_of_app; [by left|right; left].
Qed.

Lemma cached_does w0 x i l : forall passed res w, looping w0 x i passed l res w ->
  (forall k, w_dir w !! k = Some i -> k.1 ∈ passed /\ res = Some false) ->
  does w (cached matches (a_dir a) (a_checks a) (a_done a) i l) (answer c (a :: A) w0 (found (walk D (a_dir a) x))).
Proof using HD a_made a_new grows_matches matches_does.
  induction l as [|y l IH]; intros passed res w H Hown; cbn [cached].
  - apply does_ret. eapply looping_done; [done|intros k Hk; by apply (Hown k)|]. split; [done|]. by intros ?%Exists_nil.
  - destruct (a_checks a y) eqn:Hy.
    2: { apply (IH (passed ++ [y]) res); [by apply looping_shift; [|congruence]|]. intros k Hk. destruct (Hown k Hk). split; [|done]. apply elem_of_app. by left. }
    apply does_assume; [grow; try apply grows_matches; by apply cached_grows|]. intros Hd.
    assert (forall k, w_dir w !! k = Some i -> k.1 ∈ passed) as Hown' by (intros k Hk; by apply Hown).
    eapply does_read; [done|]. destruct (match _ with Some old => _ | None => None end) as [old|] eqn:E.
    2: { eapply miss_does; [done..|]. intros w'. by apply IH. }
    destruct (w_dir w !! (y, a_dir a)) as [j|] eqn:Hj; cbn [mbind option_bind] in E; [|done]. destruct (w_arrays w !! j) as [e|] eqn:He; [|done].
    destruct (SFeqb (e_run e) (w_dirruns w) && (e_done e =? a_done a)) eqn:Ehit; [|done]. injection E as <-.
    apply andb_true_iff in Ehit as [Hrun Hdone]. apply Nat.eqb_eq in Hdone.
    destruct (l_state _ _ _ _ _ _ _ H) as [G1 _ (p & Hp & Hp') _ _ _].
    assert (NoDup (passed ++ y :: l)) as Hnd by (rewrite <- (l_walk _ _ _ _ _ _ _ H); apply (walk_nodup D HD)).
    assert (j <> i) as Hji by (intros ->; apply Hown' in Hj; apply NoDup_app in Hnd as (_ & Hnd & _); apply (Hnd y); [done|left]).
    assert (live (c_start c) w (e_run e)) as Hlive.
    { destruct (g_arrays _ _ G1 e) as [[q Hq]%list_elem_of_lookup _]; [by eapply list_elem_of_lookup_2|].
      exists q. split; [|done]. rewrite (Hd q p _ _ Hq Hp'); [done|by right]. }
    destruct (l_others _ _ _ _ _ _ _ H y j e Hj Hji He Hdone Hlive) as (b & Hb & Htrue). rewrite Hb. apply does_modify, does_ret.
    eapply looping_done; [by eapply looping_set|done|]. cbn [default]. rewrite Htrue. eapply true_from_left; [done|by right].
Qed.

(** [newCache] is made. *)
Definition push (w : world) : world := set_arrays (w_arrays w ++ [Entry (w_dirruns w) (a_done a) None]) w.

Lemma looping_start w x : state c (a :: A) w -> looping w x (length (w_arrays w)) [] (walk D (a_dir a) x) None (push w).
Proof using a_made.
  intros [[G1 G2 G3 G4 G5] S2 S3 S4 S5 S6]. pose proof S4 as [S4a S4b]%(kept_app D (c_start c) [a] A).
  assert (forall j e, j < length (w_arrays w) -> w_arrays (push w) !! j = Some e -> w_arrays w !! j = Some e) as Hold.
  { intros j e Hj. destruct w. cbn in *. by rewrite lookup_app_l. }
  split; [done| | |by exists (w_dirruns w); destruct w; cbn; rewrite lookup_app_r, Nat.sub_diag by done|done|by intros z ?%elem_of_nil| |].
  - split; try by destruct w.
    + split.
      * intros k j Hk. destruct w. cbn in *. apply G1 in Hk. rewrite length_app. cbn. lia.
      * intros e He. assert (e ∈ w_arrays w \/ e = Entry (w_dirruns w) (a_done a) None) as [He'| ->].
        { destruct w. cbn in *. apply elem_of_app in He as [He|He]; [by left|right]. by apply list_elem_of_singleton in He. }
        -- destruct (G2 e He'). by destruct w.
        -- split; [apply live_in in S3; by destruct w|]. apply lookup_lt_Some in a_made. apply prefix_length in S6. destruct w. cbn in *. lia.
      * by destruct w.
      * by destruct w.
      * by destruct w.
    + intros a' x' j e Ha' Hj He Hd Hl. assert (w_dir w !! (x', a_dir a') = Some j) as Hj' by by destruct w.
      apply Hold in He; [|by eapply G1]. apply (S4b a' x' j e); [done..|by destruct w].
  - split; try by destruct w.
    + destruct w. cbn. by apply prefix_app_r.
    + intros k j Hk. left. by destruct w.
    + intros p r j d Hp. left. by destruct w.
    + intros y r d Hy. left. by destruct w.
  - intros k Hk. exfalso. assert (w_dir w !! k = Some (length (w_arrays w))) as Hk' by by destruct w. apply G1 in Hk'. lia.
  - intros x' j e Hj _ He Hd Hl. assert (w_dir w !! (x', a_dir a) = Some j) as Hj' by by destruct w.
    apply Hold in He; [|by eapply G1]. apply (S4a a x' j e); [left|done..|by destruct w].
Qed.

Lemma addCombinator_all_does comb base w x : first_of comb = false -> a_dir a = dir_of comb -> a_checks a = passes D base (dir_of comb) -> state c (a :: A) w ->
  does w (addCombinator D false matches comb base (a_done a) x) (answer c (a :: A) w (found (walk D (dir_of comb) x))).
Proof using HD a_made a_new grows_matches matches_does.
  intros Hf Hdir Hc Hs. unfold addCombinator. rewrite Hf, <- Hc, <- Hdir. cbn [negb]. apply does_get, does_modify.
  eapply cached_does; [by apply looping_start|].
  intros k Hk. exfalso. assert (w_dir w !! k = Some (length (w_arrays w))) as Hk' by by destruct w. apply (g_dir _ _ (s_good _ _ _ _ _ Hs)) in Hk'. lia.
Qed.
End combinators.

Lemma addCombinator_first_does askable D c A matches comb base d w x (means : nat -> Prop) : first_of comb = true -> state askable D c A w ->
  (forall y, find (passes D base (dir_of comb)) (walk D (dir_of comb) x) = Some y -> does w (matches y) (answer askable D c A w (means y))) ->
  does w (addCombinator D false matches comb base d x)
    (answer askable D c A w (exists y, find (passes D base (dir_of comb)) (walk D (dir_of comb) x) = Some y /\ means y)).
Proof.
  intros Hf Hs H. unfold addCombinator. rewrite Hf. destruct (find _ _) as [y|] eqn:E.
  - eapply does_impl; [by apply H|]. intros b w' (Hb & Hw). split; [|done]. rewrite Hb. split; [by exists y|]. by intros (y' & [= <-] & ?).
  - apply does_ret. split_and!; [|done|apply frame_refl]. split; [done|]. by intros (y & [=] & _).
Qed.

(** ** Positions among siblings *)

Lemma formula_holds_spec a b n : formula_holds a b n = true <-> exists k, (0 <= k)%Z /\ n = (a * k + b)%Z.
Proof.
  unfold formula_holds. rewrite orb_true_iff, !andb_true_iff, negb_true_iff, !Z.eqb_eq, Z.eqb_neq, Z.leb_le. split.
  - intros [H|[[Ha Hm] Hp]]; [exists 1%Z; lia|]. apply Z.mod_divide in Hm as [k Hk]; [|done]. exists k. split; [nia|lia].
  - intros (k & Hk & ->). replace (a * k + b - b)%Z with (k * a)%Z by lia. destruct (decide (a = 0%Z)) as [->|Ha]; [left; lia|right].
    split; [split; [done|by apply Z.mod_mul]|nia].
Qed.

Lemma numbered_app counts l1 y l2 : numbered counts (l1 ++ y :: l2) = (numbered counts l1 + (if counts y then numbered counts l2 else numbered counts l2 - 1))%Z.
Proof.
  unfold numbered. rewrite filter_app, filter_cons, length_app. destruct (decide (counts y = true)) as [E|E]; [rewrite E|destruct (counts y); [done|]]; cbn [length]; lia.
Qed.

Lemma numbered_rev counts l : numbered counts (rev l) = numbered counts l.
Proof. unfold numbered. rewrite rev_reverse. by rewrite (reverse_Permutation l). Qed.

Lemma count_to_found D x l1 l2 : element D x = true -> x ∉ l1 -> forall i diff,
  count_to D x (l1 ++ x :: l2) i diff = Some (i + length l1, (diff + numbered (element D) l1)%Z).
Proof.
  intros Hx. induction l1 as [|y l1 IH]; intros Hn i diff; cbn [app count_to].
  - rewrite Hx, decide_True by done. f_equal. f_equal. cbn. lia.
  - apply not_elem_of_cons in Hn as [Hxy Hn]. pose proof (numbered_app (element D) [] y l1) as E. cbn [app] in E. rewrite E. clear E.
    change (numbered (element D) []) with 1%Z. destruct (element D y) eqn:Ey.
    + rewrite decide_False by done. rewrite IH by done. f_equal. f_equal; cbn [length]; lia.
    + rewrite IH by done. f_equal. f_equal; cbn [length]; lia.
Qed.

Lemma count_to_none D x l : x ∉ l -> forall i diff, count_to D x l i diff = None.
Proof.
  induction l as [|y l IH]; intros Hn i diff; cbn [count_to]; [done|]. apply not_elem_of_cons in Hn as [Hxy Hn].
  destruct (element D y); [rewrite decide_False by done|]; by apply IH.
Qed.

Lemma seek_plain counts x l1 l2 w : counts x = true -> x ∉ l1 -> forall diff,
  seek counts false x (l1 ++ x :: l2) diff w = (w, Ok (diff + numbered counts l1)%Z).
Proof.
  intros Hx. induction l1 as [|y l1 IH]; intros Hn diff; cbn [app seek].
  - rewrite Hx. cbn. by rewrite decide_True.
  - apply not_elem_of_cons in Hn as [Hxy Hn]. pose proof (numbered_app counts [] y l1) as E. cbn [app] in E. rewrite E. clear E.
    change (numbered counts []) with 1%Z. destruct (counts y) eqn:Ey.
    + cbn. rewrite decide_False by done. rewrite IH by done. f_equal. f_equal. lia.
    + rewrite IH by done. f_equal. f_equal. lia.
Qed.

Section positions.
Context (askable : text -> Prop) (D : dom) (HD : well_formed D).
Notation state := (state askable D).
Notation answer := (answer askable D).

(** What a call leaves when it keeps a number that is right. *)
Lemma keep_nth c A w p i diff : state c A w -> nth_right D p i diff ->
  let w' := set_nth (<[p := (w_dirruns w, i, diff)]> (w_nth w)) w in
  state c A w' /\ frame D (c_level c) (a_done <$> A) w w'.
Proof.
  intros [[G1 G2 G3 G4 G5] S2 S3 S4 [S5 S5'] S6] Hr. pose proof (live_in _ _ _ S3) as S3'. destruct w as [r0 b0 o0 l0 d0 n0 t0 k0 m0 e0 f0]. cbn in *. split.
  - split; try done.
    + split; try done. cbn. intros p' r i' d. rewrite lookup_insert. case_decide; [by intros [= <- <- <-]|by apply G3].
    + split; [|done]. intros p' r i' d. cbn. rewrite lookup_insert. case_decide as Hp; [by intros [= <- <- <-]; subst|by apply S5].
  - split; cbn; auto. intros p' r i' d. rewrite lookup_insert. case_decide as Hp; [intros [= <- <- <-]; subst; by right|by left].
Qed.

Lemma keep_last c A w y diff : state c A w -> last_right D y diff ->
  let w' := set_last (<[y := (w_dirruns w, diff)]> (w_last w)) w in
  state c A w' /\ frame D (c_level c) (a_done <$> A) w w'.
Proof.
  intros [[G1 G2 G3 G4 G5] S2 S3 S4 [S5 S5'] S6] Hr. pose proof (live_in _ _ _ S3) as S3'. destruct w as [r0 b0 o0 l0 d0 n0 t0 k0 m0 e0 f0]. cbn in *. split.
  - split; try done.
    + split; try done. cbn. intros p' r d. rewrite lookup_insert. case_decide; [by intros [= <- <-]|by apply G4].
    + split; [done|]. intros p' r d. cbn. rewrite lookup_insert. case_decide as Hp; [by intros [= <- <-]; subst|by apply S5'].
  - split; cbn; auto. intros p' r d. rewrite lookup_insert. case_decide as Hp; [intros [= <- <-]; subst; by right|by left].
Qed.

(** A number, with the state and the frame left. *)
Definition gives (c : call) (A : list ask) (w : world) (n : Z) (m : Z) (w' : world) : Prop :=
  m = n /\ state c A w' /\ frame D (c_level c) (a_done <$> A) w w'.

Lemma same_run c A w r : state c A w -> distinct (w_runs w) -> r ∈ w_runs w -> SFeqb r (w_dirruns w) = true -> live (c_start c) w r.
Proof.
  intros Hs Hd [q Hq]%list_elem_of_lookup E. destruct (s_live _ _ _ _ _ Hs) as (p & Hp & Hp'). exists q. split; [|done].
  rewrite (Hd q p _ _ Hq Hp'); [done|by right].
Qed.

Lemma forward_diff_does c A w x p l1 l2 : state c A w -> element D x = true -> children D p = l1 ++ x :: l2 ->
  does w (forward_diff D x p) (gives c A w (numbered (element D) l1)).
Proof using HD.
  intros Hs Hx E. apply does_assume; [apply forward_diff_grows|]. intros Hd.
  pose proof (wf_nodup D HD p) as Hn. rewrite E in Hn. apply NoDup_app in Hn as (_ & Hn1 & _).
  assert (x ∉ l1) as Hx1 by (intros Hin; by apply (Hn1 x Hin); left).
  assert (forall i diff, Some (i, diff) = Some (length l1, numbered (element D) l1) -> nth_right D p i diff) as Hright.
  { intros i diff [= -> ->]. by exists l1, x, l2. }
  unfold does, forward_diff.
  set (known := match w_nth w !! p with Some _ => _ | None => _ end).
  assert (known = None \/ known = Some (length l1, numbered (element D) l1)) as [Ek|Ek].
  { subst known. destruct (w_nth w !! p) as [[[r [|i]] diff]|] eqn:Ew; [by left| |by left].
    destruct (SFeqb r (w_dirruns w) && _) eqn:Eh; [|by left]. apply andb_true_iff in Eh as [Hr _].
    destruct (proj1 (s_counted _ _ _ _ _ Hs) p r (S i) diff Ew) as (k1 & y & k2 & Ey & Hk & Hy & ->).
    { eapply same_run; [done..| |done]. by eapply g_nth; [apply Hs|]. }
    rewrite Ey. replace (drop (S (S i)) (k1 ++ y :: k2)) with k2.
    2: { change (y :: k2) with ([y] ++ k2). rewrite app_assoc, drop_app_length'; [done|]. rewrite length_app. cbn. lia. }
    destruct (decide (x ∈ k2)) as [Hin|Hin]; [|left; by apply count_to_none]. right.
    apply list_elem_of_split in Hin as (m1 & m2 & ->). assert (l1 = k1 ++ y :: m1 /\ l2 = m2) as [-> ->].
    { apply (children_split D HD p x); [done|]. rewrite Ey. by rewrite <- app_assoc. }
    rewrite count_to_found; [|done|]. 2: { intros Hin. apply Hx1, elem_of_app. right. by right. }
    f_equal. f_equal; [rewrite length_app; cbn; lia|]. rewrite numbered_app, Hy. done. }
  1: rewrite Ek, E, count_to_found by done.
  2: rewrite Ek.
  all: intros _; cbn [fst snd]; eexists; (split; [reflexivity|]); (split; [lia|]).
  all: apply keep_nth; [done|apply Hright; f_equal; f_equal; cbn; lia].
Qed.

(** The loop from the last child, with the numbers kept. *)
Lemma seek_does c A w0 x p l1 l2 : element D x = true -> parent D x = Some p -> children D p = l1 ++ x :: l2 ->
  forall k2 k1 w, rev l2 = k1 ++ k2 -> state c A w -> frame D (c_level c) (a_done <$> A) w0 w ->
  does w (seek (element D) true x (k2 ++ x :: rev l1) (numbered (element D) k1 - 1)) (gives c A w0 (numbered (element D) l2)).
Proof using HD.
  intros Hx Hp E k2. assert (x ∉ l2) as Hx2.
  { pose proof (wf_nodup D HD p) as Hn. rewrite E in Hn. apply NoDup_app in Hn as (_ & _ & [Hn _]%NoDup_cons). done. }
  assert (forall z m1 m2, rev (children D p) = m1 ++ z :: m2 -> last_right D z (numbered (element D) m1)) as Hright.
  { intros z m1 m2 Ez. apply (f_equal (@rev nat)) in Ez. rewrite rev_involutive, rev_app_distr in Ez. cbn [rev] in Ez. rewrite <- app_assoc in Ez. cbn in Ez.
    exists p, (rev m2), (rev m1). rewrite numbered_rev. split_and!; [|done..]. apply (wf_children D HD). rewrite Ez. apply elem_of_app. right. left. }
  assert (rev (children D p) = rev l2 ++ x :: rev l1) as Erev by (rewrite E, rev_app_distr; cbn; by rewrite <- app_assoc).
  induction k2 as [|z k2 IH]; intros k1 w Ek Hs F; cbn [app seek].
  - rewrite app_nil_r in Ek. rewrite Hx. cbn [swhen]. apply does_modify. rewrite decide_True by done. apply does_ret.
    replace (numbered (element D) k1 - 1 + 1)%Z with (numbered (element D) l2) by (rewrite <- Ek, numbered_rev; lia).
    split; [done|]. destruct (keep_last c A w x (numbered (element D) l2) Hs) as [H1 H2].
    + rewrite <- numbered_rev, Ek. eapply Hright. by rewrite Erev, Ek.
    + split; [done|]. by eapply frame_trans.
  - assert (x <> z) as Hxz.
    { intros ->. apply Hx2. rewrite <- elem_of_reverse, <- rev_reverse, Ek. apply elem_of_app. right. left. }
    pose proof (numbered_app (element D) k1 z []) as En. change (numbered (element D) []) with 1%Z in En. destruct (element D z) eqn:Ez.
    + cbn [swhen]. apply does_modify. rewrite decide_False by done.
      replace (numbered (element D) k1 - 1 + 1)%Z with (numbered (element D) (k1 ++ [z]) - 1)%Z by lia.
      destruct (keep_last c A w z (numbered (element D) (k1 ++ [z]) - 1) Hs) as [H1 H2].
      * replace (numbered (element D) (k1 ++ [z]) - 1)%Z with (numbered (element D) k1) by lia. apply (Hright z k1 (k2 ++ x :: rev l1)).
        rewrite Erev, Ek. by rewrite <- app_assoc.
      * apply IH; [rewrite Ek; by rewrite <- app_assoc|done|]. by eapply frame_trans.
    + replace (numbered (element D) k1 - 1)%Z with (numbered (element D) (k1 ++ [z]) - 1)%Z by lia.
      apply IH; [rewrite Ek; by rewrite <- app_assoc|done..].
Qed.

Lemma position_sat_at t o a b x p l1 l2 : parent D x = Some p -> children D p = l1 ++ x :: l2 ->
  position_sat D t o a b x <->
  let none l := Forall (fun y => alike D o x y = false) l in
  let in_formula l := exists k, (0 <= k)%Z /\ numbered (alike D o x) l = (a * k + b)%Z in
  match t with First => none l1 | Last => none l2 | Only => none l1 /\ none l2 | Nth => in_formula l1 | NthLast => in_formula l2 end.
Proof using HD.
  intros Hp E. split.
  - intros (p' & k1 & k2 & Hp' & E' & H). rewrite Hp in Hp'. injection Hp' as <-. by destruct (children_split D HD p x _ _ _ _ E E') as [-> ->].
  - intros H. by exists p, l1, l2.
Qed.

Lemma clear_spec o x l : forallb (fun y => negb (alike D o x y)) l = true <-> Forall (fun y => alike D o x y = false) l.
Proof. rewrite forallb_forall, Forall_forall. setoid_rewrite list_elem_of_In. by setoid_rewrite negb_true_iff. Qed.

Lemma nth_diff_does c A w t o x p l1 l2 : state c A w -> element D x = true -> parent D x = Some p -> children D p = l1 ++ x :: l2 ->
  does w (nth_diff D false t o x p) (gives c A w (numbered (alike D o x) (if is_last t then l2 else l1))).
Proof using HD.
  intros Hs Hx Hp E. pose proof (wf_nodup D HD p) as Hn. rewrite E in Hn. apply NoDup_app in Hn as (_ & Hn1 & [Hn2 _]%NoDup_cons).
  assert (x ∉ l1) as Hx1 by (intros Hin; by apply (Hn1 x Hin); left).
  assert (rev (children D p) = rev l2 ++ x :: rev l1) as Erev by (rewrite E, rev_app_distr; cbn; by rewrite <- app_assoc).
  assert (x ∉ rev l2) as Hx2 by by rewrite rev_reverse, elem_of_reverse.
  unfold nth_diff. cbn [negb andb]. destruct o; cbn [negb].
  - rewrite andb_false_r. apply does_get.
    replace (match w_last w !! x with Some (r, diff) => if false && SFeqb r (w_dirruns w) then Some diff else None | None => None end) with (@None Z)
      by by destruct (w_last w !! x) as [[? ?]|].
    assert (alike D true x x = true) as Hxx by by apply bool_decide_eq_true.
    unfold does. destruct (is_last t); [rewrite Erev, <- (numbered_rev _ l2)|rewrite E]; rewrite seek_plain by done; intros _; eexists; (split; [done|]);
      (split; [lia|split; [done|apply frame_refl]]).
  - rewrite andb_true_r. destruct (is_last t); cbn [negb]; [|by eapply forward_diff_does].
    apply does_assume; [grow; apply seek_grows|]. intros Hd. apply does_get.
    change (alike D false x) with (element D). destruct (match w_last w !! x with Some _ => _ | None => _ end) as [diff|] eqn:Ek.
    + destruct (w_last w !! x) as [[r diff']|] eqn:Ew; [|done]. destruct (SFeqb r (w_dirruns w)) eqn:Er; [|done]. cbn in Ek. injection Ek as ->.
      apply does_ret. destruct (proj2 (s_counted _ _ _ _ _ Hs) x r diff Ew) as (p' & k1 & k2 & Hp' & E' & ->).
      { eapply same_run; [done..| |done]. by eapply g_last; [apply Hs|]. }
      rewrite Hp in Hp'. injection Hp' as <-. destruct (children_split D HD p x _ _ _ _ E E') as [-> ->]. split_and!; [done..|apply frame_refl].
    + rewrite Erev. apply (seek_does c A w x p l1 l2 Hx Hp E (rev l2) [] w); [done..|apply frame_refl].
Qed.

Lemma position_test_does c A w t o a b x : state c A w -> element D x = true ->
  does w (position_test D false t o a b x) (answer c A w (position_sat D t o a b x)).
Proof using HD.
  intros Hs Hx. unfold position_test. destruct (is_nth t && (a =? 1)%Z && (b =? 0)%Z) eqn:Eshort.
  - apply andb_true_iff in Eshort as [[Ht ->%Z.eqb_eq]%andb_true_iff ->%Z.eqb_eq]. apply does_ret. split; [|split; [done|apply frame_refl]].
    rewrite bool_decide_eq_true. split.
    + intros [p Hp]. destruct (split_at D HD p x Hp) as (l1 & l2 & E). apply (position_sat_at t o 1 0 x p l1 l2 Hp E).
      destruct t; try done; cbn; [exists (numbered (alike D o x) l1)|exists (numbered (alike D o x) l2)]; unfold numbered; lia.
    + intros (p & _ & _ & Hp & _). by exists p.
  - destruct (parent D x) as [p|] eqn:Hp.
    2: { apply does_ret. split; [|split; [done|apply frame_refl]]. split; [done|]. intros (p & _ & _ & Hp' & _). congruence. }
    destruct (split_at D HD p x Hp) as (l1 & l2 & E). pose proof (position_sat_at t o a b x p l1 l2 Hp E) as Hsat.
    destruct t; cbn zeta beta iota in Hsat.
    1-3: apply does_ret; (split; [rewrite Hsat, ?andb_true_iff, !clear_spec|split; [done|apply frame_refl]]);
      rewrite ?(walk_previous D HD x p l1 l2 Hp E), ?(walk_next D HD x p l1 l2 Hp E), ?rev_reverse, ?Forall_reverse; done.
    all: eapply does_bind; [intros; apply grows_ret|by eapply nth_diff_does|]; intros n w' (-> & Hs' & F); apply does_ret;
      (split; [|by split]); rewrite Hsat, formula_holds_spec; done.
Qed.
End positions.
