(* ===== verification/SizzleMatch.v ===== *)
(** * Sizzle: what compiled matchers answer

    [run_does] says that a matcher that is called answers as its meaning [msat], which has no caches: combinators, the foundational matcher,
    [:not], which runs [superMatcher] with its own run, and [:has], for which the answers of the selectors in a selector are given.
    [outermost_does] says that the outermost [superMatcher] finds the elements that match, in order. *)

From Stdlib Require Import ZArith Lia Ascii SpecFloat.
From stdpp Require Import gmap strings relations.
From S2P Require Import Prelude JsString SizzleTokens SizzleLex Doubles Sizzle SizzleDom SizzleRun.

Local Open Scope nat_scope.
Local Open Scope js_scope.

(** ** Matchers *)

Definition bound (context : option nat) : bool := match context with Some y => negb (y =? document) | None => false end.

Section running.
Context (askable : text -> Prop) (D : dom) (HD : well_formed D) (random : nat -> double) (inner : text -> nat -> st_ex world (list nat)).
Context (fuel : nat) (inner_grows : forall t x, grows (inner t x)).
Notation state := (state askable D).
Notation answer := (answer askable D).
Notation run := (run D false random inner).

(** [:has] answers for the selectors in a selector. *)
Context (inner_does : forall t x c A w, askable t -> length t < fuel -> length t < c_level c -> element D x = true -> state c A w ->
  owned (c_made c) (c_level c) [] A ->
  does w (inner t x) (fun l w' => (l <> [] <-> has_of D (Matches D) t x) /\ state c A w' /\ frame D (c_level c) [] w w')).

Definition run_right (m : matcher) : Prop := forall c context w x, right askable (c_made c) (c_level c) m -> NoDup (dones m) ->
  (context = None -> leadless m) -> outermost_is context (c_outer c) = bound context -> c_level c <= fuel -> element D x = true ->
  state c (asks D context m) w -> does w (run context m x) (answer c (asks D context m) w (msat D context m x)).

Lemma answer_ret c A w P b : state c A w -> (b = true <-> P) -> does w (sret b) (answer c A w P).
Proof. intros Hs Hb. apply does_ret. split; [done|split; [done|apply frame_refl]]. Qed.

Lemma answer_iff c A w (P Q : Prop) e : (P <-> Q) -> does w e (answer c A w P) -> does w e (answer c A w Q).
Proof. intros H He. eapply does_impl; [exact He|]. intros b w' [Hb Hw]. split; [by rewrite Hb|done]. Qed.

(** After a call for some of the asks, the others are right too. *)
Lemma answer_extend c A B w P b w' : state c (A ++ B) w -> answer c A w P b w' -> distinct (w_runs w') ->
  owned (c_made c) (c_level c) (a_done <$> A) B -> state c (A ++ B) w' /\ frame D (c_level c) (a_done <$> A ++ B) w w'.
Proof.
  intros Hs (_ & Hs' & F) Hd Ho. split; [by eapply state_extend|]. eapply frame_weaken; [done| |exact F]. rewrite fmap_app. intros z Hz.
  apply elem_of_app. by left.
Qed.

Lemma all_asks_dones context ms a : a ∈ all_asks D context ms -> a_done a ∈ all_dones ms.
Proof. rewrite <- asks_all, <- dones_all. apply asks_dones. Qed.

Lemma owned_asks c context A m ms : Forall (right askable (c_made c) (c_level c)) (m :: ms) -> NoDup (all_dones (m :: ms)) ->
  A = asks D context m -> owned (c_made c) (c_level c) (a_done <$> A) (all_asks D context ms) /\
  owned (c_made c) (c_level c) (a_done <$> all_asks D context ms) A.
Proof.
  intros Hr Hn ->. apply NoDup_app in Hn as (_ & Hn & _). pose proof Hr as [Hm Hms]%Forall_cons. split; intros b Hb.
  - apply all_asks_dones in Hb as Hb'. split.
    + intros (a & E & Ha)%list_elem_of_fmap. apply asks_dones in Ha. rewrite <- E in Ha. by apply (Hn (a_done b)).
    + rewrite <- dones_all in Hb'. eapply (right_made askable (c_made c) (c_level c) (All ms)); [by apply right_all|done].
  - apply asks_dones in Hb as Hb'. split; [|by eapply right_made].
    intros (a & E & Ha)%list_elem_of_fmap. apply all_asks_dones in Ha. rewrite <- E in Ha. by apply (Hn (a_done b)).
Qed.

(** What the matchers of a list share. *)
Record callable (c : call) (context : option nat) (ms : list matcher) : Prop := {
  k_right : Forall (right askable (c_made c) (c_level c)) ms;
  k_nodup : NoDup (all_dones ms);
  k_lead : context = None -> Forall leadless ms;
  k_outer : outermost_is context (c_outer c) = bound context;
  k_level : c_level c <= fuel
}.

Lemma callable_cons c context m ms : callable c context (m :: ms) ->
  right askable (c_made c) (c_level c) m /\ NoDup (dones m) /\ (context = None -> leadless m) /\ callable c context ms.
Proof.
  intros [[H1 H1']%Forall_cons H2 H3 H4 H5]. apply NoDup_app in H2 as (H2 & _ & H2'). split_and!; [done..| |].
  - intros Hc. by apply H3, Forall_cons in Hc as [].
  - split; try done. intros Hc. by apply H3, Forall_cons in Hc as [].
Qed.

Lemma all_match_does c context x ms : Forall run_right ms -> callable c context ms -> element D x = true ->
  forall w, state c (all_asks D context ms) w ->
  does w (all_match (fun m => run context m x) ms) (answer c (all_asks D context ms) w (Forall (fun m => msat D context m x) ms)).
Proof using inner_grows.
  induction 1 as [|m ms Hm Hms IH]; intros Hc Hx w Hs; cbn [all_match]; [by apply answer_ret; [|split; [constructor|]]|].
  destruct (callable_cons _ _ _ _ Hc) as (C1 & C2 & C3 & C4).
  destruct (owned_asks c context (asks D context m) m ms (k_right _ _ _ Hc) (k_nodup _ _ _ Hc) eq_refl) as [O1 O2].
  change (all_asks D context (m :: ms)) with (asks D context m ++ all_asks D context ms) in *.
  assert (forall w, state c (all_asks D context ms ++ asks D context m) w <-> state c (asks D context m ++ all_asks D context ms) w) as Hswap.
  { intros w'. split; apply state_sub; intros z; rewrite !elem_of_app; tauto. }
  eapply does_bind; [intros []; [by apply run_grows|apply grows_ret]|apply does_distinct, IH; [done|done|]|].
  { eapply state_sub; [|exact Hs]. intros z Hz. apply elem_of_app. by right. }
  intros b w1 [Ha Hd1]. destruct (answer_extend c _ (asks D context m) w _ b w1 (proj2 (Hswap w) Hs) Ha Hd1 O2) as [Hs1 F1].
  destruct Ha as (Hb & _ & _). destruct b.
  - eapply does_impl; [apply does_distinct, Hm; try done; [apply Hc|apply Hc|]|].
    { eapply state_sub; [|exact Hs1]. intros z Hz. apply elem_of_app. by right. }
    intros b w2 [Ha2 Hd2]. destruct (answer_extend c _ (all_asks D context ms) w1 _ b w2 (proj1 (Hswap w1) Hs1) Ha2 Hd2 O1) as [Hs2 F2].
    split; [|split; [done|]].
    + rewrite Forall_cons, (proj1 Ha2). pose proof (proj1 Hb eq_refl). tauto.
    + eapply frame_trans; [|exact F2]. eapply frame_weaken; [done| |exact F1]. rewrite !fmap_app. intros z. rewrite !elem_of_app. tauto.
  - apply does_ret. split; [|split; [by apply Hswap|]].
    + split; [done|]. intros [_ H]%Forall_cons. by apply Hb in H.
    + eapply frame_weaken; [done| |exact F1]. rewrite !fmap_app. intros z. rewrite !elem_of_app. tauto.
Qed.

Lemma any_match_does c context x ms : Forall run_right ms -> callable c context ms -> element D x = true ->
  forall w, state c (all_asks D context ms) w ->
  does w (any_match (fun m => run context m x) ms) (answer c (all_asks D context ms) w (any_sat D context ms x)).
Proof using inner_grows.
  induction 1 as [|m ms Hm Hms IH]; intros Hc Hx w Hs; cbn [any_match].
  { apply answer_ret; [done|]. unfold any_sat. by rewrite Exists_nil. }
  destruct (callable_cons _ _ _ _ Hc) as (C1 & C2 & C3 & C4).
  destruct (owned_asks c context (asks D context m) m ms (k_right _ _ _ Hc) (k_nodup _ _ _ Hc) eq_refl) as [O1 O2].
  change (all_asks D context (m :: ms)) with (asks D context m ++ all_asks D context ms) in *.
  assert (forall w, state c (all_asks D context ms ++ asks D context m) w <-> state c (asks D context m ++ all_asks D context ms) w) as Hswap.
  { intros w'. split; apply state_sub; intros z; rewrite !elem_of_app; tauto. }
  eapply does_bind; [intros []; [apply grows_ret|apply any_match_grows; intros; by apply run_grows]|apply does_distinct, Hm; try done; [apply Hc|apply Hc|]|].
  { eapply state_sub; [|exact Hs]. intros z Hz. apply elem_of_app. by left. }
  intros b w1 [Ha Hd1]. destruct (answer_extend c _ (all_asks D context ms) w _ b w1 Hs Ha Hd1 O1) as [Hs1 F1].
  unfold any_sat. destruct b.
  - apply does_ret. split; [|by split]. split; [|done]. intros _. apply Exists_cons. left. by apply Ha.
  - eapply does_impl; [apply does_distinct, IH; [done..|]|].
    { eapply state_sub; [|exact Hs1]. intros z Hz. apply elem_of_app. by right. }
    intros b w2 [Ha2 Hd2]. destruct (answer_extend c _ (asks D context m) w1 _ b w2 (proj2 (Hswap w1) Hs1) Ha2 Hd2 O2) as [Hs2 F2].
    split; [|split; [by apply Hswap|]].
    + rewrite Exists_cons, (proj1 Ha2). unfold any_sat. assert (~ msat D context m x) by (intros H; by apply Ha in H). tauto.
    + eapply frame_trans; [exact F1|]. eapply frame_weaken; [done| |exact F2]. rewrite !fmap_app. intros z. rewrite !elem_of_app. tauto.
Qed.

(** *** One matcher *)

Lemma find_passes d l : find (passes D false d) l = find (element D) l.
Proof. induction l as [|y l IH]; [done|]. cbn. unfold passes at 1. by rewrite orb_false_r, IH. Qed.

Lemma outermost_unchanged w : w_outermost (new_run random w) = w_outermost w.
Proof. unfold new_run, increment. by destruct w as [? ? []]. Qed.

(** A new run leaves all for the caller, and none of its own. *)
Lemma new_run_frame level w : frame D level [] w (new_run random w).
Proof.
  assert (w_runs w `prefix_of` w_runs (new_run random w)) as Hr by (rewrite new_run_runs; by apply prefix_app_r).
  unfold new_run, increment in *. destruct w as [? ? []]; split; auto.
Qed.

Lemma new_run_good w : good_world askable w -> good_world askable (new_run random w).
Proof.
  assert (forall r, r ∈ w_runs w -> r ∈ w_runs (new_run random w)) as Hr by (intros r Hr; rewrite new_run_runs; apply elem_of_app; by left).
  intros [G1 G2 G3 G4 G5]. unfold new_run, increment in *. destruct w as [? ? []]; cbn in *; split; cbn; try done.
  all: try (intros e He; split; [apply Hr|]; by apply G2). all: intros; apply Hr; eauto.
Qed.

Lemma old_not_live w r : distinct (w_runs (new_run random w)) -> r ∈ w_runs w -> ~ live (length (w_runs w)) (new_run random w) r.
Proof.
  intros Hd [i Hi]%list_elem_of_lookup (j & Hj & Hr). pose proof (lookup_lt_Some _ _ _ Hi).
  assert (w_runs (new_run random w) !! i = Some r) as Hi'.
  { rewrite new_run_runs, lookup_app_l by done. done. }
  specialize (Hd i j r r Hi' Hr (or_introl eq_refl)). lia.
Qed.

(** A new run begins with nothing kept. *)
Lemma new_run_state w A o level made : good_world askable w -> w_outermost w = o -> made `prefix_of` w_made w ->
  distinct (w_runs (new_run random w)) -> state (Call (length (w_runs w)) o level made) A (new_run random w).
Proof.
  intros G Ho Hm Hd.
  assert (w_dir (new_run random w) = w_dir w /\ w_arrays (new_run random w) = w_arrays w /\ w_nth (new_run random w) = w_nth w /\
    w_last (new_run random w) = w_last w /\ w_made (new_run random w) = w_made w) as (E1 & E2 & E3 & E4 & E5).
  { unfold new_run, increment. by destruct w as [? ? []]. }
  split; cbn [c_start c_outer c_level c_made].
  - by apply new_run_good.
  - by rewrite outermost_unchanged.
  - exists (length (w_runs w)). split; [done|]. by rewrite new_run_runs, lookup_app_r, Nat.sub_diag.
  - intros a x i e _ _ He _ Hl. destruct (old_not_live w (e_run e) Hd); [|done]. rewrite E2 in He. apply (g_arrays _ _ G). by eapply list_elem_of_lookup_2.
  - split; [intros p r i d Hp Hl|intros y r d Hy Hl]; destruct (old_not_live w r Hd); try done.
    + rewrite E3 in Hp. by eapply g_nth.
    + rewrite E4 in Hy. by eapply g_last.
  - by rewrite E5.
Qed.

(** What a call of a lower level with its own run leaves is a state of the caller. *)
Lemma state_after c c' A w w' : state c [] w -> c_start c' = length (w_runs w) -> c_outer c' = c_outer c -> c_level c' < c_level c ->
  c_made c' = c_made c -> (forall d, d ∈ a_done <$> A -> c_made c !! d = Some (c_level c')) ->
  state c' A w' -> frame D (c_level c') (a_done <$> A) (new_run random w) w' -> distinct (w_runs w') ->
  state c [] w' /\ frame D (c_level c) [] w w'.
Proof.
  intros [G1 G2 G3 G4 G5 G6] C1 C2 C3 C4 HA [S1 S2 S3 S4 S5 S6] F Hd.
  assert (frame D (c_level c) [] w w') as F'.
  { eapply frame_trans; [apply new_run_frame|]. eapply frame_inside; [exact C3| |exact F]. intros d Hin.
    eapply prefix_lookup_Some; [by apply HA|]. by rewrite <- C4. }
  split; [|done]. split; [done|congruence| | | |by rewrite <- C4].
  - destruct S3 as (j & Hj & Hr). exists j. split; [|done]. destruct G3 as (i & Hi & Hi'). apply lookup_lt_Some in Hi'. lia.
  - by intros a x i e ?%elem_of_nil.
  - by eapply counted_frame.
Qed.

(** What [:not] calls: [superMatcher] for one element, with a run of its own. *)
Lemma one_does c (t : text) ms w x : length t < c_level c -> NoDup (all_dones ms) -> Forall (right askable (c_made c) (length t)) ms -> Forall leadless ms ->
  Forall run_right ms -> c_level c <= fuel -> element D x = true -> state c [] w ->
  does w (superMatcher D random (fun y => any_match (fun m => run None m y) ms) (Some [x]) None [] None)
    (fun l w' => (l = [] <-> ~ any_sat D None ms x) /\ state c [] w' /\ frame D (c_level c) [] w w').
Proof using inner_grows.
  intros Ht Hn Hr Hl Hms Hlevel Hx Hs. set (c' := Call (length (w_runs w)) (c_outer c) (length t) (c_made c)).
  assert (callable c' None ms) as Hc by (split; [done..|]; cbn; lia).
  assert (forall y, grows (any_match (fun m => run None m y) ms)) as Hg by (intros y; apply any_match_grows; intros; by apply run_grows).
  unfold superMatcher. apply does_get, does_modify, does_get. cbn [each].
  apply does_assume; [grow; apply Hg|]. intros Hd.
  eapply does_bind; [intros b; grow|apply does_distinct, (any_match_does c' None x ms Hms Hc Hx); apply new_run_state; [apply Hs|apply Hs|apply Hs|done]|].
  intros b w2 [(Hb & Hs2 & F2) Hd2]. eapply does_read; [done|]. apply does_ret.
  split; [|eapply (state_after c c'); [done..| |exact Hs2|exact F2|exact Hd2]].
  - destruct b; cbn; [|split; [intros _ H; by apply Hb in H|done]]. split; [done|]. intros H. destruct H. by apply Hb.
  - intros d (a & -> & Ha)%list_elem_of_fmap. apply all_asks_dones in Ha. rewrite <- dones_all in Ha.
    eapply (right_made askable (c_made c) (length t) (All ms)); [by apply right_all|done].
Qed.

Lemma negation_does t ms : Forall run_right ms -> run_right (Negation t ms).
Proof using inner_grows.
  intros Hms c context w x Hr _ _ _ Hlevel Hx Hs. apply (right_negation askable (c_made c) (c_level c)) in Hr as (Ht & Hn & Hr & Hl).
  cbn [Sizzle.run]. eapply does_bind; [intros; apply grows_ret|by apply (one_does c t)|].
  intros l w' (Hl' & Hw). apply does_ret. split; [|exact Hw]. rewrite msat_negation, bool_decide_eq_true. exact Hl'.
Qed.

Lemma containing_does t : run_right (Containing t).
Proof using inner_does.
  intros c context w x [Ht Ha] _ _ _ Hlevel Hx Hs. cbn [Sizzle.run]. eapply does_bind; [intros; apply grows_ret|apply (inner_does t x c []); try done; [lia|]|].
  { by intros b ?%elem_of_nil. }
  intros l w' (Hl' & Hw). apply does_ret. split; [|exact Hw]. cbn [msat]. rewrite <- Hl'. rewrite negb_true_iff, bool_decide_eq_false. done.
Qed.

Lemma combined_does m comb d : run_right m -> run_right (Combined m comb d).
Proof using HD inner_grows.
  intros Hm c context w x [Hd Hr] [Hdn Hn]%NoDup_cons Hl Ho Hlevel Hx Hs. cbn [Sizzle.run msat].
  destruct (first_of comb) eqn:Hf.
  - assert (asks D context (Combined m comb d) = asks D context m) as E by (cbn [asks]; by rewrite Hf). rewrite E in *.
    eapply answer_iff; [|apply (addCombinator_first_does askable D c _ _ comb false d w x (msat D context m) Hf Hs)].
    + rewrite find_passes. setoid_rewrite (find_related D HD comb x _ Hf). naive_solver.
    + intros y Hy. rewrite find_passes in Hy. apply (find_related D HD comb x y Hf) in Hy as [Hy _]. by apply Hm.
  - set (a := Ask d (dir_of comb) (passes D false (dir_of comb)) (msat D context m)).
    assert (asks D context (Combined m comb d) = a :: asks D context m) as E by (cbn [asks]; by rewrite Hf). rewrite E in *.
    eapply answer_iff; [|eapply (addCombinator_all_does askable D HD c (asks D context m) a); [| |exact Hd| |exact Hf|done|done|exact Hs]].
    + unfold found. rewrite Exists_exists. cbn [a_checks a_means a]. unfold passes. setoid_rewrite (walk_related D HD comb _ x Hf).
      setoid_rewrite orb_false_r. naive_solver.
    + intros y. by apply run_grows.
    + intros (b & Eb & Hb)%list_elem_of_fmap. cbn in Eb. subst d. by apply asks_dones in Hb.
    + intros y w' Hy Hs'. cbn in Hy. unfold passes in Hy. cbn in Hy. rewrite orb_false_r in Hy. by apply Hm.
Qed.

(** The foundational matcher looks for the context. *)
Lemma reach_first c y comb d w x A : first_of comb = true -> state c A w ->
  does w (addCombinator D false (fun z => sret (z =? y)) comb true d x) (answer c A w (reached D comb y x)).
Proof using HD random.
  intros Hf Hs.
  eapply answer_iff; [|apply (addCombinator_first_does askable D c _ _ comb true d w x (fun z => z = y) Hf Hs)].
  2: { intros z _. apply answer_ret; [done|apply Nat.eqb_eq]. }
  unfold reached. destruct comb; try done; cbn [dir_of related].
  - assert (forall l, find (passes D true ParentNode) l = hd_error l) as -> by (intros [|z l]; [done|]; cbn; unfold passes; cbn; by rewrite orb_true_r).
    destruct (parent D x) as [p|] eqn:Hp; [rewrite (walk_parent D HD _ _ Hp)|rewrite walk_none by done]; cbn; naive_solver.
  - assert (forall l, find (passes D true PreviousSibling) l = find (element D) l) as ->.
    { induction l as [|z l IH]; [done|]. cbn. unfold passes at 1. rewrite andb_false_r, orb_false_r. by rewrite IH. }
    setoid_rewrite (find_adjacent D HD x). naive_solver.
Qed.

Lemma reach_all c y comb d w x : first_of comb = false -> c_made c !! d = Some (c_level c) ->
  let a := Ask d (dir_of comb) (passes D true (dir_of comb)) (fun z => Some z = Some y) in state c [a] w ->
  does w (addCombinator D false (fun z => sret (z =? y)) comb true d x) (answer c [a] w (reached D comb y x)).
Proof using HD random.
  intros Hf Hd a Hs.
  eapply answer_iff; [|eapply (addCombinator_all_does askable D HD c [] a); [intros; apply grows_ret| |exact Hd| |exact Hf|done|done|exact Hs]].
  - unfold found. rewrite Exists_exists. cbn [a_checks a_means a]. setoid_rewrite (walk_related D HD comb _ x Hf). unfold reached, passes.
    destruct comb; try done; cbn; [setoid_rewrite orb_true_r|setoid_rewrite orb_false_r]; naive_solver.
  - by intros ?%elem_of_nil.
  - intros z w' _ Hs'. apply answer_ret; [done|]. cbn. rewrite Nat.eqb_eq. naive_solver.
Qed.

Lemma reachable_does lead d : run_right (Reachable lead d).
Proof using HD random.
  intros c context w x Hd _ Hl Ho Hlevel Hx Hs. cbn [right] in Hd. cbn [Sizzle.run orb]. apply does_get. destruct lead as [l|].
  - destruct context as [y|]; [|by discriminate Hl]. cbn [msat anchored]. 
    assert (asks D (Some y) (Reachable (Some l) d) =
      if first_of l then [] else [Ask d (dir_of l) (passes D true (dir_of l)) (fun z => Some z = Some y)]) as E by done.
    rewrite E in *. destruct (first_of l) eqn:Hf; [by apply reach_first|by apply reach_all].
  - rewrite (s_outer _ _ _ _ _ Hs), Ho. cbn [msat anchored]. destruct context as [y|]; cbn [bound negb]; [|by apply answer_ret].
    destruct (Nat.eqb_spec y document) as [->|Hy]; cbn [negb]; [by apply answer_ret|].
    eapply answer_iff; [|by apply reach_all]. unfold reached. cbn [related]. tauto.
Qed.

(** A matcher that is called answers as its meaning. *)
Lemma run_does m : run_right m.
Proof using HD inner_does inner_grows.
  induction m as [l d|k|t o a b|t ms IH|t|m c d IH|ms IH] using matcher_rect'.
  - apply reachable_does.
  - intros c context w x _ _ _ _ _ _ Hs. by apply answer_ret.
  - intros c context w x _ _ _ _ _ Hx Hs. by apply position_test_does.
  - by apply negation_does.
  - apply containing_does.
  - by apply combined_does.
  - intros c context w x Hr Hn Hl Ho Hlevel Hx Hs. apply (right_all askable) in Hr. rewrite dones_all in Hn. rewrite asks_all in *.
    eapply answer_iff; [symmetry; apply msat_all|]. apply all_match_does; try done. split; try done. intros Hc. by apply leadless_all, Hl.
Qed.

(** *** The outermost call *)

Lemma state_dirruns c A w r : live (c_start c) w r -> state c A w -> state c A (set_dirruns r w).
Proof. intros Hr [[G1 G2 G3 G4 G5] S2 S3 S4 S5 S6]. destruct w. split; done. Qed.

Lemma frame_dirruns level ds w w' r : frame D level ds w w' -> frame D level ds w (set_dirruns r w').
Proof. intros []. destruct w'. split; done. Qed.

Lemma frame_outermost level ds w w' o : frame D level ds w w' -> frame D level ds w (set_outermost o w').
Proof. intros []. destruct w'. split; done. Qed.

Lemma each_does c A u any P elems : (forall x, grows (any x)) ->
  (forall x w, element D x = true -> state c A w -> does w (any x) (answer c A w (P x))) -> Forall (fun x => element D x = true) elems ->
  forall w acc, state c A w -> live (c_start c) w u ->
  does w (each any (Some u) elems acc) (fun l w' => exists k, l = acc ++ k /\ picked P elems k /\ state c A w' /\ live (c_start c) w' u /\
    frame D (c_level c) (a_done <$> A) w w').
Proof.
  intros Hg Hany. induction 1 as [|x elems Hx _ IH]; intros w acc Hs Hu; cbn [each].
  - apply does_ret. exists []. rewrite app_nil_r. split_and!; [done|constructor|done|done|apply frame_refl].
  - eapply does_bind; [intros b; grow; by apply each_grows|by apply Hany|]. intros b w1 (Hb & Hs1 & F1).
    assert (live (c_start c) w1 u) as Hu1 by (eapply live_mono; [apply F1|done]). apply does_modify.
    eapply does_impl; [apply IH; [by apply state_dirruns|by destruct w1]|]. intros l w2 (k & -> & Hk & Hs2 & Hu2 & F2).
    assert (frame D (c_level c) (a_done <$> A) w w2) as F by (eapply frame_trans; [by apply frame_dirruns|exact F2]).
    destruct b; [exists (x :: k); split; [by rewrite <- app_assoc|]|exists k; split; [done|]]; (split; [|done]).
    + by apply picked_yes; [apply Hb|].
    + apply picked_no; [|done]. intros H. by apply Hb in H.
Qed.

(** What a query leaves for whoever made it. *)
Record called (level : nat) (w w' : world) : Prop := {
  d_good : good_world askable w';
  d_outer : w_outermost w' = w_outermost w;
  d_dirruns : w_dirruns w' = w_dirruns w \/ live (length (w_runs w)) w' (w_dirruns w');
  d_frame : frame D level [] w w'
}.

Lemma called_refl level w : good_world askable w -> called level w w.
Proof. intros G. split; [done..|by left|apply frame_refl]. Qed.

Lemma called_trans level w1 w2 w3 : called level w1 w2 -> called level w2 w3 -> called level w1 w3.
Proof.
  intros [G1 O1 R1 F1] [G2 O2 R2 F2]. split; [done|congruence| |by eapply frame_trans].
  destruct R2 as [R2|R2].
  - rewrite R2. destruct R1 as [R1|R1]; [by left|]. right. eapply live_mono; [apply F2|done].
  - right. destruct R2 as (j & Hj & R2). exists j. split; [|done]. pose proof (prefix_length _ _ (f_runs _ _ _ _ _ F1)). lia.
Qed.

Lemma state_called c A w w' : state c A w -> called (c_level c) w w' -> owned (c_made c) (c_level c) [] A -> distinct (w_runs w') -> state c A w'.
Proof.
  intros [G1 G2 G3 G4 G5 G6] [S1 S2 S3 F] Ho Hd. split; [done|congruence| | | |].
  - destruct S3 as [->|(j & Hj & Hr)]; [eapply live_mono; [apply F|done]|]. exists j. split; [|done].
    destruct G3 as (i & Hi & Hi'). apply lookup_lt_Some in Hi'. lia.
  - by eapply kept_frame.
  - by eapply counted_frame.
  - etrans; [done|apply F].
Qed.

(** [outermostContext] for a query from a context. *)
Definition outer_of (y : nat) : outer := if decide (y = document) then Document else Context y.

Lemma outermost_of y : outermost_is (Some y) (outer_of y) = bound (Some y).
Proof.
  unfold outer_of, bound. cbn. destruct (decide (y = document)) as [->|Hy]; [done|]. cbn. rewrite bool_decide_eq_true_2 by done.
  symmetry. apply negb_true_iff, Nat.eqb_neq. done.
Qed.

(** The outermost [superMatcher] picks the elements that match. *)
Lemma outermost_does t ms y seed o w : unit_of askable (w_made w) t ms -> length t <= fuel -> good_world askable w ->
  let elems := match seed with Some l => l | None => getElementsByTagName D (txt "*") o end in
  Forall (fun x => element D x = true) elems ->
  does w (superMatcher D random (fun x => any_match (fun m => run (Some y) m x) ms) seed (Some y) [] (Some o))
    (fun l w' => picked (Matches D (Some y) t) elems l /\ called (S (length t)) w w').
Proof using HD inner_does inner_grows.
  intros [U1 U2 U3 U4] Hlen G elems Helems. set (c := Call (length (w_runs w)) (outer_of y) (length t) (w_made w)).
  set (A := all_asks D (Some y) ms). assert (callable c (Some y) ms) as Hc by (split; [done|done|done|apply outermost_of|done]).
  assert (forall x, grows (any_match (fun m => run (Some y) m x) ms)) as Hg by (intros x; apply any_match_grows; intros; by apply run_grows).
  unfold superMatcher. apply does_get, does_modify, does_get. fold (outer_of y).
  apply does_assume; [grow; by apply each_grows|]. intros Hd. apply does_modify.
  pose proof (new_run_state w A (w_outermost w) (length t) (w_made w) G eq_refl (reflexivity _) Hd) as [[G1 G2 G3 G4 G5] S2 S3 S4 S5 S6].
  assert (state c A (set_outermost (outer_of y) (new_run random w))) as Hs by (destruct (new_run random w); split; done).
  set (u := w_dirruns (new_run random w)) in *.
  eapply does_bind; [intros; grow|apply does_distinct, (each_does c A u _ (any_sat D (Some y) ms))|].
  { done. } { intros x w' Hx Hs'. apply any_match_does; try done. apply Forall_forall. intros m _. apply run_does. } { done. } { done. }
  { destruct (new_run random w). exact S3. }
  intros l w2 [(k & -> & Hk & Hs2 & Hu2 & F2) Hd2]. apply does_modify, does_modify, does_ret. cbn [app].
  split; [|split].
  - clear -Hk U1. induction Hk; [constructor|apply picked_yes; [by apply U1|done]|apply picked_no; [by rewrite <- U1|done]].
  - destruct Hs2 as [[] _ _ _ _ _]. by destruct w2.
  - by destruct w2.
  - right. by destruct w2.
  - apply frame_outermost, frame_dirruns. eapply frame_trans; [apply frame_outermost, new_run_frame|].
    eapply frame_inside; [|intros d Hin|exact F2]; [cbn; lia|].
    apply list_elem_of_fmap in Hin as (a & -> & Ha). apply all_asks_dones in Ha. rewrite <- dones_all in Ha.
    eapply prefix_lookup_Some; [|apply (s_made _ _ _ _ _ Hs2)]. eapply (right_made askable (w_made w) (length t) (All ms)); [by apply right_all|done].
Qed.
End running.
