(* ===== verification/SizzleCompile.v ===== *)
(** * Sizzle: compilation is right

    [fine] is what a selector needs for [compile] not to throw: it and the selectors in it can be read, and have no pseudo-class that is
    not modelled or unknown.  [compile_does] says that what [compile_n] answers, from the cache or not, means what the selector means,
    and that the cache stays right. *)

From Stdlib Require Import ZArith Lia Ascii SpecFloat.
From stdpp Require Import gmap strings relations.
From S2P Require Import Prelude JsString SizzleTokens SizzleLex Doubles Sizzle SizzleDom SizzleRun.

Local Open Scope nat_scope.
Local Open Scope js_scope.

(** ** Selectors that compile *)

#[global] Instance combinator_eq_dec : EqDecision combinator.
Proof. solve_decision. Defined.
#[global] Instance position_eq_dec : EqDecision position.
Proof. solve_decision. Defined.
#[global] Instance kind_eq_dec : EqDecision kind.
Proof. solve_decision. Defined.
#[global] Instance token_eq_dec : EqDecision token.
Proof. solve_decision. Defined.

(** Whether a text has the tokens of one group. *)
Definition reads (s : text) (tokens : list token) : bool := match tokenize s with Ok groups => bool_decide (groups = [tokens]) | Throw _ => false end.

Definition seeds (k : kind) : bool := match k with TAG _ | CLASS _ | ID _ => true | _ => false end.
Definition is_relative (k : token) : bool := bool_decide (is_Some (relative (kind_of k))).
Definition always_seeds (k : token) : bool := match kind_of k with TAG _ | CLASS _ => true | _ => false end.

(** What is left when [select] takes a seed out, the last there is, has the tokens that are left. *)
Definition seed_stable (tokens : list token) : bool :=
  forallb (fun i => match tokens !! i with
    | Some k => negb (seeds (kind_of k)) || existsb (fun t => is_relative t || always_seeds t) (drop (S i) tokens) ||
        bool_decide (toSelector (delete i tokens) = []) || reads (toSelector (delete i tokens)) (delete i tokens)
    | None => true
    end) (seq 0 (length tokens)).

(** And when it takes an id in front out. *)
Definition id_stable (t : text) (tokens : list token) : bool :=
  match tokens with
  | t0 :: ((t1 :: _ :: _) as rest) =>
      match kind_of t0, relative (kind_of t1) with
      | ID _, Some _ => reads (drop (length (value t0)) t) rest && seed_stable rest
      | _, _ => true
      end
  | _ => true
  end.

Definition stable (t : text) : bool :=
  match tokenize t with Ok [tokens] => seed_stable tokens && id_stable t tokens | _ => true end.

Definition leads (g : list token) : bool :=
  match g with t :: _ => match relative (kind_of t) with Some _ => true | None => false end | [] => false end.

(** What [:not] has to compile has no combinator in front; what [:has] queries is [stable]. *)
Definition token_fine (fine : text -> bool) (not_fine : text -> bool) (k : kind) : bool :=
  match k with
  | PSEUDO n argument =>
      match pseudo_of n with
      | None => false
      | Some PNot => match argument with Some a => fine (trim a) && not_fine (trim a) | None => false end
      | Some PHas => fine (trim (default [] argument)) && stable (trim (default [] argument))
      | Some _ => true
      end
  | _ => true
  end.

Definition leadless_bool (t : text) : bool :=
  match tokenize t with Ok groups => forallb (fun g => negb (leads g)) groups | Throw _ => true end.

Fixpoint fine_n (n : nat) (t : text) : bool :=
  match n with
  | O => false
  | S n =>
      match tokenize t with
      | Ok groups => forallb (forallb (fun k => token_fine (fine_n n) leadless_bool (kind_of k))) groups
      | Throw _ => false
      end
  end.

Definition fine (t : text) : Prop := exists n, fine_n n t = true.

Lemma leadless_bool_text t : leadless_bool t = true -> leadless_text t.
Proof.
  unfold leadless_bool. intros H groups t0 g E Hin. rewrite E, forallb_forall in H. apply list_elem_of_In, H, negb_true_iff in Hin. cbn in Hin. by destruct (relative _).
Qed.

(** [:has] may be called with a selector that compiles and is stable. *)
Definition askable (a : text) : Prop := fine (trim a) /\ stable (trim a) = true.

Definition token_ok (k : kind) : Prop :=
  match k with
  | PSEUDO n argument =>
      match pseudo_of n with
      | None => False
      | Some PNot => exists a, argument = Some a /\ fine (trim a) /\ leadless_text (trim a)
      | Some PHas => askable (default [] argument)
      | Some _ => True
      end
  | _ => True
  end.

(** A selector that compiles can be read, and so can those in it. *)
Lemma fine_groups t : fine t -> exists groups, tokenize t = Ok groups /\ forall g x, g ∈ groups -> x ∈ g -> token_ok (kind_of x).
Proof.
  intros [[|n] H]; [done|]. cbn [fine_n] in H. destruct (tokenize t) as [groups|]; [|done]. exists groups.
  split; [done|]. intros g x Hg Hx. rewrite forallb_forall in H. apply list_elem_of_In, H in Hg. rewrite forallb_forall in Hg.
  apply list_elem_of_In, Hg in Hx. destruct (kind_of x) as [| | | | |m a|]; try done. unfold token_ok. unfold token_fine in Hx. destruct (pseudo_of m) as [[]|]; try done.
  - destruct a as [a|]; [|done]. apply andb_true_iff in Hx as [H1 H2]. exists a. split_and!; [done|by exists n|by apply leadless_bool_text].
  - apply andb_true_iff in Hx as [H1 H2]. split; [by exists n|done].
Qed.

(** ** Compilation *)

Section compiling.
Notation good_world := (good_world askable).
Notation unit_of := (unit_of askable).

(** What compilation changes: the numbers made and the cache. *)
Record compiles (w w' : world) : Prop := {
  m_good : good_world w';
  m_made : w_made w `prefix_of` w_made w';
  m_rest : w' = set_compiled (w_compiled w') (set_keys (w_keys w') (set_made (w_made w') w))
}.

Lemma compiles_refl w : good_world w -> compiles w w.
Proof. intros G. split; [done|done|by destruct w]. Qed.

Lemma compiles_trans w1 w2 w3 : compiles w1 w2 -> compiles w2 w3 -> compiles w1 w3.
Proof.
  intros [_ M1 E1] [G M2 E2]. split; [done|by etrans|]. rewrite E2 at 1. rewrite E1 at 1. by destruct w1, w2, w3.
Qed.

Lemma compiles_make (t : text) w : good_world w -> compiles w (set_made (w_made w ++ [length t]) w).
Proof.
  intros [G1 G2 G3 G4 G5]. split; [|destruct w; cbn; by apply prefix_app_r|by destruct w]. split; destruct w; cbn in *; try done.
  - intros e He. destruct (G2 e He). split; [done|]. rewrite length_app. cbn. lia.
  - intros u ms Hu. eapply unit_mono; [|by apply G5]. by apply prefix_app_r.
Qed.

(** Adding to the cache. *)
Lemma cache_put_compiles t ms w : good_world w -> unit_of (w_made w) t ms -> compiles w (cache_put t ms w).
Proof.
  intros [G1 G2 G3 G4 G5] U.
  assert (exists keys cache, cache_put t ms w = set_compiled (<[t := ms]> cache) (set_keys keys w) /\
    forall u ms', cache !! u = Some ms' -> w_compiled w !! u = Some ms') as (keys & cache & -> & Hc).
  { unfold cache_put. destruct (_ <? _)%nat; [|by do 2 eexists]. do 2 eexists. split; [done|]. intros u ms'.
    destruct (w_keys w ++ [t]) as [|k ks]; [done|]. by intros [_ ?]%lookup_delete_Some. }
  split; [|by destruct w..]. split; destruct w; cbn in *; try done.
  intros u ms'. rewrite lookup_insert. case_decide; [by intros [= <-]; subst|]. intros Hu. by apply G5, Hc.
Qed.

(** *** Tokens *)

(** What the tokens of a group mean, from its base on. *)
Definition sat (D : dom) (lead : option combinator) (context : option nat) (tokens : list token) : nat -> Prop :=
  tokens_sat D (Matches D None) (has_of D (Matches D)) (anchored D lead context) (rev tokens).

(** The matchers made so far for a group of [t]: their meaning, and the numbers, made since [w0]. *)
Record part (t : text) (lead : option combinator) (w0 : world) (tokens : list token) (ms : list matcher) (w : world) : Prop := {
  p_means D context x : Forall (fun m => msat D context m x) ms <-> sat D lead context tokens x;
  p_right : Forall (right askable (w_made w) (length t)) ms;
  p_nodup : NoDup (all_dones ms);
  p_fresh : Forall (fun d => length (w_made w0) <= d < length (w_made w)) (all_dones ms);
  p_leadless : lead = None -> Forall leadless ms
}.

Lemma elementMatcher_forall D context ms x : msat D context (elementMatcher ms) x <-> Forall (fun m => msat D context m x) ms.
Proof. destruct ms as [|m [|m' ms]]; [by rewrite <- msat_all|by rewrite Forall_singleton|by rewrite <- msat_all]. Qed.

Lemma elementMatcher_right made level ms : Forall (right askable made level) ms -> right askable made level (elementMatcher ms).
Proof. destruct ms as [|m [|m' ms]]; [done|by rewrite Forall_singleton|]. intros H. by apply (right_all askable made level (m :: m' :: ms)). Qed.

Lemma elementMatcher_dones ms : dones (elementMatcher ms) = all_dones ms.
Proof. destruct ms as [|m [|m' ms]]; [done|unfold all_dones; cbn; by rewrite app_nil_r|by rewrite <- dones_all]. Qed.

Lemma elementMatcher_leadless ms : Forall leadless ms -> leadless (elementMatcher ms).
Proof. destruct ms as [|m [|m' ms]]; [done|by rewrite Forall_singleton|]. intros H. by apply (leadless_all (m :: m' :: ms)). Qed.

Lemma all_dones_app l1 l2 : all_dones (l1 ++ l2) = all_dones l1 ++ all_dones l2.
Proof. unfold all_dones. by rewrite fmap_app, join_app. Qed.

Lemma part_compiles t lead w0 tokens ms w w' : compiles w w' -> part t lead w0 tokens ms w -> part t lead w0 tokens ms w'.
Proof.
  intros C [P1 P2 P3 P4 P5]. pose proof (prefix_length _ _ (m_made _ _ C)). split; try done.
  - eapply Forall_impl; [exact P2|]. intros m. apply right_mono, C.
  - eapply Forall_impl; [exact P4|]. cbn. intros d. lia.
Qed.

Lemma sat_snoc D lead context tokens k x : sat D lead context (tokens ++ [k]) x <->
  match relative (kind_of k) with
  | Some c => exists y, element D y = true /\ related D c y x /\ sat D lead context tokens y
  | None => token_sat D (Matches D None) (has_of D (Matches D)) (kind_of k) x /\ sat D lead context tokens x
  end.
Proof. unfold sat. rewrite rev_app_distr. done. Qed.

(** A combinator is put around the matchers so far. *)
Lemma part_combined t lead w0 tokens k c ms w : good_world w -> part t lead w0 tokens ms w -> w_made w0 `prefix_of` w_made w ->
  relative (kind_of k) = Some c ->
  part t lead w0 (tokens ++ [k]) [Combined (elementMatcher ms) c (length (w_made w))] (set_made (w_made w ++ [length t]) w).
Proof.
  intros G P Hm Hk. pose proof (part_compiles _ _ _ _ _ _ _ (compiles_make t w G) P) as [P1 P2 P3 P4 P5].
  pose proof (p_fresh _ _ _ _ _ _ P) as P4'. pose proof (prefix_length _ _ Hm).
  assert (w_made (set_made (w_made w ++ [length t]) w) = w_made w ++ [length t]) as E by by destruct w.
  assert (all_dones [Combined (elementMatcher ms) c (length (w_made w))] = length (w_made w) :: all_dones ms) as Ed.
  { unfold all_dones at 1. cbn. by rewrite app_nil_r, elementMatcher_dones. }
  split.
  - intros D context x. rewrite sat_snoc, Hk, Forall_singleton. cbn [msat]. by setoid_rewrite elementMatcher_forall; setoid_rewrite P1.
  - apply Forall_singleton. split; [|by apply elementMatcher_right]. by rewrite E, lookup_app_r, Nat.sub_diag.
  - rewrite Ed. constructor; [|done]. intros Hin. rewrite Forall_forall in P4'. apply P4' in Hin. lia.
  - rewrite Ed. constructor; [rewrite E, length_app; cbn; lia|done].
  - intros Hl. apply Forall_singleton, elementMatcher_leadless, P5, Hl.
Qed.

(** A filter is added to them. *)
Lemma part_filter t lead w0 tokens k ms m w : part t lead w0 tokens ms w -> relative (kind_of k) = None ->
  (forall D context x, msat D context m x <-> token_sat D (Matches D None) (has_of D (Matches D)) (kind_of k) x) ->
  right askable (w_made w) (length t) m -> dones m = [] -> leadless m -> part t lead w0 (tokens ++ [k]) (ms ++ [m]) w.
Proof.
  intros [P1 P2 P3 P4 P5] Hk Hm Hr Hd Hl. assert (all_dones (ms ++ [m]) = all_dones ms) as E.
  { rewrite all_dones_app. unfold all_dones at 2. cbn. by rewrite Hd, !app_nil_r. }
  split; rewrite ?E; try done.
  - intros D context x. rewrite sat_snoc, Hk, Forall_app, Forall_singleton, P1, Hm. tauto.
  - apply Forall_app. by rewrite Forall_singleton.
  - intros ->. apply Forall_app. rewrite Forall_singleton. by split; [apply P5|].
Qed.

(** *** Selectors *)

Definition returns {A} (w : world) (e : st_ex world A) (Q : A -> world -> Prop) : Prop := exists a w', e w = (w', Ok a) /\ Q a w'.

Lemma returns_ret {A} w (a : A) (Q : A -> world -> Prop) : Q a w -> returns w (sret a) Q.
Proof. intros H. by exists a, w. Qed.

Lemma returns_bind {A B} w (e : st_ex world A) (k : A -> st_ex world B) Q R :
  returns w e Q -> (forall a w', Q a w' -> returns w' (k a) R) -> returns w (sbind e k) R.
Proof. intros (a & w' & E & Ha) Hk. destruct (Hk a w' Ha) as (b & w2 & E2 & Hb). exists b, w2. split; [|done]. by rewrite (sbind_run _ _ _ _ _ E). Qed.

Lemma returns_get {A B} w (f : world -> A) (k : A -> st_ex world B) R : returns w (k (f w)) R -> returns w (sbind (sget f) k) R.
Proof. done. Qed.

Lemma returns_impl {A} w (e : st_ex world A) (Q R : A -> world -> Prop) : returns w e Q -> (forall a w', Q a w' -> R a w') -> returns w e R.
Proof. intros (a & w' & E & Ha) H. exists a, w'. auto. Qed.

(** [compile] for the selectors in a selector shorter than [n]. *)
Context (n : nat) (inner : text -> st_ex world (list matcher)).
Context (inner_does : forall a w, fine a -> length a < n -> good_world w ->
  returns w (inner a) (fun ms w' => unit_of (w_made w') a ms /\ compiles w w')).

Lemma filter_does k w (t : text) : token_ok k -> relative k = None ->
  (forall m a, k = PSEUDO m (Some a) -> length a < length t /\ length a < n) -> 0 < length t -> good_world w ->
  returns w (filter_of inner k) (fun m w' => compiles w w' /\
    (forall D context x, msat D context m x <-> token_sat D (Matches D None) (has_of D (Matches D)) k x) /\
    right askable (w_made w') (length t) m /\ dones m = [] /\ leadless m).
Proof using inner_does.
  intros Hk Hrel Ha Ht G. assert (forall k', k' = k -> (forall D x, token_sat D (Matches D None) (has_of D (Matches D)) k x <-> test D k x = true) ->
    returns w (sret (Test k')) (fun m w' => compiles w w' /\
    (forall D context x, msat D context m x <-> token_sat D (Matches D None) (has_of D (Matches D)) k x) /\
    right askable (w_made w') (length t) m /\ dones m = [] /\ leadless m)) as Htest.
  { intros k' -> H. apply returns_ret. split_and!; [by apply compiles_refl| |done..]. intros D context x. by rewrite H. }
  destruct k as [c|m|m|m o v|p o [a b]|m arg|m]; [done|by apply Htest..| | |by apply Htest].
  { apply returns_ret. split_and!; [by apply compiles_refl|done..]. }
  cbn [filter_of]. unfold token_ok in Hk. unfold token_sat in *. destruct (pseudo_of m) as [q|] eqn:Eq; [|done].
  destruct q; try (by apply Htest).
  - destruct Hk as (a & -> & Hf & Hl). destruct (Ha m a eq_refl) as [Ha1 Ha2]. pose proof (trim_length a) as Htr.
    eapply returns_bind; [apply (inner_does (trim a) w Hf); [lia|done]|]. intros ms w' [[U1 U2 U3 U4] C]. apply returns_ret.
    split_and!; [done| | |done..].
    + intros D context x. rewrite msat_negation, U1. done.
    + apply (right_negation askable (w_made w') (length t)). split_and!; [lia|done|done|by apply U4].
  - apply returns_ret. split_and!; [by apply compiles_refl|done| |done..]. split; [|done].
    destruct arg as [a|]; [by apply (Ha m a)|done].
Qed.

Lemma match_tokens_does (t : text) lead w0 rest : forall tokens ms w, part t lead w0 tokens ms w -> compiles w0 w -> 0 < length t ->
  Forall (fun k => token_ok (kind_of k)) rest ->
  (forall k m a, k ∈ rest -> kind_of k = PSEUDO m (Some a) -> length a < length t /\ length a < n) ->
  returns w (match_tokens inner t rest ms) (fun ms' w' => part t lead w0 (tokens ++ rest) ms' w' /\ compiles w0 w').
Proof using inner_does.
  induction rest as [|k rest IH]; intros tokens ms w P C Ht Hok Ha; cbn [match_tokens]; [rewrite app_nil_r; by apply returns_ret|].
  apply Forall_cons in Hok as [Hk Hok]. assert (forall k0 m a, k0 ∈ rest -> kind_of k0 = PSEUDO m (Some a) -> length a < length t /\ length a < n) as Ha'.
  { intros k0 m a Hin. apply Ha. by right. }
  replace (tokens ++ k :: rest) with ((tokens ++ [k]) ++ rest) by by rewrite <- app_assoc.
  pose proof (m_good _ _ C) as G. destruct (relative (kind_of k)) as [c|] eqn:Hrel.
  - eapply (returns_bind _ _ _ (fun d w' => d = length (w_made w) /\ w' = set_made (w_made w ++ [length t]) w)); [by do 2 eexists|].
    intros d w' [-> ->].
    apply IH; try done; [by apply part_combined; [done..|apply C|]|]. eapply compiles_trans; [done|by apply compiles_make].
  - eapply returns_bind; [apply (filter_does (kind_of k) w t); try done; intros m a; apply Ha; left|].
    intros m w' (C' & H1 & H2 & H3 & H4). apply IH; try done; [|by eapply compiles_trans]. apply part_filter; try done. by eapply part_compiles.
Qed.

(** The foundational matcher, then the tokens. *)
Definition lead_of (g : list token) : option combinator := match g with k :: _ => relative (kind_of k) | [] => None end.
Definition body_of (g : list token) : list token := match g with k :: rest => match relative (kind_of k) with Some _ => rest | None => g end | [] => [] end.

Lemma part_reachable (t : text) lead w : good_world w ->
  part t lead w [] [Reachable lead (length (w_made w))] (set_made (w_made w ++ [length t]) w).
Proof.
  intros G. assert (w_made (set_made (w_made w ++ [length t]) w) = w_made w ++ [length t]) as E by by destruct w. split.
  - intros D context x. by rewrite Forall_singleton.
  - apply Forall_singleton. cbn. by rewrite E, lookup_app_r, Nat.sub_diag.
  - by apply NoDup_singleton.
  - apply Forall_singleton. rewrite E, length_app. cbn. lia.
  - intros ->. by apply Forall_singleton.
Qed.

Lemma matcherFromTokens_does (t : text) w g : g <> [] -> good_world w -> 0 < length t -> Forall (fun k => token_ok (kind_of k)) g ->
  (forall k m a, k ∈ g -> kind_of k = PSEUDO m (Some a) -> length a < length t /\ length a < n) ->
  returns w (matcherFromTokens inner t g) (fun m w' => part t (lead_of g) w (body_of g) [m] w' /\ compiles w w').
Proof using inner_does.
  intros Hg G Ht Hok Ha. destruct g as [|k g]; [done|]. cbn [matcherFromTokens lead_of body_of].
  set (lead := relative (kind_of k)).
  eapply (returns_bind _ _ _ (fun d w' => d = length (w_made w) /\ part t lead w [] [Reachable lead d] w' /\ compiles w w')).
  { do 2 eexists. split; [done|]. split_and!; [done|by apply part_reachable|by apply compiles_make]. }
  intros d w1 (-> & P1 & C1). eapply (returns_bind _ _ _ (fun d w' => compiles w1 w')).
  { do 2 eexists. split; [done|]. apply compiles_make, C1. }
  intros d2 w2 C2. pose proof (part_compiles _ _ _ _ _ _ _ C2 P1) as P2. pose proof (compiles_trans _ _ _ C1 C2) as C.
  eapply returns_bind; [apply (match_tokens_does t lead w _ [] _ w2 P2 C Ht)|].
  - destruct lead; [by apply Forall_cons in Hok as []|done].
  - intros k' m a Hin. apply Ha. destruct lead; [by right|done].
  - intros ms w3 [[Q1 Q2 Q3 Q4 Q5] C3]. apply returns_ret. split; [|done]. cbn [app] in *. fold lead.
    assert (all_dones [elementMatcher ms] = all_dones ms) as E by (unfold all_dones at 1; cbn; by rewrite app_nil_r, elementMatcher_dones).
    split; rewrite ?E; try done.
    + intros D context x. by rewrite Forall_singleton, elementMatcher_forall, Q1.
    + by apply Forall_singleton, elementMatcher_right.
    + intros Hl. by apply Forall_singleton, elementMatcher_leadless, Q5.
Qed.

(** What groups are compiled to. *)
Record parts (t : text) (w0 : world) (groups : list (list token)) (ms : list matcher) (w : world) : Prop := {
  q_means D context x : any_sat D context ms x <-> Exists (fun g => sat D (lead_of g) context (body_of g) x) groups;
  q_right : Forall (right askable (w_made w) (length t)) ms;
  q_nodup : NoDup (all_dones ms);
  q_fresh : Forall (fun d => length (w_made w0) <= d < length (w_made w)) (all_dones ms);
  q_leadless : Forall (fun g => lead_of g = None) groups -> Forall leadless ms
}.

Lemma parts_cons (t : text) w0 w1 w2 g groups m ms : part t (lead_of g) w0 (body_of g) [m] w1 -> w_made w0 `prefix_of` w_made w1 -> compiles w1 w2 ->
  parts t w1 groups ms w2 -> parts t w0 (g :: groups) (m :: ms) w2.
Proof.
  intros P M C [Q1 Q2 Q3 Q4 Q5]. pose proof (p_fresh _ _ _ _ _ _ P) as P4'. apply (part_compiles _ _ _ _ _ _ _ C) in P as [P1 P2 P3 P4 P5].
  pose proof (prefix_length _ _ (m_made _ _ C)). pose proof (prefix_length _ _ M).
  assert (all_dones (m :: ms) = all_dones [m] ++ all_dones ms) as E by by rewrite <- all_dones_app.
  split; rewrite ?E.
  - intros D context x. unfold any_sat. rewrite !Exists_cons. rewrite <- P1, Forall_singleton. by rewrite <- (Q1 D context x).
  - constructor; [by apply Forall_singleton|done].
  - apply NoDup_app. split_and!; [done| |done]. intros d Hd Hd'. rewrite Forall_forall in P4', Q4. apply P4' in Hd. apply Q4 in Hd'. lia.
  - apply Forall_app. split; [done|]. eapply Forall_impl; [exact Q4|]. cbn. lia.
  - intros [Hg Hgs]%Forall_cons. constructor; [by apply Forall_singleton, P5|by apply Q5].
Qed.

Lemma match_groups_does (t : text) groups : forall w, good_world w ->
  Forall (fun g => g <> [] /\ 0 < length t /\ Forall (fun k => token_ok (kind_of k)) g /\
    forall k m a, k ∈ g -> kind_of k = PSEUDO m (Some a) -> length a < length t /\ length a < n) groups ->
  returns w (match_groups inner t groups) (fun ms w' => parts t w groups ms w' /\ compiles w w').
Proof using inner_does.
  induction groups as [|g groups IH]; intros w G H; cbn [match_groups].
  - apply returns_ret. split; [|by apply compiles_refl]. split; try constructor; try done. all: unfold any_sat; rewrite ?Exists_nil; done.
  - apply Forall_cons in H as [(H1 & H0 & H2 & H3) H]. eapply returns_bind; [by apply matcherFromTokens_does|]. intros m w1 [P C1].
    eapply returns_bind; [apply IH; [apply C1|done..]|]. intros ms w2 [Q C2]. apply returns_ret. split; [|by eapply compiles_trans].
    eapply parts_cons; [exact P|apply C1|done..].
Qed.

Lemma groups_sat_parts D context t groups x : tokenize t = Ok groups ->
  Exists (fun g => sat D (lead_of g) context (body_of g) x) groups <-> Matches D context t x.
Proof.
  intros E. rewrite Matches_groups. unfold groups_sat. rewrite Exists_exists.
  assert (forall g, g ∈ groups -> sat D (lead_of g) context (body_of g) x <-> group_sat D (Matches D None) (has_of D (Matches D)) context g x) as Hg.
  { intros g Hin. assert (g <> []) as Hne.
    { destruct t as [|c t]; [injection E as <-; by apply elem_of_nil in Hin|]. destruct (tokens_text _ _ E) as (seps & _ & Hne & _); [done|].
      rewrite Forall_forall in Hne. by apply Hne. }
    destruct g as [|k g]; [done|]. unfold group_sat, sat, lead_of, body_of. by destruct (relative (kind_of k)). }
  split.
  - intros (g & Hin & Hs). exists groups, g. split_and!; [done..|]. by apply Hg.
  - intros (groups' & g & E' & Hin & Hs). rewrite E in E'. injection E' as <-. exists g. split; [done|]. by apply Hg.
Qed.

(** What [compile] is given: nothing, or the groups of the selector. *)
Definition groups_of (t : text) (groups : option (list (list token))) : Prop := forall g, groups = Some g -> tokenize t = Ok g.

Lemma compile_right (t : text) groups w : fine t -> length t <= n -> groups_of t groups ->
  good_world w -> returns w (compile inner t groups) (fun ms w' => unit_of (w_made w') t ms /\ compiles w w').
Proof using inner_does.
  intros Hf Hn Hg G. unfold compile. apply returns_get. destruct (w_compiled w !! t) as [ms|] eqn:Ec.
  { apply returns_ret. split; [by apply (g_units _ _ G)|by apply compiles_refl]. }
  destruct (fine_groups t Hf) as (gs & Egs & Hok).
  eapply (returns_bind _ _ _ (fun g w' => g = gs /\ w' = w)).
  { destruct groups as [g|]; [rewrite (Hg g eq_refl) in Egs; injection Egs as ->; by do 2 eexists|]. rewrite Egs. by do 2 eexists. }
  intros g w1 [-> ->].
  eapply returns_bind; [apply (match_groups_does t (rev gs) w G)|].
  { rewrite rev_reverse, Forall_reverse, Forall_forall. intros g Hin.
    destruct t as [|c t0]; [injection Egs as <-; by apply elem_of_nil in Hin|]. destruct (tokens_text _ _ Egs) as (seps & _ & Hne & _); [done|].
    rewrite Forall_forall in Hne. split_and!; [by apply Hne|cbn; lia|rewrite Forall_forall; intros k Hk; by apply (Hok g)|].
    intros k m a Hk Em. pose proof (argument_shorter _ _ _ _ _ _ Egs Hin Hk Em). lia. }
  intros ms w1 [[Q1 Q2 Q3 Q4 Q5] C].
  assert (forall D context x, any_sat D context ms x <-> Matches D context t x) as Hm.
  { intros D context x. rewrite Q1, <- (groups_sat_parts D context t gs x Egs), !Exists_exists. setoid_rewrite rev_reverse. by setoid_rewrite elem_of_reverse. }
  assert (unit_of (w_made w1) t ms) as U.
  { split; try done. intros Hl. apply Q5. rewrite rev_reverse, Forall_reverse, Forall_forall. intros [|k g] Hin; [done|]. by apply (Hl gs k g). }
  eapply (returns_bind _ _ _ (fun _ w' => w' = cache_put t ms w1)); [by do 2 eexists|]. intros [] w2 ->. apply returns_ret.
  pose proof (cache_put_compiles t ms w1 (m_good _ _ C) U) as C2. split; [|by eapply compiles_trans]. eapply unit_mono; [apply C2|exact U].
Qed.
End compiling.

Lemma compile_n_does n : forall t groups w, fine t -> length t < n -> groups_of t groups -> good_world askable w ->
  returns w (compile_n n t groups) (fun ms w' => unit_of askable (w_made w') t ms /\ compiles w w').
Proof.
  induction n as [|n IH]; intros t groups w Hf Hn Hg G; [lia|]. cbn [compile_n].
  apply (compile_right n (fun t => compile_n n t None)); try done; [|lia].
  intros a w' Ha Hl G'. by apply IH.
Qed.
