(* ===== verification/SizzleQuery.v ===== *)
(** * Sizzle: shortcuts of queries

    [select] takes an id in front and a seed out of a selector, and [Sizzle] answers some selectors without compiling anything.
    [shortcuts_right] and [quick_right] say that what they leave finds what the selector finds. *)

From Stdlib Require Import ZArith Lia Ascii SpecFloat.
From stdpp Require Import gmap strings relations.
From S2P Require Import Prelude JsString SizzleTokens SizzleLex Doubles Sizzle SizzleDom SizzleRun SizzleCompile.

Local Open Scope nat_scope.
Local Open Scope js_scope.

(** ** What is picked *)

Lemma picked_elem P l k x : picked P l k -> x ∈ k <-> x ∈ l /\ P x.
Proof.
  induction 1 as [|y l k Hy _ IH|y l k Hy _ IH]; [split; [intros ?%elem_of_nil|intros [?%elem_of_nil _]]; done|..];
    rewrite ?elem_of_cons, IH; naive_solver.
Qed.

Lemma picked_all (P : nat -> Prop) l : Forall P l -> picked P l l.
Proof. induction 1; by constructor. Qed.

Lemma picked_iff (P Q : nat -> Prop) l k : (forall x, P x <-> Q x) -> picked P l k -> picked Q l k.
Proof. intros H. induction 1; [constructor|apply picked_yes; [by apply H|done]|apply picked_no; [by rewrite <- H|done]]. Qed.

Lemma picked_filter (P Q : nat -> Prop) (p q : nat -> bool) l : forall k, picked P (filter (fun x => p x = true) l) k ->
  (forall x, x ∈ l -> (q x = true /\ Q x) <-> (p x = true /\ P x)) -> picked Q (filter (fun x => q x = true) l) k.
Proof.
  induction l as [|x l IH]; intros k Hk H; [by inversion Hk; constructor|].
  assert (forall k, picked P (filter (fun x => p x = true) l) k -> picked Q (filter (fun x => q x = true) l) k) as IH'.
  { intros k' Hk'. apply IH; [done|]. intros y Hy. apply H. by right. }
  specialize (H x (list_elem_of_here x l)). rewrite filter_cons in *.
  destruct (decide (p x = true)) as [Hp|Hp].
  - inversion Hk as [|? ? k' HP Hk'|? ? k' HP Hk']; subst.
    + rewrite decide_True by tauto. apply picked_yes; [tauto|]. by apply IH'.
    + destruct (decide (q x = true)); [apply picked_no; [tauto|]|]; by apply IH'.
  - destruct (decide (q x = true)); [apply picked_no; [tauto|]|]; by apply IH'.
Qed.

Section queries.
Context (D : dom) (HD : well_formed D).
Notation ancestor := (ancestor D).
Notation related := (related D).
Notation gsat := (group_sat D (Matches D None) (has_of D (Matches D))).

Lemma picked_nodes (P Q : nat -> Prop) p q k : picked P (nodes D p) k ->
  (forall x, (q x = true /\ Q x) <-> (p x = true /\ P x)) -> picked Q (nodes D q) k.
Proof. intros Hk H. by eapply picked_filter. Qed.

Lemma elem_of_nodes p x : x ∈ nodes D p <-> p x = true /\ x < length D.
Proof. unfold nodes. rewrite list_elem_of_filter, list_elem_of_In, in_seq. split; intros [? ?]; (split; [done|lia]). Qed.

Lemma element_size x : element D x = true -> x < length D.
Proof. unfold element, type_of, get. intros H. destruct (D !! x) eqn:E; [by eapply lookup_lt_Some|done]. Qed.

Lemma element_document x : element D x = true -> x <> document.
Proof using HD. unfold element. intros H%Z.eqb_eq ->. pose proof (proj2 (wf_document D HD document) eq_refl). congruence. Qed.

(** *** Above and below *)

Lemma contains_ancestor c x : contains D c x = true <-> ancestor c x.
Proof using HD. unfold contains. rewrite bool_decide_eq_true. by apply walk_ancestor. Qed.

Lemma ancestor_parent o x p : ancestor o x -> parent D x = Some p -> o = p \/ ancestor o p.
Proof. intros H Hp. destruct H as [x o H|x z o H Ho]; rewrite Hp in H; injection H as <-; [by left|by right]. Qed.

Lemma sibling_parent c y x : c = Next \/ c = Sibling -> related c y x -> exists p, parent D x = Some p /\ parent D y = Some p.
Proof using HD.
  assert (forall p l1 l2 l3, children D p = l1 ++ y :: l2 ++ x :: l3 -> parent D y = Some p) as Hy.
  { intros p l1 l2 l3 E. apply (wf_children D HD). rewrite E. apply elem_of_app. right. left. }
  intros [-> | ->]; [intros (p & l1 & l2 & l3 & Hp & E & _)|intros (p & l1 & l2 & l3 & Hp & E)]; exists p; (split; [done|]); by eapply Hy.
Qed.

Lemma related_below o c y x : ancestor o y -> related c y x -> ancestor o x.
Proof using HD.
  intros Ho H. destruct c; cbn in H.
  - by eapply tc_l.
  - by eapply tc_transitive.
  - destruct (sibling_parent Next y x) as (p & Hx & Hy); [by left|done|]. destruct (ancestor_parent o y p Ho Hy) as [->|Hp]; [by apply tc_once|by eapply tc_l].
  - destruct (sibling_parent Sibling y x) as (p & Hx & Hy); [by right|done|]. destruct (ancestor_parent o y p Ho Hy) as [->|Hp]; [by apply tc_once|by eapply tc_l].
Qed.

Lemma document_top y : ~ ancestor y document.
Proof using HD. intros H%(ancestor_below D HD). unfold document in H. lia. Qed.

Lemma related_above c y x : ancestor document x -> related c y x -> y = document \/ ancestor document y.
Proof using HD.
  intros Ho H. destruct c; cbn in H.
  - destruct (ancestor_parent _ _ _ Ho H); auto.
  - revert Ho. induction H as [x y H|x z y H H' IH]; intros Ho; destruct (ancestor_parent _ _ _ Ho H) as [E|Ho']; auto.
    subst z. by apply document_top in H'.
  - destruct (sibling_parent Next y x) as (p & Hx & Hy); [by left|done|]. right. destruct (ancestor_parent _ x p Ho Hx) as [->|Hp]; [by apply tc_once|by eapply tc_l].
  - destruct (sibling_parent Sibling y x) as (p & Hx & Hy); [by right|done|]. right. destruct (ancestor_parent _ x p Ho Hx) as [->|Hp]; [by apply tc_once|by eapply tc_l].
Qed.

Lemma up_parent y p : parent D y = Some p -> up D y = p.
Proof using HD.
  intros Hp. unfold up. rewrite Hp. unfold has_methods. destruct (wf_parents D HD y p Hp) as [He| ->].
  - unfold element in He. by rewrite He.
  - assert (type_of D document = 9%Z) as -> by by apply (wf_document D HD). done.
Qed.

Lemma up_document : up D document = document.
Proof using HD. unfold up. by rewrite document_parent. Qed.

Lemma up_above y x : ancestor y x -> ancestor (up D y) x.
Proof using HD.
  intros H. destruct (parent D y) as [p|] eqn:Hp; [|unfold up; by rewrite Hp]. rewrite (up_parent y p Hp). eapply tc_r; [exact H|done].
Qed.

(** *** Tokens *)

Section tokens.
Context (not_ has_ : text -> nat -> Prop).
Notation tsat := (tokens_sat D not_ has_).

(** What is above the base is above what satisfies the tokens. *)
Lemma tokens_below (P base : nat -> Prop) ts : (forall c y x, P y -> related c y x -> P x) -> (forall z, base z -> P z) ->
  forall x, tsat base ts x -> P x.
Proof.
  intros HP Hb. induction ts as [|t ts IH]; intros x; cbn [tokens_sat]; [apply Hb|]. destruct (relative (kind_of t)) as [c|].
  - intros (y & _ & Hr & Hy). eapply HP; [by apply IH|done].
  - intros [_ H]. by apply IH.
Qed.

(** In the document, the base matters only there. *)
Lemma tokens_in_document (base1 base2 : nat -> Prop) ts : (forall z, ancestor document z -> base1 z <-> base2 z) ->
  forall x, ancestor document x -> tsat base1 ts x <-> tsat base2 ts x.
Proof using HD.
  intros Hb. induction ts as [|t ts IH]; intros x Hx; cbn [tokens_sat]; [by apply Hb|]. destruct (relative (kind_of t)) as [c|]; [|by rewrite IH].
  assert (forall y, element D y = true -> related c y x -> tsat base1 ts y <-> tsat base2 ts y) as H; [|naive_solver].
  intros y Hy Hr. apply IH. destruct (related_above c y x Hx Hr) as [->|]; [|done]. by apply element_document in Hy.
Qed.

Lemma tokens_app base l1 l2 x : tsat base (l1 ++ l2) x <-> tsat (tsat base l2) l1 x.
Proof.
  revert x. induction l1 as [|t l1 IH]; intros x; cbn [app tokens_sat]; [done|]. destruct (relative (kind_of t)); [by setoid_rewrite IH|by rewrite IH].
Qed.

(** A filter of the last compound selector can be taken out. *)
Lemma tokens_take base l1 k l2 x : relative (kind_of k) = None -> Forall (fun t => relative (kind_of t) = None) l2 ->
  tsat base (rev (l1 ++ k :: l2)) x <-> token_sat D not_ has_ (kind_of k) x /\ tsat base (rev (l1 ++ l2)) x.
Proof.
  intros Hk Hl. rewrite !rev_app_distr. cbn [rev]. rewrite <- app_assoc. cbn [app].
  assert (Forall (fun t => relative (kind_of t) = None) (rev l2)) as Hr by (rewrite rev_reverse; by apply Forall_reverse).
  induction Hr as [|t l Ht _ IH]; cbn [app tokens_sat]; [by rewrite Hk|]. rewrite Ht, IH. tauto.
Qed.
End tokens.

(** What satisfies a group is below its context, or its parent. *)
Lemma group_below y g x : gsat (Some y) g x -> match lead_of g with
  | None => y <> document -> ancestor y x
  | Some (Next | Sibling) => ancestor (up D y) x
  | Some _ => ancestor y x
  end.
Proof using HD.
  destruct g as [|t g]; [done|]. unfold group_sat, lead_of. destruct (relative (kind_of t)) as [c|].
  - assert (forall o, (forall z, reached D c y z -> ancestor o z) ->
      tokens_sat D (Matches D None) (has_of D (Matches D)) (anchored D (Some c) (Some y)) (rev g) x -> ancestor o x) as H.
    { intros o Ho. by apply tokens_below; [apply related_below|]. }
    assert (forall z, c = Next \/ c = Sibling -> reached D c y z -> ancestor (up D y) z) as Hs.
    { intros z Hc [Hr _]. destruct (sibling_parent c y z Hc Hr) as (p & Hz & Hy). rewrite (up_parent y p Hy). by apply tc_once. }
    destruct c; apply H; intros z Hz; [by apply tc_once, Hz|apply Hz|apply Hs; auto..].
  - intros H Hy. revert H. apply tokens_below; [apply related_below|]. intros z Hz. by apply Hz.
Qed.

(** Contexts are elements or the document. *)
Definition asked (y : nat) : Prop := element D y = true \/ y = document.

Lemma candidate_in y x : (element D x && (negb (y =? document) || contains D document x)) = true <-> element D x = true /\ (y = document -> ancestor document x).
Proof using HD.
  rewrite andb_true_iff, orb_true_iff, negb_true_iff, Nat.eqb_neq, contains_ancestor. destruct (decide (y = document)); naive_solver.
Qed.

(** What [getElementsByTagName] is asked for has all that matches. *)
Lemma outermost_picks t groups y l : tokenize t = Ok groups ->
  picked (Matches D (Some y) t) (getElementsByTagName D (txt "*") (if rsibling t then up D y else y)) l ->
  picked (Matches D (Some y) t) (candidates D y None) l.
Proof using HD.
  intros E Hl. eapply picked_nodes; [exact Hl|]. intros x. rewrite candidate_in, !andb_true_iff, contains_ancestor. split.
  - intros [[Hx Hy] HM]. split; [|done]. split; [|done]. split; [done|]. apply Matches_groups in HM as (gs & g & Eg & Hg & Hs).
    rewrite E in Eg. injection Eg as <-. apply group_below in Hs as Hb. destruct (lead_of g) as [c|] eqn:El.
    + destruct g as [|t0 g]; [done|]. cbn [lead_of] in El. unfold relative in El. destruct (kind_of t0) eqn:Ek; try done. injection El as ->.
      assert (c = Next \/ c = Sibling -> rsibling t = true) as Hc.
      { intros Hc. eapply sibling_text; [exact E|exact Hg|left|]. rewrite Ek. by destruct Hc as [-> | ->]; [left|right]. }
      destruct c; [destruct (rsibling t); [by apply up_above|done]..|rewrite Hc by auto; done|rewrite Hc by auto; done].
    + assert (ancestor y x) as Ha; [|destruct (rsibling t); [by apply up_above|done]]. destruct (decide (y = document)) as [->|Hn]; auto.
  - intros [[[Hx Ha] _] HM]. split; [|done]. split; [done|]. intros ->. by destruct (rsibling t); [rewrite up_document in Ha|].
Qed.

(** *** [Expr.find] *)

Lemma nodes_ext p q : (forall x, p x = q x) -> nodes D p = nodes D q.
Proof. intros H. apply list_filter_iff. intros x. by rewrite H. Qed.

Lemma nodes_one q m : q m = true -> m < length D -> (forall x, q x = true -> x = m) -> nodes D q = [m].
Proof.
  intros Hq Hm Hu. assert (NoDup (nodes D q)) as Hn by (apply NoDup_filter, NoDup_ListNoDup, seq_NoDup).
  assert (m ∈ nodes D q) as Hin by by apply elem_of_nodes. destruct (nodes D q) as [|a l] eqn:E; [by apply elem_of_nil in Hin|].
  assert (forall z, z ∈ a :: l -> z = m) as Hz by (intros z Hz; rewrite <- E in Hz; apply elem_of_nodes in Hz as [Hz _]; by apply Hu).
  rewrite (Hz a) in * by left. f_equal. destruct l as [|b l]; [done|]. apply NoDup_cons in Hn as [Hn _]. destruct Hn. rewrite (Hz b); [left|right; left].
Qed.

Lemma nodes_none q : (forall x, q x = false) -> nodes D q = [].
Proof.
  intros H. destruct (nodes D q) as [|a l] eqn:E; [done|]. assert (a ∈ nodes D q) as Hin by (rewrite E; left). apply elem_of_nodes in Hin as [Hin _].
  by rewrite H in Hin.
Qed.

(** The elements of a context that pass a filter. *)
Definition passing (k : kind) (y : nat) : list nat := nodes D (fun x => element D x && contains D y x && test D k x).

Lemma passing_id n x y : element D x && contains D document x && test D (ID n) x = true -> element D y && contains D document y && test D (ID n) y = true -> x = y.
Proof using HD.
  intros [[_ Hx]%andb_true_iff Hx']%andb_true_iff [[_ Hy]%andb_true_iff Hy']%andb_true_iff. cbn in *. apply bool_decide_eq_true in Hx', Hy'.
  by apply (wf_ids D HD x y n).
Qed.

Lemma getElementById_is n : n <> [] -> match getElementById D n with Some m => if bool_decide (is_Some (parent D m)) then [m] else [] | None => [] end = passing (ID n) document.
Proof using HD.
  intros Hn. unfold getElementById.
  assert (nodes D (fun x => element D x && contains D document x && bool_decide (n <> []) && bool_decide (getAttribute D x (txt "id") = Some n))
    = passing (ID n) document) as ->.
  { apply nodes_ext. intros x. rewrite (bool_decide_eq_true_2 (n <> [])) by done. by rewrite andb_true_r. }
  destruct (passing (ID n) document) as [|m l] eqn:E; [done|]. cbn [hd_error].
  assert (m ∈ passing (ID n) document) as Hm by (rewrite E; left). apply elem_of_nodes in Hm as [Hm Hl].
  rewrite bool_decide_eq_true_2.
  2: { apply andb_true_iff in Hm as [[_ Hm%contains_ancestor]%andb_true_iff _]. destruct Hm as [? ? H|? ? ? H _]; by eexists. }
  rewrite <- E. symmetry. apply nodes_one; [done|done|]. intros x Hx. by apply (passing_id n x m).
Qed.

Lemma asked_methods y : asked y -> has_methods D y = true.
Proof using HD.
  unfold has_methods. intros [H| ->]; [unfold element in H; by rewrite H|]. assert (type_of D document = 9%Z) as -> by by apply (wf_document D HD). done.
Qed.

Lemma document_type y : type_of D y = 9%Z <-> y = document.
Proof using HD. apply (wf_document D HD). Qed.

Lemma find_passing k y l : asked y -> match k with ID n => n <> [] | _ => True end -> find_ D false k y = Some l ->
  seeds k = true /\ relative k = None /\ l = passing k y.
Proof using HD.
  intros Hy Hk H. unfold find_ in H. rewrite (asked_methods y Hy) in H. destruct k; try done.
  - by injection H as <-.
  - by injection H as <-.
  - destruct ((type_of D y =? 9)%Z && negb false) eqn:E; [|done]. rewrite andb_true_r in E. apply Z.eqb_eq, document_type in E as ->.
    injection H as <-. by rewrite getElementById_is.
Qed.

(** *** Seeds *)

Lemma find_seed_some y ts n : forall i l, find_seed D false n ts y = Some (i, l) -> i < n /\ exists k, ts !! i = Some k /\
  find_ D false (kind_of k) y = Some l /\ (forall j k', i < j < n -> ts !! j = Some k' -> relative (kind_of k') = None /\ find_ D false (kind_of k') y = None).
Proof.
  induction n as [|n IH]; intros i l; cbn [find_seed]; [done|]. destruct (ts !! n) as [t|] eqn:Et; [|done].
  destruct (relative (kind_of t)) eqn:Er; [done|]. destruct (find_ D false (kind_of t) y) as [l'|] eqn:Ef.
  - intros [= <- <-]. split; [lia|]. exists t. split_and!; [done..|]. intros j k' Hj. lia.
  - intros (Hi & k & H1 & H2 & H3)%IH. split; [lia|]. exists k. split_and!; [done..|]. intros j k' Hj Hk. destruct (decide (j = n)) as [->|]; [split; congruence|].
    apply (H3 j k'); [lia|done].
Qed.

(** The tokens around a seed. *)
Record seeded (t : text) (ts : list token) (y : nat) (l1 : list token) (k : token) (l2 : list token) (seed : list nat) : Prop := {
  e_tokens : ts = l1 ++ k :: l2;
  e_kind : seeds (kind_of k) = true /\ relative (kind_of k) = None;
  e_last : Forall (fun t => relative (kind_of t) = None) l2;
  e_after : Forall (fun t => always_seeds t = false) l2;
  e_seed : seed = passing (kind_of k) y
}.

Lemma find_seed_seeded t ts y i seed : tokenize t = Ok [ts] -> asked y -> find_seed D false (length ts) ts y = Some (i, seed) ->
  exists l1 k l2, seeded t ts y l1 k l2 seed /\ delete i ts = l1 ++ l2 /\ i = length l1.
Proof using HD.
  intros Et Hy H. apply find_seed_some in H as (Hi & k & Hk & Hf & Hl). pose proof (list_elem_of_lookup_2 _ _ _ Hk) as Hin.
  pose proof (take_drop_middle ts i k Hk) as E. exists (take i ts), k, (drop (S i) ts).
  assert (length (take i ts) = i) as Elen by (rewrite length_take; lia).
  destruct (find_passing (kind_of k) y seed Hy) as (H1 & H2 & H3); [|done|].
  { pose proof (tokens_shaped t [ts] ts k Et (list_elem_of_here _ _) Hin) as Hs. unfold shaped in Hs. by destruct (kind_of k). }
  assert (forall j k', drop (S i) ts !! j = Some k' -> relative (kind_of k') = None /\ find_ D false (kind_of k') y = None) as Hd.
  { intros j k' Hj. rewrite lookup_drop in Hj. apply (Hl (S i + j) k'); [|done]. apply lookup_lt_Some in Hj. lia. }
  split; [|split; [by rewrite delete_take_drop|done]]. split; try done; apply Forall_lookup; intros j k' Hj; destruct (Hd j k' Hj) as [Hr Hn]; [done|].
  unfold find_ in Hn. rewrite (asked_methods y Hy) in Hn. unfold always_seeds. by destruct (kind_of k').
Qed.

Lemma token_sat_seeds k x : seeds k = true -> token_sat D (Matches D None) (has_of D (Matches D)) k x <-> test D k x = true.
Proof. by destruct k. Qed.

(** A group without the filter of its seed. *)
Lemma group_take t ts y l1 k l2 seed context x : seeded t ts y l1 k l2 seed -> l1 ++ l2 <> [] ->
  gsat context ts x <-> test D (kind_of k) x = true /\ gsat context (l1 ++ l2) x.
Proof.
  intros [-> [Hk Hr] Hl _ _] Hne. rewrite <- (token_sat_seeds _ x Hk).
  destruct l1 as [|t1 l1]; cbn [app].
  - destruct l2 as [|t2 l2]; [done|]. unfold group_sat. rewrite Hr. pose proof Hl as [Ht _]%Forall_cons. rewrite Ht.
    apply (tokens_take _ _ _ [] k (t2 :: l2)); done.
  - unfold group_sat. destruct (relative (kind_of t1)); [by apply tokens_take|]. by apply (tokens_take _ _ _ (t1 :: l1)).
Qed.

Lemma group_one context k x : seeds (kind_of k) = true -> gsat context [k] x <-> test D (kind_of k) x = true /\ anchored D None context x.
Proof.
  intros Hk. unfold group_sat. assert (relative (kind_of k) = None) as -> by by destruct (kind_of k). cbn [rev app tokens_sat].
  assert (relative (kind_of k) = None) as -> by by destruct (kind_of k). by rewrite token_sat_seeds.
Qed.

Lemma seeded_lead t ts y l1 k l2 seed : tokenize t = Ok [ts] -> needsContext t = false -> seeded t ts y l1 k l2 seed ->
  lead_of ts = None \/ lead_of ts = Some Descendant.
Proof.
  intros Et Hn [-> _ _ _ _]. destruct (l1 ++ k :: l2) as [|t0 g]; [by left|]. cbn [lead_of]. unfold relative. destruct (kind_of t0) as [c| | | | | |] eqn:Ek; auto.
  destruct (decide (c = Descendant)) as [->|Hc]; [by right|]. by rewrite (needsContext_lead _ _ _ _ _ Et Ek Hc) in Hn.
Qed.

(** What is picked of a seed is what is picked of the candidates. *)
Lemma seed_picks t ts y l1 k l2 seed l (P : nat -> Prop) : tokenize t = Ok [ts] -> needsContext t = false -> seeded t ts y l1 k l2 seed ->
  (forall x, ancestor y x -> gsat (Some y) ts x <-> test D (kind_of k) x = true /\ P x) ->
  picked P seed l -> picked (Matches D (Some y) t) (candidates D y None) l.
Proof using HD.
  intros Et Hn Hs HP Hl. pose proof (seeded_lead _ _ _ _ _ _ _ Et Hn Hs) as Hlead. destruct Hs as [Ets [Hk Hr] Hl2 _ ->].
  eapply picked_nodes; [exact Hl|]. intros x. rewrite candidate_in, !andb_true_iff, contains_ancestor.
  assert (Matches D (Some y) t x <-> gsat (Some y) ts x) as ->.
  { rewrite Matches_groups. unfold groups_sat. rewrite Et. split; [|by intros H; exists [ts], ts; split_and!; [done|left|]].
    intros (gs & g & [= <-] & ->%list_elem_of_singleton & H). done. }
  split.
  - intros [[Hx Hy] HM]. assert (ancestor y x) as Ha.
    { apply group_below in HM as Hb. destruct Hlead as [E|E]; rewrite E in Hb; [|done]. destruct (decide (y = document)) as [->|]; auto. }
    apply HP in HM; [|done]. tauto.
  - intros [[[Hx Ha] Ht] Hp]. split; [split; [done|by intros ->]|]. by apply HP.
Qed.

(** *** [select] *)

Definition queried (t : text) (y : nat) (seed : option (list nat)) : list nat :=
  match seed with Some l => l | None => getElementsByTagName D (txt "*") (if rsibling t then up D y else y) end.

(** What the shortcuts leave finds what the selector finds. *)
Definition plan_right (t : text) (y : nat) (p : plan) : Prop :=
  match p with
  | Done l => picked (Matches D (Some y) t) (candidates D y None) l
  | Query t' groups y' seed =>
      tokenize t' = Ok groups /\ fine t' /\ asked y' /\ length t' <= length t /\ Forall (fun x => element D x = true) (queried t' y' seed) /\
      forall l, picked (Matches D (Some y') t') (queried t' y' seed) l -> picked (Matches D (Some y) t) (candidates D y None) l
  end.

Lemma passing_elements k y : Forall (fun x => element D x = true) (passing k y).
Proof. apply Forall_forall. intros x [Hx _]%elem_of_nodes. by apply andb_true_iff in Hx as [[Hx _]%andb_true_iff _]. Qed.

Lemma tags_elements n y : Forall (fun x => element D x = true) (getElementsByTagName D n y).
Proof. apply Forall_forall. intros x [Hx _]%elem_of_nodes. by apply andb_true_iff in Hx as [[Hx _]%andb_true_iff _]. Qed.

(** What has tokens of a selector that compiles compiles. *)
Lemma fine_part t ts t' ts' : fine t -> tokenize t = Ok [ts] -> tokenize t' = Ok [ts'] -> ts' ⊆ ts -> fine t'.
Proof.
  intros [[|n] H] E E' Hs; [done|]. exists (S n). cbn [fine_n] in *. rewrite E in H. rewrite E'. cbn [forallb] in *. rewrite andb_true_r in *.
  rewrite forallb_forall in *. intros k Hk. apply H. apply list_elem_of_In, Hs, list_elem_of_In. done.
Qed.

Lemma reads_ok s ts : reads s ts = true -> tokenize s = Ok [ts].
Proof. unfold reads. destruct (tokenize s) as [gs|]; [|done]. by intros ->%bool_decide_eq_true. Qed.

Lemma toSelector_nonempty t ts : tokenize t = Ok [ts] -> toSelector ts = t.
Proof.
  intros E. destruct t as [|c t]; [done|]. destruct (tokens_text _ _ E) as (seps & _ & _ & Hlen & H); [done|]. destruct seps; [|done]. by cbn in H; rewrite app_nil_r in H.
Qed.

(** Where the seed is taken. *)
Lemma stable_seed t ts y l1 k l2 seed : seeded t ts y l1 k l2 seed -> seed_stable ts = true -> toSelector (l1 ++ l2) = [] \/ tokenize (toSelector (l1 ++ l2)) = Ok [l1 ++ l2].
Proof.
  intros [-> [Hk _] Hl Ha _] H. unfold seed_stable in H. rewrite forallb_forall in H. specialize (H (length l1)).
  assert (delete (length l1) (l1 ++ k :: l2) = l1 ++ l2) as E by (by rewrite delete_middle).
  rewrite list_lookup_middle in H by done. rewrite Hk, E in H. cbn [negb orb] in H.
  assert (drop (S (length l1)) (l1 ++ k :: l2) = l2) as Ed by (change (k :: l2) with ([k] ++ l2); rewrite app_assoc, drop_app_length'; [done|rewrite length_app; cbn; lia]).
  rewrite Ed in H. assert (existsb (fun t => is_relative t || always_seeds t) l2 = false) as Ee.
  { clear -Hl Ha. induction Hl as [|t l Ht _ IH]; [done|]. apply Forall_cons in Ha as [Hat Ha]. cbn. rewrite IH by done. unfold is_relative. by rewrite Ht, Hat. }
  rewrite Ee in H. cbn [orb] in H. destruct (decide (toSelector (l1 ++ l2) = [])) as [Hn|Hn]; [by left|right]. apply reads_ok.
  rewrite bool_decide_eq_false_2 in H by done. apply H. apply in_seq. rewrite length_app. cbn. lia.
Qed.

Lemma values_nonempty t ts : tokenize t = Ok [ts] -> Forall (fun k => value k <> []) ts.
Proof. intros E. apply Forall_forall. intros k Hk. eapply tokens_valued; [exact E|left|done]. Qed.

(** The shortcut of the seed. *)
Definition seed_plan (t : text) (ts : list token) (y : nat) : plan :=
  match find_seed D false (if needsContext t then 0 else length ts) ts (if leading_sibling ts then up D y else y) with
  | None => Query t [ts] y None
  | Some (i, seed) =>
      let ts := delete i ts in
      let t := toSelector ts in
      if bool_decide (seed = []) || bool_decide (t = []) then Done seed else Query t [ts] y (Some seed)
  end.

Lemma leading_lead ts : leading_sibling ts = match lead_of ts with Some Next | Some Sibling => true | _ => false end.
Proof. by destruct ts. Qed.

Lemma seed_plan_right t ts y : tokenize t = Ok [ts] -> fine t -> seed_stable ts = true -> asked y -> plan_right t y (seed_plan t ts y).
Proof using HD.
  intros Et Hf Hst Hy. assert (plan_right t y (Query t [ts] y None)) as Hnone.
  { split_and!; try done; [apply tags_elements|]. intros l. by eapply outermost_picks. }
  unfold seed_plan. destruct (needsContext t) eqn:Hn; [done|].
  assert (leading_sibling ts = false) as ->.
  { rewrite leading_lead. destruct ts as [|t0 g]; [done|]. cbn [lead_of]. unfold relative. destruct (kind_of t0) as [c| | | | | |] eqn:Ek; try done.
    destruct (decide (c = Descendant)) as [->|Hc]; [done|]. by rewrite (needsContext_lead _ _ _ _ _ Et Ek Hc) in Hn. }
  destruct (find_seed D false (length ts) ts y) as [[i seed]|] eqn:E; [|done].
  destruct (find_seed_seeded t ts y i seed Et Hy E) as (l1 & k & l2 & Hs & -> & ->). cbn zeta. clear E.
  assert (l1 ++ l2 = [] -> plan_right t y (Done seed)) as Hone.
  { intros [-> ->]%app_nil. cbn [plan_right]. eapply (seed_picks _ _ _ _ _ _ _ _ (anchored D None (Some y)) Et Hn Hs).
    - intros x _. rewrite (e_tokens _ _ _ _ _ _ _ Hs). apply group_one. by apply (e_kind _ _ _ _ _ _ _ Hs).
    - apply picked_all. rewrite (e_seed _ _ _ _ _ _ _ Hs). apply Forall_forall. intros x [Hx _]%elem_of_nodes.
      apply andb_true_iff in Hx as [[_ Hx%contains_ancestor]%andb_true_iff _]. by intros _. }
  destruct (decide (toSelector (l1 ++ l2) = [])) as [Hnil|Hnil].
  { rewrite (bool_decide_eq_true_2 (toSelector _ = [])) by done. rewrite orb_true_r. apply Hone, toSelector_nil_inv; [|done].
    pose proof (values_nonempty t ts Et) as Hv. rewrite (e_tokens _ _ _ _ _ _ _ Hs) in Hv. apply Forall_app in Hv as [H1 [_ H2]%Forall_cons].
    by apply Forall_app. }
  rewrite (bool_decide_eq_false_2 (toSelector _ = [])) by done. rewrite orb_false_r.
  assert (l1 ++ l2 <> []) as Hne by (by intros H; rewrite H in Hnil).
  assert (forall l, picked (gsat (Some y) (l1 ++ l2)) seed l -> picked (Matches D (Some y) t) (candidates D y None) l) as Hp.
  { intros l. eapply seed_picks; [done..|]. intros x _. by eapply group_take. }
  destruct (bool_decide (seed = [])) eqn:Es; [apply bool_decide_eq_true in Es as ->; apply Hp; constructor|].
  destruct (stable_seed _ _ _ _ _ _ _ Hs Hst) as [|Et']; [done|]. split_and!; [done| |done| | |].
  - eapply fine_part; [done..|]. rewrite (e_tokens _ _ _ _ _ _ _ Hs). intros z. rewrite !elem_of_app, elem_of_cons. tauto.
  - rewrite <- (toSelector_nonempty t ts Et), (e_tokens _ _ _ _ _ _ _ Hs), !toSelector_app, !length_app.
    change (toSelector (k :: l2)) with (value k ++ toSelector l2). rewrite length_app. lia.
  - cbn [queried]. rewrite (e_seed _ _ _ _ _ _ _ Hs). apply passing_elements.
  - cbn [queried]. intros l Hl. apply Hp. eapply picked_iff; [|exact Hl]. intros x. rewrite Matches_groups. unfold groups_sat. rewrite Et'. split.
    + intros (gs & g & [= <-] & ->%list_elem_of_singleton & H). done.
    + intros H. exists [l1 ++ l2], (l1 ++ l2). split_and!; [done|left|done].
Qed.

(** *** An id in front *)

Lemma passing_id_one n : passing (ID n) document = [] \/ exists m, passing (ID n) document = [m].
Proof using HD.
  destruct (passing (ID n) document) as [|m l] eqn:E; [by left|]. right. exists m. rewrite <- E.
  assert (m ∈ passing (ID n) document) as Hm by (rewrite E; left). apply elem_of_nodes in Hm as [Hm Hl].
  apply nodes_one; [done|done|]. intros x Hx. by apply (passing_id n x m).
Qed.

Lemma elem_of_passing k y x : x ∈ passing k y <-> element D x = true /\ ancestor y x /\ test D k x = true.
Proof using HD.
  unfold passing. rewrite elem_of_nodes, !andb_true_iff, contains_ancestor. split; [tauto|]. intros (Hx & Ha & Ht). split; [done|by apply element_size].
Qed.

(** The base of what follows an id: the element that has it. *)
Definition id_base (n : text) (c : combinator) (z : nat) : Prop :=
  exists y, element D y = true /\ related c y z /\ test D (ID n) y = true /\ anchored D None (Some document) y.

Lemma id_base_reached n c z : ancestor document z -> id_base n c z <-> exists m, passing (ID n) document = [m] /\ reached D c m z.
Proof using HD.
  intros Hz. split.
  - intros (y & Hy & Hr & Ht & _). assert (y ∈ passing (ID n) document) as Hp.
    { apply elem_of_passing. split_and!; [done| |done]. destruct (related_above c y z Hz Hr) as [->|]; [|done]. by apply element_document in Hy. }
    destruct (passing_id_one n) as [E|[m E]]; rewrite E in Hp; [by apply elem_of_nil in Hp|]. apply list_elem_of_singleton in Hp as ->.
    exists m. split; [done|]. split; [done|]. by destruct c.
  - intros (m & E & Hr & _). assert (m ∈ passing (ID n) document) as Hp by (rewrite E; left). apply elem_of_passing in Hp as (Hm & _ & Ht).
    exists m. split_and!; [done..|]. cbn. by intros [].
Qed.

Lemma group_id t0 t1 n c r x : kind_of t0 = ID n -> relative (kind_of t1) = Some c -> ancestor document x ->
  gsat (Some document) (t0 :: t1 :: r) x <-> exists m, passing (ID n) document = [m] /\ gsat (Some m) (t1 :: r) x.
Proof using HD.
  intros H0 H1 Hx. unfold group_sat. rewrite H1. assert (relative (kind_of t0) = None) as E0 by by rewrite H0. rewrite E0. cbn [rev].
  rewrite <- app_assoc. cbn [app]. rewrite tokens_app. cbn [tokens_sat]. rewrite E0, H1, H0.
  transitivity (tokens_sat D (Matches D None) (has_of D (Matches D)) (id_base n c) (rev r) x).
  { apply tokens_in_document; [|done]. intros z _. by setoid_rewrite (token_sat_seeds (ID n)); [|done]. }
  destruct (passing_id_one n) as [E|[m E]].
  - split; [|by intros (m & Em & _); rewrite E in Em]. intros H. exfalso.
    assert (tokens_sat D (Matches D None) (has_of D (Matches D)) (fun _ => False) (rev r) x) as Hf.
    { eapply tokens_in_document; [|exact Hx|exact H]. intros z Hz. rewrite id_base_reached by done. rewrite E. naive_solver. }
    by eapply (tokens_below _ _ (fun _ => False)); [..|exact Hf].
  - assert (forall z, ancestor document z -> id_base n c z <-> reached D c m z) as Hb.
    { intros z Hz. rewrite id_base_reached by done. rewrite E. naive_solver. }
    rewrite (tokens_in_document _ _ _ _ _ Hb x Hx). split; [intros H; by exists m|]. intros (m' & Em & H). rewrite E in Em. by injection Em as ->.
Qed.

(** What is below the element of an id is in the document. *)
Lemma group_id_document n m c t1 r x : passing (ID n) document = [m] -> relative (kind_of t1) = Some c -> gsat (Some m) (t1 :: r) x -> ancestor document x.
Proof using HD.
  intros E Hc H. apply group_below in H. cbn [lead_of] in H. rewrite Hc in H.
  assert (m ∈ passing (ID n) document) as Hp by (rewrite E; left). apply elem_of_passing in Hp as (Hm & Ha & _).
  assert (ancestor m x -> ancestor document x) as Hmx by (intros; by eapply tc_transitive).
  assert (ancestor (up D m) x -> ancestor document x) as Hux; [|destruct c; auto].
  destruct (parent D m) as [p|] eqn:Hp; [|unfold up; by rewrite Hp]. rewrite (up_parent m p Hp). intros Hx.
  destruct (ancestor_parent document m p Ha Hp) as [->|]; [done|]. by eapply tc_transitive.
Qed.

Lemma id_picks t ts t' t0 t1 n m c r l : tokenize t = Ok [ts] -> ts = t0 :: t1 :: r -> tokenize t' = Ok [t1 :: r] -> kind_of t0 = ID n ->
  relative (kind_of t1) = Some c -> passing (ID n) document = [m] ->
  picked (Matches D (Some m) t') (candidates D m None) l -> picked (Matches D (Some document) t) (candidates D document None) l.
Proof using HD.
  intros Et -> Et' H0 H1 E Hl. assert (m <> document) as Hm.
  { assert (m ∈ passing (ID n) document) as Hp by (rewrite E; left). apply elem_of_passing in Hp as (Hm & _). by apply element_document. }
  eapply picked_nodes; [exact Hl|]. intros x. rewrite !candidate_in, !Matches_groups. unfold groups_sat. rewrite Et, Et'. split.
  - intros [[Hx Ha] (gs & g & [= <-] & ->%list_elem_of_singleton & H)]. split; [by split|]. exists [t1 :: r], (t1 :: r). split_and!; [done|left|].
    apply (group_id t0 t1 n c r x H0 H1) in H as (m' & Em & H); [|by apply Ha]. rewrite E in Em. by injection Em as ->.
  - intros [[Hx _] (gs & g & [= <-] & ->%list_elem_of_singleton & H)].
    assert (ancestor document x) as Ha by by eapply group_id_document. split; [by split|]. exists [t0 :: t1 :: r], (t0 :: t1 :: r). split_and!; [done|left|].
    apply (group_id t0 t1 n c r x H0 H1 Ha). by exists m.
Qed.

Lemma id_none t ts t0 t1 n c r : tokenize t = Ok [ts] -> ts = t0 :: t1 :: r -> kind_of t0 = ID n -> relative (kind_of t1) = Some c ->
  passing (ID n) document = [] -> picked (Matches D (Some document) t) (candidates D document None) [].
Proof using HD.
  intros Et -> H0 H1 E. apply (picked_nodes (fun _ => False) _ (fun _ => false)); [rewrite nodes_none by done; constructor|].
  intros x. split; [|by intros [_ []]]. rewrite candidate_in, Matches_groups. unfold groups_sat. rewrite Et.
  intros [[Hx Ha] (gs & g & [= <-] & ->%list_elem_of_singleton & H)].
  apply (group_id t0 t1 n c r x H0 H1) in H as (m' & Em & H); [|by apply Ha]. by rewrite E in Em.
Qed.

Lemma id_context_cases t ts y : asked y -> tokenize t = Ok [ts] -> id_context D false t ts y = Some (t, ts, y) \/
  y = document /\ exists t0 t1 t2 r n c, ts = t0 :: t1 :: t2 :: r /\ kind_of t0 = ID n /\ relative (kind_of t1) = Some c /\
    id_context D false t ts y = match passing (ID n) document with m :: _ => Some (drop (length (value t0)) t, t1 :: t2 :: r, m) | [] => None end.
Proof using HD.
  intros Hy Et. unfold id_context. destruct ts as [|t0 [|t1 [|t2 r]]]; auto. destruct (kind_of t0) as [| | | | | |n] eqn:E0; auto.
  destruct (relative (kind_of t1)) as [c|] eqn:E1; auto. destruct ((type_of D y =? 9)%Z && negb false) eqn:E; auto.
  rewrite andb_true_r in E. apply Z.eqb_eq, document_type in E as ->. right. split; [done|]. exists t0, t1, t2, r, n, c. split_and!; try done.
  destruct (find_ D false (ID n) document) as [l|] eqn:Ef.
  - apply find_passing in Ef as (_ & _ & ->); [done|done|]. pose proof (tokens_shaped t _ _ t0 Et (list_elem_of_here _ _) (list_elem_of_here _ _)) as Hs.
    unfold shaped in Hs. by rewrite E0 in Hs.
  - unfold find_ in Ef. assert (type_of D document = 9%Z) as E9 by by apply document_type. by rewrite E9 in Ef.
Qed.

(** The shortcuts of [select]. *)
Lemma shortcuts_right t groups y : tokenize t = Ok groups -> fine t -> stable t = true -> asked y -> plan_right t y (shortcuts D false t groups y).
Proof using HD.
  intros Et Hf Hst Hy. assert (plan_right t y (Query t groups y None)) as Hnone.
  { split_and!; try done; [apply tags_elements|]. intros l. by eapply outermost_picks. }
  unfold shortcuts. destruct groups as [|ts [|]]; try done. unfold stable in Hst. rewrite Et in Hst. apply andb_true_iff in Hst as [Hst Hid].
  destruct (id_context_cases t ts y Hy Et) as [->|(-> & t0 & t1 & t2 & r & n & c & Ets & E0 & E1 & ->)]; [by apply (seed_plan_right t ts y)|].
  unfold id_stable in Hid. rewrite Ets, E0, E1 in Hid. apply andb_true_iff in Hid as [Hr%reads_ok Hst'].
  destruct (passing_id_one n) as [E|[m E]]; rewrite E; [by eapply id_none|].
  assert (asked m) as Hm.
  { left. assert (m ∈ passing (ID n) document) as Hp by (rewrite E; left). by apply elem_of_passing in Hp as (Hm & _). }
  assert (fine (drop (length (value t0)) t)) as Hf'.
  { eapply fine_part; [exact Hf|done|exact Hr|]. rewrite Ets. intros z Hz. by right. }
  pose proof (seed_plan_right _ _ m Hr Hf' Hst' Hm) as H. change (plan_right t document (seed_plan (drop (length (value t0)) t) (t1 :: t2 :: r) m)).
  assert (forall l, picked (Matches D (Some m) (drop (length (value t0)) t)) (candidates D m None) l ->
    picked (Matches D (Some document) t) (candidates D document None) l) as Hp by (intros l; by eapply id_picks).
  destruct (seed_plan _ _ _) as [l|t' gs y' seed]; cbn [plan_right] in *; [by apply Hp|].
  destruct H as (H1 & H2 & H3 & H4 & H5 & H6). split_and!; try done; [|intros l Hl; by apply Hp, H6].
  etrans; [exact H4|]. rewrite length_drop. lia.
Qed.

(** *** Selectors that need no engine *)

Lemma one_picks t k y : tokenize t = Ok [[k]] -> seeds (kind_of k) = true ->
  picked (Matches D (Some y) t) (candidates D y None) (passing (kind_of k) y).
Proof using HD.
  intros Et Hk. eapply (picked_nodes (fun _ => True)); [by apply picked_all, Forall_forall|].
  intros x. rewrite candidate_in, !andb_true_iff, contains_ancestor, Matches_groups. unfold groups_sat. rewrite Et. split.
  - intros [[Hx Ha] (gs & g & [= <-] & ->%list_elem_of_singleton & H)]. apply group_one in H as [Ht Hy]; [|done]. cbn in Hy.
    split; [|done]. split; [|done]. split; [done|]. destruct (decide (y = document)) as [->|]; auto.
  - intros [[[Hx Ha] Ht] _]. split; [split; [done|by intros ->]|]. exists [[k]], [k]. split_and!; [done|left|]. apply group_one; [done|]. split; [done|]. by intros _.
Qed.

Lemma getElementById_Some n e : getElementById D n = Some e -> n <> [] /\ e ∈ passing (ID n) document.
Proof using HD.
  unfold getElementById. intros H. set (l := nodes D _) in H. assert (e ∈ l) as He by (destruct l; [done|injection H as ->; left]).
  apply elem_of_nodes in He as [He Hl]. apply andb_true_iff in He as [[[H1 H2]%andb_true_iff H3]%andb_true_iff H4].
  apply bool_decide_eq_true in H3. split; [done|]. apply elem_of_passing. by rewrite <- contains_ancestor.
Qed.

Lemma quick_right t q y l : rquickExpr t = Some q -> asked y -> quick_results D q y = Some l ->
  picked (Matches D (Some y) (trim t)) (candidates D y None) l.
Proof using HD.
  intros Hq Hy Hl. destruct (quick_tokens t q Hq) as [-> Et]. assert (seeds (quick_kind q) = true) as Hk by by destruct q.
  assert (l = passing (quick_kind q) y) as ->; [|by apply (one_picks t _ y Et Hk)].
  destruct q as [n|n|n]; cbn [quick_results quick_kind] in *; [|by injection Hl as <-..].
  destruct (type_of D y =? 9)%Z eqn:E9.
  - apply Z.eqb_eq, document_type in E9 as ->. injection Hl as <-. apply getElementById_is.
    pose proof (tokens_shaped t _ _ _ Et (list_elem_of_here _ _) (list_elem_of_here _ _)) as Hs. done.
  - destruct (getElementById D n) as [e|] eqn:Ee; [|done]. destruct (contains D y e) eqn:Ec; [|done]. injection Hl as <-.
    apply getElementById_Some in Ee as [Hn (He & Ha & Ht)%elem_of_passing]. apply contains_ancestor in Ec.
    assert (y <> document) as Hd by (intros ->; by rewrite (proj2 (document_type document) eq_refl) in E9).
    assert (ancestor document y) as Hdy by (destruct (related_above Descendant y e Ha Ec) as [->|]; done).
    assert (forall x, element D x && contains D y x && test D (ID n) x = true <-> x ∈ passing (ID n) y) as Hin.
    { intros x. rewrite elem_of_passing, !andb_true_iff, contains_ancestor. tauto. }
    symmetry. apply nodes_one; [by apply Hin, elem_of_passing|by apply element_size|].
    intros x (Hx & Hx' & Hx2)%Hin%elem_of_passing. apply (passing_id n x e); rewrite !andb_true_iff, contains_ancestor; split_and!; try done.
    by eapply tc_transitive.
Qed.
End queries.
