(* ===== verification/SizzleSpec.v ===== *)
(** * Sizzle: a query finds the elements that match

    [sizzle_does] is about one query, from whatever the queries before it left in the cache of compiled selectors and on the elements;
    [session_answers] about all the queries of a page, each on the document as it is then. *)

From Stdlib Require Import ZArith Lia Ascii SpecFloat.
From stdpp Require Import gmap strings relations.
From S2P Require Import Prelude JsString SizzleTokens SizzleLex Doubles Sizzle SizzleDom SizzleRun SizzleMatch SizzleCompile SizzleQuery.

Local Open Scope nat_scope.
Local Open Scope js_scope.

(** ** The runs are never forgotten *)

Section growing.
Context (inner : text -> st_ex world (list matcher)) (inner_grows : forall t, grows (inner t)).

Lemma make_grows t : grows (make t).
Proof. by intros []. Qed.

Lemma filter_of_grows k : grows (filter_of inner k).
Proof using inner_grows. unfold filter_of. grow. apply inner_grows. Qed.

Lemma match_tokens_grows t ts : forall ms, grows (match_tokens inner t ts ms).
Proof using inner_grows.
  induction ts as [|k ts IH]; intros ms; cbn [match_tokens]; [apply grows_ret|].
  destruct (relative _); (apply grows_bind; [apply make_grows || apply filter_of_grows|intros ?; apply IH]).
Qed.

Lemma match_groups_grows t groups : grows (match_groups inner t groups).
Proof using inner_grows.
  induction groups as [|g groups IH]; cbn [match_groups]; [apply grows_ret|]. apply grows_bind; [|intros ?; apply grows_bind; [apply IH|intros ?; apply grows_ret]].
  unfold matcherFromTokens. destruct g as [|k g]; [apply grows_throw|]. apply grows_bind; [apply make_grows|intros d]. apply grows_bind; [apply make_grows|intros _].
  apply grows_bind; [apply match_tokens_grows|intros ?; apply grows_ret].
Qed.

Lemma compile_grows t groups : grows (compile inner t groups).
Proof using inner_grows.
  unfold compile. apply grows_bind; [apply grows_get|intros [ms|]; [apply grows_ret|]].
  apply grows_bind; [grow|intros gs]. apply grows_bind; [apply match_groups_grows|intros ms]. apply grows_bind; [|intros _; apply grows_ret].
  apply grows_modify. intros w. unfold cache_put. destruct (_ <? _)%nat; by destruct w.
Qed.
End growing.

Lemma compile_n_grows n : forall t groups, grows (compile_n n t groups).
Proof. induction n as [|n IH]; intros t groups; cbn [compile_n]; [apply grows_throw|]. apply compile_grows. intros u. apply IH. Qed.

Lemma evaluate_grows D xml random inner compile_ t groups y seed : (forall t x, grows (inner t x)) -> (forall t g, grows (compile_ t g)) ->
  grows (evaluate D xml random inner compile_ t groups y seed).
Proof.
  intros Hi Hc. unfold evaluate. apply grows_bind; [apply Hc|intros ms]. apply superMatcher_grows. intros x. apply any_match_grows. intros m _. by apply run_grows.
Qed.

Lemma sizzle_n_grows D xml random n : forall t y seed, grows (sizzle_n D xml random n t y seed).
Proof.
  induction n as [|n IH]; intros t y seed; cbn [sizzle_n]; [apply grows_throw|]. unfold Sizzle. destruct (_ || _); [apply grows_ret|].
  match goal with |- grows (match ?o with _ => _ end) => destruct o end; [apply grows_ret|]. unfold select.
  assert (forall t groups y seed, grows (evaluate D xml random (fun t x => sizzle_n D xml random n t x None) (compile_n (S n)) t groups y seed)) as He.
  { intros. apply evaluate_grows; [intros; apply IH|apply compile_n_grows]. }
  destruct seed; [apply He|]. apply grows_bind; [apply grows_res|intros groups]. destruct (shortcuts _ _ _ _ _); [apply grows_ret|apply He].
Qed.

(** ** One query *)

Lemma does_returns {A} w (e : st_ex world A) Q : returns w e Q -> does w e Q.
Proof. intros (a & w' & E & H) _. rewrite E. by exists a. Qed.

Lemma compiles_called D level w w' : compiles w w' -> called askable D level w w'.
Proof.
  intros [G M E].
  assert (w_outermost w' = w_outermost w /\ w_dirruns w' = w_dirruns w /\ w_arrays w' = w_arrays w /\ w_runs w' = w_runs w /\
    w_dir w' = w_dir w /\ w_nth w' = w_nth w /\ w_last w' = w_last w) as (E1 & E2 & E3 & E4 & E5 & E6 & E7) by (rewrite E; by destruct w).
  split; [done|done|by left|]. split; rewrite ?E3, ?E4, ?E5, ?E6, ?E7; auto.
Qed.

Lemma called_weaken D level level' w w' : level <= level' -> called askable D level w w' -> called askable D level' w w'.
Proof. intros Hl [G O R F]. split; [done..|]. by eapply frame_weaken. Qed.

Section query.
Context (D : dom) (HD : well_formed D) (random : nat -> double).
Notation good_world := (good_world askable).
Notation called := (called askable D).

(** What a query of [t] is to answer. *)
Definition answered_by (t : text) (y : nat) (seed : option (list nat)) (w : world) (l : list nat) (w' : world) : Prop :=
  answers_query D t y seed l /\ called (S (length t)) w w'.

Section step.
Context (n : nat).
Notation inner := (fun t x => sizzle_n D false random n t x None).
Context (inner_answers : forall t y w, fine (trim t) -> stable (trim t) = true -> length t < n -> asked D y -> good_world w ->
  does w (sizzle_n D false random n t y None) (answered_by t y None w)).

(** [:has] in a matcher that is called. *)
Lemma inner_does t x c A w : askable t -> length t < n -> length t < c_level c -> element D x = true -> state askable D c A w ->
  owned (c_made c) (c_level c) [] A ->
  does w (inner t x) (fun l w' => (l <> [] <-> has_of D (Matches D) t x) /\ state askable D c A w' /\ frame D (c_level c) [] w w').
Proof using HD inner_answers.
  intros [Hf Hst] Hn Hl Hx Hs Ho.
  eapply does_impl; [apply does_distinct, inner_answers; try done; [by left|apply Hs]|].
  intros l w' [[Ha Hc] Hd]. apply (called_weaken D _ (c_level c)) in Hc; [|lia]. split; [|split; [by eapply state_called|apply Hc]].
  unfold has_of. unfold answers_query in Ha. split.
  - intros Hne. destruct l as [|y l]; [done|]. pose proof (proj1 (picked_elem _ _ _ y Ha) (list_elem_of_here _ _)) as [Hy HM].
    apply elem_of_nodes in Hy as [Hy _]. exists y. split; [|done]. by apply andb_true_iff in Hy as [Hy _].
  - intros (y & Hy & HM) ->. assert (y ∈ []) as Hin; [|by apply elem_of_nil in Hin]. apply (picked_elem _ _ _ y Ha). split; [|done].
    apply elem_of_nodes. split; [|by apply element_size]. apply (candidate_in D HD). split; [done|]. intros ->. by apply (element_document D HD) in Hx.
Qed.

Lemma evaluate_does t groups y seed w : fine t -> length t <= n -> groups_of t groups -> good_world w ->
  Forall (fun x => element D x = true) (queried D t y seed) ->
  does w (evaluate D false random inner (compile_n (S n)) t groups y seed)
    (fun l w' => picked (Matches D (Some y) t) (queried D t y seed) l /\ called (S (length t)) w w').
Proof using HD inner_answers.
  intros Hf Hn Hg G Hq. unfold evaluate. eapply does_bind; [|by apply does_returns, compile_n_does; [|lia|..]|].
  { intros ms. apply superMatcher_grows. intros x. apply any_match_grows. intros m _. apply run_grows. intros. apply sizzle_n_grows. }
  intros ms w1 [U C]. eapply does_impl; [apply (outermost_does askable D HD random inner n)|]; try done.
  - intros. apply sizzle_n_grows.
  - apply inner_does.
  - apply C.
  - intros l w2 [Hl Hc]. split; [done|]. eapply called_trans; [by apply compiles_called|done].
Qed.

Lemma select_does t y seed w : fine t -> stable t = true -> length t <= n -> asked D y -> good_world w ->
  (forall l, seed = Some l -> Forall (fun x => element D x = true) l) ->
  does w (select D false random inner (compile_n (S n)) t y seed)
    (fun l w' => picked (Matches D (Some y) t) (candidates D y seed) l /\ called (S (length t)) w w').
Proof using HD inner_answers.
  intros Hf Hst Hn Hy G Hseed. unfold select. destruct seed as [l|]; [by apply evaluate_does; try done; apply Hseed|].
  destruct (fine_groups t Hf) as (groups & E & _). rewrite E. eapply does_read; [done|].
  pose proof (shortcuts_right D HD t groups y E Hf Hst Hy) as H. destruct (shortcuts D false t groups y) as [l|t' gs y' seed].
  - apply does_ret. split; [done|by apply called_refl].
  - destruct H as (H1 & H2 & H3 & H4 & H5 & H6). eapply does_impl; [apply evaluate_does; try done; [lia|by intros g [= <-]]|].
    intros l w' [Hl Hc]. split; [by apply H6|]. eapply called_weaken; [|exact Hc]. lia.
Qed.

Lemma Matches_nil context x : ~ Matches D context [] x.
Proof. intros (gs & g & [= <-] & Hg & _)%Matches_groups. by apply elem_of_nil in Hg. Qed.

Lemma sizzle_step t y seed w : fine (trim t) -> stable (trim t) = true -> length t <= n -> asked D y -> good_world w ->
  (forall l, seed = Some l -> Forall (fun x => element D x = true) l) ->
  does w (sizzle_n D false random (S n) t y seed) (answered_by t y seed w).
Proof using HD inner_answers.
  intros Hf Hst Hn Hy G Hseed. cbn [sizzle_n]. unfold Sizzle. rewrite (asked_methods D HD y Hy). cbn [negb]. rewrite orb_false_r.
  destruct (decide (t = [])) as [->|Ht].
  { rewrite bool_decide_eq_true_2 by done. apply does_ret. split; [|by apply called_refl]. unfold answers_query. cbn [trim].
    generalize (candidates D y seed). intros l. induction l as [|x l IH]; [constructor|]. apply picked_no; [|done]. apply Matches_nil. }
  rewrite bool_decide_eq_false_2 by done. pose proof (trim_length t) as Htrim.
  assert (does w (select D false random inner (compile_n (S n)) (trim t) y seed) (answered_by t y seed w)) as Hsel.
  { eapply does_impl; [apply select_does; try done; lia|]. intros l w' [Hl Hc]. split; [done|]. eapply called_weaken; [|exact Hc]. lia. }
  destruct seed as [l|]; [by rewrite bool_decide_eq_false_2|]. rewrite bool_decide_eq_true_2 by done. cbn [negb andb].
  destruct (rquickExpr t) as [q|] eqn:Eq; [|done]. cbn [mbind option_bind]. destruct (quick_results D q y) as [l|] eqn:El; [|done].
  apply does_ret. split; [by eapply quick_right|by apply called_refl].
Qed.
End step.

(** A query of a selector finds, in order, the elements that match it. *)
Lemma sizzle_does n : forall t y seed w, fine (trim t) -> stable (trim t) = true -> length t < n -> asked D y -> good_world w ->
  (forall l, seed = Some l -> Forall (fun x => element D x = true) l) ->
  does w (sizzle_n D false random n t y seed) (answered_by t y seed w).
Proof using HD.
  induction n as [|n IH]; intros t y seed w Hf Hst Hn Hy G Hseed; [lia|]. apply sizzle_step; try done; [|lia].
  intros t' y' w' Hf' Hst' Hn' Hy' G'. by apply IH.
Qed.
End query.

(** ** The queries of a page *)

(** What a query is about: elements of a document, a selector that compiles, an element or the document as its context. *)
Record query_ok (q : query) : Prop := {
  k_dom : well_formed (q_dom q);
  k_context : asked (q_dom q) (q_context q);
  k_fine : fine (trim (q_selector q));
  k_stable : stable (trim (q_selector q)) = true;
  k_seed l : q_seed q = Some l -> Forall (fun x => element (q_dom q) x = true) l
}.

Lemma new_world_good : good_world askable new_world.
Proof. split; cbn; try done. intros e He. by apply elem_of_nil in He. Qed.

Lemma session_grows random l : grows (session false random l).
Proof.
  induction l as [|q l IH]; cbn [session]; [apply grows_ret|]. apply grows_bind; [apply sizzle_n_grows|intros r].
  apply grows_bind; [apply IH|intros rs; apply grows_ret].
Qed.

Lemma session_does random l : Forall query_ok l -> forall w, good_world askable w ->
  does w (session false random l) (fun rs w' => Forall2 (fun q r => answers_query (q_dom q) (q_selector q) (q_context q) (q_seed q) r) l rs).
Proof.
  induction 1 as [|q l [H1 H2 H3 H4 H5] _ IH]; intros w G; cbn [session]; [by apply does_ret|].
  eapply does_bind; [|unfold perform; apply sizzle_does; try done; lia|].
  { intros r. apply grows_bind; [apply session_grows|intros rs; apply grows_ret]. }
  intros r w1 [Hr Hc]. eapply does_bind; [intros; apply grows_ret|apply IH, Hc|]. intros rs w2 Hrs. apply does_ret. by constructor.
Qed.

(** C3: in HTML documents, every query of a page is answered with the elements that match its selector, in order, whatever the queries before
    it left: compiled selectors, the arrays that combinators put on elements and the numbers of [nth-child] are used by the queries after,
    and none of them changes an answer as long as no value of [dirruns] comes twice.  The documents may change between queries. *)
Theorem session_answers random queries : Forall query_ok queries -> distinct (w_runs (session false random queries new_world).1) ->
  exists results, (session false random queries new_world).2 = Ok results /\
    Forall2 (fun q r => answers_query (q_dom q) (q_selector q) (q_context q) (q_seed q) r) queries results.
Proof. intros H Hd. destruct (session_does random queries H new_world new_world_good Hd) as (rs & E & Hrs). by exists rs. Qed.

(** ** An example *)

(** Documents and runs can be checked. *)
Definition well_formed_check (D : dom) : bool :=
  let all := seq 0 (length D) in
  forallb (fun x => match parent D x with
    | Some p => (p <? x) && bool_decide (x ∈ children D p) && (element D p || (p =? document))
    | None => true
    end && bool_decide (NoDup (children D x)) && forallb (fun y => bool_decide (parent D y = Some x)) (children D x) &&
    eqb (type_of D x =? 9)%Z (x =? document) &&
    forallb (fun y => negb (contains D document x && contains D document y) || (x =? y) ||
      negb (bool_decide (is_Some (getAttribute D x (txt "id")) /\ getAttribute D x (txt "id") = getAttribute D y (txt "id")))) all) all && (0 <? length D).

Lemma get_outside {A} (D : dom) (f : node -> A) d x : length D <= x -> get D f d x = d.
Proof. intros H. unfold get. destruct (D !! x) eqn:E; [|done]. apply lookup_lt_Some in E. unfold dom in *. lia. Qed.

Lemma well_formed_checked D : well_formed_check D = true -> well_formed D.
Proof.
  unfold well_formed_check. rewrite andb_true_iff, forallb_forall. intros [H H0%Nat.ltb_lt].
  assert (forall x, x < length D -> (forall p, parent D x = Some p -> p < x /\ x ∈ children D p /\ (element D p = true \/ p = document)) /\
    NoDup (children D x) /\ (forall y, y ∈ children D x -> parent D y = Some x) /\ (type_of D x = 9%Z <-> x = document) /\
    forall y i, y < length D -> contains D document x = true -> contains D document y = true -> getAttribute D x (txt "id") = Some i ->
      getAttribute D y (txt "id") = Some i -> x = y) as Hx.
  { intros x Hx. specialize (H x). rewrite in_seq, !andb_true_iff in H. destruct H as [[[[H1 H2] H3] H4] H5]; [lia|]. split_and!.
    - intros p Hp. rewrite Hp in H1. rewrite !andb_true_iff, orb_true_iff, Nat.ltb_lt, Nat.eqb_eq, bool_decide_eq_true in H1. tauto.
    - by apply bool_decide_eq_true in H2.
    - intros y Hy. rewrite forallb_forall in H3. apply list_elem_of_In, H3, bool_decide_eq_true in Hy. done.
    - apply eqb_prop in H4. rewrite <- Z.eqb_eq, H4. apply Nat.eqb_eq.
    - intros y i Hy Hcx Hcy Hix Hiy. rewrite forallb_forall in H5. specialize (H5 y). rewrite in_seq, Hcx, Hcy, Hix, Hiy in H5. cbn [andb negb orb] in H5.
      rewrite bool_decide_eq_true_2 in H5 by (split; [by eexists|done]). cbn [negb] in H5. rewrite orb_false_r, Nat.eqb_eq in H5. apply H5. lia. }
  clear H. assert (forall x p, parent D x = Some p -> x < length D) as Hlt by apply parent_size.
  assert (forall x, contains D document x = true -> x < length D) as Hc.
  { intros x Hin. destruct (decide (x < length D)); [done|]. unfold contains, walk in Hin. destruct D as [|d0 D]; [done|]. cbn [length chain step] in Hin.
    unfold parent in Hin. rewrite get_outside in Hin by lia. done. }
  split.
  - intros p x. split.
    + intros Hin. destruct (decide (p < length D)) as [Hp|Hp]; [by apply (Hx p Hp)|]. unfold children in Hin. rewrite get_outside in Hin by lia. by apply elem_of_nil in Hin.
    + intros Hp. by apply (Hx x (Hlt x p Hp)).
  - intros p. destruct (decide (p < length D)) as [Hp|Hp]; [by apply (Hx p Hp)|]. unfold children. rewrite get_outside by lia. constructor.
  - intros x p Hp. by apply (Hx x (Hlt x p Hp)).
  - intros x p Hp. by apply (Hx x (Hlt x p Hp)).
  - intros x. destruct (decide (x < length D)) as [Hl|Hl]; [by apply (Hx x Hl)|]. unfold type_of. rewrite get_outside by lia. split; [done|].
    intros ->. unfold document in Hl. lia.
  - intros x y i Hcx Hcy. intros Hix Hiy. apply (Hx x (Hc x Hcx)) with i; try done. by apply Hc.
Qed.

#[global] Instance spec_float_eq_dec : EqDecision spec_float.
Proof. solve_decision. Defined.

Definition distinct_check (l : list double) : bool :=
  forallb (fun i => forallb (fun j => match l !! i, l !! j with
    | Some a, Some b => (i =? j) || negb (bool_decide (a = b) || SFeqb a b)
    | _, _ => true
    end) (seq 0 (length l))) (seq 0 (length l)).

Lemma distinct_checked l : distinct_check l = true -> distinct l.
Proof.
  unfold distinct, distinct_check, double in *. rewrite forallb_forall. intros H i j a b Hi Hj Hab. pose proof (lookup_lt_Some _ _ _ Hi). pose proof (lookup_lt_Some _ _ _ Hj).
  specialize (H i). rewrite in_seq, forallb_forall in H. specialize (H ltac:(lia) j). rewrite in_seq, Hi, Hj in H. specialize (H ltac:(lia)).
  apply orb_true_iff in H as [H%Nat.eqb_eq|H]; [done|]. apply negb_true_iff, orb_false_iff in H as [Hne Hnf]. apply bool_decide_eq_false in Hne. destruct Hab; [done|congruence].
Qed.

Definition an_element (n : string) (p : nat) (l : list nat) (a : list (string * string)) : node :=
  Node 1 (txt n) (Some p) l ((fun p => (txt p.1, txt p.2)) <$> a) [] [] None false false.

(** A list of four items and a block with a paragraph; the list loses its second item, and the third gets a class. *)
Definition page (item3 : list (string * string)) (items : list nat) (detached : option nat) : dom :=
  [Node 9 (txt "#document") None [1] [] [] [] None false false; an_element "HTML" 0 [2] []; an_element "BODY" 1 [3; 9] [];
   an_element "UL" 2 items [("class", "a c")]; an_element "LI" 3 [] [];
   Node 1 (txt "LI") detached [] [(txt "class", txt "b")] [] [] None false false;
   Node 3 (txt "#text") (Some 3) [] [] (txt "hi") [] None false false; an_element "LI" 3 [] [("id", "x")]; an_element "LI" 3 [] item3;
   an_element "DIV" 2 [10] []; an_element "P" 9 [] [("title", "foo bar")]]%string.

Definition before_ : dom := page [] [4; 5; 6; 7; 8] (Some 3).
Definition after_ : dom := page [("class", "b")]%string [4; 6; 7; 8] None.

(** Draws whose sums are all different. *)
Definition halves (n : nat) : double := Doubles.div (of_Z 1) (of_Z (2 ^ (Z.of_nat n + 1))).

Definition some_queries : list query :=
  let s := txt "ul:has(li:nth-child(3)) li:not(li + li:not(.b)), div > [title~=bar]" in
  [Asked before_ s 0 None; Asked before_ (txt "#x ~ li") 0 None; Asked after_ s 0 None; Asked after_ (txt "+ div p") 3 None;
   Asked after_ (txt "li:nth-last-child(-n+2)") 0 (Some [4; 7; 8; 5])].

Lemma some_queries_ok : Forall query_ok some_queries.
Proof.
  assert (well_formed before_ /\ well_formed after_) as [H1 H2] by (split; by apply well_formed_checked).
  unfold some_queries. repeat apply Forall_cons_2; [..|apply Forall_nil_2]; split; cbn [q_dom q_context q_selector q_seed]; try done; try (by right); try (by left);
    try (eexists 60; vm_compute; reflexivity); try (vm_compute; reflexivity).
  intros l [= <-]. by repeat constructor.
Qed.

(** All five are answered: list items by a selector with selectors in it, by an id and those after it, and the same selector for a changed page. *)
Lemma session_answers_witness : Forall query_ok some_queries /\
  (session false halves some_queries new_world).2 = Ok [[4; 5; 10]; [8]; [4; 8; 10]; [10]; [7; 8]] /\
  exists results, (session false halves some_queries new_world).2 = Ok results /\
    Forall2 (fun q r => answers_query (q_dom q) (q_selector q) (q_context q) (q_seed q) r) some_queries results.
Proof.
  split; [apply some_queries_ok|]. split; [vm_compute; reflexivity|].
  apply (session_answers halves some_queries some_queries_ok), distinct_checked. vm_compute. reflexivity.
Defined.
