(* ===== verification/SizzleFindings.v ===== *)
(** * Sizzle: queries that go wrong

    Each lemma is a query the engine answers with other elements than its selector means, by evaluation. *)

From Stdlib Require Import ZArith Ascii.
From stdpp Require Import gmap strings.
From S2P Require Import Prelude JsString SizzleTokens Doubles Sizzle SizzleSpec.

Local Open Scope nat_scope.
Local Open Scope js_scope.

(** A block, a title and three paragraphs; the second has a title of two words with a line feed between them. *)
Definition text_page : dom :=
  [Node 9 (txt "#document") None [1] [] [] [] None false false; an_element "HTML" 0 [2] []; an_element "BODY" 1 [3; 4; 5; 6; 7] [];
   an_element "DIV" 2 [] []; an_element "H1" 2 [] []; an_element "P" 2 [] [];
   Node 1 (txt "P") (Some 2) [] [(txt "title", txt "foo" ++ ascii_of_nat 10 :: txt "bar")] [] [] None false false;
   an_element "P" 2 [] []]%list.

Definition finds (xml : bool) (selector : string) (context : nat) : jsres (list (list nat)) :=
  (session xml halves [Asked text_page (txt selector) context None] new_world).2.

(** The second part of the name of [:nth-of-type] is not put in small letters: in capitals it is [:nth-child]. *)
Lemma nth_of_type_capitals : finds false "p:nth-of-type(1)" 0 = Ok [[5]] /\ finds false "p:NTH-OF-TYPE(1)" 0 = Ok [[]] /\
  finds false "p:NTH-OF-TYPE(3)" 0 = Ok [[5]] /\ finds false "p:NTH-CHILD(3)" 0 = Ok [[5]].
Proof. vm_compute. by split_and!. Qed.

(** Nor are the words of its argument: [ODD] is no number and finds nothing. *)
Lemma odd_capitals : finds false "p:nth-child(odd)" 0 = Ok [[5; 7]] /\ finds false "p:nth-child(ODD)" 0 = Ok [[]].
Proof. vm_compute. by split_and!. Qed.

(** A word of an attribute is found between spaces only. *)
Lemma words_of_lines : finds false "[title~=bar]" 0 = Ok [[]] /\ finds false "[title$=bar]" 0 = Ok [[6]].
Proof. vm_compute. by split_and!. Qed.

(** In XML documents the context is not looked at, and a selector with a sibling in it is tried on all that its parent has. *)
Lemma xml_outside_context : finds true "h1 ~ [title]" 3 = Ok [[6]] /\ finds false "h1 ~ [title]" 3 = Ok [[]].
Proof. vm_compute. by split_and!. Qed.
