(* ===== verification/Classes.v ===== *)
(** * jQuery: classes of elements (application bundle, lines 405-409 and 8281-8428)

    [addClass], [removeClass], [toggleClass] and [hasClass] on the [className] of elements, a text whose classes are found between spaces.
    A call is on the elements of a jQuery object, given by their places in the page.  Values that are functions are left out. *)

From Stdlib Require Import ZArith Lia Ascii.
From S2P Require Import Prelude JsString Callbacks.

Local Open Scope Z_scope.

(** [saved] is what [_data] keeps under ["__className__"]. *)
Record element := Element { nodeType : Z; className : text; saved : option text }.

Definition set_className (s : text) (e : element) : element := Element (nodeType e) s (saved e).
Definition set_saved (s : text) (e : element) : element := Element (nodeType e) (className e) (Some s).

Definition space : ascii := ascii_of_nat 32.
Definition spaced (s : text) : text := space :: s ++ [space].

(** [replace( rclass, " " )] *)
Definition rclass (s : text) : text := map (fun c => if bool_decide (c ∈ map ascii_of_nat [9; 13; 10; 12]%nat) then space else c) s.

(** [jQuery.trim] *)
Definition trim (s : text) : text := rev (drop_while is_space (rev (drop_while is_space s))).

(** [cur.indexOf( clazz ) >= 0] *)
Fixpoint indexOf (pattern s : text) : bool :=
  match strip_prefix pattern s with
  | Some _ => true
  | None => match s with [] => false | _ :: s => indexOf pattern s end
  end.

(** [value.match( rnotwhite ) || []] *)
Definition match_words (value : text) : list text := words [] value.

Definition assign (finalValue : text) (e : element) : element := if bool_decide (className e = finalValue) then e else set_className finalValue e.

(** The loop over the classes to add, and the change of an element. *)
Fixpoint add_loop (cur : text) (classes : list text) : text :=
  match classes with
  | [] => cur
  | clazz :: classes => add_loop (if indexOf (spaced clazz) cur then cur else cur ++ clazz ++ [space]) classes
  end.

Definition add_to (classes : list text) (e : element) : element :=
  if nodeType e =? 1 then
    let cur := match className e with [] => [space] | c => rclass (spaced c) end in
    assign (trim (add_loop cur classes)) e
  else e.

(** [while ( cur.indexOf( ... ) >= 0 )]: each turn shortens the text. *)
Fixpoint remove_all (n : nat) (clazz cur : text) : text :=
  match n with
  | O => cur
  | S n => if indexOf (spaced clazz) cur then remove_all n clazz (replace_first (spaced clazz) [space] cur) else cur
  end.

Definition remove_loop (cur : text) (classes : list text) : text := foldl (fun cur clazz => remove_all (length cur) clazz cur) cur classes.

(** [value] is absent when there is no argument. *)
Definition remove_from (value : option text) (e : element) : element :=
  if nodeType e =? 1 then
    match className e with
    | [] => e
    | c => assign (match value with Some v => trim (remove_loop (rclass (spaced c)) (match_words v)) | None => [] end) e
    end
  else e.

Definition has_class (selector : text) (e : element) : bool := (nodeType e =? 1) && indexOf (spaced selector) (rclass (spaced (className e))).

(** ** Calls *)

Notation page := (list element).

(** For the elements of a jQuery object. *)
Definition each (f : element -> element) (this : list nat) (p : page) : page := foldl (fun p i => alter f i p) p this.

Definition addClass (value : text) (this : list nat) (p : page) : page :=
  match value with [] => p | _ => each (add_to (match_words value)) this p end.

Definition removeClass (value : option text) (this : list nat) (p : page) : page :=
  match value with Some [] => p | _ => each (remove_from value) this p end.

Definition hasClass (selector : text) (this : list nat) (p : page) : bool :=
  existsb (fun i => match p !! i with Some e => has_class selector e | None => false end) this.

(** The classes of the value one by one, for an element. *)
Definition toggle_names (value : text) (e : element) : element :=
  foldl (fun e name => if has_class name e then remove_from (Some name) e else add_to (match_words name) e) e (match_words value).

(** The whole of [className]; the value is a boolean or absent. *)
Definition toggle_whole (value : option bool) (e : element) : element :=
  let e := match className e with [] => e | c => if nodeType e =? 1 then set_saved c e else e end in
  set_className (match className e, value with [], Some false => [] | [], _ => default [] (saved e) | _, _ => [] end) e.

Inductive toggled := Names (value : text) | Whole (value : option bool).

Definition toggleClass (value : toggled) (stateVal : option bool) (this : list nat) (p : page) : page :=
  match value, stateVal with
  | Names v, Some true => addClass v this p
  | Names v, Some false => removeClass (Some v) this p
  | Names v, None => each (toggle_names v) this p
  | Whole v, _ => each (toggle_whole v) this p
  end.

(** Calls one after another; [hasClass] answers. *)
Inductive call :=
| Add (value : text) (this : list nat)
| Remove (value : option text) (this : list nat)
| Toggle (value : toggled) (stateVal : option bool) (this : list nat)
| Has (selector : text) (this : list nat).

Definition perform (p : page) (c : call) : page * list bool :=
  match c with
  | Add v this => (addClass v this p, [])
  | Remove v this => (removeClass v this p, [])
  | Toggle v state this => (toggleClass v state this p, [])
  | Has s this => (p, [hasClass s this p])
  end.

Fixpoint session (p : page) (l : list call) : page * list bool :=
  match l with
  | [] => (p, [])
  | c :: l => let '(p, a) := perform p c in let '(p, b) := session p l in (p, a ++ b)
  end.
