(* ===== verification/ClassesSpec.v ===== *)
(** * jQuery: classes as ordered lists of names

    The text of [className] is searched and changed between spaces; [classes_refine] says that sessions of calls are what they are on the
    lists of classes that HTML reads in the texts. *)

From Stdlib Require Import ZArith Lia Ascii.
From S2P Require Import Prelude JsString Callbacks Classes.

Local Open Scope nat_scope.

(** ** The classes of a text *)

(** What separates classes in HTML, and the classes. *)
Definition html_space (c : ascii) : bool := bool_decide (c ∈ map ascii_of_nat [32; 9; 10; 12; 13]).

Fixpoint class_words (cur s : text) : list text :=
  match s with
  | [] => if decide (cur = []) then [] else [cur]
  | c :: s => if html_space c then (if decide (cur = []) then [] else [cur]) ++ class_words [] s else class_words (cur ++ [c]) s
  end.

(** The other spaces of the language, a vertical tab and a space that does not break, are of a class in HTML; texts with them are left out. *)
Definition ordinary (s : text) : Prop := Forall (fun c => is_space c = html_space c) s.
Definition named (s : text) : Prop := s <> [] /\ Forall (fun c => is_space c = false) s.

Lemma class_words_ordinary s : ordinary s -> forall cur, class_words cur s = words cur s.
Proof. induction 1 as [|c s Hc _ IH]; intros cur; cbn; [done|]. rewrite <- Hc. destruct (is_space c); by rewrite IH. Qed.

Lemma words_named s : forall cur, Forall (fun c => is_space c = false) cur -> Forall named (words cur s).
Proof.
  assert (forall cur, Forall (fun c => is_space c = false) cur -> Forall named (if decide (cur = []) then [] else [cur])) as H1.
  { intros cur Hc. destruct (decide _); [constructor|]. by constructor. }
  induction s as [|c s IH]; intros cur Hc; cbn; [by apply H1|]. destruct (is_space c) eqn:E.
  - apply Forall_app. split; [by apply H1|by apply IH].
  - apply IH, Forall_app. split; [done|by constructor].
Qed.

Lemma match_words_named v : Forall named (match_words v).
Proof. by apply words_named. Qed.

Lemma words_of_named n : named n -> words [] n = [n].
Proof.
  assert (forall n cur, Forall (fun c => is_space c = false) n -> words cur n = if decide (cur ++ n = []) then [] else [cur ++ n]) as H.
  { induction n0 as [|c n0 IH]; intros cur Hn; cbn; [by rewrite app_nil_r|]. apply Forall_cons in Hn as [Hc Hn]. rewrite Hc, IH by done.
    by rewrite <- app_assoc. }
  intros [Hn Hs]. rewrite H by done. cbn [app]. by rewrite decide_False.
Qed.

(** ** Fields between spaces *)

(** A space, then fields with a space after each; fields have no space in them. *)
Fixpoint enc (fs : list text) : text := match fs with [] => [space] | f :: fs => space :: f ++ enc fs end.

Definition solid (f : text) : Prop := Forall (fun c => is_space c = false) f.
Definition filled (f : text) : bool := negb (bool_decide (f = [])).

Lemma enc_space fs : exists r, enc fs = space :: r.
Proof. destruct fs; by eexists. Qed.

Lemma enc_snoc fs c : enc (fs ++ [c]) = enc fs ++ c ++ [space].
Proof. induction fs as [|f fs IH]; [done|]. cbn. by rewrite IH, <- app_assoc. Qed.

Lemma solid_space f r : solid f -> forall g s, solid g -> f ++ space :: r = g ++ space :: s -> f = g /\ r = s.
Proof.
  induction 1 as [|c f Hc _ IH]; intros [|d g] s Hg E; cbn in E.
  - by injection E as ->.
  - injection E as <- _. by apply Forall_cons in Hg as [Hg _].
  - by injection E as -> _.
  - apply Forall_cons in Hg as [_ Hg]. injection E as <- E. by destruct (IH g s Hg E) as [-> ->].
Qed.

(** A name is in front of fields exactly when it is the first. *)
Lemma strip_enc c f fs r : solid c -> solid f -> enc fs = space :: r ->
  strip_prefix (spaced c) (space :: f ++ enc fs) = if decide (f = c) then Some r else None.
Proof.
  intros Hc Hf Er. unfold spaced. destruct (strip_prefix (space :: c ++ [space]) (space :: f ++ enc fs)) as [s|] eqn:E.
  - apply strip_prefix_Some in E. cbn in E. injection E as E. rewrite Er, <- app_assoc in E. cbn in E.
    destruct (solid_space f r Hf c s Hc E) as [-> ->]. by rewrite decide_True.
  - rewrite decide_False; [done|]. intros ->. rewrite Er in E. change (space :: c ++ space :: r) with ((space :: c) ++ space :: r) in E.
    assert ((space :: c) ++ space :: r = (space :: c ++ [space]) ++ r) as E' by (cbn; by rewrite <- app_assoc).
    rewrite E', strip_prefix_app in E. done.
Qed.

Lemma strip_solid p c s : is_space c = false -> strip_prefix (spaced p) (c :: s) = None.
Proof. intros Hc. unfold spaced. cbn. case_decide as E; [by subst|done]. Qed.

Lemma indexOf_solid p f s : solid f -> indexOf (spaced p) (f ++ s) = indexOf (spaced p) s.
Proof. induction 1 as [|c f Hc _ IH]; [done|]. cbn [app indexOf]. by rewrite strip_solid. Qed.

Lemma strip_last c : strip_prefix (spaced c) [space] = None.
Proof. unfold spaced. cbn. destruct c as [|a [|b c]]; done. Qed.

Lemma indexOf_enc c fs : solid c -> Forall solid fs -> indexOf (spaced c) (enc fs) = bool_decide (c ∈ fs).
Proof.
  intros Hc. induction 1 as [|f fs Hf Hfs IH].
  - cbn [enc indexOf]. rewrite strip_last. symmetry. apply bool_decide_eq_false. by intros ?%elem_of_nil.
  - destruct (enc_space fs) as [r Er]. cbn [enc indexOf]. rewrite (strip_enc c f fs r Hc Hf Er). destruct (decide (f = c)) as [->|E].
    + symmetry. apply bool_decide_eq_true. left.
    + rewrite indexOf_solid, IH by done. apply bool_decide_ext. rewrite elem_of_cons. naive_solver.
Qed.

(** The first field that is a name, taken out. *)
Fixpoint take_out (c : text) (fs : list text) : list text :=
  match fs with [] => [] | f :: fs => if decide (f = c) then fs else f :: take_out c fs end.

Lemma replace_solid p f s : solid f -> replace_first (spaced p) [space] (f ++ s) = f ++ replace_first (spaced p) [space] s.
Proof. induction 1 as [|c f Hc _ IH]; [done|]. cbn [app replace_first]. rewrite strip_solid by done. by rewrite IH. Qed.

Lemma replace_enc c fs : solid c -> Forall solid fs -> replace_first (spaced c) [space] (enc fs) = enc (take_out c fs).
Proof.
  intros Hc. induction 1 as [|f fs Hf Hfs IH]; [cbn [enc replace_first]; by rewrite strip_last|].
  destruct (enc_space fs) as [r Er]. cbn [enc replace_first take_out]. rewrite (strip_enc c f fs r Hc Hf Er). destruct (decide (f = c)); [by rewrite Er|].
  by rewrite replace_solid, IH.
Qed.

Lemma take_out_absent c fs : c ∉ fs -> take_out c fs = fs.
Proof. induction fs as [|f fs IH]; [done|]. intros [Hf H]%not_elem_of_cons. cbn. rewrite decide_False by done. by rewrite IH. Qed.

Lemma filter_take_out c fs : filter (fun f => f <> c) (take_out c fs) = filter (fun f => f <> c) fs.
Proof.
  induction fs as [|f fs IH]; [done|]. cbn [take_out]. rewrite filter_cons. case_decide as E; [by rewrite decide_False by (by intros [])|].
  rewrite filter_cons, IH. done.
Qed.

Lemma take_out_length c fs : c ∈ fs -> length (enc (take_out c fs)) < length (enc fs).
Proof.
  induction fs as [|f fs IH]; [by intros ?%elem_of_nil|]. cbn [take_out]. case_decide as E; [cbn; rewrite length_app; lia|].
  intros [->|H]%elem_of_cons; [done|]. cbn. rewrite !length_app. specialize (IH H). lia.
Qed.

Lemma take_out_solid c fs : Forall solid fs -> Forall solid (take_out c fs).
Proof. induction 1 as [|f fs Hf Hfs IH]; [constructor|]. cbn. case_decide; [done|by constructor]. Qed.

(** The loop of [removeClass] takes all of them out. *)
Lemma remove_all_enc c n : forall fs, solid c -> Forall solid fs -> length (enc fs) <= n ->
  remove_all n c (enc fs) = enc (filter (fun f => f <> c) fs).
Proof.
  induction n as [|n IH]; intros fs Hc Hfs Hn; [destruct (enc_space fs) as [r E]; rewrite E in Hn; cbn in Hn; lia|].
  cbn [remove_all]. rewrite indexOf_enc by done. case_bool_decide as E.
  - rewrite replace_enc by done. pose proof (take_out_length c fs E). rewrite IH; [by rewrite filter_take_out|done|by apply take_out_solid|lia].
  - f_equal. clear -E. induction fs as [|f fs IH]; [done|]. apply not_elem_of_cons in E as [Hf E]. rewrite filter_cons, decide_True by done. by rewrite <- IH.
Qed.

(** ** Texts and fields *)

Fixpoint fields (t : text) : list text :=
  match t with
  | [] => [[]]
  | c :: t => if is_space c then [] :: fields t else match fields t with f :: fs => (c :: f) :: fs | [] => [[c]] end
  end.

Lemma fields_cons t : exists f fs, fields t = f :: fs.
Proof. destruct t as [|c t]; [by do 2 eexists|]. cbn. destruct (is_space c); [by do 2 eexists|]. destruct (fields t); by do 2 eexists. Qed.

Lemma fields_solid t : Forall solid (fields t).
Proof.
  induction t as [|c t IH]; cbn; [by repeat constructor|]. destruct (is_space c) eqn:E; [by constructor; [constructor|]|].
  destruct (fields_cons t) as (f & fs & Ef). rewrite Ef in *. apply Forall_cons in IH as [Hf Hfs]. constructor; [by constructor|done].
Qed.

Lemma rclass_app a b : rclass (a ++ b) = rclass a ++ rclass b.
Proof. apply map_app. Qed.

Lemma html_space_is c : html_space c = true -> is_space c = true.
Proof. unfold html_space, is_space. rewrite !bool_decide_eq_true. set_solver. Qed.

Lemma rclass_fields t : ordinary t -> enc (fields t) = rclass (spaced t).
Proof.
  intros H. change (rclass (spaced t)) with (space :: rclass (t ++ [space])). rewrite rclass_app. change (rclass [space]) with [space].
  induction H as [|c t Hc _ IH]; [done|]. cbn [fields]. destruct (is_space c) eqn:E.
  - cbn [enc app]. rewrite IH. cbn. f_equal. f_equal. case_bool_decide as Hin; [done|]. symmetry in Hc. unfold html_space in Hc.
    apply bool_decide_eq_true in Hc. change (map ascii_of_nat [32; 9; 10; 12; 13]) with (space :: map ascii_of_nat [9; 10; 12; 13]) in Hc.
    apply elem_of_cons in Hc as [->|Hc]; [done|]. destruct Hin. set_solver.
  - destruct (fields_cons t) as (f & fs & Ef). rewrite Ef in *. cbn [enc app] in *. injection IH as IH. cbn. rewrite IH.
    rewrite bool_decide_eq_false_2; [done|]. intros Hin. symmetry in Hc. unfold html_space in Hc. apply bool_decide_eq_false in Hc. destruct Hc. set_solver.
Qed.

Lemma words_fields t : forall cur, words cur t = match fields t with f :: fs => filter (fun f => filled f = true) ((cur ++ f) :: fs) | [] => [] end.
Proof.
  assert (forall cur fs, filter (fun f => filled f = true) (cur :: fs) = (if decide (cur = []) then [] else [cur]) ++ filter (fun f => filled f = true) fs) as H.
  { by intros [|a cur] fs. }
  induction t as [|c t IH]; intros cur; cbn [words fields]; [by rewrite H, !app_nil_r|].
  destruct (fields_cons t) as (f & fs & Ef). destruct (is_space c).
  - rewrite IH, Ef, app_nil_r, (H cur (f :: fs)). done.
  - rewrite IH, Ef. by rewrite <- app_assoc.
Qed.

Lemma words_enc fs : Forall solid fs -> words [] (enc fs) = filter (fun f => filled f = true) fs.
Proof.
  assert (forall f cur s, solid f -> words cur (f ++ s) = words (cur ++ f) s) as Happ.
  { intros f cur s Hf. revert cur. induction Hf as [|c f Hc _ IH]; intros cur; [by rewrite app_nil_r|]. cbn. rewrite Hc, IH. by rewrite <- app_assoc. }
  assert (forall cur r, words cur (space :: r) = (if decide (cur = []) then [] else [cur]) ++ words [] r) as Hsp by done.
  induction 1 as [|f fs Hf _ IH]; [done|]. destruct (enc_space fs) as [r Er]. cbn [enc]. rewrite Hsp, Happ, Er, Hsp by done.
  rewrite Er, Hsp in IH. cbn [app] in IH. rewrite decide_True in IH by done. cbn [app] in *. rewrite decide_True by done. rewrite IH. by destruct f.
Qed.

(** *** [jQuery.trim] *)

Lemma words_drop s : words [] (drop_while is_space s) = words [] s.
Proof. induction s as [|c s IH]; [done|]. cbn. destruct (is_space c) eqn:E; [by rewrite decide_True|]. cbn. by rewrite E. Qed.

Lemma words_spaces s : Forall (fun c => is_space c = true) s -> words [] s = [].
Proof. induction 1 as [|c s Hc _ IH]; [done|]. cbn. rewrite Hc, IH. done. Qed.

Lemma words_trailing a : forall cur s, Forall (fun c => is_space c = true) s -> words cur (a ++ s) = words cur a.
Proof.
  induction a as [|c a IH]; intros cur s Hs; cbn.
  - destruct Hs as [|c s Hc Hs]; [done|]. cbn. rewrite Hc, words_spaces by done. by rewrite app_nil_r.
  - destruct (is_space c); by rewrite IH.
Qed.

Lemma trim_split s : exists a b, drop_while is_space s = a ++ b /\ trim s = a /\ Forall (fun c => is_space c = true) b.
Proof.
  exists (trim s), (rev (take_while is_space (rev (drop_while is_space s)))). split_and!; [|done|].
  - unfold trim. rewrite <- rev_app_distr, take_drop_while, rev_involutive. done.
  - apply Forall_rev, take_while_all.
Qed.

Lemma words_trim s : words [] (trim s) = words [] s.
Proof. destruct (trim_split s) as (a & b & E & -> & Hb). rewrite <- (words_drop s), E. by rewrite words_trailing. Qed.

Lemma drop_while_none s : words [] s = [] -> drop_while is_space s = [].
Proof.
  assert (forall s cur, cur <> [] -> words cur s <> []) as H.
  { induction s0 as [|c s0 IH]; intros cur Hc; cbn; [by rewrite decide_False|]. destruct (is_space c); [by rewrite decide_False|]. apply IH. by destruct cur. }
  induction s as [|c s IH]; [done|]. cbn. destruct (is_space c); [|intros E; exfalso; by apply (H s [c])]. rewrite decide_True by done. done.
Qed.

Lemma trim_blank s : words [] (trim s) = [] -> trim s = [].
Proof. rewrite words_trim. intros H%drop_while_none. unfold trim. by rewrite H. Qed.

Lemma trim_ordinary s : ordinary s -> ordinary (trim s).
Proof.
  intros H. assert (ordinary (drop_while is_space s)) as Hd.
  { clear -H. induction H as [|c s Hc Hs IH]; [constructor|]. cbn [drop_while]. destruct (is_space c) eqn:E0; [done|]. constructor; [congruence|done]. }
  destruct (trim_split s) as (a & b & E & -> & _). rewrite E in Hd. by apply Forall_app in Hd as [Hd _].
Qed.

Lemma solid_ordinary f : solid f -> ordinary f.
Proof.
  intros H. eapply Forall_impl; [exact H|]. intros c Hc. cbn in Hc. rewrite Hc. symmetry. destruct (html_space c) eqn:E; [|done].
  apply html_space_is in E. congruence.
Qed.

Lemma enc_ordinary fs : Forall solid fs -> ordinary (enc fs).
Proof.
  induction 1 as [|f fs Hf _ IH]; cbn; [by repeat constructor|]. constructor; [done|]. apply Forall_app. split; [by apply solid_ordinary|done].
Qed.

(** ** Lists of names *)

(** What HTML reads of an element: whether it is one, its classes, and those that are kept. *)
Record item := Item { i_element : bool; i_classes : list text; i_kept : option (list text) }.

Definition set_classes (l : list text) (i : item) : item := Item (i_element i) l (i_kept i).

Definition adding (ns l : list text) : list text := foldl (fun l n => if bool_decide (n ∈ l) then l else l ++ [n]) l ns.
Definition removing (ns l : list text) : list text := filter (fun f => f ∉ ns) l.

Definition item_add (ns : list text) (i : item) : item := if i_element i then set_classes (adding ns (i_classes i)) i else i.
Definition item_remove (ns : option (list text)) (i : item) : item :=
  if i_element i then set_classes (match ns with Some ns => removing ns (i_classes i) | None => [] end) i else i.
Definition item_toggle (ns : list text) (i : item) : item :=
  foldl (fun i n => if bool_decide (n ∈ i_classes i) then item_remove (Some [n]) i else item_add [n] i) i ns.
Definition item_whole (value : option bool) (i : item) : item :=
  match i_classes i, value with
  | [], Some false => i
  | [], _ => set_classes (default [] (i_kept i)) i
  | l, _ => Item (i_element i) [] (Some l)
  end.

Definition names_call (l : list item) (c : call) : list item * list bool :=
  let on f this := foldl (fun l k => alter f k l) l this in
  match c with
  | Add v this | Toggle (Names v) (Some true) this => (on (item_add (match_words v)) this, [])
  | Remove None this => (on (item_remove None) this, [])
  | Remove (Some v) this | Toggle (Names v) (Some false) this => (on (item_remove (Some (match_words v))) this, [])
  | Toggle (Names v) None this => (on (item_toggle (match_words v)) this, [])
  | Toggle (Whole v) _ this => (on (item_whole v) this, [])
  | Has n this => (l, [existsb (fun k => match l !! k with Some i => bool_decide (n ∈ i_classes i) | None => false end) this])
  end.

Fixpoint names_session (l : list item) (calls : list call) : list item * list bool :=
  match calls with
  | [] => (l, [])
  | c :: calls => let '(l, a) := names_call l c in let '(l, b) := names_session l calls in (l, a ++ b)
  end.

Definition read (e : element) : item := Item (nodeType e =? 1)%Z (class_words [] (className e)) (class_words [] <$> saved e).

(** A text that is empty or has a class. *)
Definition tidy (s : text) : Prop := ordinary s /\ (words [] s = [] -> s = []).

Record proper (e : element) : Prop := {
  p_element : (nodeType e =? 1)%Z = true -> tidy (className e);
  p_other : (nodeType e =? 1)%Z = false -> className e = [] /\ saved e = None;
  p_saved s : saved e = Some s -> tidy s
}.

(** A selector of [hasClass] is one name. *)
Definition call_ok (c : call) : Prop := match c with Has n _ => named n | _ => True end.

(** *** The loops *)

Lemma add_loop_enc ns : Forall named ns -> forall fs, Forall solid fs -> add_loop (enc fs) ns = enc (adding ns fs) /\ Forall solid (adding ns fs).
Proof.
  induction 1 as [|n ns [Hn Hs] _ IH]; intros fs Hfs; cbn [add_loop]; [done|]. rewrite indexOf_enc by done. unfold adding. cbn [foldl].
  destruct (bool_decide (n ∈ fs)); [by apply IH|]. rewrite <- enc_snoc. apply IH, Forall_app. split; [done|by constructor].
Qed.

Lemma adding_filled ns : Forall named ns -> forall fs,
  filter (fun f => filled f = true) (adding ns fs) = adding ns (filter (fun f => filled f = true) fs).
Proof.
  induction 1 as [|n ns [Hn Hs] _ IH]; intros fs; [done|]. unfold adding. cbn [foldl]. assert (filled n = true) as Hf by by destruct n.
  rewrite (bool_decide_ext (n ∈ filter (fun f => filled f = true) fs) (n ∈ fs)) by (rewrite list_elem_of_filter; tauto).
  destruct (bool_decide (n ∈ fs)); [apply IH|]. fold (adding ns (fs ++ [n])). rewrite IH, filter_app. unfold adding. f_equal. f_equal.
  rewrite filter_cons. by rewrite decide_True.
Qed.

Lemma filtered (P Q : text -> Prop) `{forall x, Decision (Q x)} l : Forall P l -> Forall P (filter Q l).
Proof. rewrite !Forall_forall. intros Hl x [_ Hx]%list_elem_of_filter. by apply Hl. Qed.

Lemma removing_none l : removing [] l = l.
Proof. induction l as [|f l IH]; [done|]. unfold removing in *. rewrite filter_cons, IH. rewrite decide_True; [done|]. by intros ?%elem_of_nil. Qed.

Lemma remove_loop_enc ns : Forall named ns -> forall fs, Forall solid fs ->
  remove_loop (enc fs) ns = enc (removing ns fs) /\ Forall solid (removing ns fs).
Proof.
  intros Hns fs Hfs. split; [|by apply filtered].
  revert fs Hfs. unfold remove_loop. induction Hns as [|n ns [Hn Hs] _ IH]; intros fs Hfs; cbn [foldl].
  - by rewrite removing_none.
  - rewrite remove_all_enc by done. rewrite IH by (by apply filtered). f_equal. unfold removing. rewrite list_filter_filter.
    apply list_filter_iff. intros f. rewrite not_elem_of_cons. tauto.
Qed.

(** *** Elements *)

Lemma trim_fields fs : Forall solid fs -> tidy (trim (enc fs)) /\ class_words [] (trim (enc fs)) = filter (fun f => filled f = true) fs.
Proof.
  intros H. assert (ordinary (trim (enc fs))) as Ho by by apply trim_ordinary, enc_ordinary. split; [split; [done|apply trim_blank]|].
  by rewrite class_words_ordinary, words_trim, words_enc.
Qed.

(** [cur]: the fields of a text that is not empty. *)
Lemma text_fields s : tidy s -> Forall solid (fields s) /\ rclass (spaced s) = enc (fields s) /\ class_words [] s = filter (fun f => filled f = true) (fields s).
Proof.
  intros [Ho _]. split_and!; [apply fields_solid|by rewrite rclass_fields|]. rewrite class_words_ordinary by done. rewrite words_fields.
  by destruct (fields_cons s) as (f & fs & ->).
Qed.

Lemma assign_is s e : assign s e = set_className s e.
Proof. unfold assign. case_bool_decide as E; [|done]. destruct e. by cbn in *; subst. Qed.

Lemma set_proper s e : (nodeType e =? 1)%Z = true -> tidy s -> proper e -> proper (set_className s e).
Proof. intros He Hs []. split; cbn; [done|by rewrite He|done]. Qed.

Lemma add_to_read ns e : Forall named ns -> proper e -> proper (add_to ns e) /\ read (add_to ns e) = item_add ns (read e).
Proof.
  intros Hns He. unfold add_to, item_add. cbn [i_element read]. destruct (nodeType e =? 1)%Z eqn:Ee; [|done].
  destruct (text_fields _ (p_element e He Ee)) as (Hf & Er & Ew).
  assert (exists fs, Forall solid fs /\ match className e with [] => [space] | c => rclass (spaced c) end = enc fs /\
    class_words [] (className e) = filter (fun f => filled f = true) fs) as (fs & Hfs & -> & Ecl).
  { destruct (className e) as [|c s] eqn:Ec; [by exists []|]. exists (fields (c :: s)). done. }
  destruct (add_loop_enc ns Hns fs Hfs) as [-> Hs]. rewrite assign_is. destruct (trim_fields _ Hs) as [Ht Ec].
  split; [by apply set_proper|]. unfold read, set_classes. cbn. by rewrite Ee, Ec, adding_filled, Ecl.
Qed.

Lemma removing_filled ns fs : filter (fun f => filled f = true) (removing ns fs) = removing ns (filter (fun f => filled f = true) fs).
Proof. unfold removing. rewrite !list_filter_filter. apply list_filter_iff. tauto. Qed.

Definition names_of (value : option text) : option (list text) := match_words <$> value.

Lemma tidy_nil : tidy [].
Proof. by split; [constructor|]. Qed.

Lemma remove_from_read v e : proper e -> proper (remove_from v e) /\ read (remove_from v e) = item_remove (names_of v) (read e).
Proof.
  intros He. unfold remove_from, item_remove. cbn [i_element read]. destruct (nodeType e =? 1)%Z eqn:Ee; [|done].
  destruct (text_fields _ (p_element e He Ee)) as (Hf & Er & Ew). destruct (className e) as [|c s] eqn:Ec.
  { split; [done|]. unfold read, set_classes. cbn. rewrite Ee, Ec. by destruct v. }
  rewrite <- Ec in *. rewrite assign_is. destruct v as [v|]; cbn [names_of fmap option_fmap option_map].
  - rewrite Er. destruct (remove_loop_enc _ (match_words_named v) _ Hf) as [-> Hs]. destruct (trim_fields _ Hs) as [Ht Ex].
    split; [by apply set_proper|]. unfold read, set_classes. cbn. rewrite Ee, Ex, removing_filled, Ew. done.
  - split; [by apply set_proper; [|apply tidy_nil|]|]. unfold read, set_classes. cbn. by rewrite Ee.
Qed.

Lemma has_class_read n e : named n -> proper e -> has_class n e = bool_decide (n ∈ i_classes (read e)).
Proof.
  intros [Hn Hs] He. unfold has_class. cbn [i_classes read]. destruct (nodeType e =? 1)%Z eqn:Ee; cbn [andb].
  - destruct (text_fields _ (p_element e He Ee)) as (Hf & -> & ->). rewrite indexOf_enc by done. apply bool_decide_ext.
    rewrite list_elem_of_filter. assert (filled n = true) by by destruct n. tauto.
  - destruct (p_other e He Ee) as [-> _]. symmetry. apply bool_decide_eq_false. by intros ?%elem_of_nil.
Qed.

Lemma toggle_names_read v e : proper e -> proper (toggle_names v e) /\ read (toggle_names v e) = item_toggle (match_words v) (read e).
Proof.
  unfold toggle_names, item_toggle. pose proof (match_words_named v) as H. revert e. induction H as [|n ns Hn _ IH]; intros e He; cbn [foldl]; [done|].
  rewrite (has_class_read n e Hn He). pose proof (words_of_named n Hn) as Ew. destruct (bool_decide (n ∈ i_classes (read e))).
  - destruct (remove_from_read (Some n) e He) as [Hp Er]. unfold names_of, match_words in Er. cbn in Er. rewrite Ew in Er. rewrite <- Er. by apply IH.
  - unfold match_words. rewrite Ew. destruct (add_to_read [n] e) as [Hp Er]; [by constructor|done|]. rewrite <- Er. by apply IH.
Qed.

Lemma toggle_whole_read v e : proper e -> proper (toggle_whole v e) /\ read (toggle_whole v e) = item_whole v (read e).
Proof.
  intros He. unfold toggle_whole, item_whole. cbn [i_classes read]. destruct (nodeType e =? 1)%Z eqn:Ee.
  - pose proof (p_element e He Ee) as [Ho Hb]. rewrite (class_words_ordinary _ Ho). destruct (className e) as [|c s] eqn:Ec.
    + cbn [words]. rewrite decide_True by done. assert (forall s, tidy s -> proper (set_className s e)) as Hset by (intros; by apply set_proper).
      assert (tidy (default [] (saved e))) as Hk by (destruct (saved e) as [s|] eqn:Es; [by apply (p_saved e He)|apply tidy_nil]).
      rewrite Ec. destruct v as [[]|]; (split; [apply Hset; first [exact Hk|apply tidy_nil]|]); unfold read, set_classes; cbn; rewrite Ee, ?Ec; try done;
        by destruct (saved e).
    + destruct (words [] (c :: s)) as [|w ws] eqn:Ew; [by specialize (Hb eq_refl)|]. split.
      * split; cbn; [rewrite Ec; intros _; apply tidy_nil|by rewrite Ee|]. intros s' [= <-]. rewrite <- Ec in *. by apply (p_element e He).
      * unfold read, set_saved, set_className. cbn [className nodeType saved fmap option_fmap option_map]. rewrite Ee, (class_words_ordinary _ Ho), Ew.
        by rewrite Ec.
  - destruct (p_other e He Ee) as [Ec Es]. rewrite Ec. cbn [class_words]. rewrite decide_True by done. rewrite Es.
    assert (set_className [] e = e) as E0 by (destruct e; by cbn in *; subst).
    destruct v as [[]|]; rewrite ?Ec; cbn [default]; rewrite E0; (split; [done|]); unfold read, set_classes; cbn; by rewrite Ee, Ec, Es.
Qed.

(** *** Pages *)

Lemma each_read f g this p : (forall e, proper e -> proper (f e) /\ read (f e) = g (read e)) -> Forall proper p ->
  Forall proper (each f this p) /\ read <$> each f this p = foldl (fun l k => alter g k l) (read <$> p) this.
Proof.
  intros H. unfold each. revert p. induction this as [|k this IH]; intros p Hp; cbn [foldl]; [done|].
  assert (Forall proper (alter f k p) /\ read <$> alter f k p = alter g k (read <$> p)) as [Hp' <-]; [|by apply IH].
  split.
  - apply Forall_alter; [done|]. intros e Hk _. apply H. rewrite Forall_forall in Hp. apply Hp. by eapply list_elem_of_lookup_2.
  - apply list_fmap_alter. rewrite Forall_forall in *. intros e Hk. by apply H, Hp.
Qed.

Lemma each_same (g : item -> item) (this : list nat) (l : list item) : (forall i, g i = i) -> foldl (fun l k => alter g k l) l this = l.
Proof.
  intros H. revert l. induction this as [|k this IH]; intros l; cbn [foldl]; [done|]. rewrite IH. apply list_eq. intros j.
  destruct (decide (k = j)) as [->|Hj]; [rewrite list_lookup_alter_eq|by rewrite list_lookup_alter_ne]. destruct (l !! j); cbn; by rewrite ?H.
Qed.

Definition simulates (p : page) (c : call) : Prop :=
  Forall proper (perform p c).1 /\ names_call (read <$> p) c = (read <$> (perform p c).1, (perform p c).2).

(** A call on the elements of a jQuery object. *)
Lemma each_simulates f g this p : (forall e, proper e -> proper (f e) /\ read (f e) = g (read e)) -> Forall proper p ->
  Forall proper (each f this p) /\ (foldl (fun l k => alter g k l) (read <$> p) this, []) = (read <$> each f this p, @nil bool).
Proof. intros H Hp. destruct (each_read f g this p H Hp) as [H1 H2]. split; [done|]. by rewrite H2. Qed.

Lemma addClass_simulates v this p : Forall proper p -> Forall proper (addClass v this p) /\
  (foldl (fun l k => alter (item_add (match_words v)) k l) (read <$> p) this, []) = (read <$> addClass v this p, @nil bool).
Proof.
  intros Hp. unfold addClass. destruct v as [|a v]; [|by apply each_simulates; [intros; apply add_to_read; [apply match_words_named|]|]].
  split; [done|]. rewrite each_same; [done|]. intros [[] l k]; done.
Qed.

Lemma removeClass_simulates v this p : Forall proper p -> Forall proper (removeClass v this p) /\
  (foldl (fun l k => alter (item_remove (names_of v)) k l) (read <$> p) this, []) = (read <$> removeClass v this p, @nil bool).
Proof.
  intros Hp. unfold removeClass. destruct v as [[|a v]|]; try (apply each_simulates; [apply remove_from_read|done]).
  split; [done|]. rewrite each_same; [done|]. intros [[] l k]; [|done]. change (Item true (removing [] l) k = Item true l k). by rewrite removing_none.
Qed.

Lemma call_simulates p c : Forall proper p -> call_ok c -> simulates p c.
Proof.
  intros Hp Hc. unfold simulates. destruct c as [v this|v this|[v|v] [[]|] this|n this]; cbn [perform names_call fst snd].
  - by apply addClass_simulates.
  - destruct v as [v|]; [by apply (removeClass_simulates (Some v) this p)|by apply (removeClass_simulates None this p)].
  - by apply addClass_simulates.
  - by apply (removeClass_simulates (Some v)).
  - apply each_simulates; [apply toggle_names_read|done].
  - apply each_simulates; [apply toggle_whole_read|done].
  - apply each_simulates; [apply toggle_whole_read|done].
  - apply each_simulates; [apply toggle_whole_read|done].
  - split; [done|].
    assert (existsb (fun k => match (read <$> p) !! k with Some i => bool_decide (n ∈ i_classes i) | None => false end) this = hasClass n this p) as ->; [|done].
    unfold hasClass. cbn in Hc. induction this as [|k this IH]; [done|]. cbn [existsb]. rewrite IH. f_equal.
    rewrite list_lookup_fmap. destruct (p !! k) as [e|] eqn:Ek; cbn; [|done]. symmetry. apply has_class_read; [exact Hc|].
    rewrite Forall_forall in Hp. apply Hp. by eapply list_elem_of_lookup_2.
Qed.

(** C11: the classes of elements.  Any calls of addClass, removeClass, toggleClass and hasClass on a page do with the texts of [className]
    what they do with the lists of names that HTML reads in them: names are added at the end once, taken out wherever they are, kept in
    order, put aside and brought back whole, and [hasClass] finds them. *)
Theorem classes_refine calls p : Forall proper p -> Forall call_ok calls ->
  Forall proper (session p calls).1 /\ names_session (read <$> p) calls = (read <$> (session p calls).1, (session p calls).2).
Proof.
  intros Hp H. revert p Hp. induction H as [|c calls Hc _ IH]; intros p Hp; cbn [session names_session]; [done|].
  destruct (call_simulates p c Hp Hc) as [Hp' ->]. destruct (perform p c) as [p1 a]. cbn [fst snd] in *.
  destruct (IH p1 Hp') as [Hp2 ->]. by destruct (session p1 calls) as [p2 b].
Qed.

(** Two elements, one with classes between spaces and a line feed, and a text node. *)
Definition some_page : page :=
  [Element 1 (txt " nav" ++ ascii_of_nat 10 :: txt "open  nav ") None; Element 1 [] None; Element 3 [] None]%list.
Definition some_calls : list call :=
  [Add (txt "open big") [0; 1; 2]; Remove (Some (txt "nav")) [0]; Toggle (Names (txt "big wide")) None [0; 1]; Has (txt "big") [0];
   Has (txt "wide") [2; 1]; Toggle (Whole None) None [0]; Has (txt "open") [0]; Toggle (Whole None) None [0]; Remove None [1]]%string.

Lemma classes_refine_witness :
  (session some_page some_calls).1 = [Element 1 (txt "open wide") (Some (txt "open wide")); Element 1 [] None; Element 3 [] None] /\
  (session some_page some_calls).2 = [false; true; false] /\
  Forall proper (session some_page some_calls).1 /\
  names_session (read <$> some_page) some_calls = (read <$> (session some_page some_calls).1, (session some_page some_calls).2).
Proof.
  split; [vm_compute; reflexivity|]. split; [vm_compute; reflexivity|]. apply classes_refine.
  - repeat constructor; try done; cbn; try (intros _; split; [|done]); repeat (constructor || reflexivity).
  - repeat constructor; done.
Defined.

(** A class with a space that does not break in front is one class in HTML, and another after a class is added. *)
Lemma trim_changes_class : let e := Element 1 (ascii_of_nat 160 :: txt "a") None in
  i_classes (read e) = [ascii_of_nat 160 :: txt "a"] /\ i_classes (read (add_to (match_words (txt "b")) e)) = [txt "a"; txt "b"] /\
  has_class (txt "a") e = false.
Proof. by vm_compute. Qed.
